(** * kgpy / img / dspk : histogram, cumulative distribution and threshold kernels

    A shallow embedding of [distribution.cpp] and [threshold.cpp].

    - C++ [float] is IEEE 754 binary32 and [double] is binary64, both with
      round-to-nearest-even, taken from the Standard Library's executable
      specification [SpecFloat] (precision 24 / 53, [emax] 128 / 1024).
    - C++ [int] values are integers of [Z]; a conversion from a floating
      point value that does not fit 32 bits is undefined behaviour and is
      modelled as [None].
    - Arrays are lists indexed by [Z]; a read or write outside the array is
      undefined behaviour and is modelled as [None].
    - [for] loops run sequentially, in the order the source writes them. *)

From Stdlib Require Import ZArith Lia Bool.
From Stdlib Require Import SpecFloat.
From stdpp Require Import list.

Local Open Scope Z_scope.

(** ** Floating point *)

Definition float := spec_float.
Definition double := spec_float.

(** Value of a finite number rounded toward minus infinity / toward zero. *)
Definition SFfloor (f : spec_float) : option Z :=
  match f with
  | S754_zero _ => Some 0
  | S754_finite s m e =>
      let v := if s then Z.neg m else Z.pos m in
      Some (match e with
            | Z.neg p => v / Z.pow_pos 2 p
            | _ => v * 2 ^ e
            end)
  | _ => None
  end.

Definition SFtrunc (f : spec_float) : option Z :=
  match f with
  | S754_zero _ => Some 0
  | S754_finite s m e =>
      let v := if s then Z.neg m else Z.pos m in
      Some (match e with
            | Z.neg p => Z.quot v (Z.pow_pos 2 p)
            | _ => v * 2 ^ e
            end)
  | _ => None
  end.

Definition SFceil (f : spec_float) : option Z :=
  match f with
  | S754_zero _ => Some 0
  | S754_finite s m e =>
      let v := if s then Z.neg m else Z.pos m in
      Some (match e with
            | Z.neg p => - ((- v) / Z.pow_pos 2 p)
            | _ => v * 2 ^ e
            end)
  | _ => None
  end.

(** The integer a number is, when it is one. *)
Definition SFinteger (f : spec_float) : option Z :=
  match SFfloor f, SFceil f with
  | Some a, Some b => if a =? b then Some a else None
  | _, _ => None
  end.

Definition SFis_nan (f : spec_float) : bool :=
  match f with S754_nan => true | _ => false end.

Definition SFis_finite (f : spec_float) : bool :=
  match f with S754_zero _ | S754_finite _ _ _ => true | _ => false end.

Definition SFsign (f : spec_float) : bool :=
  match f with
  | S754_zero s | S754_infinity s | S754_finite s _ _ => s
  | S754_nan => false
  end.

(** Range of a 32-bit [int]. *)
Definition int_range (i : Z) : option Z :=
  if (- 2 ^ 31 <=? i) && (i <? 2 ^ 31) then Some i else None.

Module F32.
Definition prec : Z := 24.
Definition emax : Z := 128.

Definition add : float -> float -> float := SFadd prec emax.
Definition sub : float -> float -> float := SFsub prec emax.
Definition mul : float -> float -> float := SFmul prec emax.
Definition div : float -> float -> float := SFdiv prec emax.

Definition ltb (a b : float) : bool := SFltb a b.
Definition leb (a b : float) : bool := SFleb a b.
Definition gtb (a b : float) : bool := SFltb b a.
Definition geb (a b : float) : bool := SFleb b a.
Definition eqb (a b : float) : bool := SFeqb a b.
Definition neb (a b : float) : bool := negb (SFeqb a b).

(** [(float) i] *)
Definition of_int (i : Z) : float := binary_normalize prec emax i 0 false.

Definition zero : float := S754_zero false.
Definition one : float := S754_finite false 8388608 (-23).

(** [(int) f]: truncation; undefined outside the range of [int]. *)
Definition to_int (f : float) : option Z := SFtrunc f ≫= int_range.

(** [floor(f)] converted to [int]. *)
Definition floor_int (f : float) : option Z := SFfloor f ≫= int_range.

(** [fmin] of C: a NaN argument is treated as missing. *)
Definition fmin (a b : float) : float :=
  if SFis_nan a then b
  else if SFis_nan b then a
  else if SFltb b a then b else a.

Definition valid (f : float) : bool := valid_binary prec emax f.
End F32.

Module F64.
Definition prec : Z := 53.
Definition emax : Z := 1024.

Definition add : double -> double -> double := SFadd prec emax.
Definition div : double -> double -> double := SFdiv prec emax.
Definition ltb (a b : double) : bool := SFltb a b.
Definition geb (a b : double) : bool := SFleb b a.

(** [(double) i] *)
Definition of_int (i : Z) : double := binary_normalize prec emax i 0 false.

(** [(double) f] for a [float] [f]: exact. *)
Definition of_float (f : float) : double :=
  match f with
  | S754_finite s m e => binary_round prec emax s m e
  | _ => f
  end.

(** [(float) d]: rounds to binary32. *)
Definition to_float (d : double) : float :=
  match d with
  | S754_finite s m e => binary_round F32.prec F32.emax s m e
  | _ => d
  end.

Definition fmin (a b : double) : double :=
  if SFis_nan a then b
  else if SFis_nan b then a
  else if SFltb b a then b else a.

Definition fmax (a b : double) : double :=
  if SFis_nan a then b
  else if SFis_nan b then a
  else if SFltb a b then b else a.

(** [M_PI] of <math.h>: the binary64 number nearest to pi,
    0x400921FB54442D18. *)
Definition M_PI : double := S754_finite false 7074237752028440 (-51).
Definition two : double := S754_finite false 4503599627370496 (-51).
Definition half : double := S754_finite false 4503599627370496 (-53).
End F64.

(** ** Arrays and loops *)

(** [a[i]] *)
Definition rd (a : list float) (i : Z) : option float :=
  if 0 <=? i then a !! Z.to_nat i else None.

(** [a[i] = v] *)
Definition wr (a : list float) (i : Z) (v : float) : option (list float) :=
  if (0 <=? i) && (i <? Z.of_nat (length a))
  then Some (<[Z.to_nat i := v]> a) else None.

(** [for (i = lo; i < lo + n; i++) body], threading the state [s]. *)
Fixpoint for_loop {S : Type} (n : nat) (i : Z)
    (body : Z -> S -> option S) (s : S) : option S :=
  match n with
  | O => Some s
  | Datatypes.S n' => s' ← body i s; for_loop n' (i + 1) body s'
  end.

Definition for_range {S : Type} (lo hi : Z)
    (body : Z -> S -> option S) (s : S) : option S :=
  for_loop (Z.to_nat (hi - lo)) lo body s.

(** The same over the elements of a list, in order. *)
Fixpoint fold_opt {A S : Type} (body : A -> S -> option S) (l : list A)
    (s : S) : option S :=
  match l with
  | [] => Some s
  | a :: l' => s' ← body a s; fold_opt body l' s'
  end.

(** ** The database [DB] (declared in util.h) *)

Record dim3 := Dim3 { dim_x : Z; dim_y : Z; dim_z : Z }.

Record DB := mkDB {
  data : list float;
  gmap : list float;
  hist : list float;
  cumd : list float;
  cnts : list float;
  ihst : list float;
  icmd : list float;
  t1 : list float;
  t9 : list float;
  dsz : dim3;
  hsz : dim3;
  tsz : dim3;
  dmax : float;
  dmin : float;
  i1 : float;
  i9 : float
}.

Definition set_hist (db : DB) (v : list float) : DB :=
  mkDB (data db) (gmap db) v (cumd db) (cnts db) (ihst db) (icmd db)
       (t1 db) (t9 db) (dsz db) (hsz db) (tsz db) (dmax db) (dmin db)
       (i1 db) (i9 db).

Definition set_cumd (db : DB) (v : list float) : DB :=
  mkDB (data db) (gmap db) (hist db) v (cnts db) (ihst db) (icmd db)
       (t1 db) (t9 db) (dsz db) (hsz db) (tsz db) (dmax db) (dmin db)
       (i1 db) (i9 db).

Definition set_cnts (db : DB) (v : list float) : DB :=
  mkDB (data db) (gmap db) (hist db) (cumd db) v (ihst db) (icmd db)
       (t1 db) (t9 db) (dsz db) (hsz db) (tsz db) (dmax db) (dmin db)
       (i1 db) (i9 db).

Definition set_ihst (db : DB) (v : list float) : DB :=
  mkDB (data db) (gmap db) (hist db) (cumd db) (cnts db) v (icmd db)
       (t1 db) (t9 db) (dsz db) (hsz db) (tsz db) (dmax db) (dmin db)
       (i1 db) (i9 db).

Definition set_icmd (db : DB) (v : list float) : DB :=
  mkDB (data db) (gmap db) (hist db) (cumd db) (cnts db) (ihst db) v
       (t1 db) (t9 db) (dsz db) (hsz db) (tsz db) (dmax db) (dmin db)
       (i1 db) (i9 db).

Definition set_t1 (db : DB) (v : list float) : DB :=
  mkDB (data db) (gmap db) (hist db) (cumd db) (cnts db) (ihst db) (icmd db)
       v (t9 db) (dsz db) (hsz db) (tsz db) (dmax db) (dmin db)
       (i1 db) (i9 db).

Definition set_t9 (db : DB) (v : list float) : DB :=
  mkDB (data db) (gmap db) (hist db) (cumd db) (cnts db) (ihst db) (icmd db)
       (t1 db) v (dsz db) (hsz db) (tsz db) (dmax db) (dmin db)
       (i1 db) (i9 db).

Definition set_i1_i9 (db : DB) (a b : float) : DB :=
  mkDB (data db) (gmap db) (hist db) (cumd db) (cnts db) (ihst db) (icmd db)
       (t1 db) (t9 db) (dsz db) (hsz db) (tsz db) (dmax db) (dmin db)
       a b.

(** ** distribution.cpp *)

(** [hist2data]: bin index to value. *)
Definition hist2data (hval : Z) (m_min m_max : float) (nbins : Z) : float :=
  let delta := F32.div (F32.sub m_max m_min)
                       (F32.sub (F32.of_int nbins) F32.one) in
  let val := F32.add (F32.mul (F32.of_int hval) delta) m_min in
  val.

(** [data2hist]: value to bin index. *)
Definition data2hist (dval m_min m_max : float) (nbins : Z) : option Z :=
  let delta := F32.div (F32.sub m_max m_min)
                       (F32.sub (F32.of_int nbins) F32.one) in
  F32.floor_int (F32.div (F32.sub dval m_min) delta).

Section Kernels.

(** [bad_pix], the mask value of util.h that excludes a pixel. *)
Variable bad_pix : float.

(** [tan] of <math.h> at a [float] argument, with a [float] result. *)
Variable tanf : float -> float.

(** Body of the pixel loop of [calc_histogram], at pixel [(x, y, z)]. *)
Definition pixel_update (db : DB) (lmed : list float) (axis : Z)
    (z y x : Z) (hist : list float) : option (list float) :=
  let dsz := dsz db in
  let hsz := hsz db in
  let dx := dim_x dsz in
  let dy := dim_y dsz in
  let sx := 1 in
  let sy := sx * dx in
  let sz := sy * dy in
  let hx := 1 in
  let hy := hx * dim_x hsz in
  let hz := hy * dim_y hsz in
  let L := (sz * z) + (sy * y) + (sx * x) in
  g ← rd (gmap db) L;
  if F32.eqb g bad_pix then Some hist
  else
    d ← rd (data db) L;
    m ← rd lmed L;
    X ← data2hist m (dmin db) (dmax db) (dim_x hsz);
    Y ← data2hist d (dmin db) (dmax db) (dim_y hsz);
    let H := hz * axis + hy * Y + hx * X in
    h ← rd hist H;
    wr hist H (F32.add h F32.one).

Definition calc_histogram (db : DB) (lmed : list float) (axis : Z)
    : option DB :=
  let dsz := dsz db in
  hist' ← for_range 0 (dim_z dsz) (fun z =>
            for_range 0 (dim_y dsz) (fun y =>
              for_range 0 (dim_x dsz) (fun x =>
                pixel_update db lmed axis z y x))) (hist db);
  Some (set_hist db hist').

(** The same accumulation with the pixels taken in an arbitrary order,
    as the [acc parallel loop] with its atomic update may do. *)
Definition accumulate (db : DB) (lmed : list float) (axis : Z)
    (order : list (Z * Z * Z)) (hist : list float) : option (list float) :=
  fold_opt (fun p => let '(z, y, x) := p in pixel_update db lmed axis z y x)
           order hist.

(** First inner loop of [calc_cumulative_distribution]: running sum of
    column [x]. *)
Definition cumsum_column (hsz : dim3) (axis x : Z) (hist : list float)
    (cumd : list float) : option (float * list float) :=
  let hx := 1 in
  let hy := hx * dim_x hsz in
  let hz := hy * dim_y hsz in
  for_range 0 (dim_y hsz) (fun y st =>
    let '(sum, cumd) := st in
    let H := hz * axis + hy * y + hx * x in
    h ← rd hist H;
    let sum := F32.add sum h in
    cumd ← wr cumd H sum;
    Some (sum, cumd)) (F32.zero, cumd).

(** Second inner loop: normalisation of column [x] by [sum]. *)
Definition normalize_column (hsz : dim3) (axis x : Z) (sum : float)
    (hist cumd : list float) : option (list float * list float) :=
  let hx := 1 in
  let hy := hx * dim_x hsz in
  let hz := hy * dim_y hsz in
  for_range 0 (dim_y hsz) (fun y st =>
    let '(hist, cumd) := st in
    let H := hz * axis + hy * y + hx * x in
    cumd ← (if F32.neb sum F32.zero
            then c ← rd cumd H; wr cumd H (F32.div c sum)
            else wr cumd H F32.zero);
    hist ← (if F32.neb sum F32.zero
            then h ← rd hist H; wr hist H (F32.div h sum)
            else wr hist H F32.zero);
    Some (hist, cumd)) (hist, cumd).

(** Body of the column loop of [calc_cumulative_distribution]. *)
Definition cumulative_column (hsz : dim3) (axis x : Z)
    (st : list float * list float * list float)
    : option (list float * list float * list float) :=
  let '(hist, cumd, cnts) := st in
  '(sum, cumd) ← cumsum_column hsz axis x hist cumd;
  let C := x + dim_x hsz * axis in
  cnts ← wr cnts C sum;
  '(hist, cumd) ← normalize_column hsz axis x sum hist cumd;
  Some (hist, cumd, cnts).

Definition calc_cumulative_distribution (db : DB) (axis : Z) : option DB :=
  let hsz := hsz db in
  '(hist, cumd, cnts) ←
    for_range 0 (dim_x hsz) (cumulative_column hsz axis)
      (hist db, cumd db, cnts db);
  Some (set_cnts (set_cumd (set_hist db hist) cumd) cnts).

Definition init_histogram (db : DB) : option DB :=
  let hsz := hsz db in
  let hx := 1 in
  let hy := hx * dim_x hsz in
  let hz := hy * dim_y hsz in
  '(hist, ihst) ←
    for_range 0 (dim_z hsz) (fun z =>
      for_range 0 (dim_y hsz) (fun y =>
        for_range 0 (dim_x hsz) (fun x st =>
          let '(hist, ihst) := st in
          let L := x * hx + y * hy + z * hz in
          hist ← wr hist L F32.zero;
          ihst ← (if y =? 0
                  then if z =? 0 then wr ihst L F32.zero else Some ihst
                  else Some ihst);
          Some (hist, ihst)))) (hist db, ihst db);
  Some (set_ihst (set_hist db hist) ihst).

Definition calc_intensity_histogram (db : DB) : option DB :=
  let dsz := dsz db in
  let hsz := hsz db in
  let dx := dim_x dsz in
  let dy := dim_y dsz in
  let sx := 1 in
  let sy := sx * dx in
  let sz := sy * dy in
  ihst' ←
    for_range 0 (dim_z dsz) (fun z =>
      for_range 0 (dim_y dsz) (fun y =>
        for_range 0 (dim_x dsz) (fun x ihst =>
          let L := (sz * z) + (sy * y) + (sx * x) in
          g ← rd (gmap db) L;
          if F32.eqb g bad_pix then Some ihst
          else
            d ← rd (data db) L;
            X ← data2hist d (dmin db) (dmax db) (dim_x hsz);
            h ← rd ihst X;
            wr ihst X (F32.add h F32.one)))) (ihst db);
  Some (set_ihst db ihst').

(** First loop of [calc_intensity_cumulative_distribution]. *)
Definition intensity_cumsum (hsz : dim3) (ihst icmd : list float)
    : option (float * list float) :=
  for_range 0 (dim_x hsz) (fun x st =>
    let '(sum, icmd) := st in
    h ← rd ihst x;
    let sum := F32.add sum h in
    icmd ← wr icmd x sum;
    Some (sum, icmd)) (F32.zero, icmd).

(** Second loop of [calc_intensity_cumulative_distribution]. *)
Definition intensity_normalize (hsz : dim3) (sum : float)
    (ihst icmd : list float) : option (list float * list float) :=
  for_range 0 (dim_x hsz) (fun x st =>
    let '(ihst, icmd) := st in
    icmd ← (if F32.neb sum F32.zero
            then c ← rd icmd x; wr icmd x (F32.div c sum)
            else wr icmd x F32.zero);
    ihst ← (if F32.neb sum F32.zero
            then h ← rd ihst x; wr ihst x (F32.div h sum)
            else wr ihst x F32.zero);
    Some (ihst, icmd)) (ihst, icmd).

Definition calc_intensity_cumulative_distribution (db : DB) : option DB :=
  let hsz := hsz db in
  '(sum, icmd) ← intensity_cumsum hsz (ihst db) (icmd db);
  '(ihst, icmd) ← intensity_normalize hsz sum (ihst db) icmd;
  Some (set_icmd (set_ihst db ihst) icmd).

(** ** threshold.cpp *)

Definition min_samples (thresh : float) : option Z :=
  let interval := F32.fmin (F32.sub F32.one thresh) thresh in
  let sigma := F32.of_int 15 in
  F32.to_int (F32.div sigma interval).

Definition calc_intercept (x0 y0 : Z) (m : float) : float :=
  F32.sub (F32.of_int y0) (F32.mul m (F32.of_int x0)).

Definition pts2slope (x0 y0 x1 y1 : Z) : float :=
  let dy := F32.of_int (y1 - y0) in
  let dx := F32.of_int (x1 - x0) in
  F32.div dy dx.

(** A [for (y = y0; y < y0 + n; y++) if (cumd[H] > thr) break;] scan of
    column [x]: the [y] at which the loop is left, and whether it was left
    by [break]. *)
Fixpoint scan_column (cumd : list float) (hsz : dim3) (axis x : Z)
    (thr : float) (n : nat) (y : Z) : option (Z * bool) :=
  match n with
  | O => Some (y, false)
  | S n' =>
      let hx := 1 in
      let hy := hx * dim_x hsz in
      let hz := hy * dim_y hsz in
      let H := hz * axis + hy * y + hx * x in
      c ← rd cumd H;
      if F32.gtb c thr then Some (y, true)
      else scan_column cumd hsz axis x thr n' (y + 1)
  end.

(** Body of the column loop of [calc_exact_thresh]. *)
Definition exact_thresh_column (cumd : list float) (hsz : dim3)
    (tmin tmax : float) (axis x : Z) (st : list float * list float)
    : option (list float * list float) :=
  let '(t1, t9) := st in
  let tx := 1 in
  let tz := tx * dim_x hsz in
  let T := tz * axis + tx * x in
  t1 ← wr t1 T (F32.of_int x);
  t9 ← wr t9 T (F32.of_int (x - 1));
  '(y, found) ← scan_column cumd hsz axis x tmin
                  (Z.to_nat (dim_y hsz)) 0;
  t9 ← (if found : bool then wr t9 T (F32.of_int (y - 1)) else Some t9);
  '(Y, found) ← scan_column cumd hsz axis x tmax
                  (Z.to_nat (dim_y hsz - y)) y;
  t1 ← (if found : bool then wr t1 T (F32.of_int Y) else Some t1);
  Some (t1, t9).

Definition calc_exact_thresh (db : DB) (tmin tmax : float) (axis : Z)
    : option DB :=
  let hsz := hsz db in
  '(t1, t9) ← for_range 0 (dim_x hsz)
                (exact_thresh_column (cumd db) hsz tmin tmax axis)
                (t1 db, t9 db);
  Some (set_t9 (set_t1 db t1) t9).

(** [fmax(fmin(v, hsz.y - 1), 0)], evaluated in [double] and stored to a
    [float]. *)
Definition clamp_bin (hsz : dim3) (v : float) : float :=
  F64.to_float
    (F64.fmax (F64.fmin (F64.of_float v) (F64.of_int (dim_y hsz - 1)))
              (F64.of_int 0)).

(** Body of the column loop of [apply_extrap_thresh]. *)
Definition extrap_column (cnts : list float) (hsz : dim3) (min_cnts : Z)
    (x0 : Z) (theta : float) (axis x : Z) (t : list float)
    : option (list float) :=
  let tx := 1 in
  let tz := tx * dim_x hsz in
  t0 ← rd t (tz * axis + tx * x0);
  y0 ← F32.to_int t0;
  let m := tanf theta in
  let b := calc_intercept x0 y0 m in
  let T := tz * axis + tx * x in
  c ← rd cnts T;
  if F32.ltb c (F32.of_int min_cnts) then
    t ← wr t T (F32.add (F32.mul m (F32.of_int x)) b);
    v ← rd t T;
    wr t T (clamp_bin hsz v)
  else Some t.

Definition apply_extrap_thresh (db : DB) (t : list float) (thresh : float)
    (x0 : Z) (theta : float) (axis : Z) : option (list float) :=
  let cnts := cnts db in
  let hsz := hsz db in
  min_cnts ← min_samples thresh;
  for_range 0 (dim_x hsz) (extrap_column cnts hsz min_cnts x0 theta axis) t.

(** Inner loop of [median_extrapolation] at angle [theta]: the pair
    [(lsum, usum)]. *)
Definition count_below_above (db : DB) (t : list float) (min_cnts : Z)
    (x0 axis : Z) (theta : float) : option (float * float) :=
  let cnts := cnts db in
  let hsz := hsz db in
  let tsz := tsz db in
  let tx := 1 in
  let tz := tx * dim_x tsz in
  for_range 0 (dim_x hsz) (fun x st =>
    let '(lsum, usum) := st in
    let T := tz * axis + tx * x in
    Y ← rd t T;
    t0 ← rd t (tz * axis + tx * x0);
    y0 ← F32.to_int t0;
    let m := tanf theta in
    let b := calc_intercept x0 y0 m in
    let y := F32.add (F32.mul m (F32.of_int x)) b in
    c ← rd cnts T;
    if F32.gtb c (F32.of_int min_cnts) then
      if F32.gtb Y y then Some (lsum, F32.add usum F32.one)
      else Some (F32.add lsum F32.one, usum)
    else Some (lsum, usum)) (F32.zero, F32.zero).

(** [ratio >= 0.50] for the sums of one angle. *)
Definition ratio_reached (lu : float * float) : bool :=
  let '(lsum, usum) := lu in
  let ratio := F32.div lsum (F32.add usum lsum) in
  F64.geb (F64.of_float ratio) F64.half.

(** [theta < M_PI/2] *)
Definition in_sweep (theta : float) : bool :=
  F64.ltb (F64.of_float theta) (F64.div F64.M_PI (F64.of_int 2)).

(** [theta += M_PI/(hsz.x + hsz.y)] *)
Definition next_theta (hsz : dim3) (theta : float) : float :=
  F64.to_float
    (F64.add (F64.of_float theta)
             (F64.div F64.M_PI (F64.of_int (dim_x hsz + dim_y hsz)))).

(** The [for (theta = ...)] loop of [median_extrapolation], entered at
    [theta]; [fuel] bounds the number of iterations, and [None] is also
    the outcome when it runs out. *)
Fixpoint median_sweep (fuel : nat) (db : DB) (t : list float)
    (min_cnts : Z) (x0 axis : Z) (theta : float) : option float :=
  match fuel with
  | O => None
  | S fuel' =>
      if in_sweep theta then
        lu ← count_below_above db t min_cnts x0 axis theta;
        if ratio_reached lu then Some theta
        else median_sweep fuel' db t min_cnts x0 axis
               (next_theta (hsz db) theta)
      else Some F32.zero
  end.

Definition median_extrapolation (fuel : nat) (db : DB) (t : list float)
    (thresh : float) (x0 axis : Z) : option float :=
  min_cnts ← min_samples thresh;
  median_sweep fuel db t min_cnts x0 axis F32.zero.

Definition calc_intensity_thresh (db : DB) (tmin tmax : float)
    : option DB :=
  let icmd := icmd db in
  let hsz := hsz db in
  '(i9, found) ←
    for_range 0 (dim_x hsz) (fun x st =>
      let '(i9, found) := st in
      c ← rd icmd x;
      if F32.gtb c tmin && negb found
      then Some (F32.of_int (x - 1), true)
      else Some (i9, found)) (F32.zero, false);
  '(i1, found) ←
    for_range 0 (dim_x hsz) (fun x st =>
      let '(i1, found) := st in
      c ← rd icmd x;
      if F32.gtb c tmax && negb found
      then Some (F32.of_int x, true)
      else Some (i1, found)) (F32.zero, false);
  Some (set_i1_i9 db i1 i9).

Definition calc_hist_center (db : DB) (axis : Z) : option Z :=
  let cnts := cnts db in
  let tsz := tsz db in
  let tx := 1 in
  let tz := tx * dim_x tsz in
  max_cnt ←
    for_range 0 (dim_x tsz) (fun X max_cnt =>
      let T := tz * axis + tx * X in
      c ← rd cnts T;
      if F32.gtb c max_cnt then Some c else Some max_cnt)
      (F32.of_int (-10));
  for_range 0 (dim_x tsz) (fun X max_ind =>
    let T := tz * axis + tx * X in
    c ← rd cnts T;
    if F32.eqb c max_cnt then Some X else Some max_ind) 0.

Definition calc_extrap_thresh (fuel : nat) (db : DB) (tmin tmax : float)
    (axis : Z) : option DB :=
  x0 ← calc_hist_center db axis;
  theta_min ← median_extrapolation fuel db (t9 db) tmin x0 axis;
  theta_max ← median_extrapolation fuel db (t1 db) tmax x0 axis;
  t9' ← apply_extrap_thresh db (t9 db) tmin x0 theta_min axis;
  t1' ← apply_extrap_thresh db (t1 db) tmax x0 theta_max axis;
  Some (set_t1 (set_t9 db t9') t1').

Definition calc_thresh (fuel : nat) (db : DB) (tmin tmax : float)
    (axis : Z) : option DB :=
  db ← calc_exact_thresh db tmin tmax axis;
  calc_extrap_thresh fuel db tmin tmax axis.

End Kernels.

(** ** Specification-side definitions *)

(** Linear index of histogram entry (value bin [y], statistic bin [x]) of
    slice [axis]. *)
Definition hidx (hsz : dim3) (axis x y : Z) : Z :=
  dim_x hsz * dim_y hsz * axis + dim_x hsz * y + x.

(** [col] lists column [x] of slice [axis] of the array [a], by value bin. *)
Definition is_column (a : list float) (hsz : dim3) (axis x : Z)
    (col : list float) : Prop :=
  Z.of_nat (length col) = dim_y hsz /\
  forall y, 0 <= y < dim_y hsz -> rd a (hidx hsz axis x y) = col !! Z.to_nat y.

(** Column [x] of slice [axis] of [a], read out. *)
Definition column_of (a : list float) (hsz : dim3) (axis x : Z) : list float :=
  (fun y => default F32.zero (rd a (hidx hsz axis x y))) <$> seqZ 0 (dim_y hsz).

(** What differs between two arrays lies in column [x]. *)
Definition same_outside (hsz : dim3) (axis x : Z) (a a' : list float) : Prop :=
  length a' = length a /\
  forall j, (forall y, 0 <= y < dim_y hsz -> j <> hidx hsz axis x y) ->
    rd a' j = rd a j.

(** First position, counted from [y], of an entry above [thr]. *)
Fixpoint first_above (thr : float) (col : list float) (y : Z) : option Z :=
  match col with
  | [] => None
  | c :: col' => if F32.gtb c thr then Some y else first_above thr col' (y + 1)
  end.

(** [t1[x]] as an independent scan of the whole column from [y = 0] sets
    it. *)
Definition full_scan_t1 (tmax : float) (col : list float) (x : Z) : float :=
  match first_above tmax col 0 with
  | Some y => F32.of_int y
  | None => F32.of_int x
  end.

(** [x] is the first index below [n] whose entry exceeds [thr]. *)
Definition first_crossing (a : list float) (thr : float) (n x : Z) : Prop :=
  0 <= x < n /\
  (exists c, rd a x = Some c /\ F32.gtb c thr = true) /\
  forall x' c, 0 <= x' < x -> rd a x' = Some c -> F32.gtb c thr = false.

Definition no_crossing (a : list float) (thr : float) (n : Z) : Prop :=
  forall x c, 0 <= x < n -> rd a x = Some c -> F32.gtb c thr = false.

(** Running sum of the first [k] entries, and of all of them, as the
    summation pass accumulates it (left to right, in binary32). *)
Definition prefix_sum (col : list float) (k : nat) : float :=
  foldl F32.add F32.zero (take k col).

Definition column_sum (col : list float) : float := foldl F32.add F32.zero col.

(** An entry after the normalisation pass. *)
Definition normalized (sum v : float) : float :=
  if F32.neb sum F32.zero then F32.div v sum else F32.zero.

(** What [calc_cumulative_distribution] leaves in column [x], whose
    histogram entries were [col]. *)
Definition column_result (hsz : dim3) (axis x : Z) (col : list float)
    (hist' cumd' cnts' : list float) : Prop :=
  rd cnts' (x + dim_x hsz * axis) = Some (column_sum col) /\
  forall y, 0 <= y < dim_y hsz ->
    rd hist' (hidx hsz axis x y) =
      normalized (column_sum col) <$> col !! Z.to_nat y /\
    rd cumd' (hidx hsz axis x y) =
      Some (normalized (column_sum col) (prefix_sum col (S (Z.to_nat y)))).

(** The pixels of a data volume, in the order of the loops of
    [calc_histogram]. *)
Definition pixels (dsz : dim3) : list (Z * Z * Z) :=
  concat (map (fun z =>
    concat (map (fun y =>
      map (fun x => (z, y, x)) (seqZ 0 (dim_x dsz)))
      (seqZ 0 (dim_y dsz))))
    (seqZ 0 (dim_z dsz))).

(** What [calc_histogram] makes of a pixel: [None] if reading it or mapping
    it to bins is undefined, [Some None] if the mask excludes it, and its
    statistic bin [X] and value bin [Y] otherwise. *)
Definition pixel_class (bad_pix : float) (db : DB) (lmed : list float)
    (p : Z * Z * Z) : option (option (Z * Z)) :=
  let '(z, y, x) := p in
  let L := dim_x (dsz db) * dim_y (dsz db) * z + dim_x (dsz db) * y + x in
  g ← rd (gmap db) L;
  if F32.eqb g bad_pix then Some None
  else
    d ← rd (data db) L;
    m ← rd lmed L;
    X ← data2hist m (dmin db) (dmax db) (dim_x (hsz db));
    Y ← data2hist d (dmin db) (dmax db) (dim_y (hsz db));
    Some (Some (X, Y)).

Definition in_bin (x y : Z) (c : option (option (Z * Z))) : bool :=
  match c with
  | Some (Some (X, Y)) => (X =? x) && (Y =? y)
  | _ => false
  end.

Definition in_stat_bin (x : Z) (c : option (option (Z * Z))) : bool :=
  match c with
  | Some (Some (X, _)) => X =? x
  | _ => false
  end.

(** Number of elements of a list at which [f] holds. *)
Fixpoint count_list {A : Type} (f : A -> bool) (l : list A) : Z :=
  match l with
  | [] => 0
  | a :: l' => (if f a then 1 else 0) + count_list f l'
  end.

(** Number of non-masked pixels of [order] in bin [(x, y)], and in
    statistic bin [x]. *)
Definition count_bin (bad_pix : float) (db : DB) (lmed : list float)
    (order : list (Z * Z * Z)) (x y : Z) : Z :=
  count_list (fun p => in_bin x y (pixel_class bad_pix db lmed p)) order.

Definition count_stat (bad_pix : float) (db : DB) (lmed : list float)
    (order : list (Z * Z * Z)) (x : Z) : Z :=
  count_list (fun p => in_stat_bin x (pixel_class bad_pix db lmed p)) order.

(** A binary32 counter incremented [c] times: it stays at [2^24]. *)
Definition saturated (c : Z) : float := F32.of_int (Z.min c (2 ^ 24)).

(** Every pixel of [order] is readable, and a non-masked one falls into a
    bin of the histogram. *)
Definition in_range (bad_pix : float) (db : DB) (lmed : list float) (order : list (Z * Z * Z))
    : Prop :=
  forall p, p ∈ order ->
    exists c, pixel_class bad_pix db lmed p = Some c /\
      forall X Y, c = Some (X, Y) ->
        0 <= X < dim_x (hsz db) /\ 0 <= Y < dim_y (hsz db).

(** Sum of a list of integers. *)
Definition zsum (l : list Z) : Z := foldr Z.add 0 l.

(** The column of saturated counts. *)
Definition count_column (bad_pix : float) (db : DB) (lmed : list float)
    (order : list (Z * Z * Z)) (x : Z) : list float :=
  map (fun y => saturated (count_bin bad_pix db lmed order x y))
      (seqZ 0 (dim_y (hsz db))).

(** The binary32 number nearest to [p / q], for integers below [2^24]: how
    a decimal literal such as [0.1f] is read. *)
Definition ratio32 (p q : Z) : float := F32.div (F32.of_int p) (F32.of_int q).

(** Ceiling of the exact quotient of two finite numbers. *)
Definition exact_ceil_div (a b : float) : option Z :=
  match a, b with
  | S754_finite sa ma ea, S754_finite sb mb eb =>
      let e0 := Z.min ea eb in
      let n := (if xorb sa sb then Z.neg ma else Z.pos ma) * 2 ^ (ea - e0) in
      let d := Z.pos mb * 2 ^ (eb - e0) in
      Some (- ((- n) / d))
  | _, _ => None
  end.

(** [interval] of [min_samples]. *)
Definition interval_of (thresh : float) : float :=
  F32.fmin (F32.sub F32.one thresh) thresh.

(** [min_samples a <= min_samples b], both defined. *)
Definition min_samples_le (a b : float) : Prop :=
  exists na nb, min_samples a = Some na /\ min_samples b = Some nb /\ na <= nb.

(** The line of slope [tanf theta] through [(x0, anchor)], at [x], as
    [apply_extrap_thresh] and [median_extrapolation] evaluate it. *)
Definition line_through (tanf : float -> float) (x0 : Z) (anchor : float)
    (theta : float) (x : Z) : float :=
  let m := tanf theta in
  F32.add (F32.mul m (F32.of_int x)) (F32.sub anchor (F32.mul m (F32.of_int x0))).

(** [fmax] on binary32 numbers, and a value clamped between 0 and [top]. *)
Definition float_fmax (a b : float) : float :=
  if SFis_nan a then b
  else if SFis_nan b then a
  else if SFltb a b then b else a.

Definition clamp_between (top v : float) : float :=
  float_fmax (F32.fmin v top) F32.zero.

(** [tan] at the arguments the concrete evaluations below need: [tan(+-0)]
    is [+-0], and [tan] of 1.0471976f, the binary32 number nearest to pi/3,
    is 1.7320509f. *)
Definition tan_ref (theta : float) : float :=
  match theta with
  | S754_zero _ => theta
  | S754_finite false 8784530 (-23) => S754_finite false 14529496 (-23)
  | _ => S754_nan
  end.

(** Number of indices [lo <= x < lo + n] at which [p] holds. *)
Fixpoint count_range (p : Z -> bool) (lo : Z) (n : nat) : Z :=
  match n with
  | O => 0
  | S n' => (if p lo then 1 else 0) + count_range p (lo + 1) n'
  end.

(** The angles the sweep of [median_extrapolation] visits from [theta] on,
    when there are fewer than [fuel] of them. *)
Fixpoint sweep_angles (fuel : nat) (hsz : dim3) (theta : float)
    : option (list float) :=
  match fuel with
  | O => None
  | S fuel' =>
      if in_sweep theta
      then cons theta <$> sweep_angles fuel' hsz (next_theta hsz theta)
      else Some []
  end.

(** First angle of a list at which [reached] holds, 0 when there is
    none. *)
Fixpoint first_angle (reached : float -> bool) (thetas : list float) : float :=
  match thetas with
  | [] => F32.zero
  | theta :: rest => if reached theta then theta else first_angle reached rest
  end.

(** Column [x] is statistically significant. *)
Definition significant (db : DB) (mc axis x : Z) : bool :=
  match rd (cnts db) (dim_x (tsz db) * axis + x) with
  | Some c => F32.gtb c (F32.of_int mc)
  | None => false
  end.

(** The threshold of column [x] lies above the line through
    [(x0, anchor)]. *)
Definition above_line (tanf : float -> float) (db : DB) (t : list float)
    (x0 : Z) (anchor : float) (axis : Z) (theta : float) (x : Z) : bool :=
  match rd t (dim_x (tsz db) * axis + x) with
  | Some Y => F32.gtb Y (line_through tanf x0 anchor theta x)
  | None => false
  end.

(** There are significant columns, and at least half of them are not above
    the line through [(x0, anchor)]. *)
Definition share_reached (tanf : float -> float) (db : DB) (t : list float)
    (mc x0 : Z) (anchor : float) (axis : Z) (theta : float) : bool :=
  let n := Z.to_nat (dim_x (hsz db)) in
  let below := count_range (fun x => significant db mc axis x &&
                  negb (above_line tanf db t x0 anchor axis theta x)) 0 n in
  let above := count_range (fun x => significant db mc axis x &&
                  above_line tanf db t x0 anchor axis theta x) 0 n in
  (0 <? below + above) && (below + above <=? 2 * below).

(** Inputs of the concrete evaluations. *)
Definition db_extrap : DB :=
  mkDB [] [] [] [] [F32.of_int 100; F32.zero] [] []
       [] [] (Dim3 0 0 0) (Dim3 2 10 1) (Dim3 2 1 1) F32.one F32.zero
       F32.zero F32.zero.

Definition t_extrap : list float := [ratio32 5 2; F32.zero].

Definition db_median : DB :=
  mkDB [] [] [] [] [F32.of_int 100; F32.of_int 100] [] []
       [] [] (Dim3 0 0 0) (Dim3 2 1 1) (Dim3 2 1 1) F32.one F32.zero
       F32.zero F32.zero.

Definition t_median : list float := [ratio32 1 2; ratio32 1 5].

Definition theta_pi3 : float := S754_finite false 8784530 (-23).

Definition db_two_bins : DB :=
  mkDB [] [] [] [ratio32 1 2; F32.one] [] [] [] [F32.zero] [F32.zero]
       (Dim3 0 0 0) (Dim3 1 2 1) (Dim3 1 1 1) F32.one F32.zero
       F32.zero F32.zero.

Definition db_intensity : DB :=
  mkDB [] [] [] [] [] [] [ratio32 1 2; F32.one] [] []
       (Dim3 0 0 0) (Dim3 2 1 1) (Dim3 2 1 1) F32.one F32.zero
       F32.zero F32.zero.

Definition db_empty_column : DB :=
  mkDB [] [] [F32.zero; F32.zero] [F32.one; F32.one] [F32.one]
       [F32.zero] [F32.one] [] []
       (Dim3 0 0 0) (Dim3 1 2 1) (Dim3 1 1 1) F32.one F32.zero
       F32.zero F32.zero.

(** A volume of [n] equal pixels, none masked by the mask value [0], all
    of the bin (0, 0) of a histogram of two by two bins. *)
Definition db_flat (n : Z) : DB :=
  mkDB (replicate (Z.to_nat n) F32.zero) (replicate (Z.to_nat n) F32.one)
       [F32.one; F32.one; F32.one; F32.one]
       [F32.zero; F32.zero; F32.zero; F32.zero]
       [F32.zero; F32.zero] [F32.one; F32.one] [F32.zero; F32.zero] [] []
       (Dim3 n 1 1) (Dim3 2 2 1) (Dim3 2 1 1) F32.one F32.zero
       F32.zero F32.zero.

Definition lmed_flat (n : Z) : list float := replicate (Z.to_nat n) F32.zero.

(** A histogram entry that is not negative: a number of the format that
    compares as at least zero. *)
Definition nonneg (f : float) : Prop :=
  F32.valid f = true /\ SFleb F32.zero f = true.

(** What a running sum of such entries can be: zero, a positive number of
    the format, or infinity. *)
Definition partial_sum_ok (c : float) : Prop :=
  match c with
  | S754_zero false | S754_infinity false => True
  | S754_finite false _ _ => F32.valid c = true
  | _ => False
  end.

(** A column of counts 1 and 3. *)
Definition db_counts : DB :=
  mkDB [] [] [F32.one; F32.of_int 3] [F32.zero; F32.zero] [F32.zero]
       [] [] [] []
       (Dim3 0 0 0) (Dim3 1 2 1) (Dim3 1 1 1) F32.one F32.zero
       F32.zero F32.zero.


(** ** Further descriptions of results *)

(** The lower threshold of a column: one less than the first value bin
    above [tmin], or [x - 1] when there is none. *)
Definition lower_bin (tmin : float) (col : list float) (x : Z) : Z :=
  match first_above tmin col 0 with
  | Some y => y - 1
  | None => x - 1
  end.

(** The upper threshold: the first value bin above [tmax] at or after the
    bin the lower scan stopped at, or [x] when there is none. *)
Definition upper_bin (tmin tmax : float) (col : list float) (x : Z) : Z :=
  match first_above tmin col 0 with
  | Some y =>
      match first_above tmax (drop (Z.to_nat y) col) y with
      | Some Y => Y
      | None => x
      end
  | None => x
  end.

(** Counts 3, 7, 7, 1 in four columns. *)
Definition db_center : DB :=
  mkDB [] [] [] [] [F32.of_int 3; F32.of_int 7; F32.of_int 7; F32.of_int 1]
       [] [] [] []
       (Dim3 0 0 0) (Dim3 4 1 1) (Dim3 4 1 1) F32.one F32.zero
       F32.zero F32.zero.

(** A one-dimensional histogram of counts 1 and 3. *)
Definition db_icounts : DB :=
  mkDB [] [] [] [] [] [F32.one; F32.of_int 3] [F32.zero; F32.zero] [] []
       (Dim3 0 0 0) (Dim3 2 1 1) (Dim3 2 1 1) F32.one F32.zero
       F32.zero F32.zero.

(** The binary32 numbers [0.5], [2^-24] and [2^-27]. *)
Definition half32 : float := S754_finite false 8388608 (-24).
Definition pow2_m24 : float := S754_finite false 8388608 (-47).
Definition pow2_m27 : float := S754_finite false 8388608 (-50).

(** What [calc_intensity_histogram] makes of a pixel: [None] if reading it
    or mapping it to a bin is undefined, [Some None] if the mask excludes
    it, and its value bin [X] otherwise. *)
Definition intensity_class (bad_pix : float) (db : DB) (p : Z * Z * Z)
    : option (option Z) :=
  let '(z, y, x) := p in
  let L := dim_x (dsz db) * dim_y (dsz db) * z + dim_x (dsz db) * y + x in
  g ← rd (gmap db) L;
  if F32.eqb g bad_pix then Some None
  else
    d ← rd (data db) L;
    X ← data2hist d (dmin db) (dmax db) (dim_x (hsz db));
    Some (Some X).

(** Whether the pixel is counted in value bin [x]. *)
Definition in_intensity_bin (x : Z) (c : option (option Z)) : bool :=
  match c with
  | Some (Some X) => X =? x
  | _ => false
  end.

(** Number of non-masked pixels of [order] in value bin [x]. *)
Definition count_intensity (bad_pix : float) (db : DB)
    (order : list (Z * Z * Z)) (x : Z) : Z :=
  count_list (fun p => in_intensity_bin x (intensity_class bad_pix db p)) order.

(** Every pixel of [order] is readable, and a non-masked one falls into a
    bin of the one-dimensional histogram. *)
Definition intensity_in_range (bad_pix : float) (db : DB)
    (order : list (Z * Z * Z)) : Prop :=
  forall p, In p order ->
    exists c, intensity_class bad_pix db p = Some c /\
      forall X, c = Some X -> 0 <= X < dim_x (hsz db).

(** Body of the pixel loop of [calc_intensity_histogram], by the class of
    the pixel. *)
Definition intensity_update (bad_pix : float) (db : DB) (p : Z * Z * Z)
    (ihst : list float) : option (list float) :=
  c ← intensity_class bad_pix db p;
  match c with
  | None => Some ihst
  | Some X => h ← rd ihst X; wr ihst X (F32.add h F32.one)
  end.

(** A volume of two masked pixels on a range of one value. *)
Definition db_constant : DB :=
  mkDB [F32.zero; F32.zero] [F32.one; F32.one]
       [F32.zero] [F32.zero] [F32.zero] [F32.zero] [F32.zero] [] []
       (Dim3 2 1 1) (Dim3 1 1 1) (Dim3 1 1 1) F32.one F32.one
       F32.zero F32.zero.

(** The bin width [delta] that [hist2data] and [data2hist] compute. *)
Definition bin_width (m_min m_max : float) (nbins : Z) : float :=
  F32.div (F32.sub m_max m_min) (F32.sub (F32.of_int nbins) F32.one).

(** The binary32 number 2. *)
Definition two32 : float := S754_finite false 8388608 (-22).

(** [2^-23] in binary64. *)
Definition step_min : double := S754_finite false 4503599627370496 (-75).

(** The position of a non-negative binary32 number in their order. *)
Definition angle_rank (theta : float) : Z :=
  match theta with
  | S754_finite false m e => (e + 150) * 2 ^ 24 + Z.pos m
  | S754_infinity false => 2 ^ 40
  | _ => 0
  end.

(** Iterations that are enough for the sweep to end. *)
Definition sweep_fuel : nat := Z.to_nat (2 ^ 32).

(** One column of two value bins with 100 samples. *)
Definition db_thresh : DB :=
  mkDB [] [] [] [ratio32 1 2; F32.one] [F32.of_int 100] [] []
       [F32.zero] [F32.zero]
       (Dim3 0 0 0) (Dim3 1 2 1) (Dim3 1 1 1) F32.one F32.zero
       F32.zero F32.zero.

Definition db_low_counts : DB :=
  mkDB [] [] [] [] [F32.of_int 5; F32.of_int 3] [] []
       [] [] (Dim3 0 0 0) (Dim3 2 10 1) (Dim3 2 1 1) F32.one F32.zero
       F32.zero F32.zero.

Definition t_low_counts : list float := [F32.of_int (-1); F32.of_int 7].

(** The [k]-th angle of the sweep of [median_extrapolation]: [theta] after
    [k] steps [theta += M_PI/(hsz.x + hsz.y)] from 0. *)
Definition sweep_angle (hsz : dim3) (k : nat) : float :=
  Nat.iter k (next_theta hsz) F32.zero.






(** [tan] at the two angles of a sweep in steps of pi/4: [tan(+-0)] is
    [+-0], and [tan] of 0.7853982f, the binary32 number nearest to pi/4, is
    1.0f. *)
Definition tan_quarter (theta : float) : float :=
  match theta with
  | S754_zero _ => theta
  | S754_finite false 13176795 (-24) => F32.one
  | _ => S754_nan
  end.

(** Three significant columns, the first with the largest count, and a row
    of bin indices. *)
Definition db_sweep : DB :=
  mkDB [] [] [] [] [F32.of_int 200; F32.of_int 100; F32.of_int 100] [] []
       [] [] (Dim3 0 0 0) (Dim3 3 1 1) (Dim3 3 1 1) F32.one F32.zero
       F32.zero F32.zero.

Definition t_sweep : list float := [F32.of_int 0; F32.of_int 1; F32.of_int 1].

(** The value of a finite binary32 number in units of [2^-149], the
    distance between the smallest numbers of the format: an integer. *)
Definition F32_units (f : float) : Z :=
  match f with
  | S754_finite s m e => (if s then Z.neg m else Z.pos m) * 2 ^ (e + 149)
  | _ => 0
  end.

(** [u] units of [2^-149] are a finite binary32 number: the number is in
    the format, no rounding is needed to store it. *)
Definition binary32_number (u : Z) : Prop :=
  exists f, F32.valid f = true /\ SFis_finite f = true /\ F32_units f = u.

(** The edge of bin [i] is computed without rounding: with [delta] the bin
    width as [hist2data] computes it, the product [i * delta] and the sum
    [i * delta + m_min] are numbers of the format. *)
Definition exact_edge (i : Z) (m_min m_max : float) (nbins : Z) : Prop :=
  binary32_number (i * F32_units (bin_width m_min m_max nbins)) /\
  binary32_number (i * F32_units (bin_width m_min m_max nbins) + F32_units m_min).
(** ** Loops and arrays: proof rules *)

Section LoopRules.
Context {S : Type}.
Implicit Types (body : Z -> S -> option S) (s : S).

(** Invariant rule: the loop returns, and the invariant holds after it. *)
Lemma for_loop_inv (P : Z -> S -> Prop) body n lo s :
  P lo s ->
  (forall i s, lo <= i < lo + Z.of_nat n -> P i s ->
     exists s', body i s = Some s' /\ P (i + 1) s') ->
  exists s', for_loop n lo body s = Some s' /\ P (lo + Z.of_nat n) s'.
Proof.
  revert lo s. induction n as [|n IH]; intros lo s H0 Hstep.
  - exists s. split; [reflexivity|]. now replace (lo + Z.of_nat 0) with lo by lia.
  - destruct (Hstep lo s ltac:(lia) H0) as (s1 & Hb & H1).
    destruct (IH (lo + 1) s1 H1) as (s2 & Hl & H2).
    + intros i s' Hi. apply Hstep. lia.
    + exists s2. split.
      * simpl. rewrite Hb. exact Hl.
      * now replace (lo + Z.of_nat (Datatypes.S n)) with (lo + 1 + Z.of_nat n) by lia.
Qed.

Lemma for_range_inv (P : Z -> S -> Prop) body lo hi s :
  lo <= hi ->
  P lo s ->
  (forall i s, lo <= i < hi -> P i s ->
     exists s', body i s = Some s' /\ P (i + 1) s') ->
  exists s', for_range lo hi body s = Some s' /\ P hi s'.
Proof.
  intros Hle H0 Hstep. unfold for_range.
  destruct (for_loop_inv P body (Z.to_nat (hi - lo)) lo s H0) as (s' & Hl & Hp).
  - intros i s1 Hi. apply Hstep. lia.
  - exists s'. split; [exact Hl|].
    now replace (lo + Z.of_nat (Z.to_nat (hi - lo))) with hi in Hp by lia.
Qed.

(** The loop depends on its body only at the indices it visits. *)
Lemma for_loop_ext body1 body2 n lo s :
  (forall i s, lo <= i < lo + Z.of_nat n -> body1 i s = body2 i s) ->
  for_loop n lo body1 s = for_loop n lo body2 s.
Proof.
  revert lo s. induction n as [|n IH]; intros lo s He; [reflexivity|].
  simpl. rewrite He by lia. destruct (body2 lo s) as [s1|]; [|reflexivity].
  simpl. apply IH. intros i s' Hi. apply He. lia.
Qed.

Lemma for_loop_S body n lo s :
  for_loop (Datatypes.S n) lo body s =
  body lo s ≫= for_loop n (lo + 1) body.
Proof. reflexivity. Qed.

Lemma for_loop_snoc body n lo s :
  for_loop (Datatypes.S n) lo body s =
  for_loop n lo body s ≫= body (lo + Z.of_nat n).
Proof.
  revert lo s. induction n as [|n IH]; intros lo s.
  - change (Z.of_nat 0) with 0. rewrite Z.add_0_r. simpl.
    destruct (body lo s); reflexivity.
  - rewrite (for_loop_S body (Datatypes.S n)), (for_loop_S body n).
    destruct (body lo s) as [s1|]; [|reflexivity].
    change (for_loop (Datatypes.S n) (lo + 1) body s1 =
            for_loop n (lo + 1) body s1 ≫= body (lo + Z.of_nat (Datatypes.S n))).
    rewrite IH.
    now replace (lo + 1 + Z.of_nat n) with (lo + Z.of_nat (Datatypes.S n)) by lia.
Qed.
End LoopRules.

Section ArrayRules.
Implicit Types (a : list float) (i j : Z) (v : float).

Lemma rd_Some a i :
  0 <= i < Z.of_nat (length a) -> exists v, rd a i = Some v.
Proof.
  intros Hi. unfold rd. destruct (Z.leb_spec 0 i); [|lia].
  destruct (lookup_lt_is_Some_2 a (Z.to_nat i)) as [v Hv]; [lia|eauto].
Qed.

Lemma rd_bound a i v : rd a i = Some v -> 0 <= i < Z.of_nat (length a).
Proof.
  unfold rd. destruct (Z.leb_spec 0 i); [|discriminate].
  intros Hv. apply lookup_lt_Some in Hv. lia.
Qed.

Lemma wr_Some a i v :
  0 <= i < Z.of_nat (length a) -> wr a i v = Some (<[Z.to_nat i := v]> a).
Proof.
  intros Hi. unfold wr.
  destruct (Z.leb_spec 0 i); [|lia].
  destruct (Z.ltb_spec i (Z.of_nat (length a))); [reflexivity|lia].
Qed.

Lemma wr_inv a i v a' :
  wr a i v = Some a' ->
  0 <= i < Z.of_nat (length a) /\ a' = <[Z.to_nat i := v]> a.
Proof.
  unfold wr. destruct (Z.leb_spec 0 i); [|discriminate].
  destruct (Z.ltb_spec i (Z.of_nat (length a))); [|discriminate].
  simpl. intros [= <-]. split; [lia|reflexivity].
Qed.

Lemma wr_length a i v a' : wr a i v = Some a' -> length a' = length a.
Proof. intros H. apply wr_inv in H as [_ ->]. apply length_insert. Qed.

Lemma rd_wr_eq a i v a' : wr a i v = Some a' -> rd a' i = Some v.
Proof.
  intros H. apply wr_inv in H as [Hi ->]. unfold rd.
  destruct (Z.leb_spec 0 i); [|lia].
  apply list_lookup_insert_eq. lia.
Qed.

Lemma rd_wr_ne a i j v a' : wr a i v = Some a' -> i <> j -> rd a' j = rd a j.
Proof.
  intros H Hne. apply wr_inv in H as [Hi ->]. unfold rd.
  destruct (Z.leb_spec 0 j); [|reflexivity].
  apply list_lookup_insert_ne. lia.
Qed.
End ArrayRules.

Lemma rd_insert_eq (a : list float) i v :
  0 <= i < Z.of_nat (length a) -> rd (<[Z.to_nat i := v]> a) i = Some v.
Proof. intros Hi. apply (rd_wr_eq a). apply wr_Some. exact Hi. Qed.

Lemma rd_insert_ne (a : list float) i j v :
  0 <= i -> i <> j -> rd (<[Z.to_nat i := v]> a) j = rd a j.
Proof.
  intros Hi Hne. unfold rd. destruct (Z.leb_spec 0 j); [|reflexivity].
  apply list_lookup_insert_ne. lia.
Qed.


Lemma hidx_inj hsz axis x y x' y' :
  0 <= x < dim_x hsz -> 0 <= x' < dim_x hsz ->
  hidx hsz axis x y = hidx hsz axis x' y' -> x = x' /\ y = y'.
Proof. unfold hidx. intros Hx Hx' H. assert (y = y') by nia. subst. lia. Qed.

Lemma hidx_bound hsz axis x y :
  0 <= axis -> 0 <= x < dim_x hsz -> 0 <= y < dim_y hsz ->
  0 <= hidx hsz axis x y < dim_x hsz * dim_y hsz * (axis + 1).
Proof.
  unfold hidx. intros Ha Hx Hy.
  assert (dim_x hsz * (y + 1) <= dim_x hsz * dim_y hsz) by (apply Z.mul_le_mono_nonneg_l; lia).
  assert (0 <= dim_x hsz * y) by (apply Z.mul_nonneg_nonneg; lia).
  assert (0 <= dim_x hsz * dim_y hsz * axis) by (apply Z.mul_nonneg_nonneg; lia).
  lia.
Qed.

Lemma is_column_column_of a hsz axis x :
  0 <= axis -> 0 <= x < dim_x hsz -> 0 <= dim_y hsz ->
  dim_x hsz * dim_y hsz * (axis + 1) <= Z.of_nat (length a) ->
  is_column a hsz axis x (column_of a hsz axis x).
Proof.
  intros Ha Hx Hy0 Hs. unfold column_of. split.
  - rewrite length_fmap, length_seqZ. lia.
  - intros y Hy. rewrite list_lookup_fmap, lookup_seqZ_lt by lia. simpl.
    replace (0 + Z.of_nat (Z.to_nat y)) with y by lia.
    pose proof (hidx_bound hsz axis x y Ha Hx Hy).
    destruct (rd_Some a (hidx hsz axis x y)) as [v ->]; [lia|reflexivity].
Qed.

(** ** The order of floating point numbers *)

Ltac cmp_cases :=
  repeat match goal with
  | H : context [Z.compare ?a ?b] |- _ => destruct (Z.compare_spec a b)
  | |- context [Z.compare ?a ?b] => destruct (Z.compare_spec a b)
  | H : context [Pos.compare_cont Eq ?a ?b] |- _ =>
      change (Pos.compare_cont Eq a b) with (Pos.compare a b) in *;
      destruct (Pos.compare_spec a b)
  | |- context [Pos.compare_cont Eq ?a ?b] =>
      change (Pos.compare_cont Eq a b) with (Pos.compare a b) in *;
      destruct (Pos.compare_spec a b)
  end.

Lemma SFleb_ltb_trans a b c :
  SFleb a b = true -> SFltb b c = true -> SFltb a c = true.
Proof.
  unfold SFleb, SFltb.
  destruct a as [sa|sa| |sa ma ea], b as [sb|sb| |sb mb eb], c as [sc|sc| |sc mc ec];
    try destruct sa; try destruct sb; try destruct sc; simpl;
    try discriminate; try reflexivity; intros H1 H2;
    cmp_cases; simpl in *; try discriminate; try reflexivity; try lia.
Qed.

Lemma SFltb_leb_trans a b c :
  SFltb a b = true -> SFleb b c = true -> SFltb a c = true.
Proof.
  unfold SFleb, SFltb.
  destruct a as [sa|sa| |sa ma ea], b as [sb|sb| |sb mb eb], c as [sc|sc| |sc mc ec];
    try destruct sa; try destruct sb; try destruct sc; simpl;
    try discriminate; try reflexivity; intros H1 H2;
    cmp_cases; simpl in *; try discriminate; try reflexivity; try lia.
Qed.
Lemma SFleb_trans a b c :
  SFleb a b = true -> SFleb b c = true -> SFleb a c = true.
Proof.
  unfold SFleb, SFltb.
  destruct a as [sa|sa| |sa ma ea], b as [sb|sb| |sb mb eb], c as [sc|sc| |sc mc ec];
    try destruct sa; try destruct sb; try destruct sc; simpl;
    try discriminate; try reflexivity; intros H1 H2;
    cmp_cases; simpl in *; try discriminate; try reflexivity; try lia.
Qed.
(** ** Numbers a format holds exactly *)

Lemma digits2_pos_bounds (m : positive) :
  2 ^ (Z.pos (digits2_pos m) - 1) <= Z.pos m < 2 ^ Z.pos (digits2_pos m).
Proof.
  induction m as [m IH|m IH|]; simpl digits2_pos.
  - rewrite Pos2Z.inj_succ, (Pos2Z.inj_xI m).
    replace (Z.succ (Z.pos (digits2_pos m)) - 1) with (Z.succ (Z.pos (digits2_pos m) - 1)) by lia.
    rewrite !Z.pow_succ_r by lia. lia.
  - rewrite Pos2Z.inj_succ, (Pos2Z.inj_xO m).
    replace (Z.succ (Z.pos (digits2_pos m)) - 1) with (Z.succ (Z.pos (digits2_pos m) - 1)) by lia.
    rewrite !Z.pow_succ_r by lia. lia.
  - simpl. lia.
Qed.

Lemma digits2_pos_unique (m : positive) (d : Z) :
  2 ^ (d - 1) <= Z.pos m < 2 ^ d -> Z.pos (digits2_pos m) = d.
Proof.
  intros [Hlo Hhi]. pose proof (digits2_pos_bounds m) as [Hl Hh].
  destruct (Z.lt_trichotomy (Z.pos (digits2_pos m)) d) as [Hlt|[Heq|Hgt]];
    [exfalso|exact Heq|exfalso].
  - assert (2 ^ Z.pos (digits2_pos m) <= 2 ^ (d - 1)) by (apply Z.pow_le_mono_r; lia).
    lia.
  - assert (0 <= d \/ d < 0) as [Hd|Hd] by lia.
    + assert (2 ^ d <= 2 ^ (Z.pos (digits2_pos m) - 1)) by (apply Z.pow_le_mono_r; lia).
      lia.
    + rewrite (Z.pow_neg_r 2 d) in Hhi by lia. lia.
Qed.

Lemma digits2_pos_shift (m p : positive) (k : Z) :
  0 <= k -> Z.pos p = Z.pos m * 2 ^ k ->
  Z.pos (digits2_pos p) = Z.pos (digits2_pos m) + k.
Proof.
  intros Hk Hp. apply digits2_pos_unique. rewrite Hp.
  pose proof (digits2_pos_bounds m) as [Hl Hh].
  replace (Z.pos (digits2_pos m) + k - 1) with ((Z.pos (digits2_pos m) - 1) + k) by lia.
  rewrite !Z.pow_add_r by lia.
  assert (0 < 2 ^ k) by (apply Z.pow_pos_nonneg; lia).
  split; [apply Z.mul_le_mono_nonneg_r; lia|apply Z.mul_lt_mono_pos_r; lia].
Qed.

(** Shifting out zero bits loses nothing. *)
Lemma iter_pos_nat {A} (f : A -> A) (p : positive) (x : A) :
  SpecFloat.iter_pos f p x = Nat.iter (Pos.to_nat p) f x.
Proof.
  revert x. induction p as [p IH|p IH|]; intros x; simpl SpecFloat.iter_pos.
  - rewrite !IH, Pos2Nat.inj_xI. 
    replace (S (2 * Pos.to_nat p)) with (Pos.to_nat p + (Pos.to_nat p + 1))%nat by lia.
    rewrite !Nat.iter_add. simpl. reflexivity.
  - rewrite !IH, Pos2Nat.inj_xO.
    replace (2 * Pos.to_nat p)%nat with (Pos.to_nat p + Pos.to_nat p)%nat by lia.
    rewrite Nat.iter_add. reflexivity.
  - reflexivity.
Qed.

Lemma shr_1_exact (m : Z) :
  0 <= m ->
  shr_1 (Build_shr_record (2 * m) false false) = Build_shr_record m false false.
Proof. intros Hm. destruct m as [|p|p]; [reflexivity|reflexivity|lia]. Qed.

Lemma iter_shr_1_exact (k : nat) (m : Z) :
  0 <= m ->
  Nat.iter k shr_1 (Build_shr_record (m * 2 ^ Z.of_nat k) false false) =
  Build_shr_record m false false.
Proof.
  intros Hm. induction k as [|k IH].
  - simpl. f_equal. lia.
  - rewrite Nat.iter_succ_r.
    replace (m * 2 ^ Z.of_nat (S k)) with (2 * (m * 2 ^ Z.of_nat k)).
    + rewrite shr_1_exact; [exact IH|].
      apply Z.mul_nonneg_nonneg; [lia|apply Z.pow_nonneg; lia].
    + rewrite Nat2Z.inj_succ, Z.pow_succ_r by lia. lia.
Qed.

Lemma shr_exact (m e k : Z) :
  0 <= m -> 0 <= k ->
  shr (Build_shr_record (m * 2 ^ k) false false) e k =
  (Build_shr_record m false false, e + k).
Proof.
  intros Hm Hk. destruct k as [|p|p]; [|clear Hk|lia].
  - simpl. rewrite Z.mul_1_r, Z.add_0_r. reflexivity.
  - unfold shr. rewrite iter_pos_nat.
    rewrite <- (positive_nat_Z p) at 1. rewrite iter_shr_1_exact by exact Hm.
    reflexivity.
Qed.

Section Format.
Variables prec emax : Z.
Hypothesis Hprec : 1 < prec.
Hypothesis Hemax : prec < emax.

Definition canonical (m : positive) (e : Z) : Prop :=
  fexp prec emax (Z.pos (digits2_pos m) + e) = e.

Lemma canonical_iff m e : canonical_mantissa prec emax m e = true <-> canonical m e.
Proof. unfold canonical_mantissa, canonical. apply Z.eqb_eq. Qed.

(** Rounding a number that is in the format returns it. *)
Lemma binary_round_aux_canonical s m e :
  canonical m e -> e <= emax - prec ->
  binary_round_aux prec emax s (Z.pos m) e loc_Exact = S754_finite s m e.
Proof.
  intros Hc He. unfold binary_round_aux, shr_fexp. simpl Zdigits2.
  unfold canonical in Hc. rewrite Hc, Z.sub_diag. simpl.
  rewrite Hc, Z.sub_diag. simpl.
  destruct (Z.leb_spec e (emax - prec)); [reflexivity|lia].
Qed.

Lemma binary_round_aux_exact s m p e k :
  0 <= k -> Z.pos p = Z.pos m * 2 ^ k ->
  canonical m (e + k) -> e + k <= emax - prec ->
  binary_round_aux prec emax s (Z.pos p) e loc_Exact = S754_finite s m (e + k).
Proof.
  intros Hk Hp Hc He. unfold binary_round_aux, shr_fexp. simpl Zdigits2.
  rewrite (digits2_pos_shift m p k Hk Hp).
  unfold canonical in Hc.
  replace (Z.pos (digits2_pos m) + k + e) with (Z.pos (digits2_pos m) + (e + k)) by lia.
  rewrite Hc. replace (e + k - e) with k by lia.
  simpl shr_record_of_loc. rewrite Hp, shr_exact by lia.
  simpl. rewrite Hc, Z.sub_diag. simpl.
  destruct (Z.leb_spec (e + k) (emax - prec)); [reflexivity|lia].
Qed.

Lemma pos_iter_xO (m d : positive) :
  Z.pos (Pos.iter xO m d) = Z.pos m * 2 ^ Z.pos d.
Proof.
  induction d as [|d IH] using Pos.peano_ind.
  - simpl. lia.
  - rewrite Pos.iter_succ, Pos2Z.inj_xO, IH, Pos2Z.inj_succ, Z.pow_succ_r by lia. lia.
Qed.

(** [shl_align] brings the exponent down to the target without changing
    the number. *)
Lemma shl_align_spec m e e' :
  exists m', shl_align m e e' = (m', Z.min e e') /\
             Z.pos m' = Z.pos m * 2 ^ (e - Z.min e e').
Proof.
  unfold shl_align. destruct (e' - e) as [|d|d] eqn:E.
  - exists m. rewrite Z.min_l by lia. rewrite Z.sub_diag. split; [reflexivity|lia].
  - exists m. rewrite Z.min_l by lia. rewrite Z.sub_diag. split; [reflexivity|lia].
  - exists (Pos.iter xO m d). rewrite Z.min_r by lia. split; [f_equal; lia|].
    replace (e - e') with (Z.pos d) by lia. apply pos_iter_xO.
Qed.

(** A number [m * 2^e] that the format holds as the canonical [M * 2^E]
    rounds to it. *)
Lemma binary_round_exact s m e M E :
  canonical M E -> E <= emax - prec ->
  Z.pos m * 2 ^ (e - Z.min e E) = Z.pos M * 2 ^ (E - Z.min e E) ->
  binary_round prec emax s m e = S754_finite s M E.
Proof.
  intros Hc HE Hv. unfold binary_round.
  assert (Hd : Z.pos (digits2_pos m) + e = Z.pos (digits2_pos M) + E).
  { destruct (Z.le_gt_cases e E) as [Hle|Hgt].
    - rewrite Z.min_l, Z.sub_diag, Z.mul_1_r in Hv by lia.
      rewrite (digits2_pos_shift M m (E - e)) by lia. lia.
    - rewrite Z.min_r, Z.sub_diag, Z.mul_1_r in Hv by lia.
      rewrite (digits2_pos_shift m M (e - E)) by lia. lia. }
  rewrite Hd. unfold canonical in Hc. rewrite Hc.
  destruct (shl_align_spec m e E) as (m' & -> & Hm').
  destruct (Z.le_gt_cases e E) as [Hle|Hgt].
  - rewrite Z.min_l in * by lia. rewrite Z.sub_diag, Z.mul_1_r in Hv, Hm'.
    assert (Hm'' : Z.pos m' = Z.pos M * 2 ^ (E - e)) by lia.
    pose proof (binary_round_aux_exact s M m' e (E - e) ltac:(lia) Hm'') as Hr.
    replace (e + (E - e)) with E in Hr by lia.
    apply Hr; assumption.
  - rewrite Z.min_r in * by lia. rewrite Z.sub_diag, Z.mul_1_r in Hv.
    assert (m' = M) as -> by lia.
    apply binary_round_aux_canonical; assumption.
Qed.

Lemma binary_round_exact_scaled s m e M E c :
  canonical M E -> E <= emax - prec -> c <= e -> c <= E ->
  Z.pos m * 2 ^ (e - c) = Z.pos M * 2 ^ (E - c) ->
  binary_round prec emax s m e = S754_finite s M E.
Proof.
  intros Hc HE Hce HcE Hv. apply binary_round_exact; try assumption.
  set (c' := Z.min e E).
  assert (Hpow : 0 < 2 ^ (c' - c)) by (apply Z.pow_pos_nonneg; lia).
  apply (Z.mul_reg_r _ _ (2 ^ (c' - c))); [lia|].
  rewrite <- !Z.mul_assoc, <- !Z.pow_add_r by lia.
  replace (e - c' + (c' - c)) with (e - c) by lia.
  replace (E - c' + (c' - c)) with (E - c) by lia.
  exact Hv.
Qed.

(** *** Integers *)

Definition Zfloat (k : Z) : spec_float := binary_normalize prec emax k 0 false.

Lemma fexp_small d : 1 <= d <= prec + 1 -> fexp prec emax (prec + (d - prec)) = d - prec.
Proof. intros Hd. unfold fexp, emin. lia. Qed.

Lemma digits_le_prec (p : positive) :
  Z.pos p < 2 ^ prec -> Z.pos (digits2_pos p) <= prec.
Proof.
  intros Hk. pose proof (digits2_pos_bounds p) as [Hl _].
  destruct (Z.le_gt_cases (Z.pos (digits2_pos p)) prec) as [H|H]; [exact H|exfalso].
  assert (2 ^ prec <= 2 ^ (Z.pos (digits2_pos p) - 1)) by (apply Z.pow_le_mono_r; lia).
  lia.
Qed.

(** An integer below [2^prec] is held exactly, with a mantissa of [prec]
    digits. *)
Lemma Zfloat_small (p : positive) :
  Z.pos p < 2 ^ prec ->
  let d := Z.pos (digits2_pos p) in
  exists M, Zfloat (Z.pos p) = S754_finite false M (d - prec) /\
            Z.pos M = Z.pos p * 2 ^ (prec - d) /\
            canonical M (d - prec).
Proof.
  intros Hk d. pose proof (digits_le_prec p Hk) as Hd. fold d in Hd.
  assert (Hpow : 0 < 2 ^ (prec - d)) by (apply Z.pow_pos_nonneg; lia).
  exists (Z.to_pos (Z.pos p * 2 ^ (prec - d))).
  assert (HM : Z.pos (Z.to_pos (Z.pos p * 2 ^ (prec - d))) = Z.pos p * 2 ^ (prec - d))
    by (apply Z2Pos.id; lia).
  assert (Hc : canonical (Z.to_pos (Z.pos p * 2 ^ (prec - d))) (d - prec)).
  { unfold canonical. rewrite (digits2_pos_shift p _ (prec - d)) by lia.
    fold d. replace (d + (prec - d) + (d - prec)) with (prec + (d - prec)) by lia.
    apply fexp_small. subst d. lia. }
  split; [|split; [exact HM|exact Hc]].
  unfold Zfloat, binary_normalize. apply binary_round_exact.
  - exact Hc.
  - lia.
  - rewrite Z.min_r by lia. rewrite HM, Z.sub_diag, Z.mul_1_r.
    f_equal. f_equal. lia.
Qed.

Lemma Zfloat_pow2_prec :
  Zfloat (2 ^ prec) = S754_finite false (Z.to_pos (2 ^ (prec - 1))) 1.
Proof.
  assert (Hp : 0 < 2 ^ prec) by (apply Z.pow_pos_nonneg; lia).
  assert (Hq : 0 < 2 ^ (prec - 1)) by (apply Z.pow_pos_nonneg; lia).
  destruct (2 ^ prec) as [|p|p] eqn:E; try lia.
  unfold Zfloat, binary_normalize. apply binary_round_exact.
  - unfold canonical. rewrite (digits2_pos_unique _ prec).
    + unfold fexp, emin. lia.
    + rewrite Z2Pos.id by lia. split; [lia|]. apply Z.pow_lt_mono_r; lia.
  - lia.
  - rewrite Z.min_l by lia. rewrite Z2Pos.id by lia.
    rewrite Z.sub_diag, Z.mul_1_r. rewrite <- E.
    replace prec with (Z.succ (prec - 1)) at 1 by lia.
    rewrite Z.pow_succ_r by lia. simpl. lia.
Qed.

(** The number [f] is the integer [k], [0 <= k <= 2^prec]. *)
Definition int_float (k : Z) (f : spec_float) : Prop :=
  (k = 0 /\ f = S754_zero false) \/
  (0 < k /\ exists M E, f = S754_finite false M E /\ canonical M E /\
             - prec < E <= 1 /\ Z.pos M * 2 ^ (E + prec) = k * 2 ^ prec).

Lemma Zfloat_int_float k : 0 <= k <= 2 ^ prec -> int_float k (Zfloat k).
Proof.
  intros Hk. destruct k as [|p|p]; [left; split; reflexivity| |lia].
  right. split; [lia|].
  destruct (Z.eq_dec (Z.pos p) (2 ^ prec)) as [Heq|Hne].
  - rewrite Heq, Zfloat_pow2_prec.
    assert (Hq : 0 < 2 ^ (prec - 1)) by (apply Z.pow_pos_nonneg; lia).
    eexists _, _. split; [reflexivity|]. split; [|split; [lia|]].
    + unfold canonical. rewrite (digits2_pos_unique _ prec).
      * unfold fexp, emin. lia.
      * rewrite Z2Pos.id by lia. split; [lia|]. apply Z.pow_lt_mono_r; lia.
    + rewrite Z2Pos.id by lia. rewrite <- !Z.pow_add_r by lia. f_equal. lia.
  - destruct (Zfloat_small p ltac:(lia)) as (M & HM & Hval & Hc).
    pose proof (digits_le_prec p ltac:(lia)) as Hd.
    eexists _, _. split; [exact HM|]. split; [exact Hc|]. split; [lia|].
    rewrite Hval, <- Z.mul_assoc, <- Z.pow_add_r by lia.
    do 2 f_equal. lia.
Qed.

Lemma int_float_Zfloat k f : int_float k f -> f = Zfloat k.
Proof.
  intros [[-> ->]|(Hk & M & E & -> & Hc & HE & Hv)]; [reflexivity|].
  destruct k as [|p|p]; try lia.
  unfold Zfloat, binary_normalize. symmetry.
  apply (binary_round_exact_scaled _ _ _ _ _ (- prec)); try assumption; try lia.
  replace (0 - - prec) with prec by lia.
  replace (E - - prec) with (E + prec) by lia. lia.
Qed.

Lemma int_float_add a b fa fb :
  int_float a fa -> int_float b fb -> a + b <= 2 ^ prec ->
  int_float (a + b) (SFadd prec emax fa fb).
Proof.
  intros [[-> ->]|(Ha & Ma & Ea & -> & Hca & HEa & Hva)]
         [[-> ->]|(Hb & Mb & Eb & -> & Hcb & HEb & Hvb)] Hab.
  - left. split; reflexivity.
  - right. split; [lia|]. eexists _, _. split; [reflexivity|].
    split; [exact Hcb|]. split; [exact HEb|]. rewrite Hvb. f_equal.
  - right. split; [lia|]. eexists _, _. split; [reflexivity|].
    split; [exact Hca|]. split; [exact HEa|]. rewrite Hva. f_equal. lia.
  - destruct (Zfloat_int_float (a + b) ltac:(lia)) as [[H0 _]|(_ & M & E & HM & Hc & HE & Hv)];
      [lia|].
    right. split; [lia|]. exists M, E. split; [|split; [exact Hc|split; [exact HE|exact Hv]]].
    unfold SFadd.
    destruct (shl_align_spec Ma Ea (Z.min Ea Eb)) as (pa & -> & Hpa).
    destruct (shl_align_spec Mb Eb (Z.min Ea Eb)) as (pb & -> & Hpb).
    simpl fst. simpl cond_Zopp. simpl Z.add. unfold binary_normalize.
    set (ez := Z.min Ea Eb) in *.
    rewrite Z.min_r in Hpa, Hpb by lia.
    apply (binary_round_exact_scaled _ _ _ _ _ (- prec)); try assumption; try lia.
    replace (E - - prec) with (E + prec) by lia. rewrite Hv.
    rewrite Pos2Z.inj_add, Hpa, Hpb, Z.mul_add_distr_r.
    rewrite <- !Z.mul_assoc, <- !Z.pow_add_r by lia.
    replace (Ea - ez + (ez - - prec)) with (Ea + prec) by lia.
    replace (Eb - ez + (ez - - prec)) with (Eb + prec) by lia.
    lia.
Qed.

Lemma Zfloat_add a b :
  0 <= a -> 0 <= b -> a + b <= 2 ^ prec ->
  SFadd prec emax (Zfloat a) (Zfloat b) = Zfloat (a + b).
Proof.
  intros Ha Hb Hab. apply int_float_Zfloat, int_float_add;
    try apply Zfloat_int_float; lia.
Qed.

Lemma int_float_sub a b fa fb :
  int_float a fa -> int_float b fb -> b <= a -> a <= 2 ^ prec ->
  int_float (a - b) (SFsub prec emax fa fb).
Proof.
  intros [[-> ->]|(Ha & Ma & Ea & -> & Hca & HEa & Hva)]
         [[-> ->]|(Hb & Mb & Eb & -> & Hcb & HEb & Hvb)] Hba Ha2.
  - left. split; reflexivity.
  - lia.
  - right. split; [lia|]. eexists _, _. split; [reflexivity|].
    split; [exact Hca|]. split; [exact HEa|]. rewrite Hva. f_equal. lia.
  - unfold SFsub.
    destruct (shl_align_spec Ma Ea (Z.min Ea Eb)) as (pa & -> & Hpa).
    destruct (shl_align_spec Mb Eb (Z.min Ea Eb)) as (pb & -> & Hpb).
    simpl fst. simpl cond_Zopp.
    set (ez := Z.min Ea Eb) in *.
    rewrite Z.min_r in Hpa, Hpb by lia.
    assert (Hpow : 0 < 2 ^ (ez + prec)) by (apply Z.pow_pos_nonneg; lia).
    assert (Hsa : Z.pos pa * 2 ^ (ez + prec) = a * 2 ^ prec).
    { rewrite Hpa, <- Z.mul_assoc, <- Z.pow_add_r by lia.
      replace (Ea - ez + (ez + prec)) with (Ea + prec) by lia. exact Hva. }
    assert (Hsb : Z.pos pb * 2 ^ (ez + prec) = b * 2 ^ prec).
    { rewrite Hpb, <- Z.mul_assoc, <- Z.pow_add_r by lia.
      replace (Eb - ez + (ez + prec)) with (Eb + prec) by lia. exact Hvb. }
    assert (Hp2 : 0 < 2 ^ prec) by (apply Z.pow_pos_nonneg; lia).
    destruct (Z.pos pa - Z.pos pb) as [|q|q] eqn:Eq.
    + left. split; [|reflexivity]. nia.
    + assert (Hq : Z.pos q * 2 ^ (ez + prec) = (a - b) * 2 ^ prec) by nia.
      assert (0 < a - b) by nia.
      destruct (Zfloat_int_float (a - b) ltac:(lia))
        as [[H0 _]|(_ & M & E & HM & Hc & HE & Hv)]; [lia|].
      right. split; [lia|]. exists M, E.
      split; [|split; [exact Hc|split; [exact HE|exact Hv]]].
      unfold binary_normalize.
      apply (binary_round_exact_scaled _ _ _ _ _ (- prec)); try assumption; try lia.
      replace (E - - prec) with (E + prec) by lia.
      replace (ez - - prec) with (ez + prec) by lia. lia.
    + exfalso. nia.
Qed.

Lemma Zfloat_sub a b :
  0 <= b <= a -> a <= 2 ^ prec ->
  SFsub prec emax (Zfloat a) (Zfloat b) = Zfloat (a - b).
Proof.
  intros Hb Ha. apply int_float_Zfloat, int_float_sub;
    try apply Zfloat_int_float; lia.
Qed.

Lemma Zfloat_one :
  Zfloat 1 = S754_finite false (Z.to_pos (2 ^ (prec - 1))) (1 - prec).
Proof.
  assert (Hq : 0 < 2 ^ (prec - 1)) by (apply Z.pow_pos_nonneg; lia).
  destruct (Zfloat_small 1) as (M & HM & Hv & _).
  - apply Z.pow_gt_1; lia.
  - cbn [digits2_pos] in HM, Hv. rewrite HM. f_equal.
    apply Pos2Z.inj. rewrite Z2Pos.id by lia. lia.
Qed.

(** Multiplying or dividing a number of the format by one returns it. *)
Lemma SFmul_one s M E :
  canonical M E -> E <= emax - prec ->
  SFmul prec emax (S754_finite s M E) (Zfloat 1) = S754_finite s M E.
Proof.
  intros Hc HE. rewrite Zfloat_one. unfold SFmul. rewrite xorb_false_r.
  assert (Hq : 0 < 2 ^ (prec - 1)) by (apply Z.pow_pos_nonneg; lia).
  pose proof (binary_round_aux_exact s M (M * Z.to_pos (2 ^ (prec - 1)))
                (E + (1 - prec)) (prec - 1)) as Hr.
  replace (E + (1 - prec) + (prec - 1)) with E in Hr by lia.
  apply Hr; try assumption; try lia.
  rewrite Pos2Z.inj_mul, Z2Pos.id by lia. reflexivity.
Qed.

Lemma new_location_0 n : new_location n 0 = loc_Exact.
Proof. unfold new_location. destruct (Z.even n); reflexivity. Qed.

(** A finite number divided by itself is one. *)
Lemma SFdiv_self s M E :
  SFdiv prec emax (S754_finite s M E) (S754_finite s M E) = Zfloat 1.
Proof.
  rewrite Zfloat_one. unfold SFdiv, SFdiv_core_binary. simpl Zdigits2.
  replace (Z.pos (digits2_pos M) + E - (Z.pos (digits2_pos M) + E)) with 0 by lia.
  rewrite Z.sub_diag.
  assert (He : Z.min (fexp prec emax 0) 0 = - prec) by (unfold fexp, emin; lia).
  rewrite He. replace (0 - - prec) with prec by lia.
  destruct prec as [|pp|pp] eqn:Ep; try lia. rewrite <- Ep.
  assert (Hq : 0 < 2 ^ (prec - 1)) by (apply Z.pow_pos_nonneg; lia).
  assert (Hp : 0 < 2 ^ prec) by (apply Z.pow_pos_nonneg; lia).
  rewrite Z.shiftl_mul_pow2 by lia.
  assert (Hdiv : Z.div_eucl (Z.pos M * 2 ^ prec) (Z.pos M) = (2 ^ prec, 0)).
  { pose proof (Z_div_mod (Z.pos M * 2 ^ prec) (Z.pos M) ltac:(lia)) as Hdm.
    destruct (Z.div_eucl (Z.pos M * 2 ^ prec) (Z.pos M)) as [q r].
    destruct Hdm as [Heq Hr].
    assert (q = 2 ^ prec) by nia. subst q. f_equal. nia. }
  rewrite Hdiv, new_location_0. rewrite xorb_nilpotent.
  pose proof (binary_round_aux_exact false (Z.to_pos (2 ^ (prec - 1)))
                (Z.to_pos (2 ^ prec)) (- prec) 1) as Hr.
  rewrite !Z2Pos.id in Hr by lia.
  replace (- prec + 1) with (1 - prec) in Hr by lia.
  apply Hr; try lia.
  - replace prec with (Z.succ (prec - 1)) at 1 by lia.
    rewrite Z.pow_succ_r by lia. lia.
  - unfold canonical. rewrite (digits2_pos_unique _ prec).
    + unfold fexp, emin. lia.
    + rewrite Z2Pos.id by lia. split; [lia|]. apply Z.pow_lt_mono_r; lia.
Qed.

Lemma canonical_digits M E : canonical M E -> Z.pos (digits2_pos M) <= prec.
Proof. unfold canonical, fexp. lia. Qed.

Lemma canonical_normal M E :
  canonical M E -> emin prec emax < E -> Z.pos (digits2_pos M) = prec.
Proof. unfold canonical, fexp. lia. Qed.

Lemma int_float_normal k M E :
  int_float k (S754_finite false M E) ->
  canonical M E /\ Z.pos (digits2_pos M) = prec /\ - prec < E <= 1 /\
  Z.pos M * 2 ^ (E + prec) = k * 2 ^ prec /\ 0 < k.
Proof.
  intros [[_ H]|(Hk & M' & E' & [= <- <-] & Hc & HE & Hv)]; [discriminate|].
  split; [exact Hc|]. split; [|split; [exact HE|split; [exact Hv|exact Hk]]].
  apply (canonical_normal M E Hc). unfold emin. lia.
Qed.

Lemma SFdiv_one k f :
  int_float k f -> SFdiv prec emax f (Zfloat 1) = f.
Proof.
  intros Hf. rewrite Zfloat_one.
  destruct Hf as [[-> ->]|(Hk & M & E & -> & Hc & HE & Hv)]; [reflexivity|].
  assert (Hd : Z.pos (digits2_pos M) = prec).
  { apply (canonical_normal M E Hc). unfold emin. lia. }
  assert (Hq : 0 < 2 ^ (prec - 1)) by (apply Z.pow_pos_nonneg; lia).
  assert (Hd1 : Z.pos (digits2_pos (Z.to_pos (2 ^ (prec - 1)))) = prec).
  { apply digits2_pos_unique. rewrite Z2Pos.id by lia.
    split; [lia|]. apply Z.pow_lt_mono_r; lia. }
  unfold SFdiv, SFdiv_core_binary. simpl Zdigits2. rewrite Hd, Hd1.
  replace (prec + E - (prec + (1 - prec))) with (E + prec - 1) by lia.
  assert (He : Z.min (fexp prec emax (E + prec - 1)) (E - (1 - prec)) = E - 1)
    by (unfold fexp, emin; lia).
  rewrite He. replace (E - (1 - prec) - (E - 1)) with prec by lia.
  destruct prec as [|pp|pp] eqn:Ep; try lia. rewrite <- Ep.
  rewrite Z.shiftl_mul_pow2, Z2Pos.id by lia.
  assert (Hdiv : Z.div_eucl (Z.pos M * 2 ^ prec) (2 ^ (prec - 1)) = (2 * Z.pos M, 0)).
  { pose proof (Z_div_mod (Z.pos M * 2 ^ prec) (2 ^ (prec - 1)) ltac:(lia)) as Hdm.
    destruct (Z.div_eucl (Z.pos M * 2 ^ prec) (2 ^ (prec - 1))) as [q r].
    destruct Hdm as [Heq Hr].
    assert (Hpp : 2 ^ prec = 2 * 2 ^ (prec - 1)).
    { replace prec with (Z.succ (prec - 1)) at 1 by lia.
      rewrite Z.pow_succ_r by lia. reflexivity. }
    rewrite Hpp in Heq.
    assert (q = 2 * Z.pos M) by nia. subst q. f_equal. nia. }
  rewrite Hdiv, new_location_0, xorb_false_r.
  pose proof (binary_round_aux_exact false M (M~0) (E - 1) 1) as Hr.
  replace (E - 1 + 1) with E in Hr by lia.
  apply Hr; try assumption; try lia.
Qed.

Lemma int_float_floor k f : int_float k f -> SFfloor f = Some k.
Proof.
  intros [[-> ->]|(Hk & M & E & -> & Hc & HE & Hv)]; [reflexivity|].
  unfold SFfloor. f_equal.
  assert (Hp : 0 < 2 ^ prec) by (apply Z.pow_pos_nonneg; lia).
  destruct E as [|e|e].
  - rewrite Z.add_0_l in Hv. rewrite Z.pow_0_r, Z.mul_1_r.
    apply (Z.mul_reg_r _ _ (2 ^ prec)); lia.
  - assert (Z.pos e = 1) by lia.
    rewrite Z.pow_add_r in Hv by lia.
    apply (Z.mul_reg_r _ _ (2 ^ prec)); [lia|]. rewrite <- Hv. ring.
  - rewrite Z.pow_pos_fold.
    assert (He : 0 < 2 ^ Z.pos e) by (apply Z.pow_pos_nonneg; lia).
    assert (Hs : 2 ^ prec = 2 ^ (Z.neg e + prec) * 2 ^ Z.pos e).
    { rewrite <- Z.pow_add_r by lia. f_equal. lia. }
    assert (Hpe : 0 < 2 ^ (Z.neg e + prec)) by (apply Z.pow_pos_nonneg; lia).
    assert (Hm : Z.pos M = k * 2 ^ Z.pos e).
    { apply (Z.mul_reg_r _ _ (2 ^ (Z.neg e + prec))); [lia|]. rewrite Hv, Hs. ring. }
    rewrite Hm. apply Z.div_mul. lia.
Qed.

Lemma SFtrunc_nonneg f : SFsign f = false -> SFtrunc f = SFfloor f.
Proof.
  destruct f as [s|s| |s m e]; try reflexivity. simpl. intros ->.
  unfold SFtrunc, SFfloor. destruct e as [|e|e]; try reflexivity.
  f_equal. apply Z.quot_div_nonneg; [lia|]. rewrite Z.pow_pos_fold.
  apply Z.pow_pos_nonneg; lia.
Qed.

(** Rounding keeps the sign. *)
Lemma binary_round_aux_sign m e l :
  SFsign (binary_round_aux prec emax false m e l) = false.
Proof.
  unfold binary_round_aux.
  destruct (shr_fexp prec emax m e l) as [mrs e1].
  destruct (shr_fexp prec emax _ e1 loc_Exact) as [mrs2 e2].
  destruct (shr_m mrs2); [reflexivity| |reflexivity].
  destruct (e2 <=? emax - prec); reflexivity.
Qed.

Lemma binary_round_sign m e : SFsign (binary_round prec emax false m e) = false.
Proof.
  unfold binary_round. destruct (shl_align m e _) as [mz ez].
  apply binary_round_aux_sign.
Qed.

(** *** Order *)

(** On numbers of the format the comparison is the comparison of the
    numbers. *)
Lemma SFcompare_canonical m1 e1 m2 e2 :
  canonical m1 e1 -> canonical m2 e2 ->
  SFcompare (S754_finite false m1 e1) (S754_finite false m2 e2) =
  Some (Z.pos m1 * 2 ^ (e1 - Z.min e1 e2) ?= Z.pos m2 * 2 ^ (e2 - Z.min e1 e2)).
Proof.
  intros H1 H2. unfold SFcompare. f_equal.
  pose proof (digits2_pos_bounds m1) as [L1 U1].
  pose proof (digits2_pos_bounds m2) as [L2 U2].
  pose proof (canonical_digits _ _ H1) as D1.
  pose proof (canonical_digits _ _ H2) as D2.
  assert (P1 : 2 ^ Z.pos (digits2_pos m1) <= 2 ^ prec) by (apply Z.pow_le_mono_r; lia).
  assert (P2 : 2 ^ Z.pos (digits2_pos m2) <= 2 ^ prec) by (apply Z.pow_le_mono_r; lia).
  assert (Hpp : 2 ^ prec = 2 * 2 ^ (prec - 1)).
  { replace prec with (Z.succ (prec - 1)) at 1 by lia.
    rewrite Z.pow_succ_r by lia. reflexivity. }
  destruct (Z.compare_spec e1 e2) as [->|Hlt|Hgt].
  - rewrite Z.min_id, Z.sub_diag, !Z.mul_1_r. reflexivity.
  - rewrite Z.min_l, Z.sub_diag, Z.mul_1_r by lia. symmetry. apply Z.compare_lt_iff.
    assert (Hn : Z.pos (digits2_pos m2) = prec).
    { apply (canonical_normal m2 e2 H2). unfold canonical, fexp in H1. lia. }
    rewrite Hn in L2.
    assert (2 <= 2 ^ (e2 - e1)).
    { change 2 with (2 ^ 1) at 1. apply Z.pow_le_mono_r; lia. }
    nia.
  - rewrite Z.min_r, Z.sub_diag, Z.mul_1_r by lia. symmetry. apply Z.compare_gt_iff.
    assert (Hn : Z.pos (digits2_pos m1) = prec).
    { apply (canonical_normal m1 e1 H1). unfold canonical, fexp in H2. lia. }
    rewrite Hn in L1.
    assert (2 <= 2 ^ (e1 - e2)).
    { change 2 with (2 ^ 1) at 1. apply Z.pow_le_mono_r; lia. }
    nia.
Qed.
End Format.

(** *** binary32 *)

Lemma F32_prec : 1 < F32.prec.
Proof. reflexivity. Qed.

Lemma F32_emax : F32.prec < F32.emax.
Proof. reflexivity. Qed.

Ltac f32 := first [exact F32_prec | exact F32_emax | eassumption | lia].

Lemma F32_one_of_int : F32.one = F32.of_int 1.
Proof. reflexivity. Qed.

Lemma F32_of_int_int_float k :
  0 <= k <= 2 ^ 24 -> int_float F32.prec F32.emax k (F32.of_int k).
Proof. intros Hk. apply Zfloat_int_float; f32. Qed.

Lemma F32_add_of_int a b :
  0 <= a -> 0 <= b -> a + b <= 2 ^ 24 ->
  F32.add (F32.of_int a) (F32.of_int b) = F32.of_int (a + b).
Proof. intros Ha Hb Hab. apply Zfloat_add; f32. Qed.

Lemma F32_sub_of_int a b :
  0 <= b <= a -> a <= 2 ^ 24 ->
  F32.sub (F32.of_int a) (F32.of_int b) = F32.of_int (a - b).
Proof. intros Hb Ha. apply Zfloat_sub; f32. Qed.

Lemma F32_of_int_finite k :
  0 < k <= 2 ^ 24 -> exists M E, F32.of_int k = S754_finite false M E.
Proof.
  intros Hk. destruct (F32_of_int_int_float k ltac:(lia))
    as [[H0 _]|(_ & M & E & H & _)]; [lia|eauto].
Qed.

Lemma F32_div_self_of_int k :
  0 < k <= 2 ^ 24 -> F32.div (F32.of_int k) (F32.of_int k) = F32.one.
Proof.
  intros Hk. destruct (F32_of_int_finite k Hk) as (M & E & ->).
  rewrite F32_one_of_int. apply SFdiv_self; f32.
Qed.

Lemma F32_mul_of_int_one k :
  0 <= k <= 2 ^ 24 -> F32.mul (F32.of_int k) F32.one = F32.of_int k.
Proof.
  intros Hk. destruct (F32_of_int_int_float k Hk)
    as [[-> ->]|(_ & M & E & -> & Hc & HE & _)]; [reflexivity|].
  rewrite F32_one_of_int. apply SFmul_one; try f32.
  unfold F32.prec, F32.emax in *. lia.
Qed.

Lemma F32_div_of_int_one k :
  0 <= k <= 2 ^ 24 -> F32.div (F32.of_int k) F32.one = F32.of_int k.
Proof.
  intros Hk. rewrite F32_one_of_int.
  eapply SFdiv_one; try f32. apply F32_of_int_int_float, Hk.
Qed.

Lemma F32_floor_of_int k :
  0 <= k <= 2 ^ 24 -> F32.floor_int (F32.of_int k) = Some k.
Proof.
  intros Hk. unfold F32.floor_int.
  assert (H : SFfloor (F32.of_int k) = Some k).
  { eapply int_float_floor; try f32. apply F32_of_int_int_float, Hk. }
  rewrite H. simpl. unfold int_range.
  destruct (Z.leb_spec (- 2 ^ 31) k); [|lia].
  destruct (Z.ltb_spec k (2 ^ 31)); [reflexivity|lia].
Qed.

(** ** Rounding to nearest, by integer codes *)

(** The position of the quotient [N / D] among the halves of integers:
    twice the integer part of [2 N / D], plus one when [2 N / D] is not an
    integer. *)
Definition enc (N D : Z) : Z :=
  2 * (2 * N / D) + (if (2 * N) mod D =? 0 then 0 else 1).

(** The same position for half the quotient, and the nearest integer, ties
    to even, computed from a position. *)
Definition shr_code (c : Z) : Z := 2 * (c / 4) + (if c mod 4 =? 0 then 0 else 1).

Definition rne_code (c : Z) : Z := (c + 1 + (c / 4) mod 2) / 4.

(** The position a shift record stands for. *)
Definition code (r : shr_record) : Z :=
  4 * shr_m r + (if shr_r r then 2 else 0) + (if shr_s r then 1 else 0).

Lemma enc_mono N N' D : 0 < D -> N <= N' -> enc N D <= enc N' D.
Proof.
  intros HD HN. unfold enc.
  destruct (Z.eqb_spec ((2 * N) mod D) 0), (Z.eqb_spec ((2 * N') mod D) 0);
    Z.div_mod_to_equations; nia.
Qed.

Lemma enc_scale N D c : 0 < D -> 0 < c -> enc (N * c) (D * c) = enc N D.
Proof.
  intros HD Hc. unfold enc.
  replace (2 * (N * c)) with ((2 * N) * c) by ring.
  rewrite Z.div_mul_cancel_r by lia.
  rewrite Z.mul_mod_distr_r by lia.
  destruct (Z.eqb_spec ((2 * N) mod D * c) 0), (Z.eqb_spec ((2 * N) mod D) 0);
    try reflexivity; nia.
Qed.

Lemma enc_div4 N D : 0 < D -> enc N D / 4 = N / D.
Proof.
  intros HD. unfold enc.
  destruct (Z.eqb_spec ((2 * N) mod D) 0); Z.div_mod_to_equations; nia.
Qed.

Lemma double_div_mod N D :
  0 < D ->
  2 * N / D = 2 * (N / D) + (if 2 * (N mod D) <? D then 0 else 1) /\
  (2 * N) mod D = 2 * (N mod D) - (if 2 * (N mod D) <? D then 0 else D).
Proof.
  intros HD. pose proof (Z.div_mod N D ltac:(lia)) as Hdm.
  pose proof (Z.mod_pos_bound N D HD) as Hb.
  destruct (Z.ltb_spec (2 * (N mod D)) D).
  - split.
    + symmetry. apply (Z.div_unique_pos _ _ _ (2 * (N mod D))); lia.
    + symmetry. apply (Z.mod_unique_pos _ _ (2 * (N / D))); lia.
  - split.
    + symmetry. apply (Z.div_unique_pos _ _ _ (2 * (N mod D) - D)); lia.
    + symmetry. apply (Z.mod_unique_pos _ _ (2 * (N / D) + 1)); lia.
Qed.

Lemma enc_shr N D : 0 < D -> shr_code (enc N D) = enc N (2 * D).
Proof.
  intros HD. unfold shr_code. rewrite enc_div4 by lia. unfold enc.
  replace (2 * N / (2 * D)) with (N / D) by (symmetry; apply Z.div_mul_cancel_l; lia).
  f_equal.
  replace ((2 * N) mod (2 * D)) with (2 * (N mod D))
    by (symmetry; apply Z.mul_mod_distr_l; lia).
  destruct (double_div_mod N D HD) as [-> ->].
  pose proof (Z.mod_pos_bound N D HD) as Hb.
  set (q := N / D). set (r := N mod D) in *.
  destruct (Z.ltb_spec (2 * r) D).
  - rewrite Z.sub_0_r.
    destruct (Z.eqb_spec (2 * r) 0) as [H0|H0].
    + replace (2 * (2 * q + 0) + 0) with (q * 4) by lia.
      rewrite Z.mod_mul by lia. reflexivity.
    + replace (2 * (2 * q + 0) + 1) with (1 + q * 4) by lia.
      rewrite Z.mod_add by lia. reflexivity.
  - destruct (Z.eqb_spec (2 * r - D) 0), (Z.eqb_spec (2 * r) 0); try lia.
    + replace (2 * (2 * q + 1) + 0) with (2 + q * 4) by lia.
      rewrite Z.mod_add by lia. reflexivity.
    + replace (2 * (2 * q + 1) + 1) with (3 + q * 4) by lia.
      rewrite Z.mod_add by lia. reflexivity.
Qed.

Lemma enc_nonneg N D : 0 < D -> 0 <= N -> 0 <= enc N D.
Proof.
  intros HD HN. unfold enc.
  destruct (Z.eqb_spec ((2 * N) mod D) 0); Z.div_mod_to_equations; nia.
Qed.

Lemma rne_code_bounds c : c / 4 <= rne_code c <= c / 4 + 1.
Proof. unfold rne_code. Z.div_mod_to_equations. lia. Qed.

Lemma rne_code_mono c c' : c <= c' -> rne_code c <= rne_code c'.
Proof. unfold rne_code. intros H. Z.div_mod_to_equations. lia. Qed.

Lemma rne_code_exact m : rne_code (4 * m) = m.
Proof. unfold rne_code. Z.div_mod_to_equations. lia. Qed.

Lemma code_shr_m r : 0 <= shr_m r -> code r / 4 = shr_m r.
Proof.
  destruct r as [m r s]. unfold code. simpl. intros Hm.
  destruct r, s; Z.div_mod_to_equations; lia.
Qed.

Lemma code_shr_1 r :
  0 <= shr_m r -> code (shr_1 r) = shr_code (code r) /\ 0 <= shr_m (shr_1 r).
Proof.
  intros Hm. unfold shr_code. rewrite code_shr_m by exact Hm.
  destruct r as [m r s]. cbn [shr_m] in Hm |- *.
  assert (Hmod : forall a b, 0 <= b < 4 ->
            (if (4 * a + b) mod 4 =? 0 then 0 else 1) = if b =? 0 then 0 else 1).
  { intros a b Hb. replace (4 * a + b) with (b + a * 4) by lia.
    rewrite Z.mod_add, Z.mod_small by lia. reflexivity. }
  unfold code. cbn [shr_m shr_r shr_s].
  rewrite <- (Z.add_assoc (4 * m)), Hmod by (destruct r, s; lia).
  destruct m as [|[p|p|]|p]; try lia; unfold shr_1; cbn [shr_m shr_r shr_s].
  - split; [|lia]. destruct r, s; simpl; lia.
  - rewrite (Pos2Z.inj_xI p). split; [|lia]. destruct r, s; simpl; lia.
  - rewrite (Pos2Z.inj_xO p). split; [|lia]. destruct r, s; simpl; lia.
  - split; [|lia]. destruct r, s; simpl; lia.
Qed.

Lemma code_rne r :
  0 <= shr_m r ->
  round_nearest_even (shr_m r) (loc_of_shr_record r) = rne_code (code r).
Proof.
  intros Hm. unfold rne_code. rewrite code_shr_m by exact Hm.
  destruct r as [m r s]. unfold code. simpl in *.
  destruct r, s; simpl.
  - Z.div_mod_to_equations; lia.
  - destruct (Z.even m) eqn:He.
    + apply Z.even_spec in He. destruct He as [k ->].
      Z.div_mod_to_equations; lia.
    + assert (Ho : Z.odd m = true) by (rewrite <- Z.negb_even, He; reflexivity).
      apply Z.odd_spec in Ho. destruct Ho as [k ->].
      Z.div_mod_to_equations; lia.
  - Z.div_mod_to_equations; lia.
  - Z.div_mod_to_equations; lia.
Qed.

Lemma code_of_loc m l :
  code (shr_record_of_loc m l) =
  4 * m + match l with
          | loc_Exact => 0
          | loc_Inexact Lt => 1
          | loc_Inexact Eq => 2
          | loc_Inexact Gt => 3
          end.
Proof. destruct l as [|[| |]]; unfold code; simpl; lia. Qed.

Lemma shr_m_of_loc m l : shr_m (shr_record_of_loc m l) = m.
Proof. destruct l as [|[| |]]; reflexivity. Qed.

Lemma iter_shr_1_code (k : nat) r :
  0 <= shr_m r ->
  code (Nat.iter k shr_1 r) = Nat.iter k shr_code (code r) /\
  0 <= shr_m (Nat.iter k shr_1 r).
Proof.
  intros Hm. induction k as [|k [IH1 IH2]]; [split; [reflexivity|exact Hm]|].
  simpl. destruct (code_shr_1 _ IH2) as [H1 H2]. rewrite H1, IH1. split; [reflexivity|exact H2].
Qed.

Lemma iter_shr_code_enc (k : nat) N D :
  0 < D -> Nat.iter k shr_code (enc N D) = enc N (D * 2 ^ Z.of_nat k).
Proof.
  intros HD. induction k as [|k IH].
  - simpl. rewrite Z.mul_1_r. reflexivity.
  - simpl Nat.iter. rewrite IH, enc_shr.
    + f_equal. rewrite Nat2Z.inj_succ, Z.pow_succ_r by lia. ring.
    + apply Z.mul_pos_pos; [exact HD|apply Z.pow_pos_nonneg; lia].
Qed.

(** A shift by [k] places moves a position from [N / D] to
    [N / (D 2^k)]. *)
Lemma shr_enc r e k N D :
  0 <= shr_m r -> 0 <= k -> 0 < D -> code r = enc N D ->
  snd (shr r e k) = e + k /\
  code (fst (shr r e k)) = enc N (D * 2 ^ k) /\
  0 <= shr_m (fst (shr r e k)).
Proof.
  intros Hm Hk HD Hc. unfold shr. destruct k as [|p|p]; try lia.
  - simpl. rewrite Z.add_0_r, Z.mul_1_r. auto.
  - simpl fst. simpl snd. rewrite iter_pos_nat.
    destruct (iter_shr_1_code (Pos.to_nat p) r Hm) as [H1 H2].
    rewrite H1, Hc, iter_shr_code_enc by exact HD.
    rewrite positive_nat_Z. auto.
Qed.

Lemma Zdigits2_bounds m :
  0 < m -> 2 ^ (Zdigits2 m - 1) <= m < 2 ^ Zdigits2 m.
Proof. destruct m as [|p|p]; try lia. intros _. apply digits2_pos_bounds. Qed.

Lemma Zdigits2_nonneg m : 0 <= Zdigits2 m.
Proof. destruct m; simpl; lia. Qed.

Lemma Zdigits2_lower m n : 0 < m -> 2 ^ (n - 1) <= m -> n <= Zdigits2 m.
Proof.
  intros Hm Hn. destruct (Zdigits2_bounds m Hm) as [_ Hu].
  destruct (Z.le_gt_cases n (Zdigits2 m)) as [H|H]; [exact H|exfalso].
  assert (2 ^ Zdigits2 m <= 2 ^ (n - 1)) by (apply Z.pow_le_mono_r; lia). lia.
Qed.

Lemma Zdigits2_upper m n : 0 <= n -> 0 <= m < 2 ^ n -> Zdigits2 m <= n.
Proof.
  intros Hn Hm. destruct (Z.eq_dec m 0) as [->|Hne]; [simpl; lia|].
  destruct (Zdigits2_bounds m ltac:(lia)) as [Hl _].
  pose proof (Zdigits2_nonneg m).
  destruct (Z.le_gt_cases (Zdigits2 m) n) as [H'|H']; [exact H'|exfalso].
  assert (2 ^ n <= 2 ^ (Zdigits2 m - 1)) by (apply Z.pow_le_mono_r; lia). lia.
Qed.

Section Rounding.
Variables prec emax : Z.
Hypothesis Hprec : 1 < prec.
Hypothesis Hemax : prec < emax.

(** The second half of [binary_round_aux]: the rounded mantissa [m] at
    exponent [e] made a number of the format. *)
Definition finalize (s : bool) (m e : Z) : spec_float :=
  let '(mrs, e') := shr_fexp prec emax m e loc_Exact in
  match shr_m mrs with
  | Z0 => S754_zero s
  | Zpos m' => if e' <=? emax - prec then S754_finite s m' e' else S754_infinity s
  | _ => S754_nan
  end.

Lemma binary_round_aux_finalize s mx ex lx :
  binary_round_aux prec emax s mx ex lx =
  finalize s (round_nearest_even (shr_m (fst (shr_fexp prec emax mx ex lx)))
                (loc_of_shr_record (fst (shr_fexp prec emax mx ex lx))))
           (snd (shr_fexp prec emax mx ex lx)).
Proof.
  unfold binary_round_aux, finalize.
  destruct (shr_fexp prec emax mx ex lx) as [mrs e']. reflexivity.
Qed.

(** A mantissa and an exponent as the first shift and the rounding leave
    them. *)
Definition rounded_state (m e : Z) : Prop :=
  emin prec emax <= e /\ 0 <= m <= 2 ^ prec /\
  (emin prec emax < e -> 2 ^ (prec - 1) <= m).

Definition finalized (s : bool) (m e : Z) : spec_float :=
  if m =? 0 then S754_zero s
  else if m <? 2 ^ prec
       then if e <=? emax - prec then S754_finite s (Z.to_pos m) e
            else S754_infinity s
       else if e + 1 <=? emax - prec
            then S754_finite s (Z.to_pos (2 ^ (prec - 1))) (e + 1)
            else S754_infinity s.

Lemma finalize_cases s m e :
  rounded_state m e -> finalize s m e = finalized s m e.
Proof.
  intros (He & Hm & Hn). unfold finalize, finalized, shr_fexp.
  assert (Hp : 0 < 2 ^ (prec - 1)) by (apply Z.pow_pos_nonneg; lia).
  assert (Hpp : 2 ^ prec = 2 * 2 ^ (prec - 1)).
  { rewrite <- Z.pow_succ_r by lia. f_equal. lia. }
  destruct (Z.eqb_spec m 0) as [->|Hm0].
  - simpl Zdigits2. unfold fexp, shr.
    destruct (Z.max (0 + e - prec) (emin prec emax) - e) eqn:Hk; try lia; reflexivity.
  - destruct (Z.ltb_spec m (2 ^ prec)) as [Hlt|Hge].
    + assert (Hd : Zdigits2 m <= prec) by (apply Zdigits2_upper; lia).
      assert (Hd' : emin prec emax < e -> prec <= Zdigits2 m).
      { intros H. apply Zdigits2_lower; [lia|]. apply Hn, H. }
      assert (Hk : fexp prec emax (Zdigits2 m + e) - e = 0) by (unfold fexp; lia).
      rewrite Hk. simpl. destruct m as [|p|p]; try lia. reflexivity.
    + assert (m = 2 ^ prec) by lia. subst m.
      assert (Hd : Zdigits2 (2 ^ prec) = prec + 1).
      { apply Z.le_antisymm.
        - apply Zdigits2_upper; [lia|].
          assert (2 ^ (prec + 1) = 2 * 2 ^ prec)
            by (rewrite <- Z.pow_succ_r by lia; f_equal; lia).
          lia.
        - apply Zdigits2_lower; [lia|]. replace (prec + 1 - 1) with prec by lia. lia. }
      assert (Hk : fexp prec emax (Zdigits2 (2 ^ prec) + e) - e = 1)
        by (rewrite Hd; unfold fexp; lia).
      rewrite Hk. unfold shr. simpl shr_record_of_loc.
      change (SpecFloat.iter_pos shr_1 1 ?r) with (shr_1 r).
      rewrite Hpp, shr_1_exact by lia. cbn [shr_m].
      destruct (2 ^ (prec - 1)) as [|p|p] eqn:Hq; try lia. reflexivity.
Qed.

(** The order of two numbers of the format, by exponent first. *)
Lemma finalized_leb m e m' e' :
  rounded_state m e -> rounded_state m' e' ->
  e < e' \/ (e = e' /\ m <= m') ->
  SFleb (finalized false m e) (finalized false m' e') = true.
Proof.
  intros (He & Hm & Hn) (He' & Hm' & Hn') Hle.
  assert (Hp : 0 < 2 ^ (prec - 1)) by (apply Z.pow_pos_nonneg; lia).
  assert (Hpp : 2 ^ prec = 2 * 2 ^ (prec - 1)).
  { rewrite <- Z.pow_succ_r by lia. f_equal. lia. }
  unfold finalized.
  destruct (Z.eqb_spec m 0), (Z.eqb_spec m' 0), (Z.ltb_spec m (2 ^ prec)),
    (Z.ltb_spec m' (2 ^ prec)), (Z.leb_spec e (emax - prec)),
    (Z.leb_spec e' (emax - prec)), (Z.leb_spec (e + 1) (emax - prec)),
    (Z.leb_spec (e' + 1) (emax - prec)); try lia; try reflexivity;
    unfold SFleb, SFcompare;
    repeat match goal with
    | |- context [Z.compare ?a ?b] => destruct (Z.compare_spec a b)
    | |- context [Pos.compare_cont Eq ?a ?b] =>
        change (Pos.compare_cont Eq a b) with (Pos.compare a b);
        destruct (Pos.compare_spec a b)
    end; try reflexivity; try lia.
Qed.

(** The exact value [A / B] at exponent [e], before the rounding: its
    integer part fits the precision, and fills it above the smallest
    exponent. *)
Definition pre_state (A B e : Z) : Prop :=
  emin prec emax <= e /\ 0 <= A / B < 2 ^ prec /\
  (emin prec emax < e -> 2 ^ (prec - 1) <= A / B).

Lemma pre_state_rounded A B e :
  0 < B -> pre_state A B e -> rounded_state (rne_code (enc A B)) e.
Proof.
  intros HB (He & Hm & Hn). pose proof (rne_code_bounds (enc A B)) as Hr.
  rewrite enc_div4 in Hr by exact HB.
  split; [exact He|]. split; [lia|]. intros H. specialize (Hn H). lia.
Qed.

(** [binary_round_aux] on a mantissa [mx] with location [lx] that stand
    for the quotient [A / B]: the result is the nearest number to
    [A / B 2^ex]. *)
Lemma round_aux_state s mx ex lx A B :
  0 <= mx -> 0 < B -> code (shr_record_of_loc mx lx) = enc A B ->
  ex <= fexp prec emax (Zdigits2 mx + ex) ->
  binary_round_aux prec emax s mx ex lx =
    finalized s (rne_code (enc A (B * 2 ^ (fexp prec emax (Zdigits2 mx + ex) - ex))))
              (fexp prec emax (Zdigits2 mx + ex)) /\
  pre_state A (B * 2 ^ (fexp prec emax (Zdigits2 mx + ex) - ex))
            (fexp prec emax (Zdigits2 mx + ex)).
Proof.
  intros Hmx HB Hcode Hex.
  set (e1 := fexp prec emax (Zdigits2 mx + ex)) in *.
  set (k := e1 - ex). assert (Hk : 0 <= k) by (unfold k; lia).
  assert (H2k : 0 < 2 ^ k) by (apply Z.pow_pos_nonneg; lia).
  assert (HB' : 0 < B * 2 ^ k) by (apply Z.mul_pos_pos; assumption).
  assert (Hq : A / B = mx).
  { rewrite <- (enc_div4 A B HB), <- Hcode, code_shr_m; rewrite shr_m_of_loc; [reflexivity|exact Hmx]. }
  assert (Hms : A / (B * 2 ^ k) = mx / 2 ^ k).
  { rewrite <- Hq. symmetry. apply Z.div_div; lia. }
  assert (Hpre : pre_state A (B * 2 ^ k) e1).
  { unfold pre_state. rewrite Hms. split; [unfold e1, fexp; lia|]. split.
    - split; [apply Z.div_pos; lia|].
      apply Z.div_lt_upper_bound; [lia|].
      destruct (Z.eq_dec mx 0) as [->|Hne].
      + apply Z.mul_pos_pos; [lia|apply Z.pow_pos_nonneg; lia].
      + destruct (Zdigits2_bounds mx ltac:(lia)) as [_ Hu].
        rewrite <- Z.pow_add_r by lia.
        assert (2 ^ Zdigits2 mx <= 2 ^ (k + prec)).
        { apply Z.pow_le_mono_r; [lia|]. unfold k, e1, fexp. lia. }
        lia.
    - intros Hmin.
      assert (Hpos : 0 < mx).
      { destruct (Z.eq_dec mx 0) as [E|E]; [|lia]. exfalso.
        unfold e1, fexp in Hex, Hmin. rewrite E in Hex, Hmin.
        simpl Zdigits2 in Hex, Hmin. lia. }
      destruct (Zdigits2_bounds mx Hpos) as [Hl _].
      apply Z.div_le_lower_bound; [lia|].
      rewrite <- Z.pow_add_r by lia.
      replace (k + (prec - 1)) with (Zdigits2 mx - 1); [exact Hl|].
      unfold k, e1, fexp in *. lia. }
  split; [|exact Hpre].
  rewrite binary_round_aux_finalize. unfold shr_fexp. fold e1. fold k.
  destruct (shr_enc (shr_record_of_loc mx lx) ex k A B) as (H1 & H2 & H3);
    try assumption; [rewrite shr_m_of_loc; exact Hmx|].
  rewrite H1, code_rne, H2 by exact H3.
  replace (ex + k) with e1 by (unfold k; lia).
  apply finalize_cases, pre_state_rounded; assumption.
Qed.

(** Rounding to nearest is monotone: of two exact values, the smaller one
    is rounded to the smaller number. *)
Lemma states_leb A B e A' B' e' :
  0 < B -> 0 < B' -> 0 <= A -> 0 <= A' ->
  pre_state A B e -> pre_state A' B' e' ->
  A * B' * 2 ^ (e - Z.min e e') <= A' * B * 2 ^ (e' - Z.min e e') ->
  SFleb (finalized false (rne_code (enc A B)) e)
        (finalized false (rne_code (enc A' B')) e') = true.
Proof.
  intros HB HB' HA HA' Hs Hs' Hle.
  apply finalized_leb; try (apply pre_state_rounded; assumption).
  destruct Hs as (He & Hm & Hn), Hs' as (He' & Hm' & Hn').
  assert (Hp : 0 < 2 ^ (prec - 1)) by (apply Z.pow_pos_nonneg; lia).
  assert (Hpp : 2 ^ prec = 2 * 2 ^ (prec - 1)).
  { rewrite <- Z.pow_succ_r by lia. f_equal. lia. }
  destruct (Z.lt_trichotomy e e') as [Hlt|[Heq|Hgt]].
  - left. exact Hlt.
  - right. split; [exact Heq|]. subst e'.
    rewrite Z.min_id, Z.sub_diag, Z.pow_0_r, !Z.mul_1_r in Hle.
    apply rne_code_mono.
    rewrite <- (enc_scale A B B'), <- (enc_scale A' B' B) by lia.
    rewrite (Z.mul_comm B' B). apply enc_mono; [|exact Hle].
    apply Z.mul_pos_pos; assumption.
  - exfalso. specialize (Hn ltac:(lia)).
    rewrite Z.min_r, Z.sub_diag, Z.pow_0_r, Z.mul_1_r in Hle by lia.
    assert (H2 : 2 <= 2 ^ (e - e')).
    { change 2 with (2 ^ 1) at 1. apply Z.pow_le_mono_r; lia. }
    assert (HAl : 2 ^ (prec - 1) * B <= A).
    { pose proof (Z.mul_div_le A B HB). nia. }
    assert (HAu : A' < 2 ^ prec * B').
    { pose proof (Z.mod_pos_bound A' B' HB'). pose proof (Z.div_mod A' B' ltac:(lia)). nia. }
    assert (0 <= A * B') by (apply Z.mul_nonneg_nonneg; lia).
    assert (A * B' * 2 <= A * B' * 2 ^ (e - e')) by (apply Z.mul_le_mono_nonneg_l; lia).
    assert (2 ^ (prec - 1) * B * B' <= A * B') by (apply Z.mul_le_mono_nonneg_r; lia).
    assert (A' * B < 2 ^ prec * B' * B) by (apply Z.mul_lt_mono_pos_r; lia).
    nia.
Qed.

Lemma enc_one N : enc N 1 = 4 * N.
Proof. unfold enc. rewrite Z.div_1_r, Z.mod_1_r. simpl. lia. Qed.

(** A number of the format is its own rounding. *)
Lemma canonical_finalized m e :
  canonical prec emax m e -> e <= emax - prec ->
  S754_finite false m e = finalized false (rne_code (enc (Z.pos m) 1)) e /\
  pre_state (Z.pos m) 1 e.
Proof.
  intros Hc He. pose proof (digits2_pos_bounds m) as [Hl Hu].
  pose proof (canonical_digits prec emax m e Hc) as Hd.
  assert (Hlt : Z.pos m < 2 ^ prec).
  { assert (2 ^ Z.pos (digits2_pos m) <= 2 ^ prec) by (apply Z.pow_le_mono_r; lia). lia. }
  split.
  - rewrite enc_one, rne_code_exact. unfold finalized.
    destruct (Z.eqb_spec (Z.pos m) 0); [lia|].
    destruct (Z.ltb_spec (Z.pos m) (2 ^ prec)); [|lia].
    destruct (Z.leb_spec e (emax - prec)); [reflexivity|lia].
  - unfold pre_state. rewrite Z.div_1_r. split; [|split; [lia|]].
    + unfold canonical, fexp in Hc. lia.
    + intros Hmin. rewrite <- (canonical_normal prec emax m e Hc Hmin). exact Hl.
Qed.

(** The location [SFdiv_core_binary] computes is the position of the
    quotient. *)
Lemma new_location_code n d :
  0 < d ->
  code (shr_record_of_loc (n / d) (new_location d (n mod d))) = enc n d.
Proof.
  intros Hd. rewrite code_of_loc. unfold enc.
  destruct (double_div_mod n d Hd) as [-> ->].
  pose proof (Z.mod_pos_bound n d Hd) as Hb.
  set (q := n / d). set (r := n mod d) in *.
  unfold new_location.
  destruct (Z.even d) eqn:Hev; unfold new_location_even, new_location_odd;
    destruct (Z.eqb_spec r 0) as [Hr|Hr].
  - rewrite Hr. destruct (Z.ltb_spec (2 * 0) d); [simpl; lia|lia].
  - destruct (Z.compare_spec (2 * r) d), (Z.ltb_spec (2 * r) d); try lia;
      match goal with
      | |- context [?a =? 0] => destruct (Z.eqb_spec a 0)
      end; lia.
  - rewrite Hr. destruct (Z.ltb_spec (2 * 0) d); [simpl; lia|lia].
  - assert (Ho : Z.odd d = true) by (rewrite <- Z.negb_even, Hev; reflexivity).
    apply Z.odd_spec in Ho. destruct Ho as [k Hk].
    destruct (Z.compare_spec (2 * r + 1) d), (Z.ltb_spec (2 * r) d); try lia;
      match goal with
      | |- context [?a =? 0] => destruct (Z.eqb_spec a 0)
      end; lia.
Qed.

Lemma finalized_valid s m e :
  rounded_state m e -> valid_binary prec emax (finalized s m e) = true.
Proof.
  intros (He & Hm & Hn). unfold finalized.
  assert (Hp : 0 < 2 ^ (prec - 1)) by (apply Z.pow_pos_nonneg; lia).
  assert (Hpp : 2 ^ prec = 2 * 2 ^ (prec - 1)).
  { rewrite <- Z.pow_succ_r by lia. f_equal. lia. }
  destruct (Z.eqb_spec m 0); [reflexivity|].
  destruct (Z.ltb_spec m (2 ^ prec)).
  - destruct (Z.leb_spec e (emax - prec)); [|reflexivity].
    simpl. unfold bounded. apply andb_true_iff. split; [|apply Z.leb_le; lia].
    apply canonical_iff. unfold canonical.
    destruct m as [|p|p]; try lia. simpl Z.to_pos.
    change (Z.pos (digits2_pos p)) with (Zdigits2 (Z.pos p)).
    assert (Hd : Zdigits2 (Z.pos p) <= prec) by (apply Zdigits2_upper; lia).
    assert (Hd' : emin prec emax < e -> prec <= Zdigits2 (Z.pos p)).
    { intros Hlt. apply Zdigits2_lower; [lia|]. apply Hn, Hlt. }
    unfold fexp. lia.
  - destruct (Z.leb_spec (e + 1) (emax - prec)); [|reflexivity].
    simpl. unfold bounded. apply andb_true_iff. split; [|apply Z.leb_le; lia].
    apply canonical_iff. unfold canonical.
    destruct (2 ^ (prec - 1)) as [|p|p] eqn:Hq; try lia. simpl Z.to_pos.
    change (Z.pos (digits2_pos p)) with (Zdigits2 (Z.pos p)).
    assert (Hd : Zdigits2 (Z.pos p) = prec).
    { apply Z.le_antisymm.
      - apply Zdigits2_upper; lia.
      - apply Zdigits2_lower; lia. }
    rewrite Hd. unfold fexp. lia.
Qed.

Lemma finalized_nonneg m e :
  0 <= m -> SFleb (S754_zero false) (finalized false m e) = true.
Proof.
  intros Hm. unfold finalized.
  destruct (m =? 0); [reflexivity|].
  destruct (m <? 2 ^ prec); [destruct (e <=? emax - prec)|
    destruct (e + 1 <=? emax - prec)]; reflexivity.
Qed.

Lemma finalized_shape m e :
  match finalized false m e with
  | S754_zero false | S754_infinity false | S754_finite false _ _ => True
  | _ => False
  end.
Proof.
  unfold finalized.
  destruct (m =? 0); [exact I|].
  destruct (m <? 2 ^ prec); [destruct (e <=? emax - prec)|
    destruct (e + 1 <=? emax - prec)]; exact I.
Qed.

Lemma fexp_mono a b : a <= b -> fexp prec emax a <= fexp prec emax b.
Proof. unfold fexp. lia. Qed.

Lemma SFdiv_core_binary_spec m1 e1 m2 e2 :
  0 < m1 -> 0 < m2 ->
  let e' := Z.min (fexp prec emax (Zdigits2 m1 + e1 - (Zdigits2 m2 + e2))) (e1 - e2) in
  SFdiv_core_binary prec emax m1 e1 m2 e2 =
    ((m1 * 2 ^ (e1 - e2 - e')) / m2, e',
     new_location m2 ((m1 * 2 ^ (e1 - e2 - e')) mod m2)) /\
  e' <= fexp prec emax (Zdigits2 ((m1 * 2 ^ (e1 - e2 - e')) / m2) + e').
Proof.
  intros Hm1 Hm2 e'. unfold SFdiv_core_binary. fold e'.
  set (sft := e1 - e2 - e'). assert (Hs : 0 <= sft) by (unfold sft, e'; lia).
  assert (Hm' : match sft with
                | Z0 => m1
                | Zpos _ => Z.shiftl m1 sft
                | Zneg _ => 0
                end = m1 * 2 ^ sft).
  { destruct sft as [|p|p] eqn:E; try lia.
    apply Z.shiftl_mul_pow2. lia. }
  rewrite Hm'. split.
  - unfold Z.div, Z.modulo.
    destruct (Z.div_eucl (m1 * 2 ^ sft) m2) as [q r]. reflexivity.
  - set (q := m1 * 2 ^ sft / m2).
    set (n := Zdigits2 m1 + sft - Zdigits2 m2).
    assert (H2s : 0 < 2 ^ sft) by (apply Z.pow_pos_nonneg; lia).
    destruct (Zdigits2_bounds m1 Hm1) as [Hl1 _].
    destruct (Zdigits2_bounds m2 Hm2) as [_ Hu2].
    pose proof (Zdigits2_nonneg m2) as Hd2.
    assert (Hd1 : 1 <= Zdigits2 m1) by (destruct m1; simpl; lia).
    assert (Hq0 : 0 <= q) by (apply Z.div_pos; nia).
    assert (Hn : 1 <= n -> 2 ^ (n - 1) <= q).
    { intros H1. apply Z.div_le_lower_bound; [lia|].
      assert (m2 * 2 ^ (n - 1) <= 2 ^ Zdigits2 m2 * 2 ^ (n - 1)).
      { apply Z.mul_le_mono_nonneg_r; [apply Z.pow_nonneg|]; lia. }
      assert (2 ^ Zdigits2 m2 * 2 ^ (n - 1) = 2 ^ (Zdigits2 m1 - 1) * 2 ^ sft).
      { rewrite <- !Z.pow_add_r by lia. f_equal. unfold n. lia. }
      assert (2 ^ (Zdigits2 m1 - 1) * 2 ^ sft <= m1 * 2 ^ sft)
        by (apply Z.mul_le_mono_nonneg_r; lia).
      lia. }
    assert (HD0 : Zdigits2 m1 + e1 - (Zdigits2 m2 + e2) = n + e')
      by (unfold n, sft; lia).
    assert (He' : e' <= fexp prec emax (n + e')) by (rewrite <- HD0; unfold e'; lia).
    destruct (Z.le_gt_cases 1 n) as [H1|H1].
    + assert (Hqpos : 0 < q).
      { specialize (Hn H1). assert (0 < 2 ^ (n - 1)) by (apply Z.pow_pos_nonneg; lia). lia. }
      assert (n <= Zdigits2 q) by (apply Zdigits2_lower; auto).
      pose proof (fexp_mono (n + e') (Zdigits2 q + e') ltac:(lia)). lia.
    + pose proof (Zdigits2_nonneg q). unfold fexp in *. lia.
Qed.

(** The quotient of two positive numbers, as a rounding. *)
Lemma SFdiv_state ma ea ms es :
  exists e' e1,
    e' <= ea - es /\ e' <= e1 /\
    SFdiv prec emax (S754_finite false ma ea) (S754_finite false ms es) =
      finalized false
        (rne_code (enc (Z.pos ma * 2 ^ (ea - es - e')) (Z.pos ms * 2 ^ (e1 - e')))) e1 /\
    pre_state (Z.pos ma * 2 ^ (ea - es - e')) (Z.pos ms * 2 ^ (e1 - e')) e1.
Proof.
  destruct (SFdiv_core_binary_spec (Z.pos ma) ea (Z.pos ms) es) as [Hcore Hfexp];
    try lia.
  set (e' := Z.min (fexp prec emax (Zdigits2 (Z.pos ma) + ea - (Zdigits2 (Z.pos ms) + es)))
                   (ea - es)) in *.
  set (A := Z.pos ma * 2 ^ (ea - es - e')) in *.
  assert (HA : 0 <= A).
  { unfold A. apply Z.mul_nonneg_nonneg; [lia|apply Z.pow_nonneg; lia]. }
  exists e', (fexp prec emax (Zdigits2 (A / Z.pos ms) + e')).
  split; [unfold e'; lia|]. split; [exact Hfexp|].
  unfold SFdiv. rewrite Hcore. cbn [xorb].
  apply round_aux_state.
  - apply Z.div_pos; lia.
  - lia.
  - apply new_location_code. lia.
  - exact Hfexp.
Qed.

Lemma scaled_le m m' a a' u u' :
  0 <= u -> 0 <= u' -> u - a = u' - a' ->
  m * 2 ^ (a - Z.min a a') <= m' * 2 ^ (a' - Z.min a a') ->
  m * 2 ^ u <= m' * 2 ^ u'.
Proof.
  intros Hu Hu' Heq Hle.
  set (t := u - (a - Z.min a a')).
  assert (Ht : 0 <= t) by (unfold t; lia).
  replace u with ((a - Z.min a a') + t) by (unfold t; lia).
  replace u' with ((a' - Z.min a a') + t) by (unfold t; lia).
  rewrite !Z.pow_add_r, !Z.mul_assoc by lia.
  apply Z.mul_le_mono_nonneg_r; [apply Z.pow_nonneg; lia|exact Hle].
Qed.

Lemma SFleb_canonical m e m' e' :
  canonical prec emax m e -> canonical prec emax m' e' ->
  SFleb (S754_finite false m e) (S754_finite false m' e') = true ->
  Z.pos m * 2 ^ (e - Z.min e e') <= Z.pos m' * 2 ^ (e' - Z.min e e').
Proof.
  intros Hc Hc'. unfold SFleb.
  rewrite (SFcompare_canonical prec emax) by assumption.
  destruct (Z.compare_spec (Z.pos m * 2 ^ (e - Z.min e e'))
                           (Z.pos m' * 2 ^ (e' - Z.min e e'))); try lia.
Qed.

(** Division by a positive number is monotone in the dividend. *)
Lemma SFdiv_mono ma ea ma' ea' ms es :
  canonical prec emax ma ea -> canonical prec emax ma' ea' ->
  SFleb (S754_finite false ma ea) (S754_finite false ma' ea') = true ->
  SFleb (SFdiv prec emax (S754_finite false ma ea) (S754_finite false ms es))
        (SFdiv prec emax (S754_finite false ma' ea') (S754_finite false ms es)) = true.
Proof.
  intros Hc Hc' Hle.
  pose proof (SFleb_canonical ma ea ma' ea' Hc Hc' Hle) as Hv.
  destruct (SFdiv_state ma ea ms es) as (e0 & e1 & He0 & He1 & -> & Hs).
  destruct (SFdiv_state ma' ea' ms es) as (e0' & e1' & He0' & He1' & -> & Hs').
  assert (Hpow : forall k, 0 <= k -> 0 < 2 ^ k) by (intros; apply Z.pow_pos_nonneg; lia).
  apply states_leb; try assumption.
  - apply Z.mul_pos_pos; [lia|apply Hpow; lia].
  - apply Z.mul_pos_pos; [lia|apply Hpow; lia].
  - apply Z.mul_nonneg_nonneg; [lia|apply Z.pow_nonneg; lia].
  - apply Z.mul_nonneg_nonneg; [lia|apply Z.pow_nonneg; lia].
  - set (c := Z.min e1 e1').
    replace (Z.pos ma * 2 ^ (ea - es - e0) * (Z.pos ms * 2 ^ (e1' - e0')) * 2 ^ (e1 - c))
      with (Z.pos ms * (Z.pos ma * 2 ^ ((ea - es - e0) + (e1' - e0') + (e1 - c))))
      by (rewrite !Z.pow_add_r by (unfold c; lia); ring).
    replace (Z.pos ma' * 2 ^ (ea' - es - e0') * (Z.pos ms * 2 ^ (e1 - e0)) * 2 ^ (e1' - c))
      with (Z.pos ms * (Z.pos ma' * 2 ^ ((ea' - es - e0') + (e1 - e0) + (e1' - c))))
      by (rewrite !Z.pow_add_r by (unfold c; lia); ring).
    apply Z.mul_le_mono_nonneg_l; [lia|].
    apply (scaled_le _ _ ea ea'); unfold c; lia.
Qed.

(** A quotient of positive numbers is not negative, and a number divided
    by itself is one. *)
Lemma SFdiv_nonneg ma ea ms es :
  SFleb (S754_zero false)
        (SFdiv prec emax (S754_finite false ma ea) (S754_finite false ms es)) = true.
Proof.
  destruct (SFdiv_state ma ea ms es) as (e0 & e1 & He0 & He1 & -> & Hs).
  apply finalized_nonneg.
  pose proof (rne_code_bounds (enc (Z.pos ma * 2 ^ (ea - es - e0))
                                   (Z.pos ms * 2 ^ (e1 - e0)))) as Hb.
  rewrite enc_div4 in Hb.
  - destruct Hs as (_ & Hm & _). lia.
  - apply Z.mul_pos_pos; [lia|apply Z.pow_pos_nonneg; lia].
Qed.

(** The sum of two positive numbers, as a rounding. *)
Lemma SFadd_state mc ec mh eh :
  exists mz ez e1,
    ez <= Z.min ec eh /\ ez <= e1 /\
    Z.pos mz = (Z.pos mc * 2 ^ (ec - Z.min ec eh) +
                Z.pos mh * 2 ^ (eh - Z.min ec eh)) * 2 ^ (Z.min ec eh - ez) /\
    SFadd prec emax (S754_finite false mc ec) (S754_finite false mh eh) =
      finalized false (rne_code (enc (Z.pos mz) (1 * 2 ^ (e1 - ez)))) e1 /\
    pre_state (Z.pos mz) (1 * 2 ^ (e1 - ez)) e1.
Proof.
  unfold SFadd. cbn [cond_Zopp]. set (e0 := Z.min ec eh).
  destruct (shl_align_spec mc ec e0) as (m1 & H1 & Hv1).
  destruct (shl_align_spec mh eh e0) as (m2 & H2 & Hv2).
  rewrite H1, H2. cbn [fst].
  replace (Z.min ec e0) with e0 in Hv1 by (unfold e0; lia).
  replace (Z.min eh e0) with e0 in Hv2 by (unfold e0; lia).
  change (Z.pos m1 + Z.pos m2) with (Z.pos (m1 + m2)).
  unfold binary_normalize, binary_round.
  set (p := (m1 + m2)%positive).
  set (t := fexp prec emax (Z.pos (digits2_pos p) + e0)).
  destruct (shl_align_spec p e0 t) as (mz & Hz & Hvz). rewrite Hz.
  set (ez := Z.min e0 t) in *.
  assert (Hd : Z.pos (digits2_pos mz) = Z.pos (digits2_pos p) + (e0 - ez)).
  { apply digits2_pos_shift; [unfold ez; lia|exact Hvz]. }
  assert (Ht : fexp prec emax (Zdigits2 (Z.pos mz) + ez) = t).
  { simpl Zdigits2. rewrite Hd. unfold t. f_equal. lia. }
  exists mz, ez, t. split; [unfold ez; lia|]. split; [unfold ez; lia|]. split.
  - rewrite Hvz. f_equal. unfold p. rewrite Pos2Z.inj_add, Hv1, Hv2. reflexivity.
  - rewrite <- Ht. apply round_aux_state.
    + lia.
    + lia.
    + rewrite code_of_loc, enc_one. lia.
    + rewrite Ht. unfold ez. lia.
Qed.

(** Adding a positive number does not make a number of the format
    smaller. *)
Lemma SFadd_ge mc ec mh eh :
  canonical prec emax mc ec -> ec <= emax - prec ->
  SFleb (S754_finite false mc ec)
        (SFadd prec emax (S754_finite false mc ec) (S754_finite false mh eh)) = true.
Proof.
  intros Hc He.
  destruct (SFadd_state mc ec mh eh) as (mz & ez & e1 & Hez & He1 & Hmz & -> & Hs).
  destruct (canonical_finalized mc ec Hc He) as [Heq Hsc]. rewrite Heq.
  assert (Hpow : forall k, 0 <= k -> 0 < 2 ^ k) by (intros; apply Z.pow_pos_nonneg; lia).
  apply states_leb; try assumption; try lia;
    try (apply Z.mul_pos_pos; [lia|apply Hpow; lia]).
  - set (c := Z.min ec e1). set (e0 := Z.min ec eh) in *.
    set (W := 2 ^ (e0 - ez) * 2 ^ (e1 - c)).
    assert (HW : 0 <= W).
    { apply Z.mul_nonneg_nonneg; apply Z.pow_nonneg; lia. }
    assert (HY : 0 <= Z.pos mh * 2 ^ (eh - e0))
      by (apply Z.mul_nonneg_nonneg; [lia|apply Z.pow_nonneg; lia]).
    assert (HL : Z.pos mc * (1 * 2 ^ (e1 - ez)) * 2 ^ (ec - c) =
                 Z.pos mc * 2 ^ (ec - e0) * W).
    { unfold W. rewrite Z.mul_1_l, <- !Z.mul_assoc, <- !Z.pow_add_r
        by (unfold c, e0 in *; lia).
      do 2 f_equal. lia. }
    assert (HR : Z.pos mz * 1 * 2 ^ (e1 - c) =
                 (Z.pos mc * 2 ^ (ec - e0) + Z.pos mh * 2 ^ (eh - e0)) * W).
    { rewrite Hmz. unfold W. ring. }
    rewrite HL, HR. apply Z.mul_le_mono_nonneg_r; lia.
Qed.

Lemma SFadd_valid mc ec mh eh :
  valid_binary prec emax
    (SFadd prec emax (S754_finite false mc ec) (S754_finite false mh eh)) = true /\
  SFleb (S754_zero false)
    (SFadd prec emax (S754_finite false mc ec) (S754_finite false mh eh)) = true.
Proof.
  destruct (SFadd_state mc ec mh eh) as (mz & ez & e1 & Hez & He1 & Hmz & -> & Hs).
  assert (HB : 0 < 1 * 2 ^ (e1 - ez))
    by (apply Z.mul_pos_pos; [lia|apply Z.pow_pos_nonneg; lia]).
  pose proof (pre_state_rounded _ _ _ HB Hs) as Hr.
  split; [apply finalized_valid, Hr|].
  apply finalized_nonneg. destruct Hr as (_ & Hm & _). lia.
Qed.

Lemma SFadd_shape mc ec mh eh :
  match SFadd prec emax (S754_finite false mc ec) (S754_finite false mh eh) with
  | S754_zero false | S754_infinity false | S754_finite false _ _ => True
  | _ => False
  end.
Proof.
  destruct (SFadd_state mc ec mh eh) as (mz & ez & e1 & _ & _ & _ & -> & _).
  apply finalized_shape.
Qed.
End Rounding.

(** *** Valid binary32 numbers *)

Lemma F32_valid_canonical s m e :
  F32.valid (S754_finite s m e) = true -> canonical F32.prec F32.emax m e.
Proof.
  unfold F32.valid, valid_binary, bounded. intros H.
  apply andb_true_iff in H as [H _]. apply canonical_iff in H. exact H.
Qed.

Lemma F32_valid_bounded s m e :
  F32.valid (S754_finite s m e) = true -> e <= F32.emax - F32.prec.
Proof.
  unfold F32.valid, valid_binary, bounded. intros H.
  apply andb_true_iff in H as [_ H]. apply Z.leb_le in H. exact H.
Qed.

(** ** Conversions between binary32 and binary64 *)

Lemma F64_prec : 1 < F64.prec.
Proof. reflexivity. Qed.

Lemma F64_emax : F64.prec < F64.emax.
Proof. reflexivity. Qed.

Ltac f64 := first [exact F64_prec | exact F64_emax | eassumption | lia].

Lemma mul_compare_pos a b k : 0 < k -> (a * k ?= b * k) = (a ?= b).
Proof.
  intros Hk. destruct (Z.compare_spec a b).
  - subst. apply Z.compare_refl.
  - apply Z.compare_lt_iff. nia.
  - apply Z.compare_gt_iff. nia.
Qed.

Lemma compare_scaled m e m' e' c c' :
  c <= e -> c <= e' -> c' <= e -> c' <= e' ->
  (m * 2 ^ (e - c) ?= m' * 2 ^ (e' - c)) =
  (m * 2 ^ (e - c') ?= m' * 2 ^ (e' - c')).
Proof.
  assert (H : forall c c', c' <= c -> c <= e -> c <= e' ->
            (m * 2 ^ (e - c') ?= m' * 2 ^ (e' - c')) =
            (m * 2 ^ (e - c) ?= m' * 2 ^ (e' - c))).
  { clear c c'. intros c c' Hc He He'.
    replace (e - c') with ((e - c) + (c - c')) by lia.
    replace (e' - c') with ((e' - c) + (c - c')) by lia.
    rewrite !Z.pow_add_r, !Z.mul_assoc by lia.
    apply mul_compare_pos. apply Z.pow_pos_nonneg; lia. }
  intros H1 H2 H3 H4. destruct (Z.le_ge_cases c c').
  - apply H; lia.
  - symmetry. apply H; lia.
Qed.

Lemma F32_valid_emin s m e :
  F32.valid (S754_finite s m e) = true -> -149 <= e.
Proof.
  intros H. apply F32_valid_canonical in H. unfold canonical, fexp, emin in H.
  change F32.prec with 24 in H. change F32.emax with 128 in H. lia.
Qed.

(** The binary64 number a binary32 number converts to: the same value with
    a mantissa of 53 digits. *)
Lemma of_float_finite s m e :
  F32.valid (S754_finite s m e) = true ->
  exists M E,
    (forall s', F64.of_float (S754_finite s' m e) = S754_finite s' M E) /\
    canonical F64.prec F64.emax M E /\ E <= F64.emax - F64.prec /\
    E <= e /\ Z.pos M = Z.pos m * 2 ^ (e - E).
Proof.
  intros Hv. pose proof (F32_valid_canonical _ _ _ Hv) as Hc.
  pose proof (F32_valid_bounded _ _ _ Hv) as Hb.
  pose proof (F32_valid_emin _ _ _ Hv) as Hm.
  pose proof (canonical_digits F32.prec F32.emax m e Hc) as Hd.
  change F32.prec with 24 in *. change F32.emax with 128 in *.
  set (d := Z.pos (digits2_pos m)) in *.
  assert (Hd1 : 1 <= d) by (unfold d; lia).
  set (E := d + e - 53).
  assert (Hpos : 0 < Z.pos m * 2 ^ (e - E)).
  { apply Z.mul_pos_pos; [lia|apply Z.pow_pos_nonneg; unfold E; lia]. }
  destruct (Z.pos m * 2 ^ (e - E)) as [|M|M] eqn:HM; try lia.
  assert (HdM : Z.pos (digits2_pos M) = d + (e - E)).
  { apply digits2_pos_shift; [unfold E; lia|]. rewrite HM. reflexivity. }
  assert (HcM : canonical F64.prec F64.emax M E).
  { unfold canonical, fexp, emin. rewrite HdM.
    change F64.prec with 53. change F64.emax with 1024. unfold E. lia. }
  exists M, E. split; [|split; [exact HcM|split; [|split]]].
  - intros s'. unfold F64.of_float. apply binary_round_exact; try f64.
    + change F64.prec with 53. change F64.emax with 1024. unfold E. lia.
    + rewrite Z.min_r by (unfold E; lia). rewrite Z.sub_diag, Z.mul_1_r. lia.
  - change F64.prec with 53. change F64.emax with 1024. unfold E. lia.
  - unfold E. lia.
  - lia.
Qed.

Lemma to_float_of_float v :
  F32.valid v = true -> F64.to_float (F64.of_float v) = v.
Proof.
  intros Hv. destruct v as [s|s| |s m e]; try reflexivity.
  destruct (of_float_finite s m e Hv) as (M & E & HM0 & HcM & HbM & HE & HM).
  rewrite HM0. unfold F64.to_float. apply binary_round_exact; try f32.
  - apply F32_valid_canonical with (s := s), Hv.
  - apply F32_valid_bounded with (s := s) (m := m), Hv.
  - rewrite Z.min_l by lia. rewrite Z.sub_diag, Z.mul_1_r. exact HM.
Qed.

Lemma SFcompare_negative m1 e1 m2 e2 :
  SFcompare (S754_finite true m1 e1) (S754_finite true m2 e2) =
  option_map CompOpp (SFcompare (S754_finite false m1 e1) (S754_finite false m2 e2)).
Proof. unfold SFcompare. simpl. destruct (e1 ?= e2); reflexivity. Qed.

(** The conversion keeps the order. *)
Lemma of_float_compare a b :
  F32.valid a = true -> F32.valid b = true ->
  SFcompare (F64.of_float a) (F64.of_float b) = SFcompare a b.
Proof.
  intros Ha Hb.
  destruct a as [sa|sa| |sa ma ea], b as [sb|sb| |sb mb eb]; try reflexivity;
    try (destruct (of_float_finite sb mb eb Hb) as (M & E & -> & _); reflexivity);
    try (destruct (of_float_finite sa ma ea Ha) as (M & E & -> & _); reflexivity).
  destruct (of_float_finite sa ma ea Ha) as (M1 & E1 & -> & Hc1 & _ & HE1 & HM1).
  destruct (of_float_finite sb mb eb Hb) as (M2 & E2 & -> & Hc2 & _ & HE2 & HM2).
  assert (Hpos : SFcompare (S754_finite false M1 E1) (S754_finite false M2 E2) =
                 SFcompare (S754_finite false ma ea) (S754_finite false mb eb)).
  { rewrite (SFcompare_canonical F64.prec F64.emax) by f64.
    rewrite (SFcompare_canonical F32.prec F32.emax)
      by (try f32; eapply F32_valid_canonical; eassumption).
    f_equal. rewrite HM1, HM2.
    rewrite <- !Z.mul_assoc, <- !Z.pow_add_r by lia.
    replace (ea - E1 + (E1 - Z.min E1 E2)) with (ea - Z.min E1 E2) by lia.
    replace (eb - E2 + (E2 - Z.min E1 E2)) with (eb - Z.min E1 E2) by lia.
    apply compare_scaled; lia. }
  destruct sa, sb; try reflexivity.
  - rewrite !SFcompare_negative, Hpos. reflexivity.
  - exact Hpos.
Qed.

Lemma F64_of_float_of_int n :
  0 <= n <= 2 ^ 24 -> F64.of_float (F32.of_int n) = F64.of_int n.
Proof.
  intros Hn.
  destruct (F32_of_int_int_float n Hn) as [[-> ->]|(Hpos & M & E & HM & Hc & HE & Hv)];
    [reflexivity|].
  assert (Hn' : 0 <= n <= 2 ^ F64.prec).
  { change (2 ^ F64.prec) with 9007199254740992. change (2 ^ 24) with 16777216 in Hn. lia. }
  destruct (Zfloat_int_float F64.prec F64.emax F64_prec F64_emax n Hn')
    as [[-> _]|(_ & M' & E' & HM' & Hc' & HE' & Hv')]; [lia|].
  change (F64.of_int n) with (Zfloat F64.prec F64.emax n).
  rewrite HM, HM'. unfold F64.of_float.
  change F32.prec with 24 in *. change F64.prec with 53 in *.
  apply binary_round_exact; try f64.
  - change F64.emax with 1024. change F64.prec with 53. lia.
  - set (c := Z.min E E').
    assert (Hc53 : 0 < 2 ^ (c + 53)) by (apply Z.pow_pos_nonneg; unfold c; lia).
    apply (Z.mul_reg_r _ _ (2 ^ (c + 53))); [lia|].
    rewrite <- !Z.mul_assoc, <- !Z.pow_add_r by (unfold c; lia).
    replace (E - c + (c + 53)) with ((E + 24) + 29) by lia.
    replace (E' - c + (c + 53)) with (E' + 53) by lia.
    rewrite Z.pow_add_r, Z.mul_assoc, Hv, Hv' by lia.
    rewrite <- Z.mul_assoc, <- Z.pow_add_r by lia. reflexivity.
Qed.

Lemma shift_le m m' v v' u u' :
  0 <= v -> 0 <= v' -> 0 <= u -> 0 <= u' -> u - v = u' - v' ->
  m * 2 ^ v <= m' * 2 ^ v' -> m * 2 ^ u <= m' * 2 ^ u'.
Proof.
  intros Hv Hv' Hu Hu' Heq Hle. destruct (Z.le_ge_cases v u) as [H|H].
  - replace u with (v + (u - v)) by lia. replace u' with (v' + (u - v)) by lia.
    rewrite !Z.pow_add_r, !Z.mul_assoc by lia.
    apply Z.mul_le_mono_nonneg_r; [apply Z.pow_nonneg; lia|exact Hle].
  - replace v with (u + (v - u)) in Hle by lia.
    replace v' with (u' + (v - u)) in Hle by lia.
    rewrite !Z.pow_add_r, !Z.mul_assoc in Hle by lia.
    apply Z.mul_le_mono_pos_r in Hle; [exact Hle|apply Z.pow_pos_nonneg; lia].
Qed.

Section Quotients.
Variables prec emax : Z.
Hypothesis Hprec : 1 < prec.

(** A quotient against a number [g] of the format: it is at least [g] when
    the exact quotient is, and at most [g] when the exact quotient is. *)
Lemma SFdiv_ge_canonical mg eg ma ea ms es K :
  canonical prec emax mg eg -> eg <= emax - prec ->
  0 <= eg + es + K -> 0 <= ea + K ->
  Z.pos mg * Z.pos ms * 2 ^ (eg + es + K) <= Z.pos ma * 2 ^ (ea + K) ->
  SFleb (S754_finite false mg eg)
        (SFdiv prec emax (S754_finite false ma ea) (S754_finite false ms es)) = true.
Proof.
  intros Hc Hb HK1 HK2 Hle.
  destruct (SFdiv_state prec emax Hprec ma ea ms es)
    as (e0 & e1 & He0 & He1 & -> & Hs).
  destruct (canonical_finalized prec emax Hprec mg eg Hc Hb) as [-> Hsg].
  assert (Hpow : forall k, 0 <= k -> 0 < 2 ^ k) by (intros; apply Z.pow_pos_nonneg; lia).
  apply (states_leb prec emax Hprec); try assumption; try lia;
    try (apply Z.mul_pos_pos; [lia|apply Hpow; lia]);
    try (apply Z.mul_nonneg_nonneg; [lia|apply Z.pow_nonneg; lia]).
  - set (c := Z.min eg e1).
    replace (Z.pos mg * (Z.pos ms * 2 ^ (e1 - e0)) * 2 ^ (eg - c))
      with (Z.pos mg * Z.pos ms * 2 ^ ((e1 - e0) + (eg - c)))
      by (rewrite Z.pow_add_r by (unfold c; lia); ring).
    replace (Z.pos ma * 2 ^ (ea - es - e0) * 1 * 2 ^ (e1 - c))
      with (Z.pos ma * 2 ^ ((ea - es - e0) + (e1 - c)))
      by (rewrite Z.pow_add_r by (unfold c; lia); ring).
    apply (shift_le _ _ (eg + es + K) (ea + K)); unfold c; lia.
Qed.

Lemma SFdiv_le_canonical mg eg ma ea ms es K :
  canonical prec emax mg eg -> eg <= emax - prec ->
  0 <= eg + es + K -> 0 <= ea + K ->
  Z.pos ma * 2 ^ (ea + K) <= Z.pos mg * Z.pos ms * 2 ^ (eg + es + K) ->
  SFleb (SFdiv prec emax (S754_finite false ma ea) (S754_finite false ms es))
        (S754_finite false mg eg) = true.
Proof.
  intros Hc Hb HK1 HK2 Hle.
  destruct (SFdiv_state prec emax Hprec ma ea ms es)
    as (e0 & e1 & He0 & He1 & -> & Hs).
  destruct (canonical_finalized prec emax Hprec mg eg Hc Hb) as [-> Hsg].
  assert (Hpow : forall k, 0 <= k -> 0 < 2 ^ k) by (intros; apply Z.pow_pos_nonneg; lia).
  apply (states_leb prec emax Hprec); try assumption; try lia;
    try (apply Z.mul_pos_pos; [lia|apply Hpow; lia]);
    try (apply Z.mul_nonneg_nonneg; [lia|apply Z.pow_nonneg; lia]).
  - set (c := Z.min e1 eg).
    replace (Z.pos ma * 2 ^ (ea - es - e0) * 1 * 2 ^ (e1 - c))
      with (Z.pos ma * 2 ^ ((ea - es - e0) + (e1 - c)))
      by (rewrite Z.pow_add_r by (unfold c; lia); ring).
    replace (Z.pos mg * (Z.pos ms * 2 ^ (e1 - e0)) * 2 ^ (eg - c))
      with (Z.pos mg * Z.pos ms * 2 ^ ((e1 - e0) + (eg - c)))
      by (rewrite Z.pow_add_r by (unfold c; lia); ring).
    apply (shift_le _ _ (ea + K) (eg + es + K)); unfold c; lia.
Qed.
End Quotients.

(** ** The share test of [median_extrapolation] *)

Lemma SFltb_not_leb a b : SFltb a b = true -> SFleb b a = false.
Proof.
  unfold SFleb, SFltb.
  destruct a as [sa|sa| |sa ma ea], b as [sb|sb| |sb mb eb];
    try destruct sa; try destruct sb; simpl;
    try discriminate; try reflexivity; intros H1;
    cmp_cases; simpl in *; try discriminate; try reflexivity; try lia.
Qed.

Lemma F32_div_valid ma ea ms es :
  F32.valid (F32.div (S754_finite false ma ea) (S754_finite false ms es)) = true.
Proof.
  unfold F32.div.
  destruct (SFdiv_state F32.prec F32.emax F32_prec ma ea ms es)
    as (e0 & e1 & He0 & He1 & -> & Hs).
  apply finalized_valid; [exact F32_prec|].
  apply pre_state_rounded; [exact F32_prec| |exact Hs].
  apply Z.mul_pos_pos; [lia|apply Z.pow_pos_nonneg; lia].
Qed.

Lemma F32_of_int_positive k :
  0 < k <= 2 ^ 24 ->
  exists M E, F32.of_int k = S754_finite false M E /\
    F32.valid (S754_finite false M E) = true /\
    -24 < E <= 1 /\ Z.pos M * 2 ^ (E + 24) = k * 2 ^ 24.
Proof.
  intros Hk.
  destruct (F32_of_int_int_float k ltac:(lia))
    as [[-> _]|(_ & M & E & HM & Hc & HE & Hv)]; [lia|].
  exists M, E. split; [exact HM|]. split; [|split; [exact HE|exact Hv]].
  unfold F32.valid, valid_binary, bounded. apply andb_true_iff. split.
  - apply canonical_iff. exact Hc.
  - apply Z.leb_le. change F32.emax with 128. change F32.prec with 24 in *. lia.
Qed.

(** The quotient of two counts is at least one half exactly when twice the
    dividend is at least the divisor. *)
Lemma F32_div_half L n :
  0 < L -> L <= n -> n <= 2 ^ 24 ->
  SFleb (S754_finite false 8388608 (-24)) (F32.div (F32.of_int L) (F32.of_int n)) =
  (n <=? 2 * L).
Proof.
  intros HL HLn Hn.
  destruct (F32_of_int_positive L ltac:(lia)) as (ma & ea & -> & Hva & Hea & Hma).
  destruct (F32_of_int_positive n ltac:(lia)) as (ms & es & -> & Hvs & Hes & Hms).
  change (2 ^ 24) with 16777216 in *.
  destruct (Z.leb_spec n (2 * L)) as [Hge|Hlt].
  - unfold F32.div.
    apply (SFdiv_ge_canonical F32.prec F32.emax F32_prec 8388608 (-24) ma ea ms es 48);
      try reflexivity; try lia;
      try (change F32.emax with 128; change F32.prec with 24; lia).
    replace (-24 + es + 48) with (es + 24) by lia.
    replace (ea + 48) with ((ea + 24) + 24) by lia.
    rewrite (Z.pow_add_r 2 (ea + 24) 24) by lia. change (2 ^ 24) with 16777216.
    replace (8388608 * Z.pos ms * 2 ^ (es + 24))
      with (8388608 * (Z.pos ms * 2 ^ (es + 24))) by ring.
    replace (Z.pos ma * (2 ^ (ea + 24) * 16777216))
      with (Z.pos ma * 2 ^ (ea + 24) * 16777216) by ring.
    rewrite Hms, Hma. lia.
  - apply SFltb_not_leb.
    apply (SFleb_ltb_trans _ (S754_finite false 16777215 (-25))); [|reflexivity].
    unfold F32.div.
    apply (SFdiv_le_canonical F32.prec F32.emax F32_prec 16777215 (-25) ma ea ms es 49);
      try reflexivity; try lia;
      try (change F32.emax with 128; change F32.prec with 24; lia).
    replace (-25 + es + 49) with (es + 24) by lia.
    replace (ea + 49) with ((ea + 24) + 25) by lia.
    rewrite (Z.pow_add_r 2 (ea + 24) 25) by lia. change (2 ^ 25) with 33554432.
    replace (16777215 * Z.pos ms * 2 ^ (es + 24))
      with (16777215 * (Z.pos ms * 2 ^ (es + 24))) by ring.
    replace (Z.pos ma * (2 ^ (ea + 24) * 33554432))
      with (Z.pos ma * 2 ^ (ea + 24) * 33554432) by ring.
    rewrite Hms, Hma. lia.
Qed.

Lemma ratio_reached_counts L U :
  0 <= L -> 0 <= U -> L + U <= 2 ^ 24 ->
  ratio_reached (F32.of_int L, F32.of_int U) = (0 <? L + U) && (L + U <=? 2 * L).
Proof.
  intros HL HU Hn. unfold ratio_reached.
  rewrite F32_add_of_int by lia.
  destruct (Z.eq_dec L 0) as [->|HL0].
  - destruct (Z.eq_dec U 0) as [->|HU0]; [reflexivity|].
    rewrite Z.add_0_r.
    destruct (F32_of_int_positive U ltac:(lia)) as (ms & es & -> & _).
    replace (0 + U <=? 2 * 0) with false by (symmetry; apply Z.leb_gt; lia).
    rewrite andb_false_r. reflexivity.
  - replace (0 <? L + U) with true by (symmetry; apply Z.ltb_lt; lia).
    rewrite andb_true_l, (Z.add_comm L U), <- (F32_div_half L (U + L)) by lia.
    destruct (F32_of_int_positive L ltac:(lia)) as (ma & ea & -> & Hva & _).
    destruct (F32_of_int_positive (U + L) ltac:(lia)) as (ms & es & -> & Hvs & _).
    unfold F64.geb.
    change F64.half with (F64.of_float (S754_finite false 8388608 (-24))).
    unfold SFleb. rewrite of_float_compare; [reflexivity|reflexivity|].
    apply F32_div_valid.
Qed.

(** ** The results of the operations are numbers of the format *)

Section Validity.
Variables prec emax : Z.
Hypothesis Hprec : 1 < prec.
Hypothesis Hemax : prec < emax.

Lemma binary_round_valid s m e :
  valid_binary prec emax (binary_round prec emax s m e) = true.
Proof.
  unfold binary_round.
  set (t := fexp prec emax (Z.pos (digits2_pos m) + e)).
  destruct (shl_align_spec m e t) as (mz & Hz & Hvz). rewrite Hz.
  set (ez := Z.min e t) in *.
  assert (Hd : Z.pos (digits2_pos mz) = Z.pos (digits2_pos m) + (e - ez)).
  { apply digits2_pos_shift; [unfold ez; lia|exact Hvz]. }
  assert (Ht : fexp prec emax (Zdigits2 (Z.pos mz) + ez) = t).
  { simpl Zdigits2. rewrite Hd. unfold t. f_equal. lia. }
  destruct (round_aux_state prec emax Hprec s (Z.pos mz) ez loc_Exact (Z.pos mz) 1)
    as [-> Hs]; try lia; try (rewrite code_of_loc, enc_one; lia);
    try (rewrite Ht; unfold ez; lia).
  apply finalized_valid; [exact Hprec|].
  apply pre_state_rounded; [exact Hprec| |exact Hs].
  apply Z.mul_pos_pos; [lia|apply Z.pow_pos_nonneg; [lia|rewrite Ht; unfold ez; lia]].
Qed.

Lemma binary_normalize_valid z e s :
  valid_binary prec emax (binary_normalize prec emax z e s) = true.
Proof. destruct z; [reflexivity|apply binary_round_valid..]. Qed.

Lemma SFadd_valid_all x y :
  valid_binary prec emax x = true -> valid_binary prec emax y = true ->
  valid_binary prec emax (SFadd prec emax x y) = true.
Proof.
  intros Hx Hy.
  destruct x as [sx|sx| |sx mx ex], y as [sy|sy| |sy my ey];
    try destruct sx; try destruct sy; try reflexivity; try assumption;
    apply binary_normalize_valid.
Qed.

Lemma SFsub_valid_all x y :
  valid_binary prec emax x = true -> valid_binary prec emax y = true ->
  valid_binary prec emax (SFsub prec emax x y) = true.
Proof.
  intros Hx Hy.
  destruct x as [sx|sx| |sx mx ex], y as [sy|sy| |sy my ey];
    try destruct sx; try destruct sy; try reflexivity; try assumption;
    apply binary_normalize_valid.
Qed.

Lemma SFmul_valid_all x y :
  valid_binary prec emax x = true -> valid_binary prec emax y = true ->
  valid_binary prec emax (SFmul prec emax x y) = true.
Proof.
  intros Hx Hy.
  destruct x as [sx|sx| |sx mx ex], y as [sy|sy| |sy my ey]; try reflexivity.
  unfold SFmul.
  simpl in Hx, Hy. unfold bounded in Hx, Hy.
  apply andb_true_iff in Hx as [Hx _]. apply andb_true_iff in Hy as [Hy _].
  apply canonical_iff in Hx, Hy. unfold canonical, fexp in Hx, Hy.
  pose proof (digits2_pos_bounds mx) as [Lx Ux].
  pose proof (digits2_pos_bounds my) as [Ly Uy].
  set (dx := Z.pos (digits2_pos mx)) in *. set (dy := Z.pos (digits2_pos my)) in *.
  assert (Hdx : 1 <= dx) by (unfold dx; lia).
  assert (Hdy : 1 <= dy) by (unfold dy; lia).
  assert (Hd : dx + dy - 1 <= Zdigits2 (Z.pos (mx * my))).
  { apply Zdigits2_lower; [lia|].
    replace (dx + dy - 1 - 1) with ((dx - 1) + (dy - 1)) by lia.
    rewrite Z.pow_add_r, Pos2Z.inj_mul by lia.
    apply Z.mul_le_mono_nonneg; try lia; apply Z.pow_nonneg; lia. }
  destruct (round_aux_state prec emax Hprec (xorb sx sy) (Z.pos (mx * my)) (ex + ey)
              loc_Exact (Z.pos (mx * my)) 1) as [-> Hs]; try lia;
    try (rewrite code_of_loc, enc_one; lia);
    try (unfold fexp, emin in *; lia).
  apply finalized_valid; [exact Hprec|].
  apply pre_state_rounded; [exact Hprec| |exact Hs].
  apply Z.mul_pos_pos; [lia|apply Z.pow_pos_nonneg; [lia|]].
  unfold fexp, emin in *. lia.
Qed.
End Validity.

Lemma F32_of_int_valid k : F32.valid (F32.of_int k) = true.
Proof. apply binary_normalize_valid; f32. Qed.

Lemma F32_add_valid_all x y :
  F32.valid x = true -> F32.valid y = true -> F32.valid (F32.add x y) = true.
Proof. apply SFadd_valid_all; f32. Qed.

Lemma F32_sub_valid_all x y :
  F32.valid x = true -> F32.valid y = true -> F32.valid (F32.sub x y) = true.
Proof. apply SFsub_valid_all; f32. Qed.

Lemma F32_mul_valid_all x y :
  F32.valid x = true -> F32.valid y = true -> F32.valid (F32.mul x y) = true.
Proof. apply SFmul_valid_all; f32. Qed.

Lemma line_through_valid (tanf : float -> float) x0 anchor theta x :
  F32.valid (tanf theta) = true -> F32.valid anchor = true ->
  F32.valid (line_through tanf x0 anchor theta x) = true.
Proof.
  intros Ht Ha. unfold line_through.
  apply F32_add_valid_all; [|apply F32_sub_valid_all; [exact Ha|]];
    apply F32_mul_valid_all; auto using F32_of_int_valid.
Qed.

(** ** The clamp of [apply_extrap_thresh] *)

Lemma of_float_is_nan v :
  F32.valid v = true -> SFis_nan (F64.of_float v) = SFis_nan v.
Proof.
  intros Hv. destruct v as [s|s| |s m e]; try reflexivity.
  destruct (of_float_finite s m e Hv) as (M & E & -> & _). reflexivity.
Qed.

Lemma of_float_ltb a b :
  F32.valid a = true -> F32.valid b = true ->
  SFltb (F64.of_float a) (F64.of_float b) = SFltb a b.
Proof. intros Ha Hb. unfold SFltb. rewrite of_float_compare by assumption. reflexivity. Qed.

Lemma fmin_of_float a b :
  F32.valid a = true -> F32.valid b = true ->
  F64.fmin (F64.of_float a) (F64.of_float b) = F64.of_float (F32.fmin a b).
Proof.
  intros Ha Hb. unfold F64.fmin, F32.fmin.
  rewrite !of_float_is_nan, of_float_ltb by assumption.
  destruct (SFis_nan a); [reflexivity|].
  destruct (SFis_nan b); [reflexivity|].
  destruct (SFltb b a); reflexivity.
Qed.

Lemma fmax_of_float a b :
  F32.valid a = true -> F32.valid b = true ->
  F64.fmax (F64.of_float a) (F64.of_float b) = F64.of_float (float_fmax a b).
Proof.
  intros Ha Hb. unfold F64.fmax, float_fmax.
  rewrite !of_float_is_nan, of_float_ltb by assumption.
  destruct (SFis_nan a); [reflexivity|].
  destruct (SFis_nan b); [reflexivity|].
  destruct (SFltb a b); reflexivity.
Qed.

Lemma fmin_valid a b :
  F32.valid a = true -> F32.valid b = true -> F32.valid (F32.fmin a b) = true.
Proof.
  intros Ha Hb. unfold F32.fmin.
  destruct (SFis_nan a); [exact Hb|].
  destruct (SFis_nan b); [exact Ha|].
  destruct (SFltb b a); assumption.
Qed.

Lemma float_fmax_valid a b :
  F32.valid a = true -> F32.valid b = true -> F32.valid (float_fmax a b) = true.
Proof.
  intros Ha Hb. unfold float_fmax.
  destruct (SFis_nan a); [exact Hb|].
  destruct (SFis_nan b); [exact Ha|].
  destruct (SFltb a b); assumption.
Qed.

(** The clamp, evaluated in binary64 by the code, is the clamp of the
    binary32 numbers. *)
Lemma clamp_bin_spec hsz v :
  F32.valid v = true -> 1 <= dim_y hsz <= 2 ^ 24 + 1 ->
  clamp_bin hsz v = clamp_between (F32.of_int (dim_y hsz - 1)) v.
Proof.
  intros Hv Hy. unfold clamp_bin, clamp_between.
  rewrite <- (F64_of_float_of_int (dim_y hsz - 1)) by lia.
  change (F64.of_int 0) with (F64.of_float F32.zero).
  pose proof (F32_of_int_valid (dim_y hsz - 1)) as Ht.
  rewrite fmin_of_float, fmax_of_float by (try apply fmin_valid; auto).
  apply to_float_of_float, float_fmax_valid; [apply fmin_valid; assumption|reflexivity].
Qed.

Lemma SFltb_false_leb a b :
  SFis_nan a = false -> SFis_nan b = false -> SFltb a b = false -> SFleb b a = true.
Proof.
  unfold SFleb, SFltb.
  destruct a as [sa|sa| |sa ma ea], b as [sb|sb| |sb mb eb];
    try destruct sa; try destruct sb; simpl;
    try discriminate; try reflexivity; intros _ _ H1;
    cmp_cases; simpl in *; try discriminate; try reflexivity; try lia.
Qed.

Lemma SFleb_refl a : SFis_nan a = false -> SFleb a a = true.
Proof.
  intros Ha. apply SFltb_false_leb; try assumption.
  unfold SFltb. destruct a as [sa|sa| |sa ma ea]; try destruct sa; simpl;
    try reflexivity; try discriminate;
    rewrite Z.compare_refl;
    change (Pos.compare_cont Eq ma ma) with (Pos.compare ma ma);
    rewrite Pos.compare_refl; reflexivity.
Qed.

(** A clamped value lies between 0 and [top]. *)
Lemma clamp_between_range top v :
  SFis_nan top = false -> SFleb F32.zero top = true ->
  SFleb F32.zero (clamp_between top v) = true /\
  SFleb (clamp_between top v) top = true.
Proof.
  intros Hn Ht. unfold clamp_between, float_fmax, F32.fmin.
  destruct (SFis_nan v) eqn:Hv.
  - rewrite Hn. change (SFis_nan F32.zero) with false. cbv iota.
    destruct (SFltb top F32.zero) eqn:Hlt.
    + split; [reflexivity|exact Ht].
    + split; [exact Ht|apply SFleb_refl, Hn].
  - rewrite Hn. destruct (SFltb top v) eqn:Htv.
    + rewrite Hn. change (SFis_nan F32.zero) with false. cbv iota.
      destruct (SFltb top F32.zero) eqn:Hlt.
      * split; [reflexivity|exact Ht].
      * split; [exact Ht|apply SFleb_refl, Hn].
    + rewrite Hv. change (SFis_nan F32.zero) with false. cbv iota.
      destruct (SFltb v F32.zero) eqn:Hlt.
      * split; [reflexivity|exact Ht].
      * split; apply SFltb_false_leb; auto.
Qed.
(** ** [calc_exact_thresh] *)

Lemma first_above_bounds thr col y y' :
  first_above thr col y = Some y' -> y <= y' < y + Z.of_nat (length col).
Proof.
  revert y. induction col as [|c col IH]; intros y; simpl; [discriminate|].
  destruct (F32.gtb c thr).
  - intros [= <-]. lia.
  - intros H. apply IH in H. lia.
Qed.

Lemma first_above_before thr col y y' k c :
  first_above thr col y = Some y' -> (k < Z.to_nat (y' - y))%nat -> col !! k = Some c ->
  F32.gtb c thr = false.
Proof.
  revert y k. induction col as [|c0 col IH]; intros y k; simpl; [discriminate|].
  destruct (F32.gtb c0 thr) eqn:E.
  - intros [= <-]. lia.
  - intros H Hk Hc. destruct k as [|k]; simpl in Hc.
    + congruence.
    + apply (IH (y + 1) k H); [|exact Hc].
      apply first_above_bounds in H. lia.
Qed.

Lemma first_above_none thr col y k c :
  first_above thr col y = None -> col !! k = Some c -> F32.gtb c thr = false.
Proof.
  revert y k. induction col as [|c0 col IH]; intros y k; simpl; [discriminate|].
  destruct (F32.gtb c0 thr) eqn:E; [discriminate|].
  intros H Hc. destruct k as [|k]; simpl in Hc; [congruence|eauto].
Qed.

Lemma first_above_skip thr col j :
  (forall k c, (k < j)%nat -> col !! k = Some c -> F32.gtb c thr = false) ->
  forall y, first_above thr (drop j col) (y + Z.of_nat j) = first_above thr col y.
Proof.
  revert col. induction j as [|j IH]; intros col Hb y.
  - rewrite drop_0. f_equal. lia.
  - destruct col as [|c col]; [reflexivity|]. simpl.
    rewrite (Hb 0%nat c) by first [lia | reflexivity].
    rewrite <- (IH col).
    + f_equal. lia.
    + intros k c' Hk Hc. apply (Hb (S k) c'); [lia|exact Hc].
Qed.

Lemma scan_column_first cumd hsz axis x col thr n y :
  is_column cumd hsz axis x col ->
  0 <= y -> Z.of_nat n = dim_y hsz - y ->
  scan_column cumd hsz axis x thr n y =
  Some (match first_above thr (drop (Z.to_nat y) col) y with
        | Some y' => (y', true)
        | None => (dim_y hsz, false)
        end).
Proof.
  intros [Hlen Hcol]. revert y. induction n as [|n IH]; intros y Hy Hn.
  - simpl. rewrite drop_ge by lia. simpl. do 2 f_equal. lia.
  - simpl.
    replace (1 * dim_x hsz * dim_y hsz * axis + 1 * dim_x hsz * y + 1 * x)
      with (hidx hsz axis x y) by (unfold hidx; lia).
    rewrite Hcol by lia.
    destruct (lookup_lt_is_Some_2 col (Z.to_nat y)) as [c Hc]; [lia|].
    rewrite Hc. simpl. rewrite (drop_S _ _ _ Hc). simpl.
    destruct (F32.gtb c thr); [reflexivity|].
    rewrite IH by lia. now replace (Z.to_nat (y + 1)) with (S (Z.to_nat y)) by lia.
Qed.

Lemma is_column_unique a hsz axis x col1 col2 :
  is_column a hsz axis x col1 -> is_column a hsz axis x col2 -> col1 = col2.
Proof.
  intros [L1 H1] [L2 H2]. apply list_eq. intros k.
  destruct (decide (k < length col1)%nat) as [Hk|Hk].
  - rewrite <- (Nat2Z.id k). rewrite <- H1, <- H2 by lia. reflexivity.
  - rewrite !lookup_ge_None_2 by lia. reflexivity.
Qed.

Lemma exact_thresh_column_spec cumd hsz tmin tmax axis x t1 t9 col :
  is_column cumd hsz axis x col ->
  F32.leb tmin tmax = true ->
  0 <= dim_x hsz * axis + x < Z.of_nat (length t1) ->
  0 <= dim_x hsz * axis + x < Z.of_nat (length t9) ->
  exists t1' t9',
    exact_thresh_column cumd hsz tmin tmax axis x (t1, t9) = Some (t1', t9') /\
    length t1' = length t1 /\ length t9' = length t9 /\
    rd t1' (dim_x hsz * axis + x) = Some (full_scan_t1 tmax col x) /\
    (forall j, j <> dim_x hsz * axis + x -> rd t1' j = rd t1 j).
Proof.
  intros Hcol Hle HT1 HT9.
  assert (Hy : 0 <= dim_y hsz) by (destruct Hcol as [<- _]; lia).
  unfold exact_thresh_column.
  replace (1 * dim_x hsz * axis + 1 * x) with (dim_x hsz * axis + x) by lia.
  set (T := dim_x hsz * axis + x) in *.
  rewrite (wr_Some t1 T) by exact HT1. simpl.
  rewrite (wr_Some t9 T) by exact HT9. simpl.
  rewrite (scan_column_first _ _ _ _ col) by (try exact Hcol; lia).
  change (Z.to_nat 0) with 0%nat. rewrite drop_0.
  assert (Hskip : forall y1 : nat,
            (forall k c, (k < y1)%nat -> col !! k = Some c -> F32.gtb c tmin = false) ->
            first_above tmax (drop y1 col) (Z.of_nat y1) = first_above tmax col 0).
  { intros y1 Hb. rewrite <- (first_above_skip tmax col y1); [f_equal; lia|].
    intros k c Hk Hc. destruct (F32.gtb c tmax) eqn:E; [|reflexivity].
    rewrite <- (Hb k c Hk Hc). symmetry.
    exact (SFleb_ltb_trans _ _ _ Hle E). }
  destruct (first_above tmin col 0) as [y1|] eqn:E1; simpl.
  - pose proof (first_above_bounds _ _ _ _ E1) as Hb1.
    rewrite wr_Some by (rewrite length_insert; exact HT9). simpl.
    rewrite (scan_column_first _ _ _ _ col) by (try exact Hcol; destruct Hcol; lia).
    assert (Hs : first_above tmax (drop (Z.to_nat y1) col) y1 = first_above tmax col 0).
    { specialize (Hskip (Z.to_nat y1)). rewrite Z2Nat.id in Hskip by lia.
      apply Hskip. intros k c Hk Hc.
      apply (first_above_before tmin col 0 y1 k c E1); [lia|exact Hc]. }
    rewrite Hs.
    unfold full_scan_t1.
    destruct (first_above tmax col 0) as [y2|] eqn:E2; simpl.
    + rewrite wr_Some by (rewrite length_insert; exact HT1). simpl.
      eexists _, _. split; [reflexivity|].
      rewrite !length_insert. repeat split.
      * unfold rd. destruct (Z.leb_spec 0 T); [|lia].
        apply list_lookup_insert_eq. rewrite length_insert. lia.
      * intros j Hj. unfold rd. destruct (Z.leb_spec 0 j); [|reflexivity].
        rewrite !list_lookup_insert_ne by lia. reflexivity.
    + eexists _, _. split; [reflexivity|].
      rewrite !length_insert. repeat split.
      * unfold rd. destruct (Z.leb_spec 0 T); [|lia].
        apply list_lookup_insert_eq. lia.
      * intros j Hj. unfold rd. destruct (Z.leb_spec 0 j); [|reflexivity].
        rewrite !list_lookup_insert_ne by lia. reflexivity.
  - rewrite Z.sub_diag. simpl.
    assert (E2 : first_above tmax col 0 = None).
    { rewrite <- (Hskip (length col)).
      - rewrite drop_all. reflexivity.
      - intros k c _ Hc. exact (first_above_none _ _ _ _ _ E1 Hc). }
    unfold full_scan_t1. rewrite E2.
    eexists _, _. split; [reflexivity|].
    rewrite !length_insert. repeat split.
    + unfold rd. destruct (Z.leb_spec 0 T); [|lia].
      apply list_lookup_insert_eq. lia.
    + intros j Hj. unfold rd. destruct (Z.leb_spec 0 j); [|reflexivity].
      rewrite !list_lookup_insert_ne by lia. reflexivity.
Qed.

Lemma calc_exact_thresh_t1_columns db tmin tmax axis :
  0 <= axis -> 0 <= dim_x (hsz db) ->
  dim_x (hsz db) * (axis + 1) <= Z.of_nat (length (t1 db)) ->
  dim_x (hsz db) * (axis + 1) <= Z.of_nat (length (t9 db)) ->
  (forall x, 0 <= x < dim_x (hsz db) ->
     exists col, is_column (cumd db) (hsz db) axis x col) ->
  F32.leb tmin tmax = true ->
  exists db',
    calc_exact_thresh db tmin tmax axis = Some db' /\
    forall x col, 0 <= x < dim_x (hsz db) ->
      is_column (cumd db) (hsz db) axis x col ->
      rd (t1 db') (dim_x (hsz db) * axis + x) = Some (full_scan_t1 tmax col x).
Proof.
  intros Haxis Hx Hl1 Hl9 Hcols Hle. unfold calc_exact_thresh.
  set (P := fun (i : Z) (st : list float * list float) =>
              length (fst st) = length (t1 db) /\
              length (snd st) = length (t9 db) /\
              forall x col, 0 <= x < i ->
                is_column (cumd db) (hsz db) axis x col ->
                rd (fst st) (dim_x (hsz db) * axis + x) = Some (full_scan_t1 tmax col x)).
  destruct (for_range_inv P
              (exact_thresh_column (cumd db) (hsz db) tmin tmax axis)
              0 (dim_x (hsz db)) (t1 db, t9 db)) as ([a1 a9] & Hrun & Hp).
  - exact Hx.
  - repeat split. intros x col Hx0. lia.
  - intros i [b1 b9] Hi (Hb1 & Hb9 & Hdone). simpl in Hb1, Hb9, Hdone.
    destruct (Hcols i Hi) as [col Hcol].
    destruct (exact_thresh_column_spec (cumd db) (hsz db) tmin tmax axis i b1 b9 col)
      as (c1 & c9 & Hstep & Hc1 & Hc9 & Hnew & Hold); try assumption; try nia.
    exists (c1, c9). split; [exact Hstep|]. repeat split; simpl; try congruence.
    intros x col' Hxi Hcol'.
    destruct (decide (x = i)) as [->|Hne].
    + rewrite (is_column_unique _ _ _ _ _ _ Hcol' Hcol). exact Hnew.
    + rewrite Hold by nia. apply Hdone; [lia|exact Hcol'].
  - rewrite Hrun. simpl. eexists. split; [reflexivity|].
    destruct Hp as (_ & _ & Hall). simpl in *. exact Hall.
Qed.

(** C3: when [tmax >= tmin], the continuation scan of [calc_exact_thresh],
    which resumes the [tmax] search at the [y] where the [tmin] search
    stopped, leaves in [t1[x]] what an independent scan of the whole column
    from [y = 0] would: the first [y] with [cumd[axis][y][x] > tmax], or the
    initial value [x] when there is none.  (This holds for every column, non
    decreasing or not.) *)
Theorem calc_exact_thresh_continuation_scan db tmin tmax axis :
  0 <= axis -> 0 <= dim_x (hsz db) -> 0 <= dim_y (hsz db) ->
  dim_x (hsz db) * dim_y (hsz db) * (axis + 1) <= Z.of_nat (length (cumd db)) ->
  dim_x (hsz db) * (axis + 1) <= Z.of_nat (length (t1 db)) ->
  dim_x (hsz db) * (axis + 1) <= Z.of_nat (length (t9 db)) ->
  F32.leb tmin tmax = true ->
  exists db',
    calc_exact_thresh db tmin tmax axis = Some db' /\
    forall x, 0 <= x < dim_x (hsz db) ->
      rd (t1 db') (dim_x (hsz db) * axis + x) =
      Some (full_scan_t1 tmax (column_of (cumd db) (hsz db) axis x) x).
Proof.
  intros Haxis Hx Hy Hc Hl1 Hl9 Hle.
  destruct (calc_exact_thresh_t1_columns db tmin tmax axis Haxis Hx Hl1 Hl9)
    as (db' & Hrun & Hall); [|exact Hle|].
  - intros x Hx0. eexists. apply is_column_column_of; eassumption.
  - exists db'. split; [exact Hrun|]. intros x Hx0. apply Hall; [exact Hx0|].
    apply is_column_column_of; assumption.
Qed.

Lemma calc_exact_thresh_continuation_scan_witness :
  exists db',
    calc_exact_thresh db_two_bins (ratio32 1 10) (ratio32 9 10) 0 = Some db' /\
    forall x, 0 <= x < dim_x (hsz db_two_bins) ->
      rd (t1 db') (dim_x (hsz db_two_bins) * 0 + x) =
      Some (full_scan_t1 (ratio32 9 10)
              (column_of (cumd db_two_bins) (hsz db_two_bins) 0 x) x).
Proof.
  apply (calc_exact_thresh_continuation_scan db_two_bins);
    first [vm_compute; reflexivity | simpl; lia].
Defined.
(** ** [calc_intensity_thresh] *)

Lemma found_flag_loop (a : list float) (thr : float) (f : Z -> float) n :
  0 <= n <= Z.of_nat (length a) ->
  exists v found,
    for_range 0 n (fun x (st : float * bool) =>
        let '(v, found) := st in
        c ← rd a x;
        if F32.gtb c thr && negb found
        then Some (f x, true)
        else Some (v, found)) (F32.zero, false) = Some (v, found) /\
    (found = false -> v = F32.zero /\ no_crossing a thr n) /\
    (found = true -> exists x, v = f x /\ first_crossing a thr n x).
Proof.
  intros Hn.
  set (body := fun x (st : float * bool) =>
        let '(v, found) := st in
        c ← rd a x;
        if F32.gtb c thr && negb found
        then Some (f x, true)
        else Some (v, found)).
  set (P := fun (i : Z) (st : float * bool) =>
     (snd st = false -> fst st = F32.zero /\ no_crossing a thr i) /\
     (snd st = true -> exists x, fst st = f x /\ first_crossing a thr i x)).
  destruct (for_range_inv P body 0 n (F32.zero, false)) as ([v fl] & Hrun & Hp).
  - lia.
  - split; simpl; [|discriminate]. intros _. split; [reflexivity|]. intros x c Hx. lia.
  - intros i [v fl] Hi [Hf Ht]. simpl in Hf, Ht. unfold body.
    destruct (rd_Some a i) as [c Hc]; [lia|]. rewrite Hc. simpl.
    destruct fl.
    + rewrite andb_false_r. eexists. split; [reflexivity|].
      split; simpl; [discriminate|]. intros _.
      destruct (Ht eq_refl) as (x & Hv & Hx & Hex & Hbefore).
      exists x. split; [exact Hv|]. split; [lia|]. split; assumption.
    + rewrite andb_true_r. destruct (Hf eq_refl) as [Hv Hno].
      destruct (F32.gtb c thr) eqn:E.
      * eexists. split; [reflexivity|]. split; simpl; [discriminate|]. intros _.
        exists i. split; [reflexivity|]. split; [lia|]. split; [eauto|].
        intros x' c' Hx'. apply Hno. lia.
      * eexists. split; [reflexivity|]. split; simpl; [|discriminate]. intros _.
        split; [exact Hv|]. intros x c' Hx Hc'.
        destruct (decide (x = i)) as [->|Hne]; [congruence|]. apply (Hno x); [lia|exact Hc'].
  - exists v, fl. split; [exact Hrun|]. exact Hp.
Qed.

(** C10: in the 1D intensity path, [i9] stays at its initial value 0 when no
    entry of [icmd] exceeds [tmin], [i1] stays at 0 when none exceeds
    [tmax], and [i9] is set to -1 when the first bin already exceeds
    [tmin]. *)
Theorem calc_intensity_thresh_sentinels db tmin tmax :
  0 <= dim_x (hsz db) <= Z.of_nat (length (icmd db)) ->
  exists db',
    calc_intensity_thresh db tmin tmax = Some db' /\
    (no_crossing (icmd db) tmin (dim_x (hsz db)) -> i9 db' = F32.zero) /\
    (no_crossing (icmd db) tmax (dim_x (hsz db)) -> i1 db' = F32.zero) /\
    (first_crossing (icmd db) tmin (dim_x (hsz db)) 0 ->
       i9 db' = F32.of_int (-1)).
Proof.
  intros Hn. unfold calc_intensity_thresh.
  destruct (found_flag_loop (icmd db) tmin (fun x => F32.of_int (x - 1)) _ Hn)
    as (v9 & f9 & Hrun9 & Hf9 & Ht9).
  destruct (found_flag_loop (icmd db) tmax (fun x => F32.of_int x) _ Hn)
    as (v1 & f1 & Hrun1 & Hf1 & Ht1).
  rewrite Hrun9. simpl. rewrite Hrun1. simpl.
  eexists. split; [reflexivity|]. simpl. repeat split.
  - intros Hno. destruct f9; [|apply Hf9; reflexivity].
    destruct (Ht9 eq_refl) as (x & _ & Hx & (c & Hc & Hgt) & _).
    rewrite (Hno x c Hx Hc) in Hgt. discriminate.
  - intros Hno. destruct f1; [|apply Hf1; reflexivity].
    destruct (Ht1 eq_refl) as (x & _ & Hx & (c & Hc & Hgt) & _).
    rewrite (Hno x c Hx Hc) in Hgt. discriminate.
  - intros (H0 & (c & Hc & Hgt) & _). destruct f9.
    + destruct (Ht9 eq_refl) as (x & Hv & Hx & _ & Hbefore).
      destruct (decide (x = 0)) as [->|Hne]; [exact Hv|].
      rewrite (Hbefore 0 c) in Hgt by (try exact Hc; lia). discriminate.
    + destruct (Hf9 eq_refl) as [_ Hno].
      rewrite (Hno 0 c H0 Hc) in Hgt. discriminate.
Qed.

Lemma calc_intensity_thresh_sentinels_witness :
  exists db',
    calc_intensity_thresh db_intensity (ratio32 1 10) (ratio32 9 10) = Some db' /\
    (no_crossing (icmd db_intensity) (ratio32 1 10) (dim_x (hsz db_intensity)) ->
       i9 db' = F32.zero) /\
    (no_crossing (icmd db_intensity) (ratio32 9 10) (dim_x (hsz db_intensity)) ->
       i1 db' = F32.zero) /\
    (first_crossing (icmd db_intensity) (ratio32 1 10)
       (dim_x (hsz db_intensity)) 0 ->
       i9 db' = F32.of_int (-1)).
Proof.
  apply (calc_intensity_thresh_sentinels db_intensity). simpl. lia.
Defined.
(** ** [calc_cumulative_distribution] *)

Lemma prefix_sum_S col k c :
  col !! k = Some c -> prefix_sum col (S k) = F32.add (prefix_sum col k) c.
Proof.
  intros Hc. unfold prefix_sum. rewrite (take_S_r _ _ _ Hc), foldl_app. reflexivity.
Qed.

Lemma prefix_sum_all col : prefix_sum col (length col) = column_sum col.
Proof. unfold prefix_sum. rewrite firstn_all. reflexivity. Qed.

Lemma cumsum_column_spec hsz axis x hist cumd col :
  0 <= axis -> 0 <= x < dim_x hsz ->
  is_column hist hsz axis x col ->
  dim_x hsz * dim_y hsz * (axis + 1) <= Z.of_nat (length cumd) ->
  exists cumd',
    cumsum_column hsz axis x hist cumd = Some (column_sum col, cumd') /\
    same_outside hsz axis x cumd cumd' /\
    forall y, 0 <= y < dim_y hsz ->
      rd cumd' (hidx hsz axis x y) = Some (prefix_sum col (S (Z.to_nat y))).
Proof.
  intros Haxis Hx [Hlen Hcol] Hsize. unfold cumsum_column.
  set (body := fun (y : Z) (st : float * list float) => _).
  set (P := fun (i : Z) (st : float * list float) =>
     fst st = prefix_sum col (Z.to_nat i) /\
     same_outside hsz axis x cumd (snd st) /\
     forall y, 0 <= y < i ->
       rd (snd st) (hidx hsz axis x y) = Some (prefix_sum col (S (Z.to_nat y)))).
  destruct (for_range_inv P body 0 (dim_y hsz) (F32.zero, cumd)) as ([s c'] & Hrun & Hp).
  - lia.
  - repeat split; simpl; intros; lia.
  - intros i [s c] Hi (Hs & [Hl Hout] & Hdone). simpl in Hs, Hl, Hout, Hdone.
    unfold body.
    replace (1 * dim_x hsz * dim_y hsz * axis + 1 * dim_x hsz * i + 1 * x)
      with (hidx hsz axis x i) by (unfold hidx; lia).
    rewrite Hcol by lia.
    destruct (lookup_lt_is_Some_2 col (Z.to_nat i)) as [h Hh]; [lia|].
    rewrite Hh. simpl.
    pose proof (hidx_bound hsz axis x i Haxis Hx Hi) as Hb.
    rewrite wr_Some by lia. simpl.
    eexists. split; [reflexivity|]. repeat split; simpl.
    + replace (Z.to_nat (i + 1)) with (S (Z.to_nat i)) by lia.
      rewrite (prefix_sum_S _ _ _ Hh), Hs. reflexivity.
    + rewrite length_insert. exact Hl.
    + intros j Hj. rewrite <- Hout by exact Hj.
      apply rd_insert_ne; [lia|]. intros <-. apply (Hj i Hi). reflexivity.
    + intros y Hy. destruct (decide (y = i)) as [->|Hne].
      * rewrite rd_insert_eq by lia.
        rewrite (prefix_sum_S _ _ _ Hh), Hs. reflexivity.
      * rewrite rd_insert_ne; [apply Hdone; lia|lia|].
        intros Heq. apply hidx_inj in Heq; lia.
  - destruct Hp as (Hs & Hout & Hdone). simpl in *.
    exists c'. split.
    + rewrite Hrun. subst s. do 2 f_equal.
      rewrite <- prefix_sum_all. f_equal. lia.
    + split; assumption.
Qed.

Lemma same_outside_refl hsz axis x a : same_outside hsz axis x a a.
Proof. split; reflexivity. Qed.

Lemma same_outside_trans hsz axis x a b c :
  same_outside hsz axis x a b -> same_outside hsz axis x b c ->
  same_outside hsz axis x a c.
Proof.
  intros [L1 H1] [L2 H2]. split; [congruence|].
  intros j Hj. rewrite H2, H1 by exact Hj. reflexivity.
Qed.

Lemma normalize_column_spec hsz axis x sum hist cumd :
  0 <= axis -> 0 <= x < dim_x hsz -> 0 <= dim_y hsz ->
  dim_x hsz * dim_y hsz * (axis + 1) <= Z.of_nat (length hist) ->
  dim_x hsz * dim_y hsz * (axis + 1) <= Z.of_nat (length cumd) ->
  exists hist' cumd',
    normalize_column hsz axis x sum hist cumd = Some (hist', cumd') /\
    same_outside hsz axis x hist hist' /\
    same_outside hsz axis x cumd cumd' /\
    forall y, 0 <= y < dim_y hsz ->
      rd hist' (hidx hsz axis x y) = normalized sum <$> rd hist (hidx hsz axis x y) /\
      rd cumd' (hidx hsz axis x y) = normalized sum <$> rd cumd (hidx hsz axis x y).
Proof.
  intros Haxis Hx Hy Hsh Hsc. unfold normalize_column.
  set (body := fun (y : Z) (st : list float * list float) => _).
  set (P := fun (i : Z) (st : list float * list float) =>
     same_outside hsz axis x hist (fst st) /\
     same_outside hsz axis x cumd (snd st) /\
     forall y, 0 <= y < dim_y hsz ->
       (y < i ->
        rd (fst st) (hidx hsz axis x y) = normalized sum <$> rd hist (hidx hsz axis x y) /\
        rd (snd st) (hidx hsz axis x y) = normalized sum <$> rd cumd (hidx hsz axis x y)) /\
       (i <= y ->
        rd (fst st) (hidx hsz axis x y) = rd hist (hidx hsz axis x y) /\
        rd (snd st) (hidx hsz axis x y) = rd cumd (hidx hsz axis x y))).
  destruct (for_range_inv P body 0 (dim_y hsz) (hist, cumd)) as ([h' c'] & Hrun & Hp).
  - exact Hy.
  - split; [apply same_outside_refl|]. split; [apply same_outside_refl|].
    intros y Hy0. split; [lia|]. intros _. split; reflexivity.
  - intros i [h c] Hi ([Hlh Hoh] & [Hlc Hoc] & Hcur). simpl in Hlh, Hoh, Hlc, Hoc, Hcur.
    unfold body.
    replace (1 * dim_x hsz * dim_y hsz * axis + 1 * dim_x hsz * i + 1 * x)
      with (hidx hsz axis x i) by (unfold hidx; lia).
    pose proof (hidx_bound hsz axis x i Haxis Hx Hi) as Hb.
    destruct (Hcur i Hi) as [_ Hi2]. destruct (Hi2 ltac:(lia)) as [Hhi Hci].
    destruct (rd_Some h (hidx hsz axis x i)) as [vh Hvh]; [lia|].
    destruct (rd_Some c (hidx hsz axis x i)) as [vc Hvc]; [lia|].
    assert (Hc1 : exists c1, (if F32.neb sum F32.zero
                   then c0 ← rd c (hidx hsz axis x i); wr c (hidx hsz axis x i) (F32.div c0 sum)
                   else wr c (hidx hsz axis x i) F32.zero) = Some c1 /\
                   c1 = <[Z.to_nat (hidx hsz axis x i) := normalized sum vc]> c).
    { unfold normalized. destruct (F32.neb sum F32.zero).
      - rewrite Hvc. simpl. rewrite wr_Some by lia. eauto.
      - rewrite wr_Some by lia. eauto. }
    destruct Hc1 as (c1 & -> & ->). simpl.
    assert (Hh1 : exists h1, (if F32.neb sum F32.zero
                   then h0 ← rd h (hidx hsz axis x i); wr h (hidx hsz axis x i) (F32.div h0 sum)
                   else wr h (hidx hsz axis x i) F32.zero) = Some h1 /\
                   h1 = <[Z.to_nat (hidx hsz axis x i) := normalized sum vh]> h).
    { unfold normalized. destruct (F32.neb sum F32.zero).
      - rewrite Hvh. simpl. rewrite wr_Some by lia. eauto.
      - rewrite wr_Some by lia. eauto. }
    destruct Hh1 as (h1 & -> & ->). simpl.
    eexists. split; [reflexivity|]. unfold P; simpl.
    assert (Hother : forall y, 0 <= y < dim_y hsz -> y <> i ->
              hidx hsz axis x i <> hidx hsz axis x y).
    { intros y Hy0 Hne Heq. apply hidx_inj in Heq; lia. }
    split; [|split].
    + split; [rewrite length_insert; exact Hlh|].
      intros j Hj. rewrite <- Hoh by exact Hj.
      apply rd_insert_ne; [lia|]. intros <-. apply (Hj i Hi). reflexivity.
    + split; [rewrite length_insert; exact Hlc|].
      intros j Hj. rewrite <- Hoc by exact Hj.
      apply rd_insert_ne; [lia|]. intros <-. apply (Hj i Hi). reflexivity.
    + intros y Hy0. split; intros Hyi.
      * destruct (decide (y = i)) as [->|Hne].
        -- rewrite !rd_insert_eq by lia. rewrite <- Hhi, <- Hci, Hvh, Hvc.
           split; reflexivity.
        -- rewrite !rd_insert_ne by (try apply Hother; lia).
           apply (Hcur y); lia.
      * rewrite !rd_insert_ne by (try apply Hother; lia).
        apply (Hcur y); lia.
  - destruct Hp as (Hoh & Hoc & Hcur). simpl in *.
    exists h', c'. split; [exact Hrun|]. split; [exact Hoh|]. split; [exact Hoc|].
    intros y Hy0. apply (Hcur y Hy0). lia.
Qed.

Lemma is_column_same_outside hsz axis x x' a a' col :
  0 <= x < dim_x hsz -> 0 <= x' < dim_x hsz -> x <> x' ->
  same_outside hsz axis x' a a' ->
  is_column a hsz axis x col -> is_column a' hsz axis x col.
Proof.
  intros Hx Hx' Hne [_ Hout] [Hlen Hcol]. split; [exact Hlen|].
  intros y Hy. rewrite Hout; [apply Hcol; exact Hy|].
  intros y' Hy' Heq. apply hidx_inj in Heq; lia.
Qed.

Lemma cumulative_column_spec hsz axis x hist cumd cnts col :
  0 <= axis -> 0 <= x < dim_x hsz ->
  is_column hist hsz axis x col ->
  dim_x hsz * dim_y hsz * (axis + 1) <= Z.of_nat (length hist) ->
  dim_x hsz * dim_y hsz * (axis + 1) <= Z.of_nat (length cumd) ->
  dim_x hsz * (axis + 1) <= Z.of_nat (length cnts) ->
  exists hist' cumd' cnts',
    cumulative_column hsz axis x (hist, cumd, cnts) = Some (hist', cumd', cnts') /\
    same_outside hsz axis x hist hist' /\
    same_outside hsz axis x cumd cumd' /\
    length cnts' = length cnts /\
    (forall j, j <> x + dim_x hsz * axis -> rd cnts' j = rd cnts j) /\
    column_result hsz axis x col hist' cumd' cnts'.
Proof.
  intros Haxis Hx Hcol Hsh Hsc Hsn.
  assert (Hy : 0 <= dim_y hsz) by (destruct Hcol as [<- _]; lia).
  unfold cumulative_column.
  destruct (cumsum_column_spec hsz axis x hist cumd col Haxis Hx Hcol Hsc)
    as (c1 & -> & Ho1 & Hc1). simpl.
  assert (HC : 0 <= x + dim_x hsz * axis < Z.of_nat (length cnts)) by nia.
  rewrite wr_Some by exact HC. simpl.
  destruct (normalize_column_spec hsz axis x (column_sum col) hist c1 Haxis Hx Hy Hsh)
    as (h2 & c2 & -> & Hoh & Hoc & Hn).
  { destruct Ho1 as [-> _]. exact Hsc. }
  simpl. eexists _, _, _. split; [reflexivity|].
  split; [exact Hoh|]. split; [exact (same_outside_trans _ _ _ _ _ _ Ho1 Hoc)|].
  split; [apply length_insert|].
  split; [intros j Hj; apply rd_insert_ne; lia|].
  split; [apply rd_insert_eq; exact HC|].
  intros y Hy0. destruct (Hn y Hy0) as [-> ->].
  destruct Hcol as [_ Hcol]. rewrite Hcol, Hc1 by exact Hy0. split; reflexivity.
Qed.

Lemma calc_cumulative_distribution_spec db axis :
  0 <= axis -> 0 <= dim_x (hsz db) ->
  dim_x (hsz db) * dim_y (hsz db) * (axis + 1) <= Z.of_nat (length (hist db)) ->
  dim_x (hsz db) * dim_y (hsz db) * (axis + 1) <= Z.of_nat (length (cumd db)) ->
  dim_x (hsz db) * (axis + 1) <= Z.of_nat (length (cnts db)) ->
  (forall x, 0 <= x < dim_x (hsz db) ->
     exists col, is_column (hist db) (hsz db) axis x col) ->
  exists db',
    calc_cumulative_distribution db axis = Some db' /\
    hsz db' = hsz db /\
    forall x col, 0 <= x < dim_x (hsz db) ->
      is_column (hist db) (hsz db) axis x col ->
      column_result (hsz db) axis x col (hist db') (cumd db') (cnts db').
Proof.
  intros Haxis Hdx Hsh Hsc Hsn Hcols. unfold calc_cumulative_distribution.
  set (hs := hsz db) in *.
  set (Q := fun (i : Z) (st : list float * list float * list float) =>
     let '(h, c, n) := st in
     length h = length (hist db) /\ length c = length (cumd db) /\
     length n = length (cnts db) /\
     (forall x col, i <= x < dim_x hs ->
        is_column (hist db) hs axis x col -> is_column h hs axis x col) /\
     (forall x col, 0 <= x < i ->
        is_column (hist db) hs axis x col -> column_result hs axis x col h c n)).
  destruct (for_range_inv Q (cumulative_column hs axis) 0 (dim_x hs)
              (hist db, cumd db, cnts db)) as ([[h' c'] n'] & Hrun & Hq).
  - exact Hdx.
  - simpl. do 3 (split; [reflexivity|]). split; [tauto|]. intros x col Hx. lia.
  - intros i [[h c] n] Hi (Hlh & Hlc & Hln & Htodo & Hdone).
    destruct (Hcols i Hi) as [col Hcol].
    destruct (cumulative_column_spec hs axis i h c n col) as
      (h1 & c1 & n1 & Hstep & Hoh & Hoc & Hln1 & Hon & Hres);
      try lia; try (apply Htodo; [lia|exact Hcol]).
    exists (h1, c1, n1). split; [exact Hstep|]. simpl.
    split; [destruct Hoh; congruence|]. split; [destruct Hoc; congruence|].
    split; [congruence|]. split.
    + intros x col' Hx Hcol'.
      apply (is_column_same_outside hs axis x i h h1); try lia; try assumption.
      apply Htodo; [lia|exact Hcol'].
    + intros x col' Hx Hcol'. destruct (decide (x = i)) as [->|Hne].
      * assert (col' = col) as ->; [|exact Hres].
        destruct Hcol as [L1 H1], Hcol' as [L2 H2]. apply list_eq. intros k.
        destruct (decide (k < length col)%nat) as [Hk|Hk].
        -- rewrite <- (Nat2Z.id k). rewrite <- H1, <- H2 by lia. reflexivity.
        -- rewrite !lookup_ge_None_2 by lia. reflexivity.
      * destruct (Hdone x col' ltac:(lia) Hcol') as [Hn Hy]. split.
        -- rewrite Hon by nia. exact Hn.
        -- intros y Hy0. destruct (Hy y Hy0) as [<- <-].
           destruct Hoh as [_ Hoh], Hoc as [_ Hoc].
           split; [apply Hoh|apply Hoc]; intros y' Hy' Heq;
             apply hidx_inj in Heq; lia.
  - rewrite Hrun. simpl. eexists. split; [reflexivity|]. split; [reflexivity|].
    simpl. intros x col Hx Hcol. apply Hq; [lia|exact Hcol].
Qed.
(** ** Empty columns *)

(** The 1D intensity path is the 2D path on a histogram of a single
    column. *)
Lemma intensity_cumsum_column hsz ihst icmd :
  intensity_cumsum hsz ihst icmd =
  cumsum_column (Dim3 1 (dim_x hsz) 1) 0 0 ihst icmd.
Proof.
  unfold intensity_cumsum, cumsum_column, for_range. simpl dim_y. simpl dim_x.
  apply for_loop_ext. intros i [s c] _.
  replace (1 * 1 * dim_x hsz * 0 + 1 * 1 * i + 1 * 0) with i by lia.
  reflexivity.
Qed.

Lemma intensity_normalize_column hsz sum ihst icmd :
  intensity_normalize hsz sum ihst icmd =
  normalize_column (Dim3 1 (dim_x hsz) 1) 0 0 sum ihst icmd.
Proof.
  unfold intensity_normalize, normalize_column, for_range. simpl dim_y. simpl dim_x.
  apply for_loop_ext. intros i [h c] _.
  replace (1 * 1 * dim_x hsz * 0 + 1 * 1 * i + 1 * 0) with i by lia.
  reflexivity.
Qed.

Lemma is_column_take (a : list float) n :
  0 <= n <= Z.of_nat (length a) ->
  is_column a (Dim3 1 n 1) 0 0 (take (Z.to_nat n) a).
Proof.
  intros Hn. split; simpl.
  - rewrite length_take. lia.
  - intros y Hy. unfold hidx, rd. simpl.
    replace (1 * n * 0 + 1 * y + 0) with y by lia.
    destruct (Z.leb_spec 0 y); [|lia].
    rewrite lookup_take_lt by lia. reflexivity.
Qed.

Lemma calc_intensity_cumulative_distribution_spec db :
  0 <= dim_x (hsz db) <= Z.of_nat (length (ihst db)) ->
  dim_x (hsz db) <= Z.of_nat (length (icmd db)) ->
  let col := take (Z.to_nat (dim_x (hsz db))) (ihst db) in
  exists db',
    calc_intensity_cumulative_distribution db = Some db' /\
    forall x, 0 <= x < dim_x (hsz db) ->
      rd (ihst db') x = normalized (column_sum col) <$> rd (ihst db) x /\
      rd (icmd db') x =
        Some (normalized (column_sum col) (prefix_sum col (S (Z.to_nat x)))).
Proof.
  intros Hh Hc col. unfold calc_intensity_cumulative_distribution.
  set (h1 := Dim3 1 (dim_x (hsz db)) 1).
  pose proof (is_column_take (ihst db) _ Hh) as Hcol. fold h1 col in Hcol.
  rewrite intensity_cumsum_column. fold h1.
  destruct (cumsum_column_spec h1 0 0 (ihst db) (icmd db) col)
    as (c1 & -> & [Hl1 Ho1] & Hc1); simpl; try lia; try exact Hcol.
  rewrite intensity_normalize_column. fold h1.
  destruct (normalize_column_spec h1 0 0 (column_sum col) (ihst db) c1)
    as (h2 & c2 & -> & Hoh & Hoc & Hn); simpl; try lia.
  eexists. split; [reflexivity|]. simpl. intros x Hx.
  assert (Hidx : hidx h1 0 0 x = x) by (unfold hidx; simpl; lia).
  destruct (Hn x Hx) as [E1 E2]. rewrite Hidx in E1, E2.
  split; [exact E1|]. rewrite E2. specialize (Hc1 x Hx). rewrite Hidx in Hc1.
  rewrite Hc1. reflexivity.
Qed.

(** C8: a column of the 2D histogram, or the whole 1D intensity histogram,
    whose sum is exactly 0 is normalised to exactly 0 (the stored number is
    [+0], not a quotient), and the count recorded for the column is 0. *)
Theorem zero_sum_column_normalizes_to_zero db axis :
  0 <= axis -> 0 <= dim_x (hsz db) -> 0 <= dim_y (hsz db) ->
  dim_x (hsz db) * dim_y (hsz db) * (axis + 1) <= Z.of_nat (length (hist db)) ->
  dim_x (hsz db) * dim_y (hsz db) * (axis + 1) <= Z.of_nat (length (cumd db)) ->
  dim_x (hsz db) * (axis + 1) <= Z.of_nat (length (cnts db)) ->
  dim_x (hsz db) <= Z.of_nat (length (ihst db)) ->
  dim_x (hsz db) <= Z.of_nat (length (icmd db)) ->
  (exists db',
     calc_cumulative_distribution db axis = Some db' /\
     forall x, 0 <= x < dim_x (hsz db) ->
       F32.eqb (column_sum (column_of (hist db) (hsz db) axis x)) F32.zero
         = true ->
       (exists c, rd (cnts db') (x + dim_x (hsz db) * axis) = Some c /\
                  F32.eqb c F32.zero = true) /\
       forall y, 0 <= y < dim_y (hsz db) ->
         rd (cumd db') (hidx (hsz db) axis x y) = Some F32.zero /\
         rd (hist db') (hidx (hsz db) axis x y) = Some F32.zero) /\
  (exists db',
     calc_intensity_cumulative_distribution db = Some db' /\
     (F32.eqb (column_sum (take (Z.to_nat (dim_x (hsz db))) (ihst db))) F32.zero
        = true ->
      forall x, 0 <= x < dim_x (hsz db) ->
        rd (icmd db') x = Some F32.zero /\ rd (ihst db') x = Some F32.zero)).
Proof.
  intros Haxis Hdx Hdy Hsh Hsc Hsn Hih Hic. split.
  - destruct (calc_cumulative_distribution_spec db axis Haxis Hdx Hsh Hsc Hsn)
      as (db' & Hrun & _ & Hres).
    { intros x Hx. eexists. apply is_column_column_of; eassumption. }
    exists db'. split; [exact Hrun|]. intros x Hx Hz.
    pose proof (is_column_column_of (hist db) (hsz db) axis x Haxis Hx Hdy Hsh) as Hcol.
    set (col := column_of (hist db) (hsz db) axis x) in *.
    destruct (Hres x col Hx Hcol) as [Hn Hy]. split; [eauto|].
    intros y Hy0. destruct (Hy y Hy0) as [Eh Ec].
    unfold F32.eqb in Hz. unfold normalized, F32.neb in Eh, Ec.
    rewrite Hz in Eh, Ec. simpl in Eh, Ec.
    split; [exact Ec|]. rewrite Eh.
    destruct Hcol as [Hlen _].
    destruct (lookup_lt_is_Some_2 col (Z.to_nat y)) as [v ->]; [lia|reflexivity].
  - destruct (calc_intensity_cumulative_distribution_spec db ltac:(lia) Hic)
      as (db' & Hrun & Hres).
    exists db'. split; [exact Hrun|]. intros Hz x Hx.
    destruct (Hres x Hx) as [Eh Ec].
    unfold F32.eqb in Hz. unfold normalized, F32.neb in Eh, Ec.
    rewrite Hz in Eh, Ec. simpl in Eh, Ec.
    split; [exact Ec|]. rewrite Eh.
    destruct (rd_Some (ihst db) x) as [v ->]; [lia|reflexivity].
Qed.

Lemma zero_sum_column_normalizes_to_zero_witness :
  (exists db',
     calc_cumulative_distribution db_empty_column 0 = Some db' /\
     forall x, 0 <= x < dim_x (hsz db_empty_column) ->
       F32.eqb (column_sum (column_of (hist db_empty_column)
                              (hsz db_empty_column) 0 x)) F32.zero = true ->
       (exists c, rd (cnts db') (x + dim_x (hsz db_empty_column) * 0) = Some c /\
                  F32.eqb c F32.zero = true) /\
       forall y, 0 <= y < dim_y (hsz db_empty_column) ->
         rd (cumd db') (hidx (hsz db_empty_column) 0 x y) = Some F32.zero /\
         rd (hist db') (hidx (hsz db_empty_column) 0 x y) = Some F32.zero) /\
  (exists db',
     calc_intensity_cumulative_distribution db_empty_column = Some db' /\
     (F32.eqb (column_sum (take (Z.to_nat (dim_x (hsz db_empty_column)))
                             (ihst db_empty_column))) F32.zero = true ->
      forall x, 0 <= x < dim_x (hsz db_empty_column) ->
        rd (icmd db') x = Some F32.zero /\ rd (ihst db') x = Some F32.zero)).
Proof.
  apply (zero_sum_column_normalizes_to_zero db_empty_column 0); simpl; lia.
Defined.
(** ** The bin mapping *)

(** At [min = 0], [max = 1], [nbins = 8] the round trip of bin 7 returns
    bin 6: the bin width 1/7 is rounded up, [hist2data 7] is exactly 1, and
    1 divided by the rounded width is just below 7. *)
Lemma round_trip_fails :
  data2hist (hist2data 7 (F32.of_int 0) (F32.of_int 1) 8)
            (F32.of_int 0) (F32.of_int 1) 8 = Some 6 /\
  data2hist (hist2data 7 (F32.of_int 0) (F32.of_int 1) 8)
            (F32.of_int 0) (F32.of_int 1) 8 <> Some 7.
Proof. vm_compute. split; [reflexivity|discriminate]. Qed.

(** ** [min_samples] *)

Lemma interval_of_sign thresh :
  F32.valid thresh = true ->
  F32.ltb F32.zero thresh = true -> F32.ltb thresh F32.one = true ->
  SFsign (interval_of thresh) = false.
Proof.
  intros Hv H0 H1.
  destruct thresh as [s|s| |s m e]; try discriminate.
  { destruct s; discriminate. }
  destruct s; [discriminate|].
  pose proof (F32_valid_canonical _ _ _ Hv) as Hc.
  assert (Hs : SFsign (F32.sub F32.one (S754_finite false m e)) = false).
  { unfold F32.ltb, SFltb in H1.
    assert (Hone : canonical F32.prec F32.emax 8388608 (-23)) by reflexivity.
    unfold F32.one in H1. rewrite (SFcompare_canonical _ _ F32_prec _ _ _ _ Hc Hone) in H1.
    destruct (Z.compare_spec (Z.pos m * 2 ^ (e - Z.min e (-23)))
                (8388608 * 2 ^ (-23 - Z.min e (-23)))) as [|Hlt|]; try discriminate.
    unfold F32.sub, F32.one, SFsub.
    destruct (shl_align_spec 8388608 (-23) (Z.min (-23) e)) as (p1 & -> & Hp1).
    destruct (shl_align_spec m e (Z.min (-23) e)) as (p2 & -> & Hp2).
    simpl fst. simpl cond_Zopp.
    rewrite Z.min_r in Hp1, Hp2 by lia. rewrite (Z.min_comm e) in Hlt.
    destruct (Z.pos p1 - Z.pos p2) as [|q|q] eqn:Eq; try lia.
    unfold binary_normalize. apply binary_round_sign. }
  unfold interval_of, F32.fmin.
  destruct (SFis_nan _); [reflexivity|]. simpl SFis_nan. cbv iota.
  destruct (SFltb _ _); [reflexivity|exact Hs].
Qed.

(** At [thresh = 0.4f] the quotient is 37.5: [min_samples] returns 37, and
    the ceiling is 38. *)
Lemma min_samples_not_ceil :
  min_samples (ratio32 4 10) = Some 37 /\
  exact_ceil_div (F32.of_int 15) (interval_of (ratio32 4 10)) = Some 38 /\
  SFceil (F32.div (F32.of_int 15) (interval_of (ratio32 4 10))) = Some 38.
Proof. vm_compute. auto. Qed.

(** C6, as the code has it: the quotient is truncated, and as it is not
    negative that is its floor; the conversion is defined when the floor
    fits an [int]. *)
Theorem min_samples_floor thresh :
  F32.valid thresh = true ->
  F32.ltb F32.zero thresh = true -> F32.ltb thresh F32.one = true ->
  min_samples thresh =
  SFfloor (F32.div (F32.of_int 15) (interval_of thresh)) ≫= int_range.
Proof.
  intros Hv H0 H1. unfold min_samples, F32.to_int. fold (interval_of thresh).
  rewrite SFtrunc_nonneg; [reflexivity|].
  pose proof (interval_of_sign thresh Hv H0 H1) as Hs.
  destruct (interval_of thresh) as [s|s| |s m e]; simpl in Hs; subst;
    try reflexivity.
  unfold F32.div, SFdiv. change (F32.of_int 15) with (S754_finite false 15728640 (-20)).
  cbv iota beta.
  destruct (SFdiv_core_binary _ _ _ _ _ _) as [[mz ez] lz].
  apply binary_round_aux_sign.
Qed.

Lemma min_samples_floor_witness :
  min_samples (ratio32 4 10) =
  SFfloor (F32.div (F32.of_int 15) (interval_of (ratio32 4 10))) ≫= int_range.
Proof. apply min_samples_floor; reflexivity. Defined.

Lemma min_samples_values :
  min_samples (ratio32 1 2) = Some 30 /\
  min_samples (ratio32 1 10) = Some 150 /\
  min_samples (ratio32 9 10) = Some 149.
Proof. vm_compute. auto. Qed.

(** The inequalities of claim C7 do not hold: [min_samples] is 150 at 0.1f
    and 149 at 0.9f, both larger than its value 30 at 0.5. *)
Lemma min_samples_half_not_largest :
  ~ (min_samples_le (ratio32 1 10) (ratio32 1 2) /\
     min_samples_le (ratio32 9 10) (ratio32 1 2)).
Proof.
  intros [(na & nb & Ha & Hb & Hle) _].
  vm_compute in Ha, Hb. injection Ha as <-. injection Hb as <-. lia.
Qed.
(** ** [apply_extrap_thresh] *)

Section Extrap.
Variable tanf : float -> float.

Lemma extrap_column_spec cnts hsz mc x0 theta axis x t t0 y0 c v :
  0 <= dim_x hsz * axis + x < Z.of_nat (length t) ->
  rd t (dim_x hsz * axis + x0) = Some t0 -> F32.to_int t0 = Some y0 ->
  rd cnts (dim_x hsz * axis + x) = Some c ->
  rd t (dim_x hsz * axis + x) = Some v ->
  extrap_column tanf cnts hsz mc x0 theta axis x t =
  Some (if F32.ltb c (F32.of_int mc)
        then <[Z.to_nat (dim_x hsz * axis + x) :=
                 clamp_bin hsz (line_through tanf x0 (F32.of_int y0) theta x)]> t
        else t).
Proof.
  intros HT Ht0 Hy0 Hc Hv. unfold extrap_column.
  replace (1 * dim_x hsz * axis + 1 * x0) with (dim_x hsz * axis + x0) by lia.
  replace (1 * dim_x hsz * axis + 1 * x) with (dim_x hsz * axis + x) by lia.
  rewrite Ht0. simpl. rewrite Hy0. simpl. rewrite Hc. simpl.
  destruct (F32.ltb c (F32.of_int mc)); [|reflexivity].
  rewrite wr_Some by exact HT. simpl.
  rewrite rd_insert_eq by exact HT. simpl.
  rewrite wr_Some by (rewrite length_insert; exact HT). simpl.
  rewrite list_insert_insert_eq. reflexivity.
Qed.
End Extrap.
(** ** [median_extrapolation] *)

Lemma count_range_snoc p lo n :
  count_range p lo (S n) =
  count_range p lo n + (if p (lo + Z.of_nat n) then 1 else 0).
Proof.
  revert lo. induction n as [|n IH]; intros lo.
  - simpl count_range. replace (lo + Z.of_nat 0) with lo by lia.
    destruct (p lo); lia.
  - change (count_range p lo (S (S n)))
      with ((if p lo then 1 else 0) + count_range p (lo + 1) (S n)).
    rewrite IH. simpl count_range.
    replace (lo + 1 + Z.of_nat n) with (lo + Z.of_nat (S n)) by lia. lia.
Qed.

Lemma count_range_disjoint p q lo n :
  (forall x, p x && q x = false) ->
  count_range p lo n + count_range q lo n <= Z.of_nat n.
Proof.
  intros Hpq. revert lo. induction n as [|n IH]; intros lo; simpl count_range; [lia|].
  specialize (IH (lo + 1)). specialize (Hpq lo).
  destruct (p lo), (q lo); try discriminate; lia.
Qed.

Lemma count_range_bounds p lo n : 0 <= count_range p lo n <= Z.of_nat n.
Proof.
  revert lo. induction n as [|n IH]; intros lo; simpl count_range; [lia|].
  specialize (IH (lo + 1)). destruct (p lo); lia.
Qed.

Section Median.
Variable tanf : float -> float.

Lemma count_below_above_spec db t mc x0 axis theta t0 y0 :
  0 <= dim_x (hsz db) <= 2 ^ 24 ->
  0 <= dim_x (tsz db) * axis ->
  dim_x (tsz db) * axis + dim_x (hsz db) <= Z.of_nat (length t) ->
  dim_x (tsz db) * axis + dim_x (hsz db) <= Z.of_nat (length (cnts db)) ->
  rd t (dim_x (tsz db) * axis + x0) = Some t0 -> F32.to_int t0 = Some y0 ->
  let n := Z.to_nat (dim_x (hsz db)) in
  count_below_above tanf db t mc x0 axis theta =
  Some (F32.of_int (count_range (fun x => significant db mc axis x &&
          negb (above_line tanf db t x0 (F32.of_int y0) axis theta x)) 0 n),
        F32.of_int (count_range (fun x => significant db mc axis x &&
          above_line tanf db t x0 (F32.of_int y0) axis theta x) 0 n)).
Proof.
  intros Hn Hax Hlt Hlc Ht0 Hy0 n. unfold count_below_above.
  set (pb := fun x => significant db mc axis x &&
          negb (above_line tanf db t x0 (F32.of_int y0) axis theta x)).
  set (pa := fun x => significant db mc axis x &&
          above_line tanf db t x0 (F32.of_int y0) axis theta x).
  set (body := fun (x : Z) (st : float * float) => _).
  set (P := fun (i : Z) (st : float * float) =>
     st = (F32.of_int (count_range pb 0 (Z.to_nat i)),
           F32.of_int (count_range pa 0 (Z.to_nat i)))).
  destruct (for_range_inv P body 0 (dim_x (hsz db)) (F32.zero, F32.zero))
    as (st & Hrun & Hst).
  - lia.
  - reflexivity.
  - intros i [ls us] Hi Hp. unfold P in Hp. injection Hp as -> ->.
    unfold body.
    replace (1 * dim_x (tsz db) * axis + 1 * i) with (dim_x (tsz db) * axis + i) by lia.
    replace (1 * dim_x (tsz db) * axis + 1 * x0) with (dim_x (tsz db) * axis + x0) by lia.
    destruct (rd_Some t (dim_x (tsz db) * axis + i)) as [Y HY]; [lia|].
    destruct (rd_Some (cnts db) (dim_x (tsz db) * axis + i)) as [c Hc]; [lia|].
    rewrite HY, Ht0. simpl. rewrite Hy0. simpl. rewrite Hc. simpl.
    change (F32.add (F32.mul (tanf theta) (F32.of_int i))
                    (calc_intercept x0 y0 (tanf theta)))
      with (line_through tanf x0 (F32.of_int y0) theta i).
    assert (Hsig : significant db mc axis i = F32.gtb c (F32.of_int mc))
      by (unfold significant; rewrite Hc; reflexivity).
    assert (Habove : above_line tanf db t x0 (F32.of_int y0) axis theta i =
                     F32.gtb Y (line_through tanf x0 (F32.of_int y0) theta i))
      by (unfold above_line; rewrite HY; reflexivity).
    pose proof (count_range_bounds pb 0 (Z.to_nat i)) as Bb.
    pose proof (count_range_bounds pa 0 (Z.to_nat i)) as Ba.
    assert (Hb : count_range pb 0 (Z.to_nat (i + 1)) =
                 count_range pb 0 (Z.to_nat i) + (if pb i then 1 else 0)).
    { replace (Z.to_nat (i + 1)) with (S (Z.to_nat i)) by lia.
      rewrite count_range_snoc.
      replace (0 + Z.of_nat (Z.to_nat i)) with i by lia. reflexivity. }
    assert (Ha : count_range pa 0 (Z.to_nat (i + 1)) =
                 count_range pa 0 (Z.to_nat i) + (if pa i then 1 else 0)).
    { replace (Z.to_nat (i + 1)) with (S (Z.to_nat i)) by lia.
      rewrite count_range_snoc.
      replace (0 + Z.of_nat (Z.to_nat i)) with i by lia. reflexivity. }
    assert (Hpb : pb i = F32.gtb c (F32.of_int mc) &&
                negb (F32.gtb Y (line_through tanf x0 (F32.of_int y0) theta i)))
      by (unfold pb; rewrite Hsig, Habove; reflexivity).
    assert (Hpa : pa i = F32.gtb c (F32.of_int mc) &&
                F32.gtb Y (line_through tanf x0 (F32.of_int y0) theta i))
      by (unfold pa; rewrite Hsig, Habove; reflexivity).
    rewrite Hpb in Hb. rewrite Hpa in Ha.
    unfold P. rewrite Hb, Ha.
    destruct (F32.gtb c (F32.of_int mc)); simpl andb.
    + destruct (F32.gtb Y _); simpl negb.
      * eexists. split; [reflexivity|]. rewrite Z.add_0_r.
        rewrite F32_one_of_int, F32_add_of_int by lia. reflexivity.
      * eexists. split; [reflexivity|]. rewrite Z.add_0_r.
        rewrite F32_one_of_int, F32_add_of_int by lia. reflexivity.
    + eexists. split; [reflexivity|]. rewrite !Z.add_0_r. reflexivity.
  - rewrite Hrun. unfold P in Hst. rewrite Hst. reflexivity.
Qed.

Lemma median_sweep_first_angle fuel db t mc x0 axis t0 y0 :
  0 <= dim_x (hsz db) <= 2 ^ 24 ->
  0 <= dim_x (tsz db) * axis ->
  dim_x (tsz db) * axis + dim_x (hsz db) <= Z.of_nat (length t) ->
  dim_x (tsz db) * axis + dim_x (hsz db) <= Z.of_nat (length (cnts db)) ->
  rd t (dim_x (tsz db) * axis + x0) = Some t0 -> F32.to_int t0 = Some y0 ->
  forall theta thetas,
    sweep_angles fuel (hsz db) theta = Some thetas ->
    median_sweep tanf fuel db t mc x0 axis theta =
    Some (first_angle (share_reached tanf db t mc x0 (F32.of_int y0) axis) thetas).
Proof.
  intros Hn Hax Hlt Hlc Ht0 Hy0.
  induction fuel as [|fuel IH]; intros theta thetas Hs; [discriminate|].
  simpl in Hs. simpl median_sweep.
  destruct (in_sweep theta).
  - destruct (sweep_angles fuel (hsz db) (next_theta (hsz db) theta))
      as [rest|] eqn:Er; [|discriminate].
    injection Hs as <-.
    rewrite (count_below_above_spec db t mc x0 axis theta t0 y0) by assumption.
    cbn [first_angle].
    match goal with
    | |- Some ?lu ≫= ?f = _ => change (Some lu ≫= f) with (f lu); cbv beta
    end.
    rewrite ratio_reached_counts; try apply count_range_bounds.
    + fold (share_reached tanf db t mc x0 (F32.of_int y0) axis theta).
      destruct (share_reached tanf db t mc x0 (F32.of_int y0) axis theta);
        [reflexivity|]. apply IH. exact Er.
    + etransitivity; [apply count_range_disjoint|lia].
      intros x. destruct (significant db mc axis x), (above_line _ _ _ _ _ _ _ _);
        reflexivity.
  - injection Hs as <-. reflexivity.
Qed.
End Median.


(** ** [calc_histogram] *)

Lemma fold_opt_ext {A S} (f g : A -> S -> option S) l s :
  (forall a s, f a s = g a s) -> fold_opt f l s = fold_opt g l s.
Proof.
  intros He. revert s. induction l as [|a l IH]; intros s; [reflexivity|].
  simpl. rewrite He. destruct (g a s) as [s'|]; [apply IH|reflexivity].
Qed.

Lemma fold_opt_app {A S} (f : A -> S -> option S) l1 l2 s :
  fold_opt f (l1 ++ l2) s = fold_opt f l1 s ≫= fold_opt f l2.
Proof.
  revert s. induction l1 as [|a l1 IH]; intros s; [reflexivity|].
  simpl. destruct (f a s) as [s'|]; [apply IH|reflexivity].
Qed.

Lemma fold_opt_map {A B S} (f : B -> S -> option S) (g : A -> B) l s :
  fold_opt f (map g l) s = fold_opt (fun a => f (g a)) l s.
Proof.
  revert s. induction l as [|a l IH]; intros s; [reflexivity|].
  simpl. destruct (f (g a) s) as [s'|]; [apply IH|reflexivity].
Qed.

Lemma fold_opt_concat_map {A B S} (f : B -> S -> option S) (g : A -> list B) l s :
  fold_opt f (concat (map g l)) s = fold_opt (fun a => fold_opt f (g a)) l s.
Proof.
  revert s. induction l as [|a l IH]; intros s; [reflexivity|].
  change (concat (map g (a :: l))) with (g a ++ concat (map g l)).
  rewrite fold_opt_app. simpl.
  destruct (fold_opt f (g a) s) as [s'|]; [apply IH|reflexivity].
Qed.

Lemma for_loop_fold_opt {S} (body : Z -> S -> option S) n lo s :
  for_loop n lo body s = fold_opt body (seqZ lo (Z.of_nat n)) s.
Proof.
  revert lo s. induction n as [|n IH]; intros lo s; [reflexivity|].
  rewrite seqZ_cons by lia. simpl.
  destruct (body lo s) as [s'|]; [|reflexivity]. simpl.
  rewrite IH. do 2 f_equal; lia.
Qed.

Lemma for_range_fold_opt {S} (body : Z -> S -> option S) hi s :
  for_range 0 hi body s = fold_opt body (seqZ 0 hi) s.
Proof.
  unfold for_range. rewrite for_loop_fold_opt, Z.sub_0_r.
  destruct (Z.le_gt_cases 0 hi) as [H|H].
  - rewrite Z2Nat.id by lia. reflexivity.
  - replace (Z.to_nat hi) with 0%nat by lia.
    unfold seqZ. replace (Z.to_nat hi) with 0%nat by lia. reflexivity.
Qed.

Ltac bind_some :=
  repeat match goal with
  | |- context [Some ?c ≫= ?f] => change (Some c ≫= f) with (f c); cbv beta
  end.

Section Histogram.
Variable bad_pix : float.

(** The sequential loops visit the pixels in the order of [pixels]. *)
Lemma calc_histogram_accumulate db lmed axis :
  calc_histogram bad_pix db lmed axis =
  set_hist db <$> accumulate bad_pix db lmed axis (pixels (dsz db)) (hist db).
Proof.
  unfold calc_histogram, accumulate.
  assert (H : for_range 0 (dim_z (dsz db)) (fun z =>
                for_range 0 (dim_y (dsz db)) (fun y =>
                  for_range 0 (dim_x (dsz db)) (fun x =>
                    pixel_update bad_pix db lmed axis z y x))) (hist db) =
              fold_opt (fun p => let '(z, y, x) := p in
                          pixel_update bad_pix db lmed axis z y x)
                       (pixels (dsz db)) (hist db)).
  { unfold pixels. rewrite fold_opt_concat_map, for_range_fold_opt.
    apply fold_opt_ext. intros z s.
    rewrite fold_opt_concat_map, for_range_fold_opt.
    apply fold_opt_ext. intros y s'.
    rewrite fold_opt_map, for_range_fold_opt. reflexivity. }
  cbv zeta. rewrite H. destruct (fold_opt _ _ _); reflexivity.
Qed.

Lemma pixel_update_class db lmed axis z y x h :
  pixel_update bad_pix db lmed axis z y x h =
  c ← pixel_class bad_pix db lmed (z, y, x);
  match c with
  | None => Some h
  | Some (X, Y) =>
      v ← rd h (hidx (hsz db) axis X Y); wr h (hidx (hsz db) axis X Y) (F32.add v F32.one)
  end.
Proof.
  unfold pixel_update, pixel_class, hidx.
  replace (1 * dim_x (dsz db) * dim_y (dsz db) * z + 1 * dim_x (dsz db) * y + 1 * x)
    with (dim_x (dsz db) * dim_y (dsz db) * z + dim_x (dsz db) * y + x) by lia.
  destruct (rd (gmap db) _) as [g|]; [|reflexivity]. simpl.
  destruct (F32.eqb g bad_pix); [reflexivity|].
  destruct (rd (data db) _) as [d|]; [|reflexivity]. simpl.
  destruct (rd lmed _) as [m|]; [|reflexivity]. simpl.
  destruct (data2hist m _ _ _) as [X|]; [|reflexivity]. simpl.
  destruct (data2hist d _ _ _) as [Y|]; [|reflexivity]. simpl.
  replace (1 * dim_x (hsz db) * dim_y (hsz db) * axis + 1 * dim_x (hsz db) * Y + 1 * X)
    with (dim_x (hsz db) * dim_y (hsz db) * axis + dim_x (hsz db) * Y + X) by lia.
  reflexivity.
Qed.

Lemma saturated_succ c : 0 <= c -> F32.add (saturated c) F32.one = saturated (c + 1).
Proof.
  intros Hc. unfold saturated.
  destruct (Z.lt_ge_cases c (2 ^ 24)) as [Hlt|Hge].
  - rewrite Z.min_l, Z.min_l by lia.
    rewrite F32_one_of_int, F32_add_of_int by lia. reflexivity.
  - rewrite Z.min_r, Z.min_r by lia. vm_compute. reflexivity.
Qed.

Lemma saturated_small c : 0 <= c <= 2 ^ 24 -> saturated c = F32.of_int c.
Proof. intros Hc. unfold saturated. rewrite Z.min_l by lia. reflexivity. Qed.

Lemma count_list_cons {A} (f : A -> bool) a l :
  count_list f (a :: l) = (if f a then 1 else 0) + count_list f l.
Proof. reflexivity. Qed.

Lemma count_list_nonneg {A} (f : A -> bool) l : 0 <= count_list f l.
Proof. induction l as [|a l IH]; simpl; [lia|]. destruct (f a); lia. Qed.


(** After any sequence of pixels every entry of the slice holds its count,
    saturated. *)
Lemma accumulate_counts db lmed axis order :
  0 <= axis ->
  in_range bad_pix db lmed order ->
  forall (h : list float) (c0 : Z -> Z -> Z),
    dim_x (hsz db) * dim_y (hsz db) * (axis + 1) <= Z.of_nat (length h) ->
    (forall x y, 0 <= x < dim_x (hsz db) -> 0 <= y < dim_y (hsz db) ->
       0 <= c0 x y /\ rd h (hidx (hsz db) axis x y) = Some (saturated (c0 x y))) ->
    exists h',
      accumulate bad_pix db lmed axis order h = Some h' /\
      length h' = length h /\
      forall x y, 0 <= x < dim_x (hsz db) -> 0 <= y < dim_y (hsz db) ->
        rd h' (hidx (hsz db) axis x y) =
        Some (saturated (c0 x y + count_bin bad_pix db lmed order x y)).
Proof.
  intros Haxis. unfold accumulate, count_bin.
  induction order as [|[[z y] x] order IH]; intros Hin h c0 Hlen Hh.
  - exists h. split; [reflexivity|]. split; [reflexivity|].
    intros x y Hx Hy. simpl. rewrite Z.add_0_r. apply Hh; assumption.
  - destruct (Hin (z, y, x)) as (c & Hc & Hr); [apply list_elem_of_here|].
    cbn [fold_opt]. rewrite pixel_update_class, Hc. bind_some.
    assert (Hin' : in_range bad_pix db lmed order).
    { intros p Hp. apply Hin. apply list_elem_of_further. exact Hp. }
    destruct c as [[X Y]|].
    + destruct (Hr X Y eq_refl) as [HX HY].
      destruct (Hh X Y HX HY) as [Hc0 Hrd]. rewrite Hrd. bind_some.
      pose proof (hidx_bound (hsz db) axis X Y Haxis HX HY) as Hb.
      rewrite wr_Some by lia. bind_some.
      destruct (IH Hin' (<[Z.to_nat (hidx (hsz db) axis X Y) :=
                             F32.add (saturated (c0 X Y)) F32.one]> h)
                  (fun x' y' => c0 x' y' + (if (X =? x') && (Y =? y') then 1 else 0)))
        as (h' & Hrun & Hlen' & Hres).
      * rewrite length_insert. exact Hlen.
      * intros x' y' Hx' Hy'. destruct (Hh x' y' Hx' Hy') as [Hc0' Hrd'].
        destruct (Z.eqb_spec X x') as [->|Hne]; simpl.
        -- destruct (Z.eqb_spec Y y') as [->|Hne]; simpl.
           ++ split; [lia|]. rewrite rd_insert_eq by lia.
              rewrite saturated_succ by exact Hc0. reflexivity.
           ++ split; [lia|]. rewrite Z.add_0_r, rd_insert_ne; [exact Hrd'|lia|].
              intros Heq. apply hidx_inj in Heq; lia.
        -- split; [lia|]. rewrite Z.add_0_r, rd_insert_ne; [exact Hrd'|lia|].
           intros Heq. apply hidx_inj in Heq; lia.
      * exists h'. split; [exact Hrun|]. split; [rewrite Hlen', length_insert; reflexivity|].
        intros x' y' Hx' Hy'. rewrite (Hres x' y' Hx' Hy').
        rewrite count_list_cons, Hc. simpl in_bin. do 2 f_equal. lia.
    + destruct (IH Hin' h c0 Hlen Hh) as (h' & Hrun & Hlen' & Hres).
      exists h'. split; [exact Hrun|]. split; [exact Hlen'|].
      intros x' y' Hx' Hy'. rewrite (Hres x' y' Hx' Hy').
      rewrite count_list_cons, Hc. simpl in_bin. do 2 f_equal.
Qed.
End Histogram.

(** *** Counting *)


Lemma count_list_Permutation {A} (f : A -> bool) l l' :
  l ≡ₚ l' -> count_list f l = count_list f l'.
Proof.
  induction 1 as [|a l l' _ IH|a b l|l l' l'' _ IH1 _ IH2]; simpl; lia.
Qed.

Lemma zsum_map_add {A} (f g : A -> Z) l :
  zsum (map (fun a => f a + g a) l) = zsum (map f l) + zsum (map g l).
Proof. induction l as [|a l IH]; simpl; lia. Qed.

Lemma zsum_map_zero {A} (l : list A) : zsum (map (fun _ => 0) l) = 0.
Proof. induction l as [|a l IH]; simpl; lia. Qed.

Lemma zsum_map_ext {A} (f g : A -> Z) l :
  (forall a, a ∈ l -> f a = g a) -> zsum (map f l) = zsum (map g l).
Proof.
  induction l as [|a l IH]; intros He; [reflexivity|]. simpl.
  rewrite (He a) by apply list_elem_of_here. rewrite IH; [reflexivity|].
  intros b Hb. apply He, list_elem_of_further, Hb.
Qed.

Lemma zsum_indicator Y lo n :
  zsum (map (fun y => if Y =? y then 1 else 0) (seqZ lo (Z.of_nat n))) =
  if (lo <=? Y) && (Y <? lo + Z.of_nat n) then 1 else 0.
Proof.
  revert lo. induction n as [|n IH]; intros lo.
  - change (Z.of_nat 0) with 0. simpl.
    destruct (Z.leb_spec lo Y), (Z.ltb_spec Y (lo + 0)); simpl; lia.
  - rewrite seqZ_cons by lia. simpl map. simpl zsum.
    replace (Z.pred (Z.of_nat (S n))) with (Z.of_nat n) by lia.
    rewrite IH.
    destruct (Z.eqb_spec Y lo), (Z.leb_spec (Z.succ lo) Y),
      (Z.ltb_spec Y (Z.succ lo + Z.of_nat n)), (Z.leb_spec lo Y),
      (Z.ltb_spec Y (lo + Z.of_nat (S n))); simpl; lia.
Qed.

Section Counts.
Variable bad_pix : float.

Lemma in_range_Permutation db lmed l l' :
  l ≡ₚ l' -> in_range bad_pix db lmed l -> in_range bad_pix db lmed l'.
Proof. intros Hp Hin p Hel. apply Hin. rewrite Hp. exact Hel. Qed.

(** The counts of a column add up to the count of its statistic bin. *)
Lemma count_bin_sum db lmed order x :
  0 <= dim_y (hsz db) ->
  in_range bad_pix db lmed order ->
  zsum (map (count_bin bad_pix db lmed order x) (seqZ 0 (dim_y (hsz db)))) =
  count_stat bad_pix db lmed order x.
Proof.
  intros Hy. unfold count_bin, count_stat.
  induction order as [|p order IH]; intros Hin.
  - simpl. apply zsum_map_zero.
  - rewrite count_list_cons.
    rewrite (zsum_map_ext _ (fun y =>
               (if in_bin x y (pixel_class bad_pix db lmed p) then 1 else 0) +
               count_list (fun p => in_bin x y (pixel_class bad_pix db lmed p)) order))
      by (intros; reflexivity).
    rewrite zsum_map_add, IH.
    2:{ intros q Hq. apply Hin, list_elem_of_further, Hq. }
    f_equal.
    destruct (Hin p) as (c & Hc & Hr); [apply list_elem_of_here|].
    rewrite Hc. destruct c as [[X Y]|]; simpl in_bin; simpl in_stat_bin.
    + destruct (Hr X Y eq_refl) as [_ HY].
      destruct (Z.eqb_spec X x); simpl.
      * rewrite <- (Z2Nat.id (dim_y (hsz db))) by lia.
        rewrite zsum_indicator. rewrite Z2Nat.id by lia.
        destruct (Z.leb_spec 0 Y), (Z.ltb_spec Y (0 + dim_y (hsz db))); simpl; lia.
      * apply zsum_map_zero.
    + apply zsum_map_zero.
Qed.

Lemma count_bin_nonneg db lmed order x y : 0 <= count_bin bad_pix db lmed order x y.
Proof. apply count_list_nonneg. Qed.
End Counts.

Lemma zsum_nonneg l : Forall (fun k => 0 <= k) l -> 0 <= zsum l.
Proof. induction 1; simpl; lia. Qed.

(** Adding up counts in binary32 is exact as long as the total is at most
    [2^24]. *)
Lemma foldl_add_of_int (l : list Z) (a : Z) :
  0 <= a -> Forall (fun k => 0 <= k) l -> a + zsum l <= 2 ^ 24 ->
  foldl F32.add (F32.of_int a) (map F32.of_int l) = F32.of_int (a + zsum l).
Proof.
  revert a. induction l as [|k l IH]; intros a Ha Hl Hs.
  - simpl. f_equal. lia.
  - inversion Hl as [|? ? Hk Hl']; subst. simpl in Hs |- *.
    pose proof (zsum_nonneg l Hl').
    rewrite F32_add_of_int by lia. rewrite IH by (try assumption; lia).
    f_equal. lia.
Qed.

(** *** [init_histogram] *)

Lemma init_histogram_spec db :
  0 <= dim_x (hsz db) -> 0 <= dim_y (hsz db) -> 0 <= dim_z (hsz db) ->
  dim_x (hsz db) * dim_y (hsz db) * dim_z (hsz db) <= Z.of_nat (length (hist db)) ->
  dim_x (hsz db) <= Z.of_nat (length (ihst db)) ->
  exists hist' ihst',
    init_histogram db = Some (set_ihst (set_hist db hist') ihst') /\
    length hist' = length (hist db) /\
    forall L, 0 <= L < dim_x (hsz db) * dim_y (hsz db) * dim_z (hsz db) ->
      rd hist' L = Some F32.zero.
Proof.
  intros Hx Hy Hz Hlh Hli. unfold init_histogram.
  set (hx := dim_x (hsz db)) in *. set (hy := dim_y (hsz db)) in *.
  set (hz := dim_z (hsz db)) in *.
  set (P := fun (n : Z) (st : list float * list float) =>
     length (fst st) = length (hist db) /\ length (snd st) = length (ihst db) /\
     forall L, 0 <= L < n -> rd (fst st) L = Some F32.zero).
  assert (Hinner : forall z y st, 0 <= z < hz -> 0 <= y < hy ->
            P (z * (hx * hy) + y * hx) st ->
            exists st',
              for_range 0 hx (fun x (st : list float * list float) =>
                let '(hist, ihst) := st in
                let L := x * 1 + y * (1 * hx) + z * (1 * hx * hy) in
                hist ← wr hist L F32.zero;
                ihst ← (if y =? 0
                        then if z =? 0 then wr ihst L F32.zero else Some ihst
                        else Some ihst);
                Some (hist, ihst)) st = Some st' /\
              P (z * (hx * hy) + (y + 1) * hx) st').
  { intros z y st Hz0 Hy0 Hst.
    destruct (for_range_inv (fun x => P (z * (hx * hy) + y * hx + x)) 
                (fun x (st : list float * list float) =>
                let '(hist, ihst) := st in
                let L := x * 1 + y * (1 * hx) + z * (1 * hx * hy) in
                hist ← wr hist L F32.zero;
                ihst ← (if y =? 0
                        then if z =? 0 then wr ihst L F32.zero else Some ihst
                        else Some ihst);
                Some (hist, ihst)) 0 hx st) as (st' & Hrun & Hp).
    - exact Hx.
    - rewrite Z.add_0_r. exact Hst.
    - intros x [h ih] Hx0 (Hl1 & Hl2 & Hzero). simpl in Hl1, Hl2, Hzero.
      cbv zeta.
      replace (x * 1 + y * (1 * hx) + z * (1 * hx * hy))
        with (z * (hx * hy) + y * hx + x) by lia.
      assert (Hb : 0 <= z * (hx * hy) + y * hx + x < hx * hy * hz).
      { assert (y * hx + x < hx * hy) by nia.
        assert (0 <= y * hx) by nia. assert (0 <= hx * hy) by nia.
        assert (z * (hx * hy) + hx * hy <= hz * (hx * hy)) by nia. nia. }
      rewrite (wr_Some h) by lia. bind_some.
      assert (Hih : exists ih', (if y =? 0
                        then if z =? 0
                             then wr ih (z * (hx * hy) + y * hx + x) F32.zero
                             else Some ih
                        else Some ih) = Some ih' /\ length ih' = length ih).
      { destruct (Z.eqb_spec y 0) as [->|]; [|eauto].
        destruct (Z.eqb_spec z 0) as [->|]; [|eauto].
        rewrite wr_Some by lia. eexists. split; [reflexivity|apply length_insert]. }
      destruct Hih as (ih' & -> & Hlih). bind_some.
      eexists. split; [reflexivity|]. split; [|split]; simpl.
      + rewrite length_insert. exact Hl1.
      + congruence.
      + intros L HL. destruct (decide (L = z * (hx * hy) + y * hx + x)) as [->|Hne].
        * apply rd_insert_eq. lia.
        * rewrite rd_insert_ne by lia. apply Hzero. lia.
    - exists st'. split; [exact Hrun|].
      replace (z * (hx * hy) + (y + 1) * hx) with (z * (hx * hy) + y * hx + hx) by lia.
      exact Hp. }
  assert (Hmiddle : forall z st, 0 <= z < hz -> P (z * (hx * hy)) st ->
            exists st',
              for_range 0 hy (fun y =>
                for_range 0 hx (fun x (st : list float * list float) =>
                  let '(hist, ihst) := st in
                  let L := x * 1 + y * (1 * hx) + z * (1 * hx * hy) in
                  hist ← wr hist L F32.zero;
                  ihst ← (if y =? 0
                          then if z =? 0 then wr ihst L F32.zero else Some ihst
                          else Some ihst);
                  Some (hist, ihst))) st = Some st' /\
              P ((z + 1) * (hx * hy)) st').
  { intros z st Hz0 Hst.
    destruct (for_range_inv (fun y => P (z * (hx * hy) + y * hx)) 
                (fun y =>
                for_range 0 hx (fun x (st : list float * list float) =>
                  let '(hist, ihst) := st in
                  let L := x * 1 + y * (1 * hx) + z * (1 * hx * hy) in
                  hist ← wr hist L F32.zero;
                  ihst ← (if y =? 0
                          then if z =? 0 then wr ihst L F32.zero else Some ihst
                          else Some ihst);
                  Some (hist, ihst))) 0 hy st) as (st' & Hrun & Hp).
    - exact Hy.
    - rewrite Z.mul_0_l, Z.add_0_r. exact Hst.
    - intros y st1 Hy0 Hst1. apply Hinner; assumption.
    - exists st'. split; [exact Hrun|].
      replace ((z + 1) * (hx * hy)) with (z * (hx * hy) + hy * hx) by lia.
      exact Hp. }
  destruct (for_range_inv (fun z => P (z * (hx * hy)))
              (fun z =>
                for_range 0 hy (fun y =>
                for_range 0 hx (fun x (st : list float * list float) =>
                  let '(hist, ihst) := st in
                  let L := x * 1 + y * (1 * hx) + z * (1 * hx * hy) in
                  hist ← wr hist L F32.zero;
                  ihst ← (if y =? 0
                          then if z =? 0 then wr ihst L F32.zero else Some ihst
                          else Some ihst);
                  Some (hist, ihst)))) 0 hz (hist db, ihst db))
    as ([h' ih'] & Hrun & Hl1 & Hl2 & Hzero).
  - exact Hz.
  - split; [reflexivity|]. split; [reflexivity|]. intros L HL. lia.
  - intros z st Hz0 Hst. apply Hmiddle; assumption.
  - cbv zeta in Hrun |- *. rewrite Hrun. simpl. exists h', ih'. split; [reflexivity|].
    split; [exact Hl1|]. intros L HL. apply Hzero. simpl. lia.
Qed.

(** *** The histogram of a slice and its column sums *)

Lemma int_float_ceil prec emax k f :
  1 < prec -> int_float prec emax k f -> SFceil f = Some k.
Proof.
  intros Hprec [[-> ->]|(Hk & M & E & -> & Hc & HE & Hv)]; [reflexivity|].
  unfold SFceil. f_equal.
  assert (Hp : 0 < 2 ^ prec) by (apply Z.pow_pos_nonneg; lia).
  destruct E as [|e|e].
  - rewrite Z.add_0_l in Hv. rewrite Z.pow_0_r, Z.mul_1_r.
    apply (Z.mul_reg_r _ _ (2 ^ prec)); lia.
  - assert (Z.pos e = 1) by lia.
    rewrite Z.pow_add_r in Hv by lia.
    apply (Z.mul_reg_r _ _ (2 ^ prec)); [lia|]. rewrite <- Hv. ring.
  - rewrite Z.pow_pos_fold.
    assert (He : 0 < 2 ^ Z.pos e) by (apply Z.pow_pos_nonneg; lia).
    assert (Hs : 2 ^ prec = 2 ^ (Z.neg e + prec) * 2 ^ Z.pos e).
    { rewrite <- Z.pow_add_r by lia. f_equal. lia. }
    assert (Hpe : 0 < 2 ^ (Z.neg e + prec)) by (apply Z.pow_pos_nonneg; lia).
    assert (Hm : Z.pos M = k * 2 ^ Z.pos e).
    { apply (Z.mul_reg_r _ _ (2 ^ (Z.neg e + prec))); [lia|]. rewrite Hv, Hs. ring. }
    rewrite Hm. rewrite <- Z.mul_opp_l, Z.div_mul by lia. lia.
Qed.

Lemma F32_integer_of_int k :
  0 <= k <= 2 ^ 24 -> SFinteger (F32.of_int k) = Some k.
Proof.
  intros Hk. pose proof (F32_of_int_int_float k Hk) as Hi. unfold SFinteger.
  erewrite int_float_floor by (try exact Hi; f32).
  erewrite int_float_ceil by (try exact Hi; f32).
  rewrite Z.eqb_refl. reflexivity.
Qed.

Lemma count_list_le {A} (f g : A -> bool) l :
  (forall a, f a = true -> g a = true) -> count_list f l <= count_list g l.
Proof.
  intros Hfg. induction l as [|a l IH]; simpl; [lia|].
  specialize (Hfg a). destruct (f a), (g a); try lia.
Qed.

Lemma count_list_all {A} (f : A -> bool) l :
  (forall a, a ∈ l -> f a = true) -> count_list f l = Z.of_nat (length l).
Proof.
  induction l as [|a l IH]; intros Hall; [reflexivity|].
  rewrite count_list_cons, Hall by apply list_elem_of_here.
  rewrite IH by (intros b Hb; apply Hall, list_elem_of_further, Hb).
  simpl length. lia.
Qed.

Lemma count_list_none {A} (f : A -> bool) l :
  (forall a, a ∈ l -> f a = false) -> count_list f l = 0.
Proof.
  induction l as [|a l IH]; intros Hall; [reflexivity|].
  rewrite count_list_cons, Hall by apply list_elem_of_here.
  rewrite IH by (intros b Hb; apply Hall, list_elem_of_further, Hb).
  reflexivity.
Qed.

Section Slice.
Variable bad_pix : float.

Lemma count_bin_le_stat db lmed order x y :
  count_bin bad_pix db lmed order x y <= count_stat bad_pix db lmed order x.
Proof.
  apply count_list_le. intros p.
  destruct (pixel_class bad_pix db lmed p) as [[[X Y]|]|]; simpl; try discriminate.
  intros H. apply andb_true_iff in H. apply H.
Qed.


Lemma count_column_sum db lmed order x :
  0 <= dim_y (hsz db) ->
  in_range bad_pix db lmed order ->
  count_stat bad_pix db lmed order x <= 2 ^ 24 ->
  column_sum (count_column bad_pix db lmed order x) =
  F32.of_int (count_stat bad_pix db lmed order x).
Proof.
  intros Hy Hin Hle. unfold column_sum, count_column.
  rewrite (map_ext_in _ (fun y => F32.of_int (count_bin bad_pix db lmed order x y))).
  2:{ intros y _. apply saturated_small. split; [apply count_bin_nonneg|].
      pose proof (count_bin_le_stat db lmed order x y). lia. }
  rewrite <- (map_map (count_bin bad_pix db lmed order x) F32.of_int).
  change F32.zero with (F32.of_int 0).
  rewrite foldl_add_of_int.
  - rewrite count_bin_sum by assumption. reflexivity.
  - lia.
  - apply List.Forall_forall. intros k Hk. apply in_map_iff in Hk.
    destruct Hk as (y & <- & _). apply count_bin_nonneg.
  - rewrite count_bin_sum by assumption. lia.
Qed.
End Slice.

Section Pipeline.
Variable bad_pix : float.

Lemma count_column_is_column db lmed order axis x (h : list float) :
  0 <= dim_y (hsz db) ->
  (forall y, 0 <= y < dim_y (hsz db) ->
     rd h (hidx (hsz db) axis x y) =
     Some (saturated (count_bin bad_pix db lmed order x y))) ->
  is_column h (hsz db) axis x (count_column bad_pix db lmed order x).
Proof.
  intros Hy Hh. unfold count_column. split.
  - rewrite length_map, length_seqZ. lia.
  - intros y Hy0. rewrite Hh by exact Hy0.
    change (map ?f ?l) with (f <$> l).
    rewrite list_lookup_fmap, lookup_seqZ_lt by lia. simpl.
    replace (0 + Z.of_nat (Z.to_nat y)) with y by lia. reflexivity.
Qed.

(** Initialisation, accumulation in any order and the summation pass, with
    the counters as binary32 leaves them. *)
Lemma histogram_pipeline db lmed axis order :
  0 <= axis < dim_z (hsz db) -> 0 <= dim_x (hsz db) -> 0 <= dim_y (hsz db) ->
  dim_x (hsz db) * dim_y (hsz db) * dim_z (hsz db) <= Z.of_nat (length (hist db)) ->
  dim_x (hsz db) * dim_y (hsz db) * (axis + 1) <= Z.of_nat (length (cumd db)) ->
  dim_x (hsz db) * (axis + 1) <= Z.of_nat (length (cnts db)) ->
  dim_x (hsz db) <= Z.of_nat (length (ihst db)) ->
  order ≡ₚ pixels (dsz db) ->
  in_range bad_pix db lmed (pixels (dsz db)) ->
  exists db1 h db3,
    init_histogram db = Some db1 /\
    accumulate bad_pix db1 lmed axis order (hist db1) = Some h /\
    (order = pixels (dsz db) ->
       calc_histogram bad_pix db1 lmed axis = Some (set_hist db1 h)) /\
    calc_cumulative_distribution (set_hist db1 h) axis = Some db3 /\
    forall x, 0 <= x < dim_x (hsz db) ->
      (forall y, 0 <= y < dim_y (hsz db) ->
         rd h (hidx (hsz db) axis x y) =
         Some (saturated (count_bin bad_pix db lmed (pixels (dsz db)) x y))) /\
      rd (cnts db3) (x + dim_x (hsz db) * axis) =
      Some (column_sum (count_column bad_pix db lmed (pixels (dsz db)) x)).
Proof.
  intros Haxis Hx Hy Hlh Hlc Hln Hli Hperm Hin.
  destruct (init_histogram_spec db Hx Hy ltac:(lia) Hlh Hli)
    as (h0 & ih0 & Hinit & Hl0 & Hzero).
  set (db1 := set_ihst (set_hist db h0) ih0) in *.
  assert (Hslice : dim_x (hsz db) * dim_y (hsz db) * (axis + 1) <=
                   dim_x (hsz db) * dim_y (hsz db) * dim_z (hsz db)).
  { apply Z.mul_le_mono_nonneg_l; [apply Z.mul_nonneg_nonneg; lia|lia]. }
  assert (Hin1 : in_range bad_pix db1 lmed order).
  { apply (in_range_Permutation bad_pix db1 lmed (pixels (dsz db)));
      [symmetry; exact Hperm|exact Hin]. }
  destruct (accumulate_counts bad_pix db1 lmed axis order ltac:(lia) Hin1 h0
              (fun _ _ => 0)) as (h & Hacc & Hlen & Hcount).
  { change (hsz db1) with (hsz db). lia. }
  { intros x y Hx0 Hy0. split; [lia|]. apply Hzero.
    pose proof (hidx_bound (hsz db) axis x y ltac:(lia) Hx0 Hy0).
    change (hsz db1) with (hsz db). lia. }
  assert (Hentries : forall x y, 0 <= x < dim_x (hsz db) -> 0 <= y < dim_y (hsz db) ->
            rd h (hidx (hsz db) axis x y) =
            Some (saturated (count_bin bad_pix db lmed (pixels (dsz db)) x y))).
  { intros x y Hx0 Hy0. pose proof (Hcount x y Hx0 Hy0) as Hc.
    change (hsz db1) with (hsz db) in Hc. rewrite Hc, Z.add_0_l.
    do 2 f_equal. unfold count_bin. apply count_list_Permutation, Hperm. }
  destruct (calc_cumulative_distribution_spec (set_hist db1 h) axis)
    as (db3 & Hcum & _ & Hres).
  - lia.
  - exact Hx.
  - change (hist (set_hist db1 h)) with h. change (hsz (set_hist db1 h)) with (hsz db).
    rewrite Hlen, Hl0. lia.
  - exact Hlc.
  - exact Hln.
  - intros x Hx0. exists (count_column bad_pix db lmed (pixels (dsz db)) x).
    apply (count_column_is_column db); [exact Hy|].
    intros y Hy0. apply Hentries; assumption.
  - exists db1, h, db3. split; [exact Hinit|]. split; [exact Hacc|].
    split; [|split; [exact Hcum|]].
    + intros ->. rewrite calc_histogram_accumulate.
      change (dsz db1) with (dsz db). change (hist db1) with h0.
      rewrite Hacc. reflexivity.
    + intros x Hx0. split; [intros y Hy0; apply Hentries; assumption|].
      destruct (Hres x (count_column bad_pix db lmed (pixels (dsz db)) x) Hx0)
        as [Hc _]; [|exact Hc].
      apply (count_column_is_column db); [exact Hy|].
      intros y Hy0. apply Hentries; assumption.
Qed.
End Pipeline.

(** *** A volume of [n] equal pixels, all of the bin (0, 0) *)


Lemma rd_replicate n v i :
  0 <= i < n -> rd (replicate (Z.to_nat n) v) i = Some v.
Proof.
  intros Hi. unfold rd. destruct (Z.leb_spec 0 i); [|lia].
  apply lookup_replicate_2. lia.
Qed.

Lemma pixels_flat n :
  pixels (Dim3 n 1 1) = map (fun x => (0, 0, x)) (seqZ 0 n).
Proof.
  unfold pixels. change (dim_z (Dim3 n 1 1)) with 1.
  change (dim_y (Dim3 n 1 1)) with 1. change (dim_x (Dim3 n 1 1)) with n.
  change (seqZ 0 1) with [0]. cbn [map concat].
  rewrite !app_nil_r. reflexivity.
Qed.

Lemma pixel_class_flat n p :
  p ∈ pixels (Dim3 n 1 1) ->
  pixel_class F32.zero (db_flat n) (lmed_flat n) p = Some (Some (0, 0)).
Proof.
  rewrite pixels_flat. change (map ?f ?l) with (f <$> l).
  intros Hp. apply list_elem_of_fmap in Hp. destruct Hp as (x & -> & Hx).
  apply elem_of_seqZ in Hx. unfold pixel_class.
  change (dim_x (dsz (db_flat n))) with n.
  change (dim_y (dsz (db_flat n))) with 1.
  change (gmap (db_flat n)) with (replicate (Z.to_nat n) F32.one).
  change (data (db_flat n)) with (replicate (Z.to_nat n) F32.zero).
  unfold lmed_flat.
  rewrite !rd_replicate by lia. reflexivity.
Qed.

Lemma in_range_flat n :
  in_range F32.zero (db_flat n) (lmed_flat n) (pixels (dsz (db_flat n))).
Proof.
  intros p Hp. exists (Some (0, 0)). split; [apply pixel_class_flat, Hp|].
  intros X Y HXY. injection HXY as <- <-.
  change (hsz (db_flat n)) with (Dim3 2 2 1). simpl. lia.
Qed.

Lemma length_pixels_flat n : 0 <= n -> Z.of_nat (length (pixels (Dim3 n 1 1))) = n.
Proof. intros Hn. rewrite pixels_flat, length_map, length_seqZ. lia. Qed.

Lemma count_bin_flat n x y :
  0 <= n ->
  count_bin F32.zero (db_flat n) (lmed_flat n) (pixels (dsz (db_flat n))) x y =
  if (0 =? x) && (0 =? y) then n else 0.
Proof.
  intros Hn. unfold count_bin. change (dsz (db_flat n)) with (Dim3 n 1 1).
  destruct ((0 =? x) && (0 =? y)) eqn:Hxy.
  - rewrite count_list_all; [apply length_pixels_flat, Hn|].
    intros p Hp. rewrite (pixel_class_flat n p Hp). exact Hxy.
  - apply count_list_none.
    intros p Hp. rewrite (pixel_class_flat n p Hp). exact Hxy.
Qed.

Lemma count_stat_flat n x :
  0 <= n ->
  count_stat F32.zero (db_flat n) (lmed_flat n) (pixels (dsz (db_flat n))) x =
  if 0 =? x then n else 0.
Proof.
  intros Hn. unfold count_stat. change (dsz (db_flat n)) with (Dim3 n 1 1).
  destruct (0 =? x) eqn:Hx.
  - rewrite count_list_all; [apply length_pixels_flat, Hn|].
    intros p Hp. rewrite (pixel_class_flat n p Hp). exact Hx.
  - apply count_list_none.
    intros p Hp. rewrite (pixel_class_flat n p Hp). exact Hx.
Qed.

Lemma count_column_flat n :
  0 <= n ->
  count_column F32.zero (db_flat n) (lmed_flat n) (pixels (dsz (db_flat n))) 0 =
  [saturated n; saturated 0].
Proof.
  intros Hn. unfold count_column.
  change (seqZ 0 (dim_y (hsz (db_flat n)))) with [0; 1]. cbn [map].
  rewrite !count_bin_flat by exact Hn. reflexivity.
Qed.

(** Claim C1.  With every non-masked pixel in a bin of the histogram and at
    most [2^24] non-masked pixels in each statistic bin, [init_histogram],
    the accumulation of [calc_histogram] over the pixels in any order and
    [calc_cumulative_distribution] succeed; before the normalisation every
    entry of slice [axis] is the non-negative integer that counts the
    non-masked pixels of its bin, and [cnts[x + hsz.x * axis]] is the number
    of non-masked pixels whose local statistic falls into statistic bin
    [x], whatever the order was.  Taken in the order of the loops the
    accumulation is [calc_histogram] itself. *)
Theorem histogram_counts_any_order bad_pix db lmed axis order :
  0 <= axis < dim_z (hsz db) -> 0 <= dim_x (hsz db) -> 0 <= dim_y (hsz db) ->
  dim_x (hsz db) * dim_y (hsz db) * dim_z (hsz db) <= Z.of_nat (length (hist db)) ->
  dim_x (hsz db) * dim_y (hsz db) * (axis + 1) <= Z.of_nat (length (cumd db)) ->
  dim_x (hsz db) * (axis + 1) <= Z.of_nat (length (cnts db)) ->
  dim_x (hsz db) <= Z.of_nat (length (ihst db)) ->
  order ≡ₚ pixels (dsz db) ->
  in_range bad_pix db lmed (pixels (dsz db)) ->
  (forall x, 0 <= x < dim_x (hsz db) ->
     count_stat bad_pix db lmed (pixels (dsz db)) x <= 2 ^ 24) ->
  exists db1 h db3,
    init_histogram db = Some db1 /\
    accumulate bad_pix db1 lmed axis order (hist db1) = Some h /\
    (order = pixels (dsz db) ->
       calc_histogram bad_pix db1 lmed axis = Some (set_hist db1 h)) /\
    calc_cumulative_distribution (set_hist db1 h) axis = Some db3 /\
    forall x, 0 <= x < dim_x (hsz db) ->
      (forall y, 0 <= y < dim_y (hsz db) ->
         0 <= count_bin bad_pix db lmed (pixels (dsz db)) x y /\
         exists c, rd h (hidx (hsz db) axis x y) = Some c /\
           SFinteger c = Some (count_bin bad_pix db lmed (pixels (dsz db)) x y)) /\
      exists c, rd (cnts db3) (x + dim_x (hsz db) * axis) = Some c /\
        SFinteger c = Some (count_stat bad_pix db lmed (pixels (dsz db)) x).
Proof.
  intros Haxis Hx Hy Hlh Hlc Hln Hli Hperm Hin Hcap.
  destruct (histogram_pipeline bad_pix db lmed axis order
              Haxis Hx Hy Hlh Hlc Hln Hli Hperm Hin)
    as (db1 & h & db3 & Hinit & Hacc & Hseq & Hcum & Hres).
  exists db1, h, db3. repeat (split; [assumption|]).
  intros x Hx0. destruct (Hres x Hx0) as [Hent Hcnt].
  assert (Hstat : 0 <= count_stat bad_pix db lmed (pixels (dsz db)) x)
    by apply count_list_nonneg.
  split.
  - intros y Hy0. split; [apply count_bin_nonneg|].
    eexists. split; [apply Hent, Hy0|].
    pose proof (count_bin_nonneg bad_pix db lmed (pixels (dsz db)) x y).
    pose proof (count_bin_le_stat bad_pix db lmed (pixels (dsz db)) x y).
    specialize (Hcap x Hx0).
    rewrite saturated_small by lia. apply F32_integer_of_int. lia.
  - eexists. split; [exact Hcnt|].
    rewrite count_column_sum by auto.
    apply F32_integer_of_int. specialize (Hcap x Hx0). lia.
Qed.

Lemma histogram_counts_any_order_witness :
  exists db1 h db3,
    init_histogram (db_flat 3) = Some db1 /\
    accumulate F32.zero db1 (lmed_flat 3) 0 (reverse (pixels (dsz (db_flat 3))))
      (hist db1) = Some h /\
    (reverse (pixels (dsz (db_flat 3))) = pixels (dsz (db_flat 3)) ->
       calc_histogram F32.zero db1 (lmed_flat 3) 0 = Some (set_hist db1 h)) /\
    calc_cumulative_distribution (set_hist db1 h) 0 = Some db3 /\
    forall x, 0 <= x < dim_x (hsz (db_flat 3)) ->
      (forall y, 0 <= y < dim_y (hsz (db_flat 3)) ->
         0 <= count_bin F32.zero (db_flat 3) (lmed_flat 3)
                (pixels (dsz (db_flat 3))) x y /\
         exists c, rd h (hidx (hsz (db_flat 3)) 0 x y) = Some c /\
           SFinteger c = Some (count_bin F32.zero (db_flat 3) (lmed_flat 3)
                                 (pixels (dsz (db_flat 3))) x y)) /\
      exists c, rd (cnts db3) (x + dim_x (hsz (db_flat 3)) * 0) = Some c /\
        SFinteger c = Some (count_stat F32.zero (db_flat 3) (lmed_flat 3)
                              (pixels (dsz (db_flat 3))) x).
Proof.
  apply (histogram_counts_any_order F32.zero (db_flat 3) (lmed_flat 3) 0
           (reverse (pixels (dsz (db_flat 3))))).
  - vm_compute. split; [discriminate|reflexivity].
  - vm_compute. discriminate.
  - vm_compute. discriminate.
  - vm_compute. discriminate.
  - vm_compute. discriminate.
  - vm_compute. discriminate.
  - vm_compute. discriminate.
  - apply reverse_Permutation.
  - apply in_range_flat.
  - intros x Hx. rewrite count_stat_flat by lia. destruct (0 =? x); lia.
Defined.

(** The fields of [db_flat n] other than the pixel arrays. *)
Ltac flat_fields :=
  repeat match goal with
  | |- context [hsz (db_flat ?n)] =>
      change (hsz (db_flat n)) with (Dim3 2 2 1)
  | |- context [hist (db_flat ?n)] =>
      change (hist (db_flat n)) with [F32.one; F32.one; F32.one; F32.one]
  | |- context [cumd (db_flat ?n)] =>
      change (cumd (db_flat n)) with [F32.zero; F32.zero; F32.zero; F32.zero]
  | |- context [cnts (db_flat ?n)] =>
      change (cnts (db_flat n)) with [F32.zero; F32.zero]
  | |- context [ihst (db_flat ?n)] =>
      change (ihst (db_flat n)) with [F32.one; F32.one]
  end.

(** With [2^24 + 2] non-masked pixels in one bin the counter stops at
    [2^24]: [cnts[0]] is not the number of pixels of statistic bin 0. *)
Lemma histogram_count_saturates :
  in_range F32.zero (db_flat (2 ^ 24 + 2)) (lmed_flat (2 ^ 24 + 2))
    (pixels (dsz (db_flat (2 ^ 24 + 2)))) /\
  count_stat F32.zero (db_flat (2 ^ 24 + 2)) (lmed_flat (2 ^ 24 + 2))
    (pixels (dsz (db_flat (2 ^ 24 + 2)))) 0 = 2 ^ 24 + 2 /\
  exists db1 db2 db3,
    init_histogram (db_flat (2 ^ 24 + 2)) = Some db1 /\
    calc_histogram F32.zero db1 (lmed_flat (2 ^ 24 + 2)) 0 = Some db2 /\
    calc_cumulative_distribution db2 0 = Some db3 /\
    rd (cnts db3) 0 = Some (F32.of_int (2 ^ 24)) /\
    SFinteger (F32.of_int (2 ^ 24)) = Some (2 ^ 24) /\
    2 ^ 24 <> 2 ^ 24 + 2.
Proof.
  split; [apply in_range_flat|].
  split; [rewrite count_stat_flat by lia; reflexivity|].
  destruct (histogram_pipeline F32.zero (db_flat (2 ^ 24 + 2))
              (lmed_flat (2 ^ 24 + 2)) 0 (pixels (dsz (db_flat (2 ^ 24 + 2)))))
    as (db1 & h & db3 & Hinit & _ & Hseq & Hcum & Hres);
    try (flat_fields; simpl; lia).
  - reflexivity.
  - apply in_range_flat.
  - exists db1, (set_hist db1 h), db3.
    split; [exact Hinit|]. split; [apply Hseq; reflexivity|].
    split; [exact Hcum|].
    destruct (Hres 0) as [_ Hc]; [flat_fields; simpl; lia|].
    rewrite count_column_flat in Hc by lia.
    change (0 + dim_x (hsz (db_flat (2 ^ 24 + 2))) * 0) with 0 in Hc.
    change (column_sum [saturated (2 ^ 24 + 2); saturated 0])
      with (F32.of_int (2 ^ 24)) in Hc.
    split; [exact Hc|]. split; [apply F32_integer_of_int; lia|lia].
Qed.

(** ** Running sums and their quotients in binary32 *)



Lemma SFleb_refl_ok c : partial_sum_ok c -> SFleb c c = true.
Proof.
  destruct c as [[|]|[|]| |[|] m e]; simpl; try tauto; intros _.
  unfold SFleb, SFcompare. rewrite Z.compare_refl.
  change (Pos.compare_cont Eq m m) with (Pos.compare m m).
  rewrite Pos.compare_refl. reflexivity.
Qed.

Lemma F32_add_valid mc ec mh eh :
  F32.valid (F32.add (S754_finite false mc ec) (S754_finite false mh eh)) = true /\
  SFleb F32.zero (F32.add (S754_finite false mc ec) (S754_finite false mh eh)) = true.
Proof. apply SFadd_valid; f32. Qed.

Lemma F32_add_shape mc ec mh eh :
  match F32.add (S754_finite false mc ec) (S754_finite false mh eh) with
  | S754_zero false | S754_infinity false | S754_finite false _ _ => True
  | _ => False
  end.
Proof. apply SFadd_shape; f32. Qed.

Lemma F32_add_ge mc ec mh eh :
  F32.valid (S754_finite false mc ec) = true ->
  SFleb (S754_finite false mc ec)
        (F32.add (S754_finite false mc ec) (S754_finite false mh eh)) = true.
Proof.
  intros Hc. apply SFadd_ge; try f32.
  - apply F32_valid_canonical with (s := false), Hc.
  - apply F32_valid_bounded with (s := false) (m := mc), Hc.
Qed.

Lemma F32_div_mono ma ea ma' ea' ms es :
  F32.valid (S754_finite false ma ea) = true ->
  F32.valid (S754_finite false ma' ea') = true ->
  SFleb (S754_finite false ma ea) (S754_finite false ma' ea') = true ->
  SFleb (F32.div (S754_finite false ma ea) (S754_finite false ms es))
        (F32.div (S754_finite false ma' ea') (S754_finite false ms es)) = true.
Proof.
  intros Ha Ha' Hle. apply SFdiv_mono; try f32.
  - apply F32_valid_canonical with (s := false), Ha.
  - apply F32_valid_canonical with (s := false), Ha'.
Qed.

Lemma F32_div_nonneg ma ea ms es :
  SFleb F32.zero (F32.div (S754_finite false ma ea) (S754_finite false ms es)) = true.
Proof. apply SFdiv_nonneg; f32. Qed.

Lemma F32_div_self m e :
  F32.div (S754_finite false m e) (S754_finite false m e) = F32.one.
Proof. rewrite F32_one_of_int. apply SFdiv_self; f32. Qed.

Lemma add_step c h :
  partial_sum_ok c -> nonneg h ->
  partial_sum_ok (F32.add c h) /\ SFleb c (F32.add c h) = true.
Proof.
  intros Hc [Hv Hh].
  destruct c as [[|]|[|]| |[|] mc ec]; cbn [partial_sum_ok] in Hc; try tauto;
    destruct h as [[|]|[|]| |[|] mh eh]; try discriminate Hh;
    try (split; [exact I|reflexivity]).
  - split; [exact Hv|reflexivity].
  - split; [exact Hc|]. apply (SFleb_refl_ok (S754_finite false mc ec)), Hc.
  - split; [exact Hc|]. apply (SFleb_refl_ok (S754_finite false mc ec)), Hc.
  - destruct (F32_add_valid mc ec mh eh) as [H1 _].
    pose proof (F32_add_shape mc ec mh eh) as H2.
    split; [|apply F32_add_ge, Hc].
    destruct (F32.add (S754_finite false mc ec) (S754_finite false mh eh))
      as [[|]|[|]| |[|] m e]; try contradiction; try exact I. exact H1.
Qed.

Lemma prefix_sum_ok col k : Forall nonneg col -> partial_sum_ok (prefix_sum col k).
Proof.
  intros Hcol. induction k as [|k IH]; [exact I|].
  destruct (col !! k) as [h|] eqn:Hk.
  - rewrite (prefix_sum_S col k h Hk). apply add_step; [exact IH|].
    eapply Forall_lookup_1; eassumption.
  - unfold prefix_sum in *. apply lookup_ge_None in Hk.
    rewrite take_ge in * by lia. exact IH.
Qed.

Lemma prefix_sum_le_S col k :
  Forall nonneg col -> SFleb (prefix_sum col k) (prefix_sum col (S k)) = true.
Proof.
  intros Hcol. pose proof (prefix_sum_ok col k Hcol) as Hok.
  destruct (col !! k) as [h|] eqn:Hk.
  - rewrite (prefix_sum_S col k h Hk). apply add_step; [exact Hok|].
    eapply Forall_lookup_1; eassumption.
  - apply lookup_ge_None in Hk. unfold prefix_sum in *.
    rewrite (take_ge col (S k)), (take_ge col k) in * by lia.
    apply SFleb_refl_ok, Hok.
Qed.

(** The running sums of entries that are not negative do not decrease. *)
Lemma prefix_sum_mono col k k' :
  Forall nonneg col -> (k <= k')%nat ->
  SFleb (prefix_sum col k) (prefix_sum col k') = true.
Proof.
  intros Hcol Hk. induction Hk as [|k' _ IH].
  - apply SFleb_refl_ok, prefix_sum_ok, Hcol.
  - eapply SFleb_trans; [exact IH|apply prefix_sum_le_S, Hcol].
Qed.

(** *** Normalisation by the total *)

Lemma normalized_mono s c c' :
  partial_sum_ok s -> SFis_finite s = true ->
  partial_sum_ok c -> partial_sum_ok c' ->
  SFleb c c' = true -> SFleb c' s = true ->
  SFleb (normalized s c) (normalized s c') = true.
Proof.
  intros Hs Hfin Hc Hc' Hle Hles. unfold normalized.
  destruct s as [[|]|[|]| |[|] ms es]; cbn [partial_sum_ok] in Hs;
    try tauto; try discriminate Hfin; try reflexivity.
  change (F32.neb (S754_finite false ms es) F32.zero) with true. cbv iota.
  destruct c as [[|]|[|]| |[|] mc ec]; cbn [partial_sum_ok] in Hc; try tauto;
    destruct c' as [[|]|[|]| |[|] mc' ec']; cbn [partial_sum_ok] in Hc'; try tauto;
    try discriminate Hle; try discriminate Hles.
  - exact (F32_div_nonneg mc' ec' ms es).
  - apply F32_div_mono; assumption.
Qed.

Lemma normalized_self s :
  partial_sum_ok s -> SFis_finite s = true -> F32.neb s F32.zero = true ->
  normalized s s = F32.one.
Proof.
  intros Hs Hfin Hne. unfold normalized. rewrite Hne.
  destruct s as [[|]|[|]| |[|] ms es]; cbn [partial_sum_ok] in Hs;
    try tauto; try discriminate Hfin; try discriminate Hne.
  apply F32_div_self.
Qed.

Lemma normalized_range s c :
  partial_sum_ok s -> SFis_finite s = true -> partial_sum_ok c ->
  SFleb c s = true ->
  SFleb F32.zero (normalized s c) = true /\ SFleb (normalized s c) F32.one = true.
Proof.
  intros Hs Hfin Hc Hle. split.
  - unfold normalized.
    destruct s as [[|]|[|]| |[|] ms es]; cbn [partial_sum_ok] in Hs;
      try tauto; try discriminate Hfin; try reflexivity.
    change (F32.neb (S754_finite false ms es) F32.zero) with true. cbv iota.
    destruct c as [[|]|[|]| |[|] mc ec]; cbn [partial_sum_ok] in Hc; try tauto;
      try discriminate Hle; apply F32_div_nonneg.
  - apply (SFleb_trans _ (normalized s s)).
    + apply normalized_mono; try assumption. apply SFleb_refl_ok, Hs.
    + destruct (F32.neb s F32.zero) eqn:Hne.
      * rewrite normalized_self by assumption. reflexivity.
      * unfold normalized. rewrite Hne. reflexivity.
Qed.

(** *** The cumulative distribution of a column *)






(** * Further properties of the code *)

(** ** [calc_intensity_thresh]: the thresholds that are found *)

Lemma first_crossing_unique a thr n x x' :
  first_crossing a thr n x -> first_crossing a thr n x' -> x = x'.
Proof.
  intros (Hx & (c & Hc & Hgt) & Hb) (Hx' & (c' & Hc' & Hgt') & Hb').
  destruct (Z.lt_trichotomy x x') as [Hlt|[Heq|Hgt0]]; [|exact Heq|].
  - rewrite (Hb' x c) in Hgt by (try exact Hc; lia). discriminate.
  - rewrite (Hb x' c') in Hgt' by (try exact Hc'; lia). discriminate.
Qed.

(** X1.  In the 1D intensity path both scans start at bin 0: when [x9] is
    the first bin whose cumulative distribution exceeds [tmin],
    [calc_intensity_thresh] sets [i9] to [x9 - 1], and when [x1] is the
    first bin that exceeds [tmax] it sets [i1] to [x1], whatever [tmin] is;
    the arrays of the database are left as they were. *)
Theorem calc_intensity_thresh_first_crossings db tmin tmax :
  0 <= dim_x (hsz db) <= Z.of_nat (length (icmd db)) ->
  exists db',
    calc_intensity_thresh db tmin tmax = Some db' /\
    (forall x9, first_crossing (icmd db) tmin (dim_x (hsz db)) x9 ->
       i9 db' = F32.of_int (x9 - 1)) /\
    (forall x1, first_crossing (icmd db) tmax (dim_x (hsz db)) x1 ->
       i1 db' = F32.of_int x1) /\
    icmd db' = icmd db /\ ihst db' = ihst db /\ hist db' = hist db /\
    cumd db' = cumd db /\ t1 db' = t1 db /\ t9 db' = t9 db.
Proof.
  intros Hn. unfold calc_intensity_thresh.
  destruct (found_flag_loop (icmd db) tmin (fun x => F32.of_int (x - 1)) _ Hn)
    as (v9 & f9 & Hrun9 & Hf9 & Ht9).
  destruct (found_flag_loop (icmd db) tmax (fun x => F32.of_int x) _ Hn)
    as (v1 & f1 & Hrun1 & Hf1 & Ht1).
  rewrite Hrun9. simpl. rewrite Hrun1. simpl.
  eexists. split; [reflexivity|]. simpl.
  split; [|split; [|repeat split]].
  - intros x9 Hx9. destruct f9.
    + destruct (Ht9 eq_refl) as (x & -> & Hx).
      rewrite (first_crossing_unique _ _ _ _ _ Hx Hx9). reflexivity.
    + destruct (Hf9 eq_refl) as [_ Hno].
      destruct Hx9 as (Hr & (c & Hc & Hgt) & _).
      rewrite (Hno x9 c Hr Hc) in Hgt. discriminate.
  - intros x1 Hx1. destruct f1.
    + destruct (Ht1 eq_refl) as (x & -> & Hx).
      rewrite (first_crossing_unique _ _ _ _ _ Hx Hx1). reflexivity.
    + destruct (Hf1 eq_refl) as [_ Hno].
      destruct Hx1 as (Hr & (c & Hc & Hgt) & _).
      rewrite (Hno x1 c Hr Hc) in Hgt. discriminate.
Qed.

Lemma calc_intensity_thresh_first_crossings_witness :
  exists db',
    calc_intensity_thresh db_intensity (ratio32 1 10) (ratio32 9 10) = Some db' /\
    (forall x9, first_crossing (icmd db_intensity) (ratio32 1 10)
                  (dim_x (hsz db_intensity)) x9 ->
       i9 db' = F32.of_int (x9 - 1)) /\
    (forall x1, first_crossing (icmd db_intensity) (ratio32 9 10)
                  (dim_x (hsz db_intensity)) x1 ->
       i1 db' = F32.of_int x1) /\
    icmd db' = icmd db_intensity /\ ihst db' = ihst db_intensity /\
    hist db' = hist db_intensity /\ cumd db' = cumd db_intensity /\
    t1 db' = t1 db_intensity /\ t9 db' = t9 db_intensity.
Proof.
  apply (calc_intensity_thresh_first_crossings db_intensity). simpl. lia.
Defined.

(** ** [calc_exact_thresh]: both thresholds of a column *)

Lemma upper_bin_order tmin tmax col x :
  upper_bin tmin tmax col x = x \/
  lower_bin tmin col x < upper_bin tmin tmax col x < Z.of_nat (length col).
Proof.
  unfold upper_bin, lower_bin.
  destruct (first_above tmin col 0) as [y|] eqn:E1; [|left; reflexivity].
  pose proof (first_above_bounds _ _ _ _ E1) as Hb1.
  destruct (first_above tmax (drop (Z.to_nat y) col) y) as [Y|] eqn:E2;
    [|left; reflexivity].
  pose proof (first_above_bounds _ _ _ _ E2) as Hb2.
  rewrite length_drop in Hb2. right. lia.
Qed.

Lemma exact_thresh_column_both cumd hsz tmin tmax axis x t1 t9 col :
  is_column cumd hsz axis x col ->
  0 <= dim_x hsz * axis + x < Z.of_nat (length t1) ->
  0 <= dim_x hsz * axis + x < Z.of_nat (length t9) ->
  exists t1' t9',
    exact_thresh_column cumd hsz tmin tmax axis x (t1, t9) = Some (t1', t9') /\
    length t1' = length t1 /\ length t9' = length t9 /\
    rd t9' (dim_x hsz * axis + x) = Some (F32.of_int (lower_bin tmin col x)) /\
    rd t1' (dim_x hsz * axis + x) = Some (F32.of_int (upper_bin tmin tmax col x)) /\
    (forall j, j <> dim_x hsz * axis + x ->
       rd t1' j = rd t1 j /\ rd t9' j = rd t9 j).
Proof.
  intros Hcol HT1 HT9.
  assert (Hy : 0 <= dim_y hsz) by (destruct Hcol as [<- _]; lia).
  assert (Hlen : Z.of_nat (length col) = dim_y hsz) by apply Hcol.
  unfold exact_thresh_column, lower_bin, upper_bin.
  replace (1 * dim_x hsz * axis + 1 * x) with (dim_x hsz * axis + x) by lia.
  set (T := dim_x hsz * axis + x) in *.
  rewrite (wr_Some t1 T) by exact HT1. simpl.
  rewrite (wr_Some t9 T) by exact HT9. simpl.
  rewrite (scan_column_first _ _ _ _ col) by (try exact Hcol; lia).
  change (Z.to_nat 0) with 0%nat. rewrite drop_0.
  assert (Hother : forall (a : list float) v j, j <> T -> rd (<[Z.to_nat T := v]> a) j = rd a j).
  { intros a v j Hj. apply rd_insert_ne; lia. }
  destruct (first_above tmin col 0) as [y1|] eqn:E1; simpl.
  - pose proof (first_above_bounds _ _ _ _ E1) as Hb1.
    rewrite wr_Some by (rewrite length_insert; exact HT9). simpl.
    rewrite (scan_column_first _ _ _ _ col) by (try exact Hcol; lia).
    destruct (first_above tmax (drop (Z.to_nat y1) col) y1) as [y2|] eqn:E2; simpl.
    + rewrite wr_Some by (rewrite length_insert; exact HT1). simpl.
      eexists _, _. split; [reflexivity|].
      rewrite !length_insert. repeat split;
        try (apply rd_insert_eq; rewrite ?length_insert; lia);
        rewrite !Hother by assumption; reflexivity.
    + eexists _, _. split; [reflexivity|].
      rewrite !length_insert. repeat split;
        try (apply rd_insert_eq; rewrite ?length_insert; lia);
        rewrite !Hother by assumption; reflexivity.
  - rewrite Z.sub_diag. simpl.
    eexists _, _. split; [reflexivity|].
    rewrite !length_insert. repeat split;
      try (apply rd_insert_eq; rewrite ?length_insert; lia);
      rewrite !Hother by assumption; reflexivity.
Qed.

(** Both thresholds of every column after [calc_exact_thresh]. *)
Lemma calc_exact_thresh_spec db tmin tmax axis :
  0 <= axis -> 0 <= dim_x (hsz db) -> 0 <= dim_y (hsz db) ->
  dim_x (hsz db) * dim_y (hsz db) * (axis + 1) <= Z.of_nat (length (cumd db)) ->
  dim_x (hsz db) * (axis + 1) <= Z.of_nat (length (t1 db)) ->
  dim_x (hsz db) * (axis + 1) <= Z.of_nat (length (t9 db)) ->
  exists db',
    calc_exact_thresh db tmin tmax axis = Some db' /\
    length (t1 db') = length (t1 db) /\ length (t9 db') = length (t9 db) /\
    (forall x, 0 <= x < dim_x (hsz db) ->
       let col := column_of (cumd db) (hsz db) axis x in
       rd (t9 db') (dim_x (hsz db) * axis + x) =
         Some (F32.of_int (lower_bin tmin col x)) /\
       rd (t1 db') (dim_x (hsz db) * axis + x) =
         Some (F32.of_int (upper_bin tmin tmax col x)) /\
       (upper_bin tmin tmax col x = x \/
        lower_bin tmin col x < upper_bin tmin tmax col x < dim_y (hsz db))) /\
    (forall j, ~ (dim_x (hsz db) * axis <= j < dim_x (hsz db) * (axis + 1)) ->
       rd (t1 db') j = rd (t1 db) j /\ rd (t9 db') j = rd (t9 db) j).
Proof.
  intros Haxis Hx Hy Hc Hl1 Hl9. unfold calc_exact_thresh.
  set (hs := hsz db) in *.
  set (P := fun (i : Z) (st : list float * list float) =>
              length (fst st) = length (t1 db) /\
              length (snd st) = length (t9 db) /\
              (forall x, 0 <= x < i ->
                 rd (snd st) (dim_x hs * axis + x) =
                   Some (F32.of_int (lower_bin tmin (column_of (cumd db) hs axis x) x)) /\
                 rd (fst st) (dim_x hs * axis + x) =
                   Some (F32.of_int (upper_bin tmin tmax (column_of (cumd db) hs axis x) x))) /\
              (forall j, ~ (dim_x hs * axis <= j < dim_x hs * axis + i) ->
                 rd (fst st) j = rd (t1 db) j /\ rd (snd st) j = rd (t9 db) j)).
  destruct (for_range_inv P (exact_thresh_column (cumd db) hs tmin tmax axis)
              0 (dim_x hs) (t1 db, t9 db)) as ([a1 a9] & Hrun & Hp).
  - exact Hx.
  - repeat split; intros; lia.
  - intros i [b1 b9] Hi (Hb1 & Hb9 & Hdone & Hframe). simpl in Hb1, Hb9, Hdone, Hframe.
    pose proof (is_column_column_of (cumd db) hs axis i Haxis Hi Hy Hc) as Hcol.
    assert (HT : 0 <= dim_x hs * axis + i < dim_x hs * (axis + 1)) by nia.
    destruct (exact_thresh_column_both (cumd db) hs tmin tmax axis i b1 b9 _ Hcol)
      as (c1 & c9 & Hstep & Hc1 & Hc9 & Hn9 & Hn1 & Hold); try lia.
    exists (c1, c9). split; [exact Hstep|]. split; [|split; [|split]]; simpl.
    + congruence.
    + congruence.
    + intros x Hxi. destruct (decide (x = i)) as [->|Hne]; [split; assumption|].
      destruct (Hold (dim_x hs * axis + x) ltac:(lia)) as [-> ->].
      apply Hdone. lia.
    + intros j Hj. destruct (Hold j ltac:(lia)) as [-> ->]. apply Hframe. lia.
  - rewrite Hrun. simpl. eexists. split; [reflexivity|].
    destruct Hp as (Hp1 & Hp9 & Hall & Hframe). simpl in *.
    split; [exact Hp1|]. split; [exact Hp9|]. split.
    + intros x Hx0. destruct (Hall x Hx0) as [H9 H1].
      split; [exact H9|]. split; [exact H1|].
      pose proof (upper_bin_order tmin tmax (column_of (cumd db) hs axis x) x) as Ho.
      destruct (is_column_column_of (cumd db) hs axis x Haxis Hx0 Hy Hc) as [Hlen _].
      rewrite Hlen in Ho. exact Ho.
    + intros j Hj. apply Hframe. lia.
Qed.

(** X2.  [calc_exact_thresh] sets [t9[x]] to one less than the first value
    bin of column [x] whose cumulative distribution exceeds [tmin] ([x - 1]
    when there is none) and [t1[x]] to the first value bin, at or after the
    one where that search stopped, that exceeds [tmax] ([x] when there is
    none).  So a threshold [t1[x]] that was found lies strictly above
    [t9[x]] and below [hsz.y], whatever [tmin] and [tmax] are.  The entries
    of [t1] and [t9] outside the slice keep their values. *)
Theorem calc_exact_thresh_both db tmin tmax axis :
  0 <= axis -> 0 <= dim_x (hsz db) -> 0 <= dim_y (hsz db) ->
  dim_x (hsz db) * dim_y (hsz db) * (axis + 1) <= Z.of_nat (length (cumd db)) ->
  dim_x (hsz db) * (axis + 1) <= Z.of_nat (length (t1 db)) ->
  dim_x (hsz db) * (axis + 1) <= Z.of_nat (length (t9 db)) ->
  exists db',
    calc_exact_thresh db tmin tmax axis = Some db' /\
    length (t1 db') = length (t1 db) /\ length (t9 db') = length (t9 db) /\
    (forall x, 0 <= x < dim_x (hsz db) ->
       let col := column_of (cumd db) (hsz db) axis x in
       rd (t9 db') (dim_x (hsz db) * axis + x) =
         Some (F32.of_int (lower_bin tmin col x)) /\
       rd (t1 db') (dim_x (hsz db) * axis + x) =
         Some (F32.of_int (upper_bin tmin tmax col x)) /\
       (upper_bin tmin tmax col x = x \/
        lower_bin tmin col x < upper_bin tmin tmax col x < dim_y (hsz db))) /\
    (forall j, ~ (dim_x (hsz db) * axis <= j < dim_x (hsz db) * (axis + 1)) ->
       rd (t1 db') j = rd (t1 db) j /\ rd (t9 db') j = rd (t9 db) j).
Proof. exact (calc_exact_thresh_spec db tmin tmax axis). Qed.

Lemma calc_exact_thresh_both_witness :
  exists db',
    calc_exact_thresh db_two_bins (ratio32 1 10) (ratio32 9 10) 0 = Some db' /\
    length (t1 db') = length (t1 db_two_bins) /\
    length (t9 db') = length (t9 db_two_bins) /\
    (forall x, 0 <= x < dim_x (hsz db_two_bins) ->
       let col := column_of (cumd db_two_bins) (hsz db_two_bins) 0 x in
       rd (t9 db') (dim_x (hsz db_two_bins) * 0 + x) =
         Some (F32.of_int (lower_bin (ratio32 1 10) col x)) /\
       rd (t1 db') (dim_x (hsz db_two_bins) * 0 + x) =
         Some (F32.of_int (upper_bin (ratio32 1 10) (ratio32 9 10) col x)) /\
       (upper_bin (ratio32 1 10) (ratio32 9 10) col x = x \/
        lower_bin (ratio32 1 10) col x
          < upper_bin (ratio32 1 10) (ratio32 9 10) col x
          < dim_y (hsz db_two_bins))) /\
    (forall j, ~ (dim_x (hsz db_two_bins) * 0 <= j
                  < dim_x (hsz db_two_bins) * (0 + 1)) ->
       rd (t1 db') j = rd (t1 db_two_bins) j /\
       rd (t9 db') j = rd (t9 db_two_bins) j).
Proof.
  apply (calc_exact_thresh_both db_two_bins);
    first [vm_compute; reflexivity | simpl; lia | vm_compute; discriminate].
Defined.

(** ** [median_extrapolation]: the angle it returns *)

Lemma median_sweep_in_sweep (tanf : float -> float) fuel db t mc x0 axis :
  forall k theta,
    median_sweep tanf fuel db t mc x0 axis
      (Nat.iter k (next_theta (hsz db)) F32.zero) = Some theta ->
    in_sweep theta = true /\
    exists j, theta = Nat.iter j (next_theta (hsz db)) F32.zero.
Proof.
  induction fuel as [|fuel IH]; intros k theta Hrun; [discriminate|].
  simpl in Hrun.
  destruct (in_sweep (Nat.iter k (next_theta (hsz db)) F32.zero)) eqn:Ein.
  - destruct (count_below_above tanf db t mc x0 axis _) as [lu|]; [|discriminate].
    simpl in Hrun. destruct (ratio_reached lu).
    + injection Hrun as <-. split; [exact Ein|]. exists k. reflexivity.
    + apply (IH (S k)). exact Hrun.
  - injection Hrun as <-. split; [reflexivity|]. exists 0%nat. reflexivity.
Qed.

(** X3.  Whenever [median_extrapolation] returns, the angle it returns is
    one of the angles of its sweep, 0 advanced a number of times by
    pi / (hsz.x + hsz.y), and it is below pi/2: the function never returns
    pi/2 or more, and never a NaN. *)
Theorem median_extrapolation_in_sweep (tanf : float -> float) fuel db t thresh
    x0 axis theta :
  median_extrapolation tanf fuel db t thresh x0 axis = Some theta ->
  in_sweep theta = true /\
  exists j, theta = Nat.iter j (next_theta (hsz db)) F32.zero.
Proof.
  unfold median_extrapolation. destruct (min_samples thresh) as [mc|]; [|discriminate].
  simpl. apply (median_sweep_in_sweep tanf fuel db t mc x0 axis 0).
Qed.

Lemma median_extrapolation_in_sweep_witness :
  in_sweep theta_pi3 = true /\
  exists j, theta_pi3 = Nat.iter j (next_theta (hsz db_median)) F32.zero.
Proof.
  apply (median_extrapolation_in_sweep tan_ref 3 db_median t_median
           (ratio32 1 2) 0 0 theta_pi3).
  vm_compute. reflexivity.
Defined.

(** ** [calc_hist_center]: the column of the largest count *)

Ltac order_cases :=
  unfold SFleb, SFltb, SFeqb;
  repeat match goal with
  | a : spec_float |- _ => destruct a as [[|]|[|]| |[|] ? ?]
  end; simpl;
  try discriminate; try reflexivity; intros;
  cmp_cases; simpl in *; try discriminate; try reflexivity; try lia.

Lemma SFltb_leb a b : SFltb a b = true -> SFleb a b = true.
Proof. revert a b. intros a b. order_cases. Qed.

Lemma SFleb_eqb_r a b m :
  SFleb a m = true -> SFeqb b m = true -> SFleb a b = true.
Proof. revert a b m. intros a b m. order_cases. Qed.

Lemma SFleb_neq_ltb a m :
  SFleb a m = true -> SFeqb a m = false -> SFltb a m = true.
Proof. revert a m. intros a m. order_cases. Qed.

Lemma SFltb_eqb_r a b m :
  SFltb a m = true -> SFeqb b m = true -> SFltb a b = true.
Proof. revert a b m. intros a b m. order_cases. Qed.

Lemma SFeqb_refl a : SFis_nan a = false -> SFeqb a a = true.
Proof.
  unfold SFeqb. destruct a as [[|]|[|]| |[|] m e]; simpl; try reflexivity;
    try discriminate; intros _; rewrite Z.compare_refl;
    change (Pos.compare_cont Eq m m) with (Pos.compare m m);
    rewrite Pos.compare_refl; reflexivity.
Qed.

Lemma SFleb_not_nan a b : SFleb a b = true -> SFis_nan b = false.
Proof. destruct a as [[|]|[|]| |[|] ? ?], b as [[|]|[|]| |[|] ? ?]; simpl; try reflexivity; discriminate. Qed.

(** First loop of [calc_hist_center]: the largest count. *)
Lemma hist_center_max (a : list float) (base n : Z) :
  0 < n -> 0 <= base -> base + n <= Z.of_nat (length a) ->
  (forall X c, 0 <= X < n -> rd a (base + X) = Some c -> SFleb F32.zero c = true) ->
  exists m,
    for_range 0 n (fun X max_cnt =>
        c ← rd a (base + X);
        if F32.gtb c max_cnt then Some c else Some max_cnt) (F32.of_int (-10))
      = Some m /\
    SFis_nan m = false /\
    (exists X0, 0 <= X0 < n /\ rd a (base + X0) = Some m) /\
    (forall X c, 0 <= X < n -> rd a (base + X) = Some c -> SFleb c m = true).
Proof.
  intros Hn Hbase Hlen Hpos.
  set (body := fun X (max_cnt : float) =>
        c ← rd a (base + X);
        if F32.gtb c max_cnt then Some c else Some max_cnt).
  set (P := fun (i : Z) (m : float) =>
     SFis_nan m = false /\
     (i = 0 -> m = F32.of_int (-10)) /\
     (0 < i -> exists X0, 0 <= X0 < i /\ rd a (base + X0) = Some m) /\
     (forall X c, 0 <= X < i -> rd a (base + X) = Some c -> SFleb c m = true)).
  destruct (for_range_inv P body 0 n (F32.of_int (-10))) as (m & Hrun & Hp).
  - lia.
  - split; [reflexivity|]. split; [reflexivity|]. split; intros; lia.
  - intros i m Hi (Hnan & H0 & Hatt & Hmax). unfold body.
    destruct (rd_Some a (base + i)) as [c Hc]; [lia|]. rewrite Hc. simpl.
    pose proof (Hpos i c Hi Hc) as Hc0.
    pose proof (SFleb_not_nan _ _ Hc0) as Hcn.
    unfold F32.gtb. destruct (SFltb m c) eqn:Hgt.
    + eexists. split; [reflexivity|]. split; [exact Hcn|]. split; [lia|]. split.
      * intros _. exists i. split; [lia|exact Hc].
      * intros X c' HX Hc'. destruct (decide (X = i)) as [->|Hne].
        -- rewrite Hc in Hc'. injection Hc' as <-. apply SFleb_refl, Hcn.
        -- apply SFltb_leb. apply (SFleb_ltb_trans _ m); [|exact Hgt].
           apply (Hmax X); [lia|exact Hc'].
    + assert (Hi0 : 0 < i).
      { destruct (Z.eq_dec i 0) as [E|E]; [|lia]. exfalso.
        rewrite (H0 E) in Hgt.
        assert (Hlt : SFltb (F32.of_int (-10)) c = true)
          by (apply (SFltb_leb_trans _ F32.zero); [reflexivity|exact Hc0]).
        rewrite Hlt in Hgt. discriminate. }
      eexists. split; [reflexivity|]. split; [exact Hnan|]. split; [lia|]. split.
      * intros _. destruct (Hatt Hi0) as (X0 & HX0 & Hm). exists X0. split; [lia|exact Hm].
      * intros X c' HX Hc'. destruct (decide (X = i)) as [->|Hne].
        -- rewrite Hc in Hc'. injection Hc' as <-.
           apply SFltb_false_leb; assumption.
        -- apply (Hmax X); [lia|exact Hc'].
  - exists m. split; [exact Hrun|]. destruct Hp as (Hnan & _ & Hatt & Hmax).
    split; [exact Hnan|]. split; [apply Hatt; lia|exact Hmax].
Qed.

(** Second loop: the last index that holds [m]. *)
Lemma hist_center_index (a : list float) (base n : Z) (m : float) :
  0 <= n -> 0 <= base -> base + n <= Z.of_nat (length a) ->
  exists r,
    for_range 0 n (fun X (max_ind : Z) =>
        c ← rd a (base + X);
        if F32.eqb c m then Some X else Some max_ind) 0 = Some r /\
    (forall X c, r < X < n -> rd a (base + X) = Some c -> SFeqb c m = false) /\
    ((0 <= r < n /\ exists c, rd a (base + r) = Some c /\ SFeqb c m = true) \/
     (r = 0 /\ forall X c, 0 <= X < n -> rd a (base + X) = Some c ->
                 SFeqb c m = false)).
Proof.
  intros Hn Hbase Hlen.
  set (body := fun X (max_ind : Z) =>
        c ← rd a (base + X);
        if F32.eqb c m then Some X else Some max_ind).
  set (P := fun (i : Z) (r : Z) =>
     (forall X c, r < X < i -> rd a (base + X) = Some c -> SFeqb c m = false) /\
     ((0 <= r < i /\ exists c, rd a (base + r) = Some c /\ SFeqb c m = true) \/
      (r = 0 /\ forall X c, 0 <= X < i -> rd a (base + X) = Some c ->
                  SFeqb c m = false))).
  destruct (for_range_inv P body 0 n 0) as (r & Hrun & Hp).
  - exact Hn.
  - split; [intros; lia|]. right. split; [reflexivity|]. intros; lia.
  - intros i r Hi (Hafter & Hr). unfold body.
    destruct (rd_Some a (base + i)) as [c Hc]; [lia|]. rewrite Hc. simpl.
    unfold F32.eqb. destruct (SFeqb c m) eqn:Heq.
    + eexists. split; [reflexivity|]. split; [intros; lia|].
      left. split; [lia|]. exists c. split; [exact Hc|exact Heq].
    + eexists. split; [reflexivity|]. split.
      * intros X c' HX Hc'. destruct (decide (X = i)) as [->|Hne].
        -- rewrite Hc in Hc'. injection Hc' as <-. exact Heq.
        -- apply (Hafter X); [lia|exact Hc'].
      * destruct Hr as [[Hr Hex]|[-> Hnone]].
        -- left. split; [lia|exact Hex].
        -- right. split; [reflexivity|]. intros X c' HX Hc'.
           destruct (decide (X = i)) as [->|Hne].
           ++ rewrite Hc in Hc'. injection Hc' as <-. exact Heq.
           ++ apply (Hnone X); [lia|exact Hc'].
  - exists r. split; [exact Hrun|exact Hp].
Qed.

(** The column [calc_hist_center] returns. *)
Lemma calc_hist_center_spec db axis :
  0 < dim_x (tsz db) -> 0 <= dim_x (tsz db) * axis ->
  dim_x (tsz db) * axis + dim_x (tsz db) <= Z.of_nat (length (cnts db)) ->
  (forall X c, 0 <= X < dim_x (tsz db) ->
     rd (cnts db) (dim_x (tsz db) * axis + X) = Some c ->
     SFleb F32.zero c = true) ->
  exists r cr,
    calc_hist_center db axis = Some r /\
    0 <= r < dim_x (tsz db) /\
    rd (cnts db) (dim_x (tsz db) * axis + r) = Some cr /\
    (forall X c, 0 <= X < dim_x (tsz db) ->
       rd (cnts db) (dim_x (tsz db) * axis + X) = Some c -> SFleb c cr = true) /\
    (forall X c, r < X < dim_x (tsz db) ->
       rd (cnts db) (dim_x (tsz db) * axis + X) = Some c -> SFltb c cr = true).
Proof.
  intros Hn Hbase Hlen Hpos. unfold calc_hist_center.
  set (base := dim_x (tsz db) * axis) in *.
  destruct (hist_center_max (cnts db) base (dim_x (tsz db)) Hn Hbase Hlen Hpos)
    as (m & Hrun1 & Hnan & (X0 & HX0 & Hm0) & Hmax).
  destruct (hist_center_index (cnts db) base (dim_x (tsz db)) m ltac:(lia) Hbase Hlen)
    as (r & Hrun2 & Hafter & Hr).
  assert (E1 : for_range 0 (dim_x (tsz db))
                 (fun X max_cnt =>
                    c ← rd (cnts db) (1 * dim_x (tsz db) * axis + 1 * X);
                    if F32.gtb c max_cnt then Some c else Some max_cnt)
                 (F32.of_int (-10)) = Some m).
  { rewrite <- Hrun1. unfold for_range. apply for_loop_ext. intros i s _.
    replace (1 * dim_x (tsz db) * axis + 1 * i) with (base + i) by (unfold base; lia).
    reflexivity. }
  cbv zeta. rewrite E1. simpl.
  assert (E2 : for_range 0 (dim_x (tsz db))
                 (fun X (max_ind : Z) =>
                    c ← rd (cnts db) (1 * dim_x (tsz db) * axis + 1 * X);
                    if F32.eqb c m then Some X else Some max_ind) 0 = Some r).
  { rewrite <- Hrun2. unfold for_range. apply for_loop_ext. intros i s _.
    replace (1 * dim_x (tsz db) * axis + 1 * i) with (base + i) by (unfold base; lia).
    reflexivity. }
  rewrite E2.
  destruct Hr as [[Hr (cr & Hcr & Heq)]|[_ Hnone]].
  - exists r, cr. split; [reflexivity|]. split; [exact Hr|]. split; [exact Hcr|]. split.
    + intros X c HX Hc. apply (SFleb_eqb_r _ _ m); [|exact Heq]. apply (Hmax X); assumption.
    + intros X c HX Hc. apply (SFltb_eqb_r _ _ m); [|exact Heq].
      apply SFleb_neq_ltb; [apply (Hmax X); [lia|exact Hc]|].
      apply (Hafter X); assumption.
  - exfalso. pose proof (SFeqb_refl m Hnan) as Hrefl.
    rewrite (Hnone X0 m HX0 Hm0) in Hrefl. discriminate.
Qed.

(** X4.  When the counts of slice [axis] are not negative (and not NaN) and
    there is at least one column, [calc_hist_center] returns the index of a
    column whose count is the largest of the slice, and the last such
    column: no column has a larger count, and every column after it has a
    smaller one. *)
Theorem calc_hist_center_last_max db axis :
  0 < dim_x (tsz db) -> 0 <= dim_x (tsz db) * axis ->
  dim_x (tsz db) * axis + dim_x (tsz db) <= Z.of_nat (length (cnts db)) ->
  (forall X c, 0 <= X < dim_x (tsz db) ->
     rd (cnts db) (dim_x (tsz db) * axis + X) = Some c ->
     SFleb F32.zero c = true) ->
  exists r cr,
    calc_hist_center db axis = Some r /\
    0 <= r < dim_x (tsz db) /\
    rd (cnts db) (dim_x (tsz db) * axis + r) = Some cr /\
    (forall X c, 0 <= X < dim_x (tsz db) ->
       rd (cnts db) (dim_x (tsz db) * axis + X) = Some c -> SFleb c cr = true) /\
    (forall X c, r < X < dim_x (tsz db) ->
       rd (cnts db) (dim_x (tsz db) * axis + X) = Some c -> SFltb c cr = true).
Proof. exact (calc_hist_center_spec db axis). Qed.

Lemma calc_hist_center_last_max_witness :
  exists r cr,
    calc_hist_center db_center 0 = Some r /\
    0 <= r < dim_x (tsz db_center) /\
    rd (cnts db_center) (dim_x (tsz db_center) * 0 + r) = Some cr /\
    (forall X c, 0 <= X < dim_x (tsz db_center) ->
       rd (cnts db_center) (dim_x (tsz db_center) * 0 + X) = Some c ->
       SFleb c cr = true) /\
    (forall X c, r < X < dim_x (tsz db_center) ->
       rd (cnts db_center) (dim_x (tsz db_center) * 0 + X) = Some c ->
       SFltb c cr = true).
Proof.
  apply (calc_hist_center_last_max db_center 0).
  - reflexivity.
  - discriminate.
  - vm_compute. discriminate.
  - intros X c HX Hc. change (dim_x (tsz db_center)) with 4 in *.
    assert (HX' : X = 0 \/ X = 1 \/ X = 2 \/ X = 3) by lia.
    destruct HX' as [E|[E|[E|E]]]; subst X; vm_compute in Hc;
      injection Hc as E; subst c; reflexivity.
Defined.

(** ** [init_histogram]: what it clears *)

(** X5.  [init_histogram] sets to zero the [hsz.x * hsz.y * hsz.z] leading
    entries of [hist] and, in the same loops (at [y = 0], [z = 0]), the
    [hsz.x] leading entries of [ihst]; every other entry of both arrays
    keeps its value, and so does the whole of [ihst] when the histogram
    volume is empty ([hsz.y = 0] or [hsz.z = 0]): then the loops never
    run. *)
Theorem init_histogram_clears db :
  0 <= dim_x (hsz db) -> 0 <= dim_y (hsz db) -> 0 <= dim_z (hsz db) ->
  dim_x (hsz db) * dim_y (hsz db) * dim_z (hsz db) <= Z.of_nat (length (hist db)) ->
  dim_x (hsz db) <= Z.of_nat (length (ihst db)) ->
  exists db',
    init_histogram db = Some db' /\
    length (hist db') = length (hist db) /\
    length (ihst db') = length (ihst db) /\
    (forall L, 0 <= L < dim_x (hsz db) * dim_y (hsz db) * dim_z (hsz db) ->
       rd (hist db') L = Some F32.zero) /\
    (forall L, dim_x (hsz db) * dim_y (hsz db) * dim_z (hsz db) <= L ->
       rd (hist db') L = rd (hist db) L) /\
    (forall j, 0 <= j < dim_x (hsz db) ->
       j < dim_x (hsz db) * dim_y (hsz db) * dim_z (hsz db) ->
       rd (ihst db') j = Some F32.zero) /\
    (forall j, dim_x (hsz db) <= j \/
               dim_x (hsz db) * dim_y (hsz db) * dim_z (hsz db) <= j ->
       rd (ihst db') j = rd (ihst db) j) /\
    cumd db' = cumd db /\ cnts db' = cnts db /\ icmd db' = icmd db /\
    hsz db' = hsz db.
Proof.
  intros Hx Hy Hz Hlh Hli. unfold init_histogram.
  set (hx := dim_x (hsz db)) in *. set (hy := dim_y (hsz db)) in *.
  set (hz := dim_z (hsz db)) in *.
  set (body := fun z y x (st : list float * list float) =>
                let '(hist, ihst) := st in
                let L := x * 1 + y * (1 * hx) + z * (1 * hx * hy) in
                hist ← wr hist L F32.zero;
                ihst ← (if y =? 0
                        then if z =? 0 then wr ihst L F32.zero else Some ihst
                        else Some ihst);
                Some (hist, ihst)).
  set (P := fun (n : Z) (st : list float * list float) =>
     length (fst st) = length (hist db) /\ length (snd st) = length (ihst db) /\
     (forall L, 0 <= L < n -> rd (fst st) L = Some F32.zero) /\
     (forall L, n <= L -> rd (fst st) L = rd (hist db) L) /\
     (forall j, 0 <= j < hx -> j < n -> rd (snd st) j = Some F32.zero) /\
     (forall j, hx <= j \/ n <= j -> rd (snd st) j = rd (ihst db) j)).
  assert (Hinner : forall z y st, 0 <= z < hz -> 0 <= y < hy ->
            P (z * (hx * hy) + y * hx) st ->
            exists st', for_range 0 hx (body z y) st = Some st' /\
                        P (z * (hx * hy) + (y + 1) * hx) st').
  { intros z y st Hz0 Hy0 Hst.
    destruct (for_range_inv (fun x => P (z * (hx * hy) + y * hx + x)) (body z y)
                0 hx st) as (st' & Hrun & Hp).
    - exact Hx.
    - rewrite Z.add_0_r. exact Hst.
    - intros x [h ih] Hx0 (Hl1 & Hl2 & Hzero & Hsame & Hiz & Hisame).
      simpl in Hl1, Hl2, Hzero, Hsame, Hiz, Hisame.
      unfold body. cbv zeta.
      replace (x * 1 + y * (1 * hx) + z * (1 * hx * hy))
        with (z * (hx * hy) + y * hx + x) by lia.
      set (n := z * (hx * hy) + y * hx + x).
      assert (Hb : 0 <= n < hx * hy * hz).
      { unfold n. assert (y * hx + x < hx * hy) by nia.
        assert (0 <= y * hx) by nia. assert (0 <= hx * hy) by nia.
        assert (z * (hx * hy) + hx * hy <= hz * (hx * hy)) by nia. nia. }
      assert (Hzy : 0 <= z * (hx * hy) /\ 0 <= y * hx) by (split; nia).
      rewrite (wr_Some h) by lia. bind_some.
      destruct (Z.eqb_spec y 0) as [Ey|Ey];
        [destruct (Z.eqb_spec z 0) as [Ez|Ez]|].
      + assert (Hnx : n = x) by (unfold n; subst y z; lia).
        rewrite (wr_Some ih) by lia. bind_some.
        eexists. split; [reflexivity|]. repeat split; simpl.
        * rewrite length_insert. exact Hl1.
        * rewrite length_insert. exact Hl2.
        * intros L HL. destruct (decide (L = n)) as [->|Hne];
            [apply rd_insert_eq; lia|].
          rewrite rd_insert_ne by lia. apply Hzero. lia.
        * intros L HL. rewrite rd_insert_ne by lia. apply Hsame. lia.
        * intros j Hj Hjn. destruct (decide (j = n)) as [->|Hne];
            [apply rd_insert_eq; lia|].
          rewrite rd_insert_ne by lia. apply Hiz; lia.
        * intros j Hj. rewrite rd_insert_ne by lia. apply Hisame. lia.
      + assert (Hnx : hx <= n).
        { unfold n. subst y. assert (1 * (hx * hy) <= z * (hx * hy)) by nia. nia. }
        bind_some. eexists. split; [reflexivity|]. repeat split; simpl.
        * rewrite length_insert. exact Hl1.
        * exact Hl2.
        * intros L HL. destruct (decide (L = n)) as [->|Hne];
            [apply rd_insert_eq; lia|].
          rewrite rd_insert_ne by lia. apply Hzero. lia.
        * intros L HL. rewrite rd_insert_ne by lia. apply Hsame. lia.
        * intros j Hj Hjn. apply Hiz; lia.
        * intros j Hj. apply Hisame. lia.
      + assert (Hnx : hx <= n) by (unfold n; nia).
        bind_some. eexists. split; [reflexivity|]. repeat split; simpl.
        * rewrite length_insert. exact Hl1.
        * exact Hl2.
        * intros L HL. destruct (decide (L = n)) as [->|Hne];
            [apply rd_insert_eq; lia|].
          rewrite rd_insert_ne by lia. apply Hzero. lia.
        * intros L HL. rewrite rd_insert_ne by lia. apply Hsame. lia.
        * intros j Hj Hjn. apply Hiz; lia.
        * intros j Hj. apply Hisame. lia.
    - exists st'. split; [exact Hrun|].
      replace (z * (hx * hy) + (y + 1) * hx) with (z * (hx * hy) + y * hx + hx) by lia.
      exact Hp. }
  assert (Hmiddle : forall z st, 0 <= z < hz -> P (z * (hx * hy)) st ->
            exists st', for_range 0 hy (fun y => for_range 0 hx (body z y)) st = Some st' /\
                        P ((z + 1) * (hx * hy)) st').
  { intros z st Hz0 Hst.
    destruct (for_range_inv (fun y => P (z * (hx * hy) + y * hx))
                (fun y => for_range 0 hx (body z y)) 0 hy st) as (st' & Hrun & Hp).
    - exact Hy.
    - rewrite Z.mul_0_l, Z.add_0_r. exact Hst.
    - intros y st1 Hy0 Hst1. apply Hinner; assumption.
    - exists st'. split; [exact Hrun|].
      replace ((z + 1) * (hx * hy)) with (z * (hx * hy) + hy * hx) by lia.
      exact Hp. }
  destruct (for_range_inv (fun z => P (z * (hx * hy)))
              (fun z => for_range 0 hy (fun y => for_range 0 hx (body z y)))
              0 hz (hist db, ihst db))
    as ([h' ih'] & Hrun & Hl1 & Hl2 & Hzero & Hsame & Hiz & Hisame).
  - exact Hz.
  - repeat split; intros; try reflexivity; lia.
  - intros z st Hz0 Hst. apply Hmiddle; assumption.
  - simpl in Hl1, Hl2, Hzero, Hsame, Hiz, Hisame.
    unfold body in Hrun. cbv zeta in Hrun |- *. rewrite Hrun. simpl.
    eexists. split; [reflexivity|]. simpl.
    replace (hz * (hx * hy)) with (hx * hy * hz) in * by lia.
    repeat split; assumption.
Qed.

Lemma init_histogram_clears_witness :
  exists db',
    init_histogram (db_flat 3) = Some db' /\
    length (hist db') = length (hist (db_flat 3)) /\
    length (ihst db') = length (ihst (db_flat 3)) /\
    (forall L, 0 <= L < dim_x (hsz (db_flat 3)) * dim_y (hsz (db_flat 3))
                        * dim_z (hsz (db_flat 3)) ->
       rd (hist db') L = Some F32.zero) /\
    (forall L, dim_x (hsz (db_flat 3)) * dim_y (hsz (db_flat 3))
               * dim_z (hsz (db_flat 3)) <= L ->
       rd (hist db') L = rd (hist (db_flat 3)) L) /\
    (forall j, 0 <= j < dim_x (hsz (db_flat 3)) ->
       j < dim_x (hsz (db_flat 3)) * dim_y (hsz (db_flat 3))
           * dim_z (hsz (db_flat 3)) ->
       rd (ihst db') j = Some F32.zero) /\
    (forall j, dim_x (hsz (db_flat 3)) <= j \/
               dim_x (hsz (db_flat 3)) * dim_y (hsz (db_flat 3))
               * dim_z (hsz (db_flat 3)) <= j ->
       rd (ihst db') j = rd (ihst (db_flat 3)) j) /\
    cumd db' = cumd (db_flat 3) /\ cnts db' = cnts (db_flat 3) /\
    icmd db' = icmd (db_flat 3) /\ hsz db' = hsz (db_flat 3).
Proof.
  apply (init_histogram_clears (db_flat 3)); vm_compute; discriminate.
Defined.

(** ** [calc_histogram]: masked pixels *)

Lemma fold_opt_unchanged {A S} (f : A -> S -> option S) l s :
  (forall a, In a l -> f a s = Some s) -> fold_opt f l s = Some s.
Proof.
  induction l as [|a l IH]; intros H; [reflexivity|].
  simpl. rewrite (H a) by (left; reflexivity). simpl.
  apply IH. intros b Hb. apply H. right. exact Hb.
Qed.

Lemma In_seqZ i lo n : In i (seqZ lo n) -> lo <= i < lo + n.
Proof. intros H. apply list_elem_of_In in H. apply elem_of_seqZ in H. exact H. Qed.

Lemma In_pixels dsz p :
  In p (pixels dsz) ->
  exists z y x, p = (z, y, x) /\ 0 <= z < dim_z dsz /\ 0 <= y < dim_y dsz /\
                0 <= x < dim_x dsz.
Proof.
  unfold pixels. intros H.
  apply in_concat in H. destruct H as (l1 & H1 & Hp).
  apply in_map_iff in H1. destruct H1 as (z & <- & Hz).
  apply in_concat in Hp. destruct Hp as (l2 & H2 & Hp).
  apply in_map_iff in H2. destruct H2 as (y & <- & Hy).
  apply in_map_iff in Hp. destruct Hp as (x & <- & Hx).
  apply In_seqZ in Hz, Hy, Hx. exists z, y, x. split; [reflexivity|lia].
Qed.

Lemma set_hist_same db : set_hist db (hist db) = db.
Proof. destruct db. reflexivity. Qed.

(** X6.  A pixel whose entry of [gmap] equals [bad_pix] is skipped before
    [data] and [lmed] are read: on a volume in which every pixel is masked
    [calc_histogram] returns the database unchanged, whatever [data] and
    [lmed] hold. *)
Theorem calc_histogram_all_masked bad_pix db lmed axis :
  (forall z y x, 0 <= z < dim_z (dsz db) -> 0 <= y < dim_y (dsz db) ->
     0 <= x < dim_x (dsz db) ->
     exists g, rd (gmap db)
                 (dim_x (dsz db) * dim_y (dsz db) * z + dim_x (dsz db) * y + x)
               = Some g /\ F32.eqb g bad_pix = true) ->
  calc_histogram bad_pix db lmed axis = Some db.
Proof.
  intros Hmask. rewrite calc_histogram_accumulate. unfold accumulate.
  rewrite fold_opt_unchanged; [simpl; rewrite set_hist_same; reflexivity|].
  intros p Hp. destruct (In_pixels _ _ Hp) as (z & y & x & -> & Hz & Hy & Hx).
  destruct (Hmask z y x Hz Hy Hx) as (g & Hg & Heq).
  unfold pixel_update.
  replace (1 * dim_x (dsz db) * dim_y (dsz db) * z + 1 * dim_x (dsz db) * y + 1 * x)
    with (dim_x (dsz db) * dim_y (dsz db) * z + dim_x (dsz db) * y + x) by lia.
  rewrite Hg. simpl. rewrite Heq. reflexivity.
Qed.

Lemma calc_histogram_all_masked_witness :
  calc_histogram F32.one (db_flat 3) [] 0 = Some (db_flat 3).
Proof.
  apply (calc_histogram_all_masked F32.one (db_flat 3) [] 0).
  intros z y x Hz Hy Hx. exists F32.one. split; [|reflexivity].
  change (dim_x (dsz (db_flat 3))) with 3 in *.
  change (dim_y (dsz (db_flat 3))) with 1 in *.
  change (dim_z (dsz (db_flat 3))) with 1 in *.
  change (gmap (db_flat 3)) with (replicate (Z.to_nat 3) F32.one).
  apply rd_replicate. lia.
Defined.

(** ** Normalised histograms *)

Lemma F32_add_comm_pos ma ea mb eb :
  F32.add (S754_finite false ma ea) (S754_finite false mb eb) =
  F32.add (S754_finite false mb eb) (S754_finite false ma ea).
Proof.
  unfold F32.add, SFadd. rewrite (Z.min_comm ea eb).
  rewrite (Z.add_comm (cond_Zopp false (Z.pos (fst (shl_align ma ea (Z.min eb ea)))))).
  reflexivity.
Qed.

(** The other summand is not above the sum either. *)
Lemma add_step_r c h :
  partial_sum_ok c -> nonneg h -> SFleb h (F32.add c h) = true.
Proof.
  intros Hc [Hv Hh].
  destruct c as [[|]|[|]| |[|] mc ec]; cbn [partial_sum_ok] in Hc; try tauto;
    destruct h as [[|]|[|]| |[|] mh eh]; try discriminate Hh;
    try reflexivity.
  - apply (SFleb_refl_ok (S754_finite false mh eh)), Hv.
  - rewrite F32_add_comm_pos. apply F32_add_ge, Hv.
Qed.

Lemma entry_le_prefix col k h :
  Forall nonneg col -> col !! k = Some h ->
  SFleb h (prefix_sum col (S k)) = true.
Proof.
  intros Hcol Hk. rewrite (prefix_sum_S col k h Hk).
  apply add_step_r; [apply prefix_sum_ok, Hcol|].
  eapply Forall_lookup_1; eassumption.
Qed.

Lemma prefix_le_sum col k :
  Forall nonneg col -> SFleb (prefix_sum col k) (column_sum col) = true.
Proof.
  intros Hcol. destruct (Nat.le_gt_cases k (length col)) as [Hk|Hk].
  - rewrite <- prefix_sum_all. apply prefix_sum_mono; assumption.
  - unfold prefix_sum. rewrite take_ge by lia. fold (column_sum col).
    apply SFleb_refl_ok. rewrite <- prefix_sum_all. apply prefix_sum_ok, Hcol.
Qed.

(** A normalised entry lies between 0 and the normalised running sum that
    includes it. *)
Lemma normalized_entry col k h :
  Forall nonneg col -> SFis_finite (column_sum col) = true ->
  col !! k = Some h ->
  SFleb F32.zero (normalized (column_sum col) h) = true /\
  SFleb (normalized (column_sum col) h)
        (normalized (column_sum col) (prefix_sum col (S k))) = true.
Proof.
  intros Hcol Hfin Hk.
  pose proof (entry_le_prefix col k h Hcol Hk) as Hle.
  pose proof (prefix_sum_ok col (S k) Hcol) as Hp.
  pose proof (prefix_le_sum col (S k) Hcol) as Hps.
  assert (Hs : partial_sum_ok (column_sum col)).
  { rewrite <- prefix_sum_all. apply prefix_sum_ok, Hcol. }
  destruct (Forall_lookup_1 _ _ _ _ Hcol Hk) as [Hv Hh].
  destruct (normalized_range (column_sum col) (prefix_sum col (S k)) Hs Hfin Hp Hps)
    as [H0 _].
  destruct h as [[|]|[|]| |[|] mh eh]; try discriminate Hh.
  - assert (E : normalized (column_sum col) (S754_zero true) = S754_zero true \/
                normalized (column_sum col) (S754_zero true) = F32.zero).
    { unfold normalized.
      destruct (column_sum col) as [[|]|[|]| |[|] ms es]; cbn [partial_sum_ok] in Hs;
        try tauto; try discriminate Hfin;
        try (right; reflexivity); try (left; reflexivity). }
    destruct E as [-> | ->]; (split; [reflexivity|]).
    + destruct (normalized (column_sum col) (prefix_sum col (S k))) as [[|]|[|]| |[|] m e];
        try discriminate H0; reflexivity.
    + exact H0.
  - assert (Hhs : SFleb (S754_zero false) (column_sum col) = true).
    { exact (SFleb_trans _ _ _ Hle Hps). }
    split; [apply normalized_range|apply normalized_mono]; try assumption; exact I.
  - assert (Hps' := Hps).
    destruct (prefix_sum col (S k)) as [[|]|[|]| |[|] mp ep] eqn:Ep;
      cbn [partial_sum_ok] in Hp; try tauto; try discriminate Hle.
    destruct (column_sum col) as [[|]|[|]| |[|] ms es]; cbn [partial_sum_ok] in Hs;
      try tauto; try discriminate Hfin; try discriminate Hps'.
  - assert (Hhs : SFleb (S754_finite false mh eh) (column_sum col) = true).
    { exact (SFleb_trans _ _ _ Hle Hps). }
    split.
    + apply normalized_range; try assumption.
    + apply normalized_mono; try assumption.
Qed.

(** X7.  On a column of the histogram slice whose entries are numbers of
    the format that are not negative and whose sum stays finite,
    [calc_cumulative_distribution] leaves in [hist] normalised entries
    between 0 and 1, each one at most the entry of [cumd] of the same
    bin. *)
Theorem normalized_histogram_below_cumulative db axis x :
  0 <= axis -> 0 <= x < dim_x (hsz db) -> 0 <= dim_y (hsz db) ->
  dim_x (hsz db) * dim_y (hsz db) * (axis + 1) <= Z.of_nat (length (hist db)) ->
  dim_x (hsz db) * dim_y (hsz db) * (axis + 1) <= Z.of_nat (length (cumd db)) ->
  dim_x (hsz db) * (axis + 1) <= Z.of_nat (length (cnts db)) ->
  Forall nonneg (column_of (hist db) (hsz db) axis x) ->
  SFis_finite (column_sum (column_of (hist db) (hsz db) axis x)) = true ->
  exists db',
    calc_cumulative_distribution db axis = Some db' /\
    forall y, 0 <= y < dim_y (hsz db) ->
      exists h c,
        rd (hist db') (hidx (hsz db) axis x y) = Some h /\
        rd (cumd db') (hidx (hsz db) axis x y) = Some c /\
        SFleb F32.zero h = true /\ SFleb h c = true /\ SFleb c F32.one = true.
Proof.
  intros Haxis Hx Hdy Hsh Hsc Hsn Hnn Hfin.
  destruct (calc_cumulative_distribution_spec db axis Haxis ltac:(lia) Hsh Hsc Hsn)
    as (db' & Hrun & _ & Hres).
  { intros x' Hx'. eexists. apply is_column_column_of; eassumption. }
  pose proof (is_column_column_of (hist db) (hsz db) axis x Haxis Hx Hdy Hsh) as Hcol.
  set (col := column_of (hist db) (hsz db) axis x) in *.
  destruct (Hres x col Hx Hcol) as [_ Hent].
  assert (Hlen : Z.of_nat (length col) = dim_y (hsz db)) by apply Hcol.
  exists db'. split; [exact Hrun|]. intros y Hy.
  destruct (Hent y Hy) as [Eh Ec].
  destruct (lookup_lt_is_Some_2 col (Z.to_nat y) ltac:(lia)) as [h Hk].
  rewrite Hk in Eh. simpl in Eh.
  destruct (normalized_entry col (Z.to_nat y) h Hnn Hfin Hk) as [H0 H1].
  eexists _, _. split; [exact Eh|]. split; [exact Ec|].
  split; [exact H0|]. split; [exact H1|].
  apply normalized_range; try assumption.
  - rewrite <- prefix_sum_all. apply prefix_sum_ok, Hnn.
  - apply prefix_sum_ok, Hnn.
  - apply prefix_le_sum, Hnn.
Qed.

Lemma normalized_histogram_below_cumulative_witness :
  exists db',
    calc_cumulative_distribution db_counts 0 = Some db' /\
    forall y, 0 <= y < dim_y (hsz db_counts) ->
      exists h c,
        rd (hist db') (hidx (hsz db_counts) 0 0 y) = Some h /\
        rd (cumd db') (hidx (hsz db_counts) 0 0 y) = Some c /\
        SFleb F32.zero h = true /\ SFleb h c = true /\ SFleb c F32.one = true.
Proof.
  apply (normalized_histogram_below_cumulative db_counts 0 0).
  - lia.
  - vm_compute. split; [discriminate|reflexivity].
  - vm_compute. discriminate.
  - vm_compute. discriminate.
  - vm_compute. discriminate.
  - vm_compute. discriminate.
  - repeat constructor.
  - reflexivity.
Defined.

(** X8.  If the first [hsz.x] entries of [ihst] are numbers of the format
    that are not negative and their sum stays finite,
    [calc_intensity_cumulative_distribution] leaves in [icmd] values that
    do not decrease with the bin and lie between 0 and 1, the last of them
    exactly 1 when the sum is not zero, and in [ihst] normalised entries
    between 0 and the entry of [icmd] of the same bin. *)
Theorem intensity_distribution_monotone db :
  0 <= dim_x (hsz db) <= Z.of_nat (length (ihst db)) ->
  dim_x (hsz db) <= Z.of_nat (length (icmd db)) ->
  Forall nonneg (take (Z.to_nat (dim_x (hsz db))) (ihst db)) ->
  SFis_finite (column_sum (take (Z.to_nat (dim_x (hsz db))) (ihst db))) = true ->
  exists db' cum,
    calc_intensity_cumulative_distribution db = Some db' /\
    (forall x, 0 <= x < dim_x (hsz db) ->
       rd (icmd db') x = Some (cum x) /\
       exists h, rd (ihst db') x = Some h /\
                 SFleb F32.zero h = true /\ SFleb h (cum x) = true) /\
    (forall x x', 0 <= x <= x' -> x' < dim_x (hsz db) ->
       SFleb (cum x) (cum x') = true) /\
    (forall x, 0 <= x < dim_x (hsz db) ->
       SFleb F32.zero (cum x) = true /\ SFleb (cum x) F32.one = true) /\
    (F32.neb (column_sum (take (Z.to_nat (dim_x (hsz db))) (ihst db))) F32.zero = true ->
     0 < dim_x (hsz db) -> cum (dim_x (hsz db) - 1) = F32.one).
Proof.
  intros Hh Hc Hnn Hfin.
  destruct (calc_intensity_cumulative_distribution_spec db Hh Hc) as (db' & Hrun & Hres).
  set (col := take (Z.to_nat (dim_x (hsz db))) (ihst db)) in *.
  assert (Hlen : Z.of_nat (length col) = dim_x (hsz db)).
  { unfold col. rewrite length_take. lia. }
  assert (Hsum : partial_sum_ok (column_sum col)).
  { rewrite <- prefix_sum_all. apply prefix_sum_ok, Hnn. }
  exists db', (fun x => normalized (column_sum col) (prefix_sum col (S (Z.to_nat x)))).
  split; [exact Hrun|]. split; [|split; [|split]].
  - intros x Hx. destruct (Hres x Hx) as [Eh Ec]. split; [exact Ec|].
    destruct (lookup_lt_is_Some_2 col (Z.to_nat x) ltac:(lia)) as [h Hk].
    assert (Hrd : rd (ihst db) x = Some h).
    { unfold col in Hk. rewrite lookup_take_lt in Hk by lia.
      unfold rd. destruct (Z.leb_spec 0 x); [exact Hk|lia]. }
    rewrite Hrd in Eh. simpl in Eh.
    eexists. split; [exact Eh|]. apply normalized_entry; assumption.
  - intros x x' Hx Hx'. apply normalized_mono; try assumption.
    + apply prefix_sum_ok, Hnn.
    + apply prefix_sum_ok, Hnn.
    + apply prefix_sum_mono; [exact Hnn|lia].
    + apply prefix_le_sum, Hnn.
  - intros x Hx. apply normalized_range; try assumption.
    + apply prefix_sum_ok, Hnn.
    + apply prefix_le_sum, Hnn.
  - intros Hne Hpos.
    replace (S (Z.to_nat (dim_x (hsz db) - 1))) with (length col) by lia.
    rewrite prefix_sum_all. apply normalized_self; assumption.
Qed.

Lemma intensity_distribution_monotone_witness :
  exists db' cum,
    calc_intensity_cumulative_distribution db_icounts = Some db' /\
    (forall x, 0 <= x < dim_x (hsz db_icounts) ->
       rd (icmd db') x = Some (cum x) /\
       exists h, rd (ihst db') x = Some h /\
                 SFleb F32.zero h = true /\ SFleb h (cum x) = true) /\
    (forall x x', 0 <= x <= x' -> x' < dim_x (hsz db_icounts) ->
       SFleb (cum x) (cum x') = true) /\
    (forall x, 0 <= x < dim_x (hsz db_icounts) ->
       SFleb F32.zero (cum x) = true /\ SFleb (cum x) F32.one = true) /\
    (F32.neb (column_sum (take (Z.to_nat (dim_x (hsz db_icounts))) (ihst db_icounts)))
             F32.zero = true ->
     0 < dim_x (hsz db_icounts) -> cum (dim_x (hsz db_icounts) - 1) = F32.one).
Proof.
  apply (intensity_distribution_monotone db_icounts).
  - vm_compute. split; discriminate.
  - vm_compute. discriminate.
  - repeat constructor.
  - reflexivity.
Defined.

(** ** [min_samples]: the smallest number of samples *)

(** The rounding of a positive integer multiple of a power of two. *)
Lemma normalize_state prec emax (Hprec : 1 < prec) (p : positive) (e0 : Z) :
  exists mz ez e1,
    ez <= e0 /\ ez <= e1 /\
    Z.pos mz = Z.pos p * 2 ^ (e0 - ez) /\
    binary_normalize prec emax (Z.pos p) e0 false =
      finalized prec emax false (rne_code (enc (Z.pos mz) (1 * 2 ^ (e1 - ez)))) e1 /\
    pre_state prec emax (Z.pos mz) (1 * 2 ^ (e1 - ez)) e1.
Proof.
  unfold binary_normalize, binary_round.
  set (t := fexp prec emax (Z.pos (digits2_pos p) + e0)).
  destruct (shl_align_spec p e0 t) as (mz & Hz & Hvz). rewrite Hz.
  set (ez := Z.min e0 t) in *.
  assert (Hd : Z.pos (digits2_pos mz) = Z.pos (digits2_pos p) + (e0 - ez)).
  { apply digits2_pos_shift; [unfold ez; lia|exact Hvz]. }
  assert (Ht : fexp prec emax (Zdigits2 (Z.pos mz) + ez) = t).
  { simpl Zdigits2. rewrite Hd. unfold t. f_equal. lia. }
  exists mz, ez, t. split; [unfold ez; lia|]. split; [unfold ez; lia|].
  split; [exact Hvz|].
  rewrite <- Ht. apply round_aux_state.
  - exact Hprec.
  - lia.
  - lia.
  - rewrite code_of_loc, enc_one. lia.
  - rewrite Ht. unfold ez. lia.
Qed.

(** [1.0f - thresh] for a [thresh] below 1. *)
Lemma sub_one_state m e :
  canonical F32.prec F32.emax m e ->
  SFltb (S754_finite false m e) F32.one = true ->
  exists p,
    F32.sub F32.one (S754_finite false m e) =
      binary_normalize F32.prec F32.emax (Z.pos p) (Z.min (-23) e) false /\
    Z.pos p = 8388608 * 2 ^ (-23 - Z.min (-23) e) - Z.pos m * 2 ^ (e - Z.min (-23) e).
Proof.
  intros Hc H1. unfold SFltb in H1.
  assert (Hone : canonical F32.prec F32.emax 8388608 (-23)) by reflexivity.
  unfold F32.one in H1. rewrite (SFcompare_canonical _ _ F32_prec _ _ _ _ Hc Hone) in H1.
  destruct (Z.compare_spec (Z.pos m * 2 ^ (e - Z.min e (-23)))
              (8388608 * 2 ^ (-23 - Z.min e (-23)))) as [|Hlt|]; try discriminate.
  unfold F32.sub, F32.one, SFsub.
  destruct (shl_align_spec 8388608 (-23) (Z.min (-23) e)) as (p1 & -> & Hp1).
  destruct (shl_align_spec m e (Z.min (-23) e)) as (p2 & -> & Hp2).
  simpl fst. simpl cond_Zopp.
  rewrite Z.min_r in Hp1, Hp2 by lia. rewrite (Z.min_comm e) in Hlt.
  destruct (Z.pos p1 - Z.pos p2) as [|q|q] eqn:Eq; try lia.
  exists q. split; [reflexivity|]. lia.
Qed.

Lemma sub_one_le_half m e :
  canonical F32.prec F32.emax m e ->
  SFltb half32 (S754_finite false m e) = true ->
  SFltb (S754_finite false m e) F32.one = true ->
  SFleb (F32.sub F32.one (S754_finite false m e)) half32 = true.
Proof.
  intros Hc Hh H1.
  destruct (sub_one_state m e Hc H1) as (p & -> & Hp).
  destruct (normalize_state F32.prec F32.emax F32_prec p (Z.min (-23) e))
    as (mz & ez & e1 & Hez & He1 & Hmz & -> & Hs).
  assert (Hhalf : canonical F32.prec F32.emax 8388608 (-24)) by reflexivity.
  unfold SFltb, half32 in Hh.
  rewrite (SFcompare_canonical _ _ F32_prec _ _ _ _ Hhalf Hc) in Hh.
  destruct (Z.compare_spec (8388608 * 2 ^ (-24 - Z.min (-24) e))
              (Z.pos m * 2 ^ (e - Z.min (-24) e))) as [|Hlt|]; try discriminate.
  destruct (canonical_finalized F32.prec F32.emax F32_prec 8388608 (-24) Hhalf)
    as [Heq Hsh]; [change F32.emax with 128; change F32.prec with 24; lia|].
  unfold half32. rewrite Heq.
  assert (Hpow : forall k, 0 <= k -> 0 < 2 ^ k) by (intros; apply Z.pow_pos_nonneg; lia).
  apply (states_leb F32.prec F32.emax F32_prec); try assumption; try lia;
    try (apply Z.mul_pos_pos; [lia|apply Hpow; lia]).
  set (c := Z.min e1 (-24)).
  set (S := (e1 - ez) + (-24 - c)).
  assert (HS : 0 <= S) by (unfold S, c; lia).
  replace (8388608 * (1 * 2 ^ (e1 - ez)) * 2 ^ (-24 - c)) with (8388608 * 2 ^ S)
    by (unfold S; rewrite Z.pow_add_r by (unfold c; lia); ring).
  rewrite Hmz.
  destruct (Z.le_gt_cases e (-24)) as [He|He].
  - rewrite Z.min_r in * by lia. rewrite Z.sub_diag, Z.mul_1_r in *.
    replace (-23 - e) with (1 + (-24 - e)) in Hp by lia.
    rewrite Z.pow_add_r in Hp by lia. change (2 ^ 1) with 2 in Hp.
    replace S with ((-24 - e) + ((e - ez) + (e1 - c))) by (unfold S; lia).
    rewrite !Z.pow_add_r by (unfold c; lia).
    assert (Hle : Z.pos p <= 8388608 * 2 ^ (-24 - e)) by lia.
    assert (0 <= 2 ^ (e - ez) * 2 ^ (e1 - c))
      by (apply Z.mul_nonneg_nonneg; apply Z.pow_nonneg; lia).
    pose proof (Z.mul_le_mono_nonneg_r _ _ _ H Hle) as G. revert G.
    generalize (2 ^ (e - ez)) (2 ^ (e1 - c)) (2 ^ (-24 - e)). intros; lia.
  - rewrite Z.min_l in * by lia. rewrite Z.sub_diag, Z.mul_1_r in *.
    replace (e - -24) with (1 + (e - -23)) in Hlt by lia.
    rewrite Z.pow_add_r in Hlt by lia. change (2 ^ 1) with 2 in Hlt.
    assert (Hle : 2 * Z.pos p <= 8388608) by lia.
    assert (E : 2 ^ (-23 - ez) * 2 ^ (e1 - c) = 2 * 2 ^ S).
    { rewrite <- Z.pow_add_r by (unfold c; lia).
      replace (-23 - ez + (e1 - c)) with (Z.succ S) by (unfold S; lia).
      apply Z.pow_succ_r, HS. }
    transitivity (Z.pos p * (2 ^ (-23 - ez) * 2 ^ (e1 - c)));
      [apply Z.eq_le_incl; ring|].
    rewrite E, Z.mul_assoc, (Z.mul_comm (Z.pos p) 2).
    apply Z.mul_le_mono_nonneg_r; [apply Z.pow_nonneg; lia|exact Hle].
Qed.

Lemma sub_one_shape m e :
  canonical F32.prec F32.emax m e ->
  SFltb (S754_finite false m e) F32.one = true ->
  match F32.sub F32.one (S754_finite false m e) with
  | S754_zero false | S754_infinity false | S754_finite false _ _ => True
  | _ => False
  end.
Proof.
  intros Hc H1.
  destruct (sub_one_state m e Hc H1) as (p & -> & Hp).
  destruct (normalize_state F32.prec F32.emax F32_prec p (Z.min (-23) e))
    as (mz & ez & e1 & _ & _ & _ & -> & _).
  apply finalized_shape.
Qed.

(** [interval] is at most one half. *)
Lemma interval_le_half thresh :
  F32.valid thresh = true ->
  F32.ltb F32.zero thresh = true -> F32.ltb thresh F32.one = true ->
  SFleb (interval_of thresh) half32 = true.
Proof.
  intros Hv H0 H1.
  destruct thresh as [s|s| |s m e]; try discriminate.
  { destruct s; discriminate. }
  destruct s; [discriminate|].
  pose proof (F32_valid_canonical _ _ _ Hv) as Hc.
  pose proof (sub_one_shape m e Hc H1) as Hsh.
  unfold interval_of, F32.fmin.
  set (t := S754_finite false m e) in *.
  assert (Ha : SFis_nan (F32.sub F32.one t) = false).
  { destruct (F32.sub F32.one t) as [[|]|[|]| |[|] ? ?]; try contradiction; reflexivity. }
  rewrite Ha. change (SFis_nan t) with false. cbv iota.
  destruct (SFleb t half32) eqn:Hle.
  - destruct (SFltb t (F32.sub F32.one t)) eqn:Hlt; [exact Hle|].
    apply (SFleb_trans _ t); [|exact Hle].
    apply SFltb_false_leb; [reflexivity|exact Ha|exact Hlt].
  - assert (Hgt : SFltb half32 t = true).
    { destruct (SFltb half32 t) eqn:E; [reflexivity|].
      rewrite (SFltb_false_leb half32 t) in Hle; [discriminate|reflexivity|reflexivity|exact E]. }
    pose proof (sub_one_le_half m e Hc Hgt H1) as Hah. fold t in Hah.
    destruct (SFltb t (F32.sub F32.one t)) eqn:Hlt; [|exact Hah].
    pose proof (SFleb_ltb_trans _ _ _ Hah Hgt) as Hat.
    apply SFltb_not_leb in Hat. apply SFltb_leb in Hlt. congruence.
Qed.

(** The truncation to [int] of a number at least [k] is at least [k]. *)
Lemma to_int_lower k f n :
  0 < k <= 2 ^ 24 -> F32.valid f = true ->
  SFleb (F32.of_int k) f = true -> F32.to_int f = Some n -> k <= n.
Proof.
  intros Hk Hv Hle Hn.
  destruct (F32_of_int_positive k Hk) as (M & E & HM & HvM & HE & HMk).
  rewrite HM in Hle.
  destruct f as [[|]|[|]| |[|] mf ef]; try discriminate.
  pose proof (SFleb_canonical F32.prec F32.emax F32_prec M E mf ef
                (F32_valid_canonical _ _ _ HvM) (F32_valid_canonical _ _ _ Hv) Hle) as Hc.
  unfold F32.to_int in Hn. rewrite SFtrunc_nonneg in Hn by reflexivity.
  unfold SFfloor in Hn.
  assert (Hval : k <= match ef with
                      | Z.neg p => Z.pos mf / Z.pow_pos 2 p
                      | _ => Z.pos mf * 2 ^ ef
                      end).
  { destruct ef as [|p|p].
    - pose proof (shift_le _ _ (E - Z.min E 0) (0 - Z.min E 0) (E + 24) 24
                    ltac:(lia) ltac:(lia) ltac:(lia) ltac:(lia) ltac:(lia) Hc) as H.
      rewrite HMk in H. change (2 ^ 24) with 16777216 in H. simpl. lia.
    - pose proof (shift_le _ _ (E - Z.min E (Z.pos p)) (Z.pos p - Z.min E (Z.pos p))
                    (E + 24) (Z.pos p + 24)
                    ltac:(lia) ltac:(lia) ltac:(lia) ltac:(lia) ltac:(lia) Hc) as H.
      rewrite HMk, Z.pow_add_r, Z.mul_assoc in H by lia.
      change (2 ^ 24) with 16777216 in H. lia.
    - rewrite Z.pow_pos_fold.
      assert (Hp : 0 < 2 ^ Z.pos p) by (apply Z.pow_pos_nonneg; lia).
      apply Z.div_le_lower_bound; [exact Hp|].
      set (q := Z.max 24 (Z.pos p)).
      pose proof (shift_le _ _ (E - Z.min E (Z.neg p)) (Z.neg p - Z.min E (Z.neg p))
                    (E + q) (Z.neg p + q) ltac:(lia) ltac:(lia)
                    ltac:(unfold q; lia) ltac:(unfold q; lia) ltac:(lia) Hc) as H.
      replace (E + q) with ((E + 24) + (q - 24)) in H by lia.
      rewrite Z.pow_add_r, Z.mul_assoc, HMk in H by (unfold q; lia).
      replace (Z.neg p + q) with (q - Z.pos p) in H by lia.
      assert (Hq : 2 ^ q = 2 ^ Z.pos p * 2 ^ (q - Z.pos p)).
      { rewrite <- Z.pow_add_r by (unfold q; lia). f_equal. lia. }
      assert (Hq' : 2 ^ q = 2 ^ 24 * 2 ^ (q - 24)).
      { rewrite <- Z.pow_add_r by (unfold q; lia). f_equal. lia. }
      assert (Hr : 0 < 2 ^ (q - Z.pos p)) by (apply Z.pow_pos_nonneg; unfold q; lia).
      rewrite <- Z.mul_assoc, <- Hq', Hq, Z.mul_assoc in H.
      apply Z.mul_le_mono_pos_r in H; [lia|exact Hr]. }
  simpl in Hn. unfold int_range in Hn.
  destruct (_ && _); [|discriminate]. injection Hn as <-. exact Hval.
Qed.

(** X9.  For every [thresh] of the format strictly between 0 and 1 on
    which [min_samples] is defined, it returns at least 30, the value at
    [thresh = 0.5]. *)
Theorem min_samples_at_least_30 thresh n :
  F32.valid thresh = true ->
  F32.ltb F32.zero thresh = true -> F32.ltb thresh F32.one = true ->
  min_samples thresh = Some n -> 30 <= n.
Proof.
  intros Hv H0 H1 Hn.
  pose proof (interval_le_half thresh Hv H0 H1) as Hle.
  pose proof (interval_of_sign thresh Hv H0 H1) as Hs.
  assert (Hvi : F32.valid (interval_of thresh) = true).
  { apply fmin_valid; [apply F32_sub_valid_all; [reflexivity|exact Hv]|exact Hv]. }
  unfold min_samples in Hn. fold (interval_of thresh) in Hn.
  destruct (interval_of thresh) as [[|]|[|]| |[|] ms es]; try discriminate.
  change (F32.of_int 15) with (S754_finite false 15728640 (-20)) in Hn.
  apply (to_int_lower 30 _ n ltac:(lia) (F32_div_valid 15728640 (-20) ms es));
    [|exact Hn].
  pose proof (SFleb_canonical F32.prec F32.emax F32_prec ms es 8388608 (-24)
                (F32_valid_canonical _ _ _ Hvi) ltac:(reflexivity) Hle) as Hc.
  pose proof (F32_valid_emin _ _ _ Hvi) as Hmin.
  change (F32.of_int 30) with (S754_finite false 15728640 (-19)).
  apply (SFdiv_ge_canonical F32.prec F32.emax F32_prec 15728640 (-19) 15728640 (-20) ms es 168);
    try reflexivity; try lia;
    try (change F32.emax with 128; change F32.prec with 24; lia).
  pose proof (shift_le _ _ (es - Z.min es (-24)) (-24 - Z.min es (-24)) (es + 149) 125
                ltac:(lia) ltac:(lia) ltac:(lia) ltac:(lia) ltac:(lia) Hc) as H.
  replace (-19 + es + 168) with (es + 149) by lia.
  change (-20 + 168) with 148.
  change (2 ^ 148) with (8388608 * 2 ^ 125).
  rewrite <- Z.mul_assoc. apply Z.mul_le_mono_nonneg_l; [lia|exact H].
Qed.

Lemma min_samples_at_least_30_witness :
  min_samples (ratio32 4 10) = Some 37 /\ 30 <= 37.
Proof.
  split; [reflexivity|].
  apply (min_samples_at_least_30 (ratio32 4 10) 37); reflexivity.
Defined.

(** *** Where [min_samples] is defined *)

(** [1.0f - thresh] is at least [2^-24] for a [thresh] below 1. *)
Lemma sub_one_lower m e :
  canonical F32.prec F32.emax m e ->
  SFltb (S754_finite false m e) F32.one = true ->
  SFleb pow2_m24 (F32.sub F32.one (S754_finite false m e)) = true.
Proof.
  intros Hc H1.
  destruct (sub_one_state m e Hc H1) as (p & -> & Hp).
  destruct (normalize_state F32.prec F32.emax F32_prec p (Z.min (-23) e))
    as (mz & ez & e1 & Hez & He1 & Hmz & -> & Hs).
  assert (Hg : canonical F32.prec F32.emax 8388608 (-47)) by reflexivity.
  destruct (canonical_finalized F32.prec F32.emax F32_prec 8388608 (-47) Hg)
    as [Heq Hsh]; [change F32.emax with 128; change F32.prec with 24; lia|].
  unfold pow2_m24. rewrite Heq.
  assert (Hpow : forall k, 0 <= k -> 0 < 2 ^ k) by (intros; apply Z.pow_pos_nonneg; lia).
  apply (states_leb F32.prec F32.emax F32_prec); try assumption; try lia;
    try (apply Z.mul_pos_pos; [lia|apply Hpow; lia]).
  set (c := Z.min (-47) e1).
  set (e0 := Z.min (-23) e) in *.
  pose proof (digits2_pos_bounds m) as [_ Hu].
  pose proof (canonical_digits F32.prec F32.emax m e Hc) as Hd.
  change F32.prec with 24 in Hd.
  assert (Hm : Z.pos m < 2 ^ 24).
  { assert (2 ^ Z.pos (digits2_pos m) <= 2 ^ 24) by (apply Z.pow_le_mono_r; lia). lia. }
  (* the exact difference is at least [2^(-24 - e0)] units *)
  assert (Hlow : (e0 < -24 /\ 2 ^ (-24 - e0 + 1) <= 2 * Z.pos p) \/ -24 <= e0).
  { destruct (Z.le_gt_cases (-24) e) as [He|He]; [right; unfold e0; lia|left].
    assert (E0 : e0 = e) by (unfold e0; lia). rewrite E0 in *.
    split; [lia|].
    rewrite Z.sub_diag, Z.mul_1_r in Hp.
    replace (-23 - e) with (23 + (-24 - e + 1) - 23) in Hp by lia.
    assert (H23 : 8388608 * 2 ^ (-23 - e) = 2 ^ (-e)).
    { change 8388608 with (2 ^ 23). rewrite <- Z.pow_add_r by lia. f_equal. lia. }
    replace (23 + (-24 - e + 1) - 23) with (-23 - e) in Hp by lia.
    rewrite H23 in Hp.
    assert (H25 : 2 ^ (- e) = 2 * 2 ^ (-24 - e + 1) * 2 ^ 22).
    { replace (- e) with (1 + (-24 - e + 1) + 22) by lia.
      rewrite !Z.pow_add_r by lia. reflexivity. }
    assert (H1' : 4 <= 2 ^ (-24 - e + 1)).
    { change 4 with (2 ^ 2). apply Z.pow_le_mono_r; lia. }
    change (2 ^ 24) with 16777216 in Hm. change (2 ^ 22) with 4194304 in H25. lia. }
  set (S := (e1 - ez) + (-47 - c)).
  assert (HS : 0 <= S) by (unfold S, c; lia).
  transitivity (2 ^ (23 + S)).
  { apply Z.eq_le_incl. unfold S. rewrite !Z.pow_add_r by (unfold c; lia).
    change (2 ^ 23) with 8388608. ring. }
  rewrite Hmz.
  transitivity (Z.pos p * 2 ^ ((e0 - ez) + (e1 - c)));
    [|apply Z.eq_le_incl; rewrite Z.pow_add_r by (unfold c; lia); ring].
  destruct Hlow as [[He0 Hlow]|Hlow].
  - transitivity (2 ^ (-24 - e0) * 2 ^ (e0 - ez + (e1 - c))).
    + rewrite <- Z.pow_add_r by (unfold e0, c in *; lia).
      apply Z.pow_le_mono_r; [lia|]. unfold S, c. lia.
    + apply Z.mul_le_mono_nonneg_r; [apply Z.pow_nonneg; lia|].
      replace (-24 - e0 + 1) with (Z.succ (-24 - e0)) in Hlow by lia.
      rewrite Z.pow_succ_r in Hlow by (unfold e0 in *; lia). lia.
  - transitivity (1 * 2 ^ (e0 - ez + (e1 - c))).
    + rewrite Z.mul_1_l. apply Z.pow_le_mono_r; [lia|]. unfold S, c. lia.
    + apply Z.mul_le_mono_nonneg_r; [apply Z.pow_nonneg; lia|lia].
Qed.

(** The truncation to [int] of a number between 0 and an integer [B] of
    the range of [int] is defined, and at most [B]. *)
Lemma to_int_upper f mg eg :
  F32.valid f = true -> SFleb F32.zero f = true ->
  canonical F32.prec F32.emax mg eg -> 0 <= eg -> Z.pos mg * 2 ^ eg < 2 ^ 31 ->
  SFleb f (S754_finite false mg eg) = true ->
  exists n, F32.to_int f = Some n /\ 0 <= n <= Z.pos mg * 2 ^ eg.
Proof.
  intros Hv H0 Hg Heg HB Hle.
  assert (HBpos : 0 < Z.pos mg * 2 ^ eg)
    by (apply Z.mul_pos_pos; [lia|apply Z.pow_pos_nonneg; lia]).
  destruct f as [[|]|[|]| |[|] mf ef]; try discriminate.
  - exists 0. split; [reflexivity|lia].
  - exists 0. split; [reflexivity|lia].
  - pose proof (SFleb_canonical F32.prec F32.emax F32_prec mf ef mg eg
                  (F32_valid_canonical _ _ _ Hv) Hg Hle) as Hc.
    unfold F32.to_int. rewrite SFtrunc_nonneg by reflexivity. unfold SFfloor.
    set (v := match ef with
              | Z.neg p => Z.pos mf / Z.pow_pos 2 p
              | _ => Z.pos mf * 2 ^ ef
              end).
    assert (Hval : 0 <= v <= Z.pos mg * 2 ^ eg).
    { unfold v. destruct ef as [|p|p].
      - pose proof (shift_le _ _ (0 - Z.min 0 eg) (eg - Z.min 0 eg) 0 eg
                      ltac:(lia) ltac:(lia) ltac:(lia) ltac:(lia) ltac:(lia) Hc) as H.
        simpl in H |- *. lia.
      - pose proof (shift_le _ _ (Z.pos p - Z.min (Z.pos p) eg) (eg - Z.min (Z.pos p) eg)
                      (Z.pos p) eg
                      ltac:(lia) ltac:(lia) ltac:(lia) ltac:(lia) ltac:(lia) Hc) as H.
        split; [|exact H]. apply Z.mul_nonneg_nonneg; [lia|apply Z.pow_nonneg; lia].
      - rewrite Z.pow_pos_fold.
        assert (Hp : 0 < 2 ^ Z.pos p) by (apply Z.pow_pos_nonneg; lia).
        split; [apply Z.div_pos; lia|].
        apply Z.div_le_upper_bound; [exact Hp|].
        pose proof (shift_le _ _ (Z.neg p - Z.min (Z.neg p) eg) (eg - Z.min (Z.neg p) eg)
                      0 (eg + Z.pos p)
                      ltac:(lia) ltac:(lia) ltac:(lia) ltac:(lia) ltac:(lia) Hc) as H.
        rewrite Z.pow_0_r, Z.mul_1_r, Z.pow_add_r in H by lia. lia. }
    exists v. split; [|exact Hval].
    simpl. unfold int_range.
    destruct (Z.leb_spec (- 2 ^ 31) v); [|lia].
    destruct (Z.ltb_spec v (2 ^ 31)); [reflexivity|lia].
Qed.

(** X14.  For every [thresh] of the format from [2^-27] up to, but not
    including, 1, [min_samples] is defined: the quotient fits an [int],
    and the result lies between 30 and [15 * 2^27]. *)
Theorem min_samples_defined thresh :
  F32.valid thresh = true ->
  SFleb pow2_m27 thresh = true -> F32.ltb thresh F32.one = true ->
  exists n, min_samples thresh = Some n /\ 30 <= n <= 15 * 2 ^ 27.
Proof.
  intros Hv Hlo H1.
  assert (H0 : F32.ltb F32.zero thresh = true).
  { apply (SFltb_leb_trans _ pow2_m27); [reflexivity|exact Hlo]. }
  pose proof (interval_le_half thresh Hv H0 H1) as Hle.
  pose proof (interval_of_sign thresh Hv H0 H1) as Hs.
  assert (Hvi : F32.valid (interval_of thresh) = true).
  { apply fmin_valid; [apply F32_sub_valid_all; [reflexivity|exact Hv]|exact Hv]. }
  assert (Hge : SFleb pow2_m27 (interval_of thresh) = true).
  { unfold interval_of, F32.fmin.
    destruct thresh as [[|]|[|]| |[|] m e]; try discriminate.
    pose proof (sub_one_lower m e (F32_valid_canonical _ _ _ Hv) H1) as Ha.
    assert (Ha' : SFleb pow2_m27 (F32.sub F32.one (S754_finite false m e)) = true).
    { apply (SFleb_trans _ pow2_m24); [reflexivity|exact Ha]. }
    destruct (SFis_nan _); [exact Hlo|]. cbn [SFis_nan].
    destruct (SFltb _ _); assumption. }
  unfold min_samples. fold (interval_of thresh).
  destruct (interval_of thresh) as [[|]|[|]| |[|] ms es]; try discriminate.
  change (F32.of_int 15) with (S754_finite false 15728640 (-20)).
  pose proof (F32_valid_canonical _ _ _ Hvi) as Hci.
  pose proof (F32_valid_emin _ _ _ Hvi) as Hmin.
  pose proof (SFleb_canonical F32.prec F32.emax F32_prec 8388608 (-50) ms es
                ltac:(reflexivity) Hci Hge) as Hc.
  pose proof (SFleb_canonical F32.prec F32.emax F32_prec ms es 8388608 (-24)
                Hci ltac:(reflexivity) Hle) as Hc'.
  destruct (to_int_upper
              (F32.div (S754_finite false 15728640 (-20)) (S754_finite false ms es))
              15728640 7) as (n & Hn & Hn0 & Hn1).
  - apply F32_div_valid.
  - apply F32_div_nonneg.
  - reflexivity.
  - lia.
  - reflexivity.
  - unfold F32.div.
    apply (SFdiv_le_canonical F32.prec F32.emax F32_prec 15728640 7 15728640 (-20) ms es 170);
      try reflexivity; try lia;
      try (change F32.emax with 128; change F32.prec with 24; lia).
    pose proof (shift_le _ _ (-50 - Z.min (-50) es) (es - Z.min (-50) es) 127 (es + 177)
                  ltac:(lia) ltac:(lia) ltac:(lia) ltac:(lia) ltac:(lia) Hc) as H.
    replace (7 + es + 170) with (es + 177) by lia.
    change (-20 + 170) with 150.
    change (2 ^ 150) with (8388608 * 2 ^ 127).
    rewrite <- !Z.mul_assoc. apply Z.mul_le_mono_nonneg_l; [lia|exact H].
  - exists n. split; [exact Hn|]. split; [|change (15 * 2 ^ 27) with (15728640 * 2 ^ 7); exact Hn1].
    apply (to_int_lower 30 _ n ltac:(lia) (F32_div_valid 15728640 (-20) ms es));
      [|exact Hn].
    change (F32.of_int 30) with (S754_finite false 15728640 (-19)).
    apply (SFdiv_ge_canonical F32.prec F32.emax F32_prec 15728640 (-19) 15728640 (-20) ms es 168);
      try reflexivity; try lia;
      try (change F32.emax with 128; change F32.prec with 24; lia).
    pose proof (shift_le _ _ (es - Z.min es (-24)) (-24 - Z.min es (-24)) (es + 149) 125
                  ltac:(lia) ltac:(lia) ltac:(lia) ltac:(lia) ltac:(lia) Hc') as H.
    replace (-19 + es + 168) with (es + 149) by lia.
    change (-20 + 168) with 148.
    change (2 ^ 148) with (8388608 * 2 ^ 125).
    rewrite <- Z.mul_assoc. apply Z.mul_le_mono_nonneg_l; [lia|exact H].
Qed.

Lemma min_samples_defined_witness :
  exists n, min_samples (ratio32 1 10) = Some n /\ 30 <= n <= 15 * 2 ^ 27.
Proof.
  apply (min_samples_defined (ratio32 1 10)); reflexivity.
Defined.

(** Below [2^-27] the quotient can leave the range of [int]: at
    [thresh = 2^-28] it is [15 * 2^28]. *)
Lemma min_samples_undefined_below :
  min_samples (S754_finite false 8388608 (-51)) = None.
Proof. reflexivity. Qed.

(** ** [calc_intensity_histogram] *)

Lemma calc_intensity_histogram_fold bad_pix db :
  calc_intensity_histogram bad_pix db =
  set_ihst db <$> fold_opt (intensity_update bad_pix db) (pixels (dsz db)) (ihst db).
Proof.
  unfold calc_intensity_histogram. cbv zeta.
  match goal with
  | |- (?a ≫= _) = _ =>
      assert (H : a = fold_opt (intensity_update bad_pix db) (pixels (dsz db)) (ihst db))
  end.
  { unfold pixels. rewrite fold_opt_concat_map, for_range_fold_opt.
    apply fold_opt_ext. intros z s.
    rewrite fold_opt_concat_map, for_range_fold_opt.
    apply fold_opt_ext. intros y s'.
    rewrite fold_opt_map, for_range_fold_opt.
    apply fold_opt_ext. intros x ih.
    unfold intensity_update, intensity_class.
    replace (1 * dim_x (dsz db) * dim_y (dsz db) * z + 1 * dim_x (dsz db) * y + 1 * x)
      with (dim_x (dsz db) * dim_y (dsz db) * z + dim_x (dsz db) * y + x) by lia.
    destruct (rd (gmap db) _) as [g|]; [|reflexivity]. simpl.
    destruct (F32.eqb g bad_pix); [reflexivity|].
    destruct (rd (data db) _) as [d|]; [|reflexivity]. simpl.
    destruct (data2hist d _ _ _) as [X|]; reflexivity. }
  rewrite H. destruct (fold_opt _ _ _); reflexivity.
Qed.

Lemma intensity_fold_counts bad_pix db order :
  intensity_in_range bad_pix db order ->
  forall (h : list float) (c0 : Z -> Z),
    dim_x (hsz db) <= Z.of_nat (length h) ->
    (forall x, 0 <= x < dim_x (hsz db) ->
       0 <= c0 x /\ rd h x = Some (saturated (c0 x))) ->
    exists h',
      fold_opt (intensity_update bad_pix db) order h = Some h' /\
      length h' = length h /\
      (forall x, 0 <= x < dim_x (hsz db) ->
         rd h' x = Some (saturated (c0 x + count_intensity bad_pix db order x))) /\
      (forall j, dim_x (hsz db) <= j -> rd h' j = rd h j).
Proof.
  unfold count_intensity.
  induction order as [|p order IH]; intros Hin h c0 Hlen Hh.
  - exists h. split; [reflexivity|]. split; [reflexivity|]. split; [|reflexivity].
    intros x Hx. simpl. rewrite Z.add_0_r. apply Hh; assumption.
  - destruct (Hin p) as (c & Hc & Hr); [left; reflexivity|].
    cbn [fold_opt].
    assert (E : intensity_update bad_pix db p h =
                match c with
                | None => Some h
                | Some X => v ← rd h X; wr h X (F32.add v F32.one)
                end) by (unfold intensity_update; rewrite Hc; reflexivity).
    rewrite E. clear E.
    assert (Hin' : intensity_in_range bad_pix db order).
    { intros q Hq. apply Hin. right. exact Hq. }
    destruct c as [X|].
    + pose proof (Hr X eq_refl) as HX.
      destruct (Hh X HX) as [Hc0 Hrd]. rewrite Hrd. bind_some.
      rewrite wr_Some by lia. bind_some.
      destruct (IH Hin' (<[Z.to_nat X := F32.add (saturated (c0 X)) F32.one]> h)
                  (fun x' => c0 x' + (if X =? x' then 1 else 0)))
        as (h' & Hrun & Hlen' & Hres & Hout).
      * rewrite length_insert. exact Hlen.
      * intros x' Hx'. destruct (Hh x' Hx') as [Hc0' Hrd'].
        destruct (Z.eqb_spec X x') as [->|Hne].
        -- split; [lia|]. rewrite rd_insert_eq by lia.
           rewrite saturated_succ by exact Hc0'. reflexivity.
        -- split; [lia|]. rewrite Z.add_0_r, rd_insert_ne; [exact Hrd'|lia|lia].
      * exists h'. split; [exact Hrun|].
        split; [rewrite Hlen', length_insert; reflexivity|]. split.
        -- intros x' Hx'. rewrite (Hres x' Hx').
           rewrite count_list_cons, Hc. simpl in_intensity_bin. do 2 f_equal. lia.
        -- intros j Hj. rewrite (Hout j Hj). apply rd_insert_ne; lia.
    + destruct (IH Hin' h c0 Hlen Hh) as (h' & Hrun & Hlen' & Hres & Hout).
      exists h'. split; [exact Hrun|]. split; [exact Hlen'|]. split; [|exact Hout].
      intros x' Hx'. rewrite (Hres x' Hx').
      rewrite count_list_cons, Hc. simpl in_intensity_bin. do 2 f_equal.
Qed.

(** X10.  When every pixel is readable and every non-masked pixel falls
    into one of the [hsz.x] bins, [calc_intensity_histogram] adds to each
    entry of [ihst] the number of non-masked pixels of its bin: an entry
    that held the count [c0 x] holds the count [c0 x] plus that number, as
    a binary32 counter that stays at [2^24].  Entries past the bins and
    the other fields are unchanged. *)
Theorem calc_intensity_histogram_counts bad_pix db (c0 : Z -> Z) :
  dim_x (hsz db) <= Z.of_nat (length (ihst db)) ->
  intensity_in_range bad_pix db (pixels (dsz db)) ->
  (forall x, 0 <= x < dim_x (hsz db) ->
     0 <= c0 x /\ rd (ihst db) x = Some (saturated (c0 x))) ->
  exists ih,
    calc_intensity_histogram bad_pix db = Some (set_ihst db ih) /\
    length ih = length (ihst db) /\
    (forall x, 0 <= x < dim_x (hsz db) ->
       rd ih x = Some (saturated
                         (c0 x + count_intensity bad_pix db (pixels (dsz db)) x))) /\
    (forall j, dim_x (hsz db) <= j -> rd ih j = rd (ihst db) j).
Proof.
  intros Hlen Hin Hh. rewrite calc_intensity_histogram_fold.
  destruct (intensity_fold_counts bad_pix db (pixels (dsz db)) Hin (ihst db) c0 Hlen Hh)
    as (h' & -> & Hrest).
  exists h'. split; [reflexivity|exact Hrest].
Qed.

Lemma calc_intensity_histogram_counts_witness :
  exists ih,
    calc_intensity_histogram F32.zero (db_flat 3) = Some (set_ihst (db_flat 3) ih) /\
    length ih = length (ihst (db_flat 3)) /\
    (forall x, 0 <= x < dim_x (hsz (db_flat 3)) ->
       rd ih x = Some (saturated
                         (1 + count_intensity F32.zero (db_flat 3)
                                (pixels (dsz (db_flat 3))) x))) /\
    (forall j, dim_x (hsz (db_flat 3)) <= j -> rd ih j = rd (ihst (db_flat 3)) j).
Proof.
  apply (calc_intensity_histogram_counts F32.zero (db_flat 3) (fun _ => 1)).
  - vm_compute. discriminate.
  - intros p Hp. exists (Some 0). vm_compute in Hp.
    destruct Hp as [<-|[<-|[<-|[]]]];
      (split; [vm_compute; reflexivity|]);
      intros X HX; injection HX as <-; vm_compute; (split; [discriminate|reflexivity]).
  - intros x Hx. split; [lia|].
    change (dim_x (hsz (db_flat 3))) with 2 in Hx.
    assert (Hc : x = 0 \/ x = 1) by lia.
    destruct Hc as [-> | ->]; reflexivity.
Defined.

(** ** The bin mapping on a range of one value *)

Lemma F32_sub_self a : F32.sub a a = S754_zero false \/ F32.sub a a = S754_nan.
Proof.
  destruct a as [[|]|[|]| |s m e]; try (left; reflexivity); try (right; reflexivity).
  left. unfold F32.sub, SFsub. rewrite Z.sub_diag. reflexivity.
Qed.

Lemma data2hist_same_bounds dval a nbins : data2hist dval a a nbins = None.
Proof.
  unfold data2hist.
  set (D := F32.sub (F32.of_int nbins) F32.one).
  set (X := F32.sub dval a).
  destruct (F32_sub_self a) as [-> | ->].
  - destruct D as [[|]|[|]| |[|] md ed], X as [[|]|[|]| |[|] mx ex]; reflexivity.
  - destruct D as [[|]|[|]| |[|] md ed], X as [[|]|[|]| |[|] mx ex]; reflexivity.
Qed.

(** X11.  When [m_max] equals [m_min] the bin width is zero or not a
    number, and [data2hist] converts an infinity or a NaN to [int]: it is
    undefined for every value and every number of bins. *)
Theorem data2hist_constant_range dval a nbins : data2hist dval a a nbins = None.
Proof.
  unfold data2hist.
  destruct (F32_sub_self a) as [-> | ->];
    destruct (F32.sub (F32.of_int nbins) F32.one) as [[|]|[|]| |[|] md ed];
    destruct (F32.sub dval a) as [[|]|[|]| |[|] mx ex]; reflexivity.
Qed.

Lemma fold_opt_each {A S} (f : A -> S -> option S) (P : A -> Prop) l s s' :
  (forall a s1 s2, In a l -> f a s1 = Some s2 -> s2 = s1 /\ P a) ->
  fold_opt f l s = Some s' -> s' = s /\ forall a, In a l -> P a.
Proof.
  revert s. induction l as [|a l IH]; intros s Hf Hrun.
  - simpl in Hrun. injection Hrun as <-. split; [reflexivity|]. intros a [].
  - simpl in Hrun. destruct (f a s) as [s1|] eqn:Ha; [|discriminate].
    destruct (Hf a s s1 ltac:(left; reflexivity) Ha) as [-> HP].
    simpl in Hrun. destruct (IH s) as [-> Hall]; [|exact Hrun|].
    + intros b s2 s3 Hb. apply Hf. right. exact Hb.
    + split; [reflexivity|]. intros b [<-|Hb]; [exact HP|apply Hall, Hb].
Qed.

Lemma pixels_In dsz z y x :
  0 <= z < dim_z dsz -> 0 <= y < dim_y dsz -> 0 <= x < dim_x dsz ->
  In (z, y, x) (pixels dsz).
Proof.
  intros Hz Hy Hx. unfold pixels.
  apply in_concat. eexists. split.
  { apply in_map_iff. exists z. split; [reflexivity|].
    apply list_elem_of_In, elem_of_seqZ. lia. }
  apply in_concat. eexists. split.
  { apply in_map_iff. exists y. split; [reflexivity|].
    apply list_elem_of_In, elem_of_seqZ. lia. }
  apply in_map_iff. exists x. split; [reflexivity|].
  apply list_elem_of_In, elem_of_seqZ. lia.
Qed.

(** X12.  On a range of one value ([dmax = dmin]) the bin of every pixel
    that is not masked is the conversion of an infinity or a NaN to [int],
    which is undefined.  So the behaviour of [calc_histogram] is defined
    ([Some] in the model: no undefined conversion and no access outside an
    array) only when every pixel of the volume is masked, and the database
    is then unchanged.  What a compiled program stores for an unmasked
    pixel on such a range is not fixed by the language. *)
Theorem calc_histogram_constant_range bad_pix db lmed axis db' :
  dmax db = dmin db ->
  calc_histogram bad_pix db lmed axis = Some db' ->
  db' = db /\
  forall z y x, 0 <= z < dim_z (dsz db) -> 0 <= y < dim_y (dsz db) ->
    0 <= x < dim_x (dsz db) ->
    exists g, rd (gmap db)
                (dim_x (dsz db) * dim_y (dsz db) * z + dim_x (dsz db) * y + x)
              = Some g /\ F32.eqb g bad_pix = true.
Proof.
  intros Heq Hrun. rewrite calc_histogram_accumulate in Hrun. unfold accumulate in Hrun.
  destruct (fold_opt _ _ _) as [h|] eqn:Hf; [|discriminate].
  simpl in Hrun. injection Hrun as <-.
  apply (fold_opt_each _
           (fun p => let '(z, y, x) := p in
              exists g, rd (gmap db)
                (dim_x (dsz db) * dim_y (dsz db) * z + dim_x (dsz db) * y + x)
                = Some g /\ F32.eqb g bad_pix = true)) in Hf.
  - destruct Hf as [-> Hall]. split; [apply set_hist_same|].
    intros z y x Hz Hy Hx. apply (Hall (z, y, x)). apply pixels_In; assumption.
  - intros [[z y] x] s1 s2 _ Hup. unfold pixel_update in Hup.
    replace (1 * dim_x (dsz db) * dim_y (dsz db) * z + 1 * dim_x (dsz db) * y + 1 * x)
      with (dim_x (dsz db) * dim_y (dsz db) * z + dim_x (dsz db) * y + x) in Hup by lia.
    destruct (rd (gmap db) _) as [g|]; [|discriminate]. simpl in Hup.
    destruct (F32.eqb g bad_pix) eqn:Hg.
    + injection Hup as <-. split; [reflexivity|]. exists g. split; [reflexivity|exact Hg].
    + exfalso. destruct (rd (data db) _) as [d|]; [|discriminate]. simpl in Hup.
      destruct (rd lmed _) as [m|]; [|discriminate]. simpl in Hup.
      rewrite Heq, !data2hist_same_bounds in Hup. discriminate.
Qed.

Lemma calc_histogram_constant_range_witness :
  db_constant = db_constant /\
  forall z y x, 0 <= z < dim_z (dsz db_constant) -> 0 <= y < dim_y (dsz db_constant) ->
    0 <= x < dim_x (dsz db_constant) ->
    exists g, rd (gmap db_constant)
                (dim_x (dsz db_constant) * dim_y (dsz db_constant) * z +
                 dim_x (dsz db_constant) * y + x)
              = Some g /\ F32.eqb g F32.one = true.
Proof.
  apply (calc_histogram_constant_range F32.one db_constant [] 0 db_constant);
    reflexivity.
Defined.

(** ** The round trip of bin 0 *)

Lemma F32_sub_self_finite a :
  SFis_finite a = true -> exists s, F32.sub a a = S754_zero s.
Proof.
  destruct a as [[|]|[|]| |s m e]; try discriminate; intros _.
  - exists false. reflexivity.
  - exists false. reflexivity.
  - exists false. unfold F32.sub, SFsub. rewrite Z.sub_diag. reflexivity.
Qed.

Lemma F32_add_zero_l s a :
  SFis_finite a = true ->
  F32.add (S754_zero s) a = a \/
  exists s1 s2, a = S754_zero s1 /\ F32.add (S754_zero s) a = S754_zero s2.
Proof.
  destruct a as [[|]|[|]| |s' m e]; try discriminate; intros _.
  - right. destruct s; eexists _, _; split; reflexivity.
  - right. destruct s; eexists _, _; split; reflexivity.
  - left. reflexivity.
Qed.

(** X13.  Whenever the bin width is a finite number other than zero and
    [m_min] is finite, the value [m_min] is in bin 0 and the round trip of
    bin 0 through [hist2data] and [data2hist] returns bin 0. *)
Theorem round_trip_bin_zero (m_min m_max : float) (nbins : Z) :
  SFis_finite m_min = true ->
  SFis_finite (bin_width m_min m_max nbins) = true ->
  F32.eqb (bin_width m_min m_max nbins) F32.zero = false ->
  data2hist m_min m_min m_max nbins = Some 0 /\
  data2hist (hist2data 0 m_min m_max nbins) m_min m_max nbins = Some 0.
Proof.
  intros Hmin Hfin Hnz. unfold data2hist, hist2data.
  fold (bin_width m_min m_max nbins).
  destruct (bin_width m_min m_max nbins) as [[|]|[|]| |sd md ed];
    try discriminate.
  destruct (F32_sub_self_finite m_min Hmin) as [s0 Hs0].
  split.
  - rewrite Hs0. reflexivity.
  - change (F32.mul (F32.of_int 0) (S754_finite sd md ed))
      with (S754_zero (xorb false sd)).
    destruct (F32_add_zero_l (xorb false sd) m_min Hmin)
      as [-> | (s1 & s2 & -> & ->)].
    + rewrite Hs0. reflexivity.
    + destruct s1, s2; reflexivity.
Qed.

Lemma round_trip_bin_zero_witness :
  data2hist (F32.of_int 0) (F32.of_int 0) (F32.of_int 1) 8 = Some 0 /\
  data2hist (hist2data 0 (F32.of_int 0) (F32.of_int 1) 8)
            (F32.of_int 0) (F32.of_int 1) 8 = Some 0.
Proof.
  apply (round_trip_bin_zero (F32.of_int 0) (F32.of_int 1) 8); reflexivity.
Defined.

(** ** [calc_cumulative_distribution]: the other slices *)

(** X15.  [calc_cumulative_distribution] on slice [axis] returns whenever
    the three arrays hold the slice, and changes nothing else: the entries
    of [hist] and [cumd] outside the slice, the entries of [cnts] outside
    its row, the lengths of the arrays and the one-dimensional histogram
    and thresholds are as before. *)
Theorem cumulative_distribution_other_slices db axis :
  0 <= axis -> 0 <= dim_x (hsz db) -> 0 <= dim_y (hsz db) ->
  dim_x (hsz db) * dim_y (hsz db) * (axis + 1) <= Z.of_nat (length (hist db)) ->
  dim_x (hsz db) * dim_y (hsz db) * (axis + 1) <= Z.of_nat (length (cumd db)) ->
  dim_x (hsz db) * (axis + 1) <= Z.of_nat (length (cnts db)) ->
  exists db',
    calc_cumulative_distribution db axis = Some db' /\
    length (hist db') = length (hist db) /\
    length (cumd db') = length (cumd db) /\
    length (cnts db') = length (cnts db) /\
    (forall j, j < dim_x (hsz db) * dim_y (hsz db) * axis \/
               dim_x (hsz db) * dim_y (hsz db) * (axis + 1) <= j ->
       rd (hist db') j = rd (hist db) j /\ rd (cumd db') j = rd (cumd db) j) /\
    (forall j, j < dim_x (hsz db) * axis \/ dim_x (hsz db) * (axis + 1) <= j ->
       rd (cnts db') j = rd (cnts db) j) /\
    ihst db' = ihst db /\ icmd db' = icmd db /\
    t1 db' = t1 db /\ t9 db' = t9 db /\ hsz db' = hsz db.
Proof.
  intros Haxis Hdx Hdy Hsh Hsc Hsn. unfold calc_cumulative_distribution.
  set (hs := hsz db) in *.
  set (R := fun (i : Z) (st : list float * list float * list float) =>
     let '(h, c, n) := st in
     length h = length (hist db) /\ length c = length (cumd db) /\
     length n = length (cnts db) /\
     (forall j, j < dim_x hs * dim_y hs * axis \/
                dim_x hs * dim_y hs * (axis + 1) <= j ->
        rd h j = rd (hist db) j /\ rd c j = rd (cumd db) j) /\
     (forall j, j < dim_x hs * axis \/ dim_x hs * (axis + 1) <= j ->
        rd n j = rd (cnts db) j)).
  destruct (for_range_inv R (cumulative_column hs axis) 0 (dim_x hs)
              (hist db, cumd db, cnts db)) as ([[h' c'] n'] & Hrun & Hr).
  - exact Hdx.
  - simpl. do 3 (split; [reflexivity|]). split; [intros; split; reflexivity|].
    intros; reflexivity.
  - intros i [[h c] n] Hi (Hlh & Hlc & Hln & Hout & Hcn).
    destruct (cumulative_column_spec hs axis i h c n (column_of h hs axis i))
      as (h1 & c1 & n1 & Hstep & [Hl1 Hoh] & [Hl2 Hoc] & Hln1 & Hon & _);
      try lia.
    { apply is_column_column_of; lia. }
    exists (h1, c1, n1). split; [exact Hstep|]. simpl.
    split; [congruence|]. split; [congruence|]. split; [congruence|]. split.
    + intros j Hj. destruct (Hout j Hj) as [<- <-].
      assert (Hne : forall y, 0 <= y < dim_y hs -> j <> hidx hs axis i y).
      { intros y Hy. pose proof (hidx_bound hs axis i y Haxis Hi Hy) as Hb.
        assert (dim_x hs * dim_y hs * axis <= hidx hs axis i y).
        { unfold hidx.
          assert (0 <= dim_x hs * y) by (apply Z.mul_nonneg_nonneg; lia). lia. }
        lia. }
      split; [apply Hoh, Hne|apply Hoc, Hne].
    + intros j Hj. rewrite <- (Hcn j Hj). apply Hon. lia.
  - rewrite Hrun. simpl. destruct Hr as (Hlh & Hlc & Hln & Hout & Hcn).
    eexists. split; [reflexivity|]. simpl.
    repeat (split; [assumption || reflexivity|]). reflexivity.
Qed.

Lemma cumulative_distribution_other_slices_witness :
  exists db',
    calc_cumulative_distribution db_counts 0 = Some db' /\
    length (hist db') = length (hist db_counts) /\
    length (cumd db') = length (cumd db_counts) /\
    length (cnts db') = length (cnts db_counts) /\
    (forall j, j < dim_x (hsz db_counts) * dim_y (hsz db_counts) * 0 \/
               dim_x (hsz db_counts) * dim_y (hsz db_counts) * (0 + 1) <= j ->
       rd (hist db') j = rd (hist db_counts) j /\
       rd (cumd db') j = rd (cumd db_counts) j) /\
    (forall j, j < dim_x (hsz db_counts) * 0 \/ dim_x (hsz db_counts) * (0 + 1) <= j ->
       rd (cnts db') j = rd (cnts db_counts) j) /\
    ihst db' = ihst db_counts /\ icmd db' = icmd db_counts /\
    t1 db' = t1 db_counts /\ t9 db' = t9 db_counts /\ hsz db' = hsz db_counts.
Proof.
  apply (cumulative_distribution_other_slices db_counts 0);
    vm_compute; discriminate.
Defined.

(** ** [apply_extrap_thresh]: the range of the result *)

(** A clamped value converts to [int]. *)
Lemma clamped_to_int k v :
  0 <= k <= 2 ^ 24 -> F32.valid v = true ->
  SFleb F32.zero v = true -> SFleb v (F32.of_int k) = true ->
  exists y, F32.to_int v = Some y.
Proof.
  intros Hk Hv H0 Hle.
  destruct (to_int_upper v 8388608 2) as (y & Hy & _); try assumption;
    try reflexivity; try lia.
  - apply (SFleb_trans _ (F32.of_int k)); [exact Hle|].
    destruct (F32_of_int_int_float k Hk) as [[_ ->]|(_ & M & E & -> & _ & HE & _)];
      [reflexivity|].
    unfold SFleb, SFcompare. change F32.prec with 24 in HE.
    destruct (Z.compare_spec E 2); try lia; reflexivity.
  - exists y. exact Hy.
Qed.

Section ExtrapRange.
Variable tanf : float -> float.

(** [apply_extrap_thresh] with any anchor column. *)
Lemma apply_extrap_thresh_spec db t thresh x0 theta axis mc t0 y0 :
  min_samples thresh = Some mc ->
  0 <= axis -> 0 <= x0 < dim_x (hsz db) ->
  1 <= dim_y (hsz db) <= 2 ^ 24 + 1 ->
  dim_x (hsz db) * (axis + 1) <= Z.of_nat (length t) ->
  dim_x (hsz db) * (axis + 1) <= Z.of_nat (length (cnts db)) ->
  rd t (dim_x (hsz db) * axis + x0) = Some t0 -> F32.to_int t0 = Some y0 ->
  F32.valid (tanf theta) = true ->
  exists t',
    apply_extrap_thresh tanf db t thresh x0 theta axis = Some t' /\
    length t' = length t /\
    (forall j, j < dim_x (hsz db) * axis \/ dim_x (hsz db) * (axis + 1) <= j ->
       rd t' j = rd t j) /\
    forall x, 0 <= x < dim_x (hsz db) ->
      exists c v v',
        rd (cnts db) (dim_x (hsz db) * axis + x) = Some c /\
        rd t (dim_x (hsz db) * axis + x) = Some v /\
        rd t' (dim_x (hsz db) * axis + x) = Some v' /\
        (F32.ltb c (F32.of_int mc) = false -> v' = v) /\
        (F32.ltb c (F32.of_int mc) = true ->
           F32.valid v' = true /\ SFleb F32.zero v' = true /\
           SFleb v' (F32.of_int (dim_y (hsz db) - 1)) = true).
Proof.
  intros Hmc Haxis Hx0 Hy Hlt Hlc Ht0 Hy0 Htan.
  unfold apply_extrap_thresh. rewrite Hmc. simpl.
  set (hs := hsz db) in *.
  set (T := fun x => dim_x hs * axis + x).
  set (top := F32.of_int (dim_y hs - 1)).
  assert (Htop : SFis_nan top = false /\ SFleb F32.zero top = true).
  { unfold top.
    destruct (F32_of_int_int_float (dim_y hs - 1) ltac:(lia))
      as [[_ ->]|(_ & M & E & -> & _)]; split; reflexivity. }
  assert (HTb : forall x, 0 <= x < dim_x hs -> 0 <= T x < dim_x hs * (axis + 1)).
  { intros x Hx. unfold T. nia. }
  set (res := fun (c v v' : float) =>
     (F32.ltb c (F32.of_int mc) = false -> v' = v) /\
     (F32.ltb c (F32.of_int mc) = true ->
        F32.valid v' = true /\ SFleb F32.zero v' = true /\ SFleb v' top = true)).
  set (P := fun (i : Z) (cur : list float) =>
     length cur = length t /\
     (forall j, j < dim_x hs * axis \/ dim_x hs * (axis + 1) <= j ->
        rd cur j = rd t j) /\
     (forall x, i <= x < dim_x hs -> rd cur (T x) = rd t (T x)) /\
     (forall x, 0 <= x < i ->
        exists c v v', rd (cnts db) (T x) = Some c /\ rd t (T x) = Some v /\
                       rd cur (T x) = Some v' /\ res c v v')).
  destruct (for_range_inv P (extrap_column tanf (cnts db) hs mc x0 theta axis)
              0 (dim_x hs) t) as (t' & Hrun & Hlen & Hout & _ & Hall).
  - lia.
  - split; [reflexivity|]. split; [reflexivity|]. split; [reflexivity|].
    intros x Hx. lia.
  - intros i cur Hi (Hlen & Hout & Htodo & Hdone).
    pose proof (HTb i Hi) as HTi.
    destruct (rd_Some (cnts db) (T i)) as [c Hc]; [lia|].
    destruct (rd_Some t (T i)) as [v Hv]; [lia|].
    assert (Hanchor : exists a y, rd cur (T x0) = Some a /\ F32.to_int a = Some y).
    { destruct (Z.lt_ge_cases x0 i) as [Hlt0|Hge0].
      - destruct (Hdone x0 ltac:(lia)) as (c' & v0 & a & Hc' & Hv0 & Ha & Hr0 & Hr1).
        unfold T in Hv0. rewrite Ht0 in Hv0. injection Hv0 as <-.
        destruct (F32.ltb c' (F32.of_int mc)) eqn:Hsig.
        + destruct (Hr1 eq_refl) as (Hva & Ha0 & Hat).
          destruct (clamped_to_int (dim_y hs - 1) a ltac:(lia) Hva Ha0 Hat) as [y Hy'].
          exists a, y. split; [exact Ha|exact Hy'].
        + rewrite (Hr0 eq_refl) in Ha. exists t0, y0. split; [exact Ha|exact Hy0].
      - exists t0, y0. split; [|exact Hy0]. rewrite Htodo by lia. exact Ht0. }
    destruct Hanchor as (a & y & Ha & Hya).
    rewrite (extrap_column_spec tanf (cnts db) hs mc x0 theta axis i cur a y c v);
      try assumption; try (fold (T i); lia).
    2:{ fold (T i). rewrite Htodo by lia. exact Hv. }
    eexists. split; [reflexivity|]. fold (T i). split; [|split; [|split]].
    + destruct (F32.ltb c (F32.of_int mc)); [rewrite length_insert|]; exact Hlen.
    + intros j Hj. rewrite <- Hout by exact Hj.
      destruct (F32.ltb c (F32.of_int mc)); [|reflexivity].
      apply rd_insert_ne; unfold T in *; lia.
    + intros x Hx. rewrite <- Htodo by lia.
      destruct (F32.ltb c (F32.of_int mc)); [|reflexivity].
      apply rd_insert_ne; [lia|unfold T; lia].
    + intros x Hx. destruct (decide (x = i)) as [->|Hne].
      * exists c, v. destruct (F32.ltb c (F32.of_int mc)) eqn:Hsig.
        -- eexists. split; [exact Hc|]. split; [exact Hv|].
           split; [apply rd_insert_eq; lia|].
           split; [intros Hf; rewrite Hsig in Hf; discriminate|]. intros _.
           rewrite clamp_bin_spec;
             [|apply line_through_valid; [exact Htan|apply F32_of_int_valid]|exact Hy].
           fold top. split.
           ++ apply float_fmax_valid; [|reflexivity].
              apply fmin_valid; [|apply F32_of_int_valid].
              apply line_through_valid; [exact Htan|apply F32_of_int_valid].
           ++ apply clamp_between_range; apply Htop.
        -- exists v. split; [exact Hc|]. split; [exact Hv|].
           split; [rewrite Htodo by lia; exact Hv|].
           split; [reflexivity|]. intros Hf. rewrite Hsig in Hf. discriminate.
      * destruct (Hdone x ltac:(lia)) as (c' & v0 & v' & Hc' & Hv0 & Hr & Hres).
        exists c', v0, v'. split; [exact Hc'|]. split; [exact Hv0|].
        split; [|exact Hres].
        rewrite <- Hr. destruct (F32.ltb c (F32.of_int mc)); [|reflexivity].
        apply rd_insert_ne; [lia|unfold T; lia].
  - exists t'. split; [exact Hrun|]. split; [exact Hlen|]. split; [exact Hout|].
    exact Hall.
Qed.

(** X16.  [apply_extrap_thresh] returns also when the anchor column [x0]
    is itself below [min_samples thresh]: every column with
    [cnts[x] < min_samples thresh] then holds a number between 0 and
    [hsz.y - 1], every other column of the row and every entry outside
    the row keeps its value. *)
Theorem apply_extrap_thresh_in_range db t thresh x0 theta axis mc t0 y0 :
  min_samples thresh = Some mc ->
  0 <= axis -> 0 <= x0 < dim_x (hsz db) ->
  1 <= dim_y (hsz db) <= 2 ^ 24 + 1 ->
  dim_x (hsz db) * (axis + 1) <= Z.of_nat (length t) ->
  dim_x (hsz db) * (axis + 1) <= Z.of_nat (length (cnts db)) ->
  rd t (dim_x (hsz db) * axis + x0) = Some t0 -> F32.to_int t0 = Some y0 ->
  F32.valid (tanf theta) = true ->
  exists t',
    apply_extrap_thresh tanf db t thresh x0 theta axis = Some t' /\
    length t' = length t /\
    (forall j, j < dim_x (hsz db) * axis \/ dim_x (hsz db) * (axis + 1) <= j ->
       rd t' j = rd t j) /\
    forall x, 0 <= x < dim_x (hsz db) ->
      exists c v v',
        rd (cnts db) (dim_x (hsz db) * axis + x) = Some c /\
        rd t (dim_x (hsz db) * axis + x) = Some v /\
        rd t' (dim_x (hsz db) * axis + x) = Some v' /\
        (F32.ltb c (F32.of_int mc) = false -> v' = v) /\
        (F32.ltb c (F32.of_int mc) = true ->
           F32.valid v' = true /\ SFleb F32.zero v' = true /\
           SFleb v' (F32.of_int (dim_y (hsz db) - 1)) = true).
Proof. exact (apply_extrap_thresh_spec db t thresh x0 theta axis mc t0 y0). Qed.
End ExtrapRange.

Lemma apply_extrap_thresh_in_range_witness :
  exists t',
    apply_extrap_thresh tan_ref db_extrap t_extrap (ratio32 1 2) 1 F32.zero 0
      = Some t' /\
    length t' = length t_extrap /\
    (forall j, j < dim_x (hsz db_extrap) * 0 \/
               dim_x (hsz db_extrap) * (0 + 1) <= j ->
       rd t' j = rd t_extrap j) /\
    forall x, 0 <= x < dim_x (hsz db_extrap) ->
      exists c v v',
        rd (cnts db_extrap) (dim_x (hsz db_extrap) * 0 + x) = Some c /\
        rd t_extrap (dim_x (hsz db_extrap) * 0 + x) = Some v /\
        rd t' (dim_x (hsz db_extrap) * 0 + x) = Some v' /\
        (F32.ltb c (F32.of_int 30) = false -> v' = v) /\
        (F32.ltb c (F32.of_int 30) = true ->
           F32.valid v' = true /\ SFleb F32.zero v' = true /\
           SFleb v' (F32.of_int (dim_y (hsz db_extrap) - 1)) = true).
Proof.
  apply (apply_extrap_thresh_in_range tan_ref db_extrap t_extrap (ratio32 1 2)
           1 F32.zero 0 30 F32.zero 0);
    first [vm_compute; reflexivity | simpl; lia
          | vm_compute; split; discriminate].
Defined.

(** ** The sweep of [median_extrapolation] ends *)

Section RoundingOrder.
Variables prec emax : Z.
Hypothesis Hprec : 1 < prec.

(** Rounding a number to the format is monotone. *)
Lemma binary_round_mono m e m' e' :
  Z.pos m * 2 ^ (e - Z.min e e') <= Z.pos m' * 2 ^ (e' - Z.min e e') ->
  SFleb (binary_round prec emax false m e) (binary_round prec emax false m' e') = true.
Proof.
  intros Hle.
  change (binary_round prec emax false m e)
    with (binary_normalize prec emax (Z.pos m) e false).
  change (binary_round prec emax false m' e')
    with (binary_normalize prec emax (Z.pos m') e' false).
  destruct (normalize_state prec emax Hprec m e)
    as (mz & ez & e1 & Hez & He1 & Hmz & -> & Hs).
  destruct (normalize_state prec emax Hprec m' e')
    as (mz' & ez' & e1' & Hez' & He1' & Hmz' & -> & Hs').
  assert (Hpow : forall k, 0 <= k -> 0 < 2 ^ k) by (intros; apply Z.pow_pos_nonneg; lia).
  apply (states_leb prec emax Hprec); try assumption; try lia;
    try (apply Z.mul_pos_pos; [lia|apply Hpow; lia]).
  rewrite Hmz, Hmz'. set (c := Z.min e1 e1').
  transitivity (Z.pos m * 2 ^ ((e - ez) + (e1' - ez') + (e1 - c))).
  { apply Z.eq_le_incl. rewrite !Z.pow_add_r by (unfold c; lia). ring. }
  transitivity (Z.pos m' * 2 ^ ((e' - ez') + (e1 - ez) + (e1' - c))).
  2:{ apply Z.eq_le_incl. rewrite !Z.pow_add_r by (unfold c; lia). ring. }
  apply (shift_le _ _ (e - Z.min e e') (e' - Z.min e e')); unfold c; lia.
Qed.

(** A sum against a number [g] of the format: it is at least [g] when
    the exact sum is. *)
Lemma SFadd_ge_canonical mg eg mc ec mh eh b :
  canonical prec emax mg eg -> eg <= emax - prec ->
  b <= eg -> b <= ec -> b <= eh ->
  Z.pos mg * 2 ^ (eg - b) <= Z.pos mc * 2 ^ (ec - b) + Z.pos mh * 2 ^ (eh - b) ->
  SFleb (S754_finite false mg eg)
        (SFadd prec emax (S754_finite false mc ec) (S754_finite false mh eh)) = true.
Proof.
  intros Hc He Hbg Hbc Hbh Hle.
  destruct (SFadd_state prec emax Hprec mc ec mh eh)
    as (mz & ez & e1 & Hez & He1 & Hmz & -> & Hs).
  destruct (canonical_finalized prec emax Hprec mg eg Hc He) as [-> Hsg].
  assert (Hpow : forall k, 0 <= k -> 0 < 2 ^ k) by (intros; apply Z.pow_pos_nonneg; lia).
  apply (states_leb prec emax Hprec); try assumption; try lia;
    try (apply Z.mul_pos_pos; [lia|apply Hpow; lia]).
  set (e0 := Z.min ec eh) in *. set (c := Z.min eg e1).
  set (S0 := Z.pos mc * 2 ^ (ec - e0) + Z.pos mh * 2 ^ (eh - e0)) in *.
  assert (HS0 : Z.pos mc * 2 ^ (ec - b) + Z.pos mh * 2 ^ (eh - b) = S0 * 2 ^ (e0 - b)).
  { unfold S0. rewrite Z.mul_add_distr_r, <- !Z.mul_assoc, <- !Z.pow_add_r
      by (unfold e0; lia).
    do 2 f_equal; f_equal; lia. }
  rewrite HS0 in Hle. rewrite Hmz.
  transitivity (Z.pos mg * 2 ^ ((e1 - ez) + (eg - c))).
  { apply Z.eq_le_incl. rewrite !Z.pow_add_r by (unfold c; lia). ring. }
  transitivity (S0 * 2 ^ ((e0 - ez) + (e1 - c))).
  2:{ apply Z.eq_le_incl. rewrite !Z.pow_add_r by (unfold c; lia). ring. }
  apply (shift_le _ _ (eg - b) (e0 - b)); unfold c, e0 in *; lia.
Qed.
End RoundingOrder.

(** The next binary32 number above a positive one below 2. *)
Lemma F32_succ m e :
  F32.valid (S754_finite false m e) = true -> e <= -23 ->
  exists m' e',
    F32.valid (S754_finite false m' e') = true /\
    SFltb (S754_finite false m e) (S754_finite false m' e') = true /\
    e <= e' /\ Z.pos m' * 2 ^ (e' - e) = Z.pos m + 1.
Proof.
  intros Hv He.
  pose proof (F32_valid_canonical _ _ _ Hv) as Hc.
  pose proof (F32_valid_emin _ _ _ Hv) as Hmin.
  pose proof (canonical_digits F32.prec F32.emax m e Hc) as Hd.
  pose proof (digits2_pos_bounds m) as [Hl Hu].
  change F32.prec with 24 in Hd.
  assert (Hm : Z.pos m < 2 ^ 24).
  { assert (2 ^ Z.pos (digits2_pos m) <= 2 ^ 24) by (apply Z.pow_le_mono_r; lia). lia. }
  assert (Hvalid : forall m' e', canonical F32.prec F32.emax m' e' -> e' <= 104 ->
            F32.valid (S754_finite false m' e') = true).
  { intros m' e' Hc' Hb. unfold F32.valid, valid_binary, bounded.
    apply andb_true_iff. split; [apply canonical_iff, Hc'|].
    apply Z.leb_le. change F32.emax with 128. change F32.prec with 24. lia. }
  destruct (Z.lt_ge_cases (Z.pos m + 1) (2 ^ 24)) as [Hs|Hs].
  - exists (Pos.succ m), e. split; [|split; [|split; [lia|]]].
    + apply Hvalid; [|lia].
      pose proof (digits2_pos_bounds (Pos.succ m)) as [Hl' Hu'].
      rewrite Pos2Z.inj_succ in Hl', Hu'.
      set (d' := Z.pos (digits2_pos (Pos.succ m))) in *.
      assert (Hd' : d' <= 24).
      { destruct (Z.le_gt_cases d' 24) as [H|H]; [exact H|].
        assert (2 ^ 24 <= 2 ^ (d' - 1)) by (apply Z.pow_le_mono_r; lia). lia. }
      unfold canonical, fexp, emin. fold d'.
      change F32.prec with 24. change F32.emax with 128.
      destruct (Z.eq_dec e (-149)) as [->|Hne]; [lia|].
      assert (Hn : Z.pos (digits2_pos m) = 24).
      { apply (canonical_normal F32.prec F32.emax m e Hc).
        unfold emin. change F32.prec with 24. change F32.emax with 128. lia. }
      rewrite Hn in Hl.
      assert (23 < d').
      { destruct (Z.le_gt_cases d' 23) as [H|H]; [|lia].
        assert (2 ^ d' <= 2 ^ 23) by (apply Z.pow_le_mono_r; unfold d'; lia).
        change (24 - 1) with 23 in Hl. lia. }
      lia.
    + unfold SFltb, SFcompare. rewrite Z.compare_refl.
      change (Pos.compare_cont Eq m (Pos.succ m)) with (Pos.compare m (Pos.succ m)).
      rewrite (proj2 (Pos.compare_lt_iff m (Pos.succ m))) by lia. reflexivity.
    + rewrite Z.sub_diag, Z.mul_1_r. lia.
  - exists 8388608%positive, (e + 1). split; [|split; [|split; [lia|]]].
    + apply Hvalid; [|lia]. unfold canonical, fexp, emin.
      change (Z.pos (digits2_pos 8388608)) with 24.
      change F32.prec with 24. change F32.emax with 128. lia.
    + unfold SFltb, SFcompare.
      rewrite (proj2 (Z.compare_lt_iff e (e + 1))) by lia. reflexivity.
    + replace (e + 1 - e) with 1 by lia. change (2 ^ 24) with 16777216 in *. lia.
Qed.

Lemma F64_div_valid ma ea ms es :
  valid_binary F64.prec F64.emax
    (F64.div (S754_finite false ma ea) (S754_finite false ms es)) = true.
Proof.
  unfold F64.div.
  destruct (SFdiv_state F64.prec F64.emax F64_prec ma ea ms es)
    as (e0 & e1 & He0 & He1 & -> & Hs).
  apply finalized_valid; [exact F64_prec|].
  apply pre_state_rounded; [exact F64_prec| |exact Hs].
  apply Z.mul_pos_pos; [lia|apply Z.pow_pos_nonneg; lia].
Qed.

(** The step of the sweep is at least [2^-23] when there are at most
    [2^24] bins; with no bin at all it is infinite. *)
Lemma step_lower n :
  0 <= n <= 2 ^ 24 ->
  SFleb step_min (F64.div F64.M_PI (F64.of_int n)) = true /\
  valid_binary F64.prec F64.emax (F64.div F64.M_PI (F64.of_int n)) = true.
Proof.
  intros Hn.
  assert (Hi : int_float F64.prec F64.emax n (F64.of_int n)).
  { apply (Zfloat_int_float F64.prec F64.emax); try f64.
    change F64.prec with 53. split; [lia|].
    transitivity (2 ^ 24); [lia|]. apply Z.pow_le_mono_r; lia. }
  destruct Hi as [[_ ->]|(_ & M & E & -> & Hc & HE & Hv)]; [split; reflexivity|].
  change F64.prec with 53 in HE, Hv.
  split; [|apply F64_div_valid].
  unfold F64.div, F64.M_PI, step_min.
  apply (SFdiv_ge_canonical F64.prec F64.emax F64_prec
           4503599627370496 (-75) 7074237752028440 (-51) M E 128);
    try reflexivity; try lia;
    try (change F64.emax with 1024; change F64.prec with 53; lia).
  replace (-75 + E + 128) with (E + 53) by lia.
  change (-51 + 128) with 77.
  rewrite <- Z.mul_assoc, Hv.
  change (2 ^ 24) with 16777216 in Hn.
  change (2 ^ 53) with 9007199254740992. change (2 ^ 77) with 151115727451828646838272.
  lia.
Qed.

Lemma F64_valid_canonical m e :
  valid_binary F64.prec F64.emax (S754_finite false m e) = true ->
  canonical F64.prec F64.emax m e.
Proof.
  unfold valid_binary, bounded. intros H.
  apply andb_true_iff in H as [H _]. apply canonical_iff in H. exact H.
Qed.

(** The conversion of a positive binary64 number to binary32. *)
Lemma to_float_positive md ed :
  partial_sum_ok (F64.to_float (S754_finite false md ed)) \/
  F64.to_float (S754_finite false md ed) = S754_zero false.
Proof.
  unfold F64.to_float.
  pose proof (binary_round_valid F32.prec F32.emax F32_prec false md ed) as Hv.
  assert (Hs : match binary_round F32.prec F32.emax false md ed with
               | S754_zero false | S754_infinity false | S754_finite false _ _ => True
               | _ => False
               end).
  { change (binary_round F32.prec F32.emax false md ed)
      with (binary_normalize F32.prec F32.emax (Z.pos md) ed false).
    destruct (normalize_state F32.prec F32.emax F32_prec md ed)
      as (mz & ez & e1 & _ & _ & _ & -> & _).
    apply finalized_shape. }
  destruct (binary_round F32.prec F32.emax false md ed) as [[|]|[|]| |[|] m e];
    try contradiction; try (left; exact I); try (right; reflexivity).
  left. exact Hv.
Qed.

Lemma below_two m e :
  F32.valid (S754_finite false m e) = true ->
  SFltb (S754_finite false m e) two32 = true -> e <= -23.
Proof.
  intros Hv Hlt. pose proof (F32_valid_canonical _ _ _ Hv) as Hc.
  unfold SFltb, two32, SFcompare in Hlt.
  destruct (Z.compare_spec e (-22)) as [Heq|H|H]; try discriminate; try lia.
  exfalso.
  destruct (Pos.compare_cont Eq m 8388608) eqn:Hcmp; try discriminate.
  assert (Hm : Z.pos m < 8388608) by (apply Pos2Z.pos_lt_pos; exact Hcmp).
  clear Hlt Hcmp Hv.
  assert (Hn : Z.pos (digits2_pos m) = 24).
  { apply (canonical_normal F32.prec F32.emax m e Hc).
    unfold emin. change F32.prec with 24. change F32.emax with 128. lia. }
  pose proof (digits2_pos_bounds m) as [Hl _]. rewrite Hn in Hl.
  change (2 ^ (24 - 1)) with 8388608 in Hl. clear Hc Hn. lia.
Qed.

(** Each step of the sweep moves to a larger angle. *)
Lemma next_theta_gt hsz theta :
  0 <= dim_x hsz + dim_y hsz <= 2 ^ 24 ->
  partial_sum_ok theta -> SFltb theta two32 = true ->
  partial_sum_ok (next_theta hsz theta) /\
  SFltb theta (next_theta hsz theta) = true.
Proof.
  intros Hn Hok Hlt. unfold next_theta.
  destruct (step_lower (dim_x hsz + dim_y hsz) Hn) as [Hstep Hvs].
  destruct (F64.div F64.M_PI (F64.of_int (dim_x hsz + dim_y hsz)))
    as [[|]|[|]| |[|] ms es]; try discriminate Hstep.
  { (* an infinite step *)
    destruct theta as [[|]|[|]| |[|] m e]; cbn [partial_sum_ok] in Hok;
      try tauto; try discriminate Hlt;
      try (split; [exact I|reflexivity]).
    destruct (of_float_finite false m e Hok) as (M & E & HM & _).
    rewrite (HM false). split; [exact I|reflexivity]. }
  pose proof (F64_valid_canonical ms es Hvs) as Hcs.
  pose proof (SFleb_canonical F64.prec F64.emax F64_prec
                4503599627370496 (-75) ms es ltac:(reflexivity) Hcs Hstep) as Hsv.
  destruct theta as [[|]|[|]| |[|] m e]; cbn [partial_sum_ok] in Hok;
    try tauto; try discriminate Hlt.
  - (* from 0 *)
    change (F64.add (F64.of_float (S754_zero false)) (S754_finite false ms es))
      with (S754_finite false ms es).
    assert (Hle : SFleb (S754_finite false 8388608 (-46))
                    (F64.to_float (S754_finite false ms es)) = true).
    { change (S754_finite false 8388608 (-46))
        with (binary_round F32.prec F32.emax false 4503599627370496 (-75)).
      unfold F64.to_float. apply binary_round_mono; [exact F32_prec|exact Hsv]. }
    destruct (to_float_positive ms es) as [Hp|Hz].
    + split; [exact Hp|].
      destruct (F64.to_float (S754_finite false ms es)) as [[|]|[|]| |[|] mr er];
        cbn [partial_sum_ok] in Hp; try tauto; try discriminate Hle; reflexivity.
    + rewrite Hz in Hle. discriminate Hle.
  - (* from a positive angle *)
    pose proof (below_two m e Hok Hlt) as He.
    destruct (F32_succ m e Hok He) as (m' & e' & Hv' & Hlt' & Hee & Hval).
    destruct (of_float_finite false m e Hok) as (M & E & HM & HcM & HbM & HE & HMv).
    destruct (of_float_finite false m' e' Hv') as (M' & E' & HM' & HcM' & HbM' & HE' & HMv').
    rewrite (HM false).
    assert (Hsum : SFleb (S754_finite false M' E')
                     (F64.add (S754_finite false M E) (S754_finite false ms es)) = true).
    { set (b := Z.min (Z.min E' E) (Z.min es (-75))).
      unfold F64.add.
      apply (SFadd_ge_canonical F64.prec F64.emax F64_prec M' E' M E ms es b);
        try assumption; try (unfold b; lia).
      rewrite HMv, HMv', <- !Z.mul_assoc, <- !Z.pow_add_r by (unfold b; lia).
      replace (e' - E' + (E' - b)) with ((e' - e) + (e - b)) by lia.
      replace (e - E + (E - b)) with (e - b) by lia.
      rewrite Z.pow_add_r, Z.mul_assoc, Hval by (unfold b; lia).
      assert (Hs' : 4503599627370496 * 2 ^ (-75 - b) <= Z.pos ms * 2 ^ (es - b)).
      { apply (shift_le _ _ (-75 - Z.min (-75) es) (es - Z.min (-75) es));
          unfold b; first [lia | exact Hsv]. }
      assert (Hp : 2 ^ (e - b) <= 4503599627370496 * 2 ^ (-75 - b)).
      { change 4503599627370496 with (2 ^ 52).
        rewrite <- Z.pow_add_r by (unfold b; lia).
        apply Z.pow_le_mono_r; unfold b; lia. }
      lia. }
    pose proof (SFadd_valid F64.prec F64.emax F64_prec M E ms es) as [Hvd _].
    pose proof (SFadd_shape F64.prec F64.emax F64_prec M E ms es) as Hshape.
    fold (F64.add (S754_finite false M E) (S754_finite false ms es)) in Hvd, Hshape.
    assert (Hsucc : F64.to_float (S754_finite false M' E') = S754_finite false m' e').
    { rewrite <- (HM' false). apply to_float_of_float, Hv'. }
    destruct (F64.add (S754_finite false M E) (S754_finite false ms es))
      as [[|]|[|]| |[|] md ed]; try contradiction; try discriminate Hsum.
    + split; [exact I|reflexivity].
    + pose proof (F64_valid_canonical md ed Hvd) as Hcd.
      pose proof (SFleb_canonical F64.prec F64.emax F64_prec M' E' md ed HcM' Hcd Hsum)
        as Hdv.
      assert (Hle : SFleb (S754_finite false m' e')
                      (F64.to_float (S754_finite false md ed)) = true).
      { rewrite <- Hsucc. unfold F64.to_float.
        apply binary_round_mono; [exact F32_prec|exact Hdv]. }
      destruct (to_float_positive md ed) as [Hp|Hz].
      * split; [exact Hp|]. eapply SFltb_leb_trans; eassumption.
      * rewrite Hz in Hle. discriminate Hle.
Qed.

Lemma partial_sum_ok_valid c : partial_sum_ok c -> F32.valid c = true.
Proof.
  destruct c as [[|]|[|]| |[|] m e]; cbn [partial_sum_ok]; try tauto;
    intros _; reflexivity.
Qed.

Lemma angle_rank_lt a b :
  partial_sum_ok a -> partial_sum_ok b -> SFltb a b = true ->
  angle_rank a < angle_rank b.
Proof.
  intros Ha Hb Hlt.
  assert (Hfin : forall m e, F32.valid (S754_finite false m e) = true ->
            -149 <= e <= 104 /\ Z.pos m < 2 ^ 24).
  { intros m e Hv. pose proof (F32_valid_emin _ _ _ Hv).
    pose proof (F32_valid_bounded _ _ _ Hv) as Hbd.
    change F32.emax with 128 in Hbd. change F32.prec with 24 in Hbd.
    pose proof (canonical_digits F32.prec F32.emax m e (F32_valid_canonical _ _ _ Hv)) as Hd.
    change F32.prec with 24 in Hd.
    pose proof (digits2_pos_bounds m) as [_ Hu].
    assert (2 ^ Z.pos (digits2_pos m) <= 2 ^ 24) by (apply Z.pow_le_mono_r; lia).
    lia. }
  destruct a as [[|]|[|]| |[|] ma ea]; cbn [partial_sum_ok] in Ha; try tauto;
    destruct b as [[|]|[|]| |[|] mb eb]; cbn [partial_sum_ok] in Hb; try tauto;
    try discriminate Hlt; cbn [angle_rank];
    change (2 ^ 40) with 1099511627776; change (2 ^ 24) with 16777216 in *.
  all: try (destruct (Hfin ma ea Ha)); try (destruct (Hfin mb eb Hb)); try lia.
  unfold SFltb, SFcompare in Hlt.
  destruct (Z.compare_spec ea eb) as [->|H'|H']; try discriminate; [|nia].
  change (Pos.compare_cont Eq ma mb) with (Pos.compare ma mb) in Hlt.
  destruct (Pos.compare_spec ma mb); try discriminate. lia.
Qed.

Lemma in_sweep_below_two theta :
  F32.valid theta = true -> in_sweep theta = true -> SFltb theta two32 = true.
Proof.
  intros Hv Hin. unfold in_sweep, F64.ltb in Hin.
  rewrite <- (of_float_ltb theta two32 Hv eq_refl).
  apply (SFltb_leb_trans _ (F64.div F64.M_PI (F64.of_int 2))); [exact Hin|].
  vm_compute. reflexivity.
Qed.

Lemma sweep_ends hsz :
  0 <= dim_x hsz + dim_y hsz <= 2 ^ 24 ->
  forall fuel theta,
    partial_sum_ok theta ->
    Z.max 0 (angle_rank two32 - angle_rank theta) + 1 <= Z.of_nat fuel ->
    exists thetas, sweep_angles fuel hsz theta = Some thetas.
Proof.
  intros Hn. induction fuel as [|fuel IH]; intros theta Hok Hf; [lia|].
  cbn [sweep_angles]. destruct (in_sweep theta) eqn:Hin; [|exists []; reflexivity].
  pose proof (in_sweep_below_two theta (partial_sum_ok_valid theta Hok) Hin) as Hlt.
  destruct (next_theta_gt hsz theta Hn Hok Hlt) as [Hok' Hgt].
  pose proof (angle_rank_lt theta (next_theta hsz theta) Hok Hok' Hgt) as Hr.
  pose proof (angle_rank_lt theta two32 Hok eq_refl Hlt) as Hr2.
  destruct (IH (next_theta hsz theta) Hok') as [l Hl]; [lia|].
  rewrite Hl. exists (theta :: l). reflexivity.
Qed.

Lemma sweep_fuel_enough :
  Z.max 0 (angle_rank two32 - angle_rank F32.zero) + 1 <= Z.of_nat sweep_fuel.
Proof.
  unfold sweep_fuel. rewrite Z2Nat.id by (apply Z.pow_nonneg; lia).
  vm_compute. discriminate.
Qed.

(** The sweep ends, so [median_extrapolation] returns the first angle of
    the sweep at which the share is reached. *)
Lemma median_extrapolation_total (tanf : float -> float) db t thresh
    x0 axis mc t0 y0 :
  min_samples thresh = Some mc ->
  0 <= dim_x (hsz db) <= 2 ^ 24 ->
  0 <= dim_x (hsz db) + dim_y (hsz db) <= 2 ^ 24 ->
  0 <= dim_x (tsz db) * axis ->
  dim_x (tsz db) * axis + dim_x (hsz db) <= Z.of_nat (length t) ->
  dim_x (tsz db) * axis + dim_x (hsz db) <= Z.of_nat (length (cnts db)) ->
  rd t (dim_x (tsz db) * axis + x0) = Some t0 -> F32.to_int t0 = Some y0 ->
  exists thetas,
    sweep_angles sweep_fuel (hsz db) F32.zero = Some thetas /\
    median_extrapolation tanf sweep_fuel db t thresh x0 axis =
      Some (first_angle (share_reached tanf db t mc x0 (F32.of_int y0) axis) thetas).
Proof.
  intros Hmc Hx Hn Hax Hlt Hlc Ht0 Hy0.
  destruct (sweep_ends (hsz db) Hn sweep_fuel F32.zero I sweep_fuel_enough)
    as [thetas Hs].
  exists thetas. split; [exact Hs|].
  unfold median_extrapolation. rewrite Hmc.
  change (Some mc ≫= ?f) with (f mc). cbv beta.
  apply (median_sweep_first_angle tanf sweep_fuel db t mc x0 axis t0 y0
           Hx Hax Hlt Hlc Ht0 Hy0 F32.zero thetas Hs).
Qed.

(** X17.  The sweep of [median_extrapolation] ends: with 1 to [2^23] bins
    in [hsz.x + hsz.y] every step moves [theta] to a larger binary32
    number, so the loop is left after fewer than [2^32] angles, and with
    readable arrays and an anchor that converts to [int] the function
    returns, either 0 or one of the angles of the sweep. *)
Theorem median_extrapolation_returns (tanf : float -> float) db t thresh
    x0 axis mc t0 y0 :
  min_samples thresh = Some mc ->
  0 <= dim_x (hsz db) <= 2 ^ 24 ->
  1 <= dim_x (hsz db) + dim_y (hsz db) <= 2 ^ 23 ->
  0 <= dim_x (tsz db) * axis ->
  dim_x (tsz db) * axis + dim_x (hsz db) <= Z.of_nat (length t) ->
  dim_x (tsz db) * axis + dim_x (hsz db) <= Z.of_nat (length (cnts db)) ->
  rd t (dim_x (tsz db) * axis + x0) = Some t0 -> F32.to_int t0 = Some y0 ->
  exists thetas theta,
    sweep_angles sweep_fuel (hsz db) F32.zero = Some thetas /\
    median_extrapolation tanf sweep_fuel db t thresh x0 axis = Some theta /\
    (theta = F32.zero \/ In theta thetas).
Proof.
  intros Hmc Hx Hn Hax Hlt Hlc Ht0 Hy0.
  destruct (median_extrapolation_total tanf db t thresh x0 axis mc t0 y0
              Hmc Hx ltac:(change (2 ^ 23) with 8388608 in Hn;
                           change (2 ^ 24) with 16777216; lia)
              Hax Hlt Hlc Ht0 Hy0) as (thetas & Hs & Hrun).
  exists thetas. eexists. split; [exact Hs|]. split; [exact Hrun|].
  generalize (share_reached tanf db t mc x0 (F32.of_int y0) axis). intros reached.
  clear. induction thetas as [|th l IH]; [left; reflexivity|].
  simpl. destruct (reached th); [right; left; reflexivity|].
  destruct IH as [IH|IH]; [left; exact IH|right; right; exact IH].
Qed.

Lemma median_extrapolation_returns_witness :
  exists thetas theta,
    sweep_angles sweep_fuel (hsz db_median) F32.zero = Some thetas /\
    median_extrapolation tan_ref sweep_fuel db_median t_median (ratio32 1 2) 0 0
      = Some theta /\
    (theta = F32.zero \/ In theta thetas).
Proof.
  apply (median_extrapolation_returns tan_ref db_median t_median (ratio32 1 2)
           0 0 30 (ratio32 1 2) 0);
    first [vm_compute; reflexivity | simpl; lia
          | vm_compute; split; discriminate].
Defined.

(** ** [calc_thresh]: the whole threshold pass *)

Lemma calc_exact_thresh_fields db tmin tmax axis db' :
  calc_exact_thresh db tmin tmax axis = Some db' ->
  hist db' = hist db /\ cumd db' = cumd db /\ cnts db' = cnts db /\
  hsz db' = hsz db /\ tsz db' = tsz db.
Proof.
  unfold calc_exact_thresh. intros H.
  destruct (for_range _ _ _ _) as [[a b]|]; [|discriminate].
  simpl in H. injection H as <-. repeat split.
Qed.

Lemma to_int_of_int k :
  -1 <= k <= 2 ^ 24 -> F32.to_int (F32.of_int k) = Some k.
Proof.
  intros Hk. destruct (Z.eq_dec k (-1)) as [->|Hne]; [reflexivity|].
  unfold F32.to_int. rewrite SFtrunc_nonneg.
  - apply (F32_floor_of_int k). lia.
  - destruct (F32_of_int_int_float k ltac:(lia)) as [[_ ->]|(_ & M & E & -> & _)];
      reflexivity.
Qed.

Lemma length_column_of a hsz axis x :
  0 <= dim_y hsz -> Z.of_nat (length (column_of a hsz axis x)) = dim_y hsz.
Proof. intros H. unfold column_of. rewrite length_fmap, length_seqZ. lia. Qed.

Lemma lower_bin_bounds tmin col x :
  0 <= x -> -1 <= lower_bin tmin col x <= Z.max x (Z.of_nat (length col)).
Proof.
  intros Hx. unfold lower_bin.
  destruct (first_above tmin col 0) as [y|] eqn:Hy; [|lia].
  apply first_above_bounds in Hy. lia.
Qed.

Lemma upper_bin_bounds tmin tmax col x :
  0 <= x -> 0 <= upper_bin tmin tmax col x <= Z.max x (Z.of_nat (length col)).
Proof.
  intros Hx. unfold upper_bin.
  destruct (first_above tmin col 0) as [y|] eqn:Hy; [|lia].
  apply first_above_bounds in Hy.
  destruct (first_above tmax (drop (Z.to_nat y) col) y) as [Y|] eqn:HY; [|lia].
  apply first_above_bounds in HY. rewrite length_drop in HY. lia.
Qed.

(** X18.  [calc_thresh] returns on well-formed input: with [tan] giving
    values of the format, both [min_samples] defined, at least one
    column and one value bin, at most [2^23] bins in [hsz.x + hsz.y], the
    arrays holding slice [axis] and counts that are not negative, the
    exact pass, the search of the centre, both sweeps and both
    extrapolations are defined.  Afterwards a column whose count reaches
    [min_samples] holds its exact threshold, and a column below it holds a
    number between 0 and [hsz.y - 1]; [hist], [cumd] and [cnts] are
    unchanged. *)
Theorem calc_thresh_returns (tanf : float -> float) db tmin tmax axis mc9 mc1 :
  (forall theta, F32.valid (tanf theta) = true) ->
  min_samples tmin = Some mc9 -> min_samples tmax = Some mc1 ->
  0 <= axis -> 1 <= dim_x (hsz db) -> 1 <= dim_y (hsz db) ->
  dim_x (hsz db) + dim_y (hsz db) <= 2 ^ 23 ->
  dim_x (tsz db) = dim_x (hsz db) ->
  dim_x (hsz db) * dim_y (hsz db) * (axis + 1) <= Z.of_nat (length (cumd db)) ->
  dim_x (hsz db) * (axis + 1) <= Z.of_nat (length (t1 db)) ->
  dim_x (hsz db) * (axis + 1) <= Z.of_nat (length (t9 db)) ->
  dim_x (hsz db) * (axis + 1) <= Z.of_nat (length (cnts db)) ->
  (forall X c, 0 <= X < dim_x (hsz db) ->
     rd (cnts db) (dim_x (hsz db) * axis + X) = Some c ->
     SFleb F32.zero c = true) ->
  exists db',
    calc_thresh tanf sweep_fuel db tmin tmax axis = Some db' /\
    length (t1 db') = length (t1 db) /\ length (t9 db') = length (t9 db) /\
    hist db' = hist db /\ cumd db' = cumd db /\ cnts db' = cnts db /\
    forall x, 0 <= x < dim_x (hsz db) ->
      let col := column_of (cumd db) (hsz db) axis x in
      let top := F32.of_int (dim_y (hsz db) - 1) in
      exists c v9 v1,
        rd (cnts db) (dim_x (hsz db) * axis + x) = Some c /\
        rd (t9 db') (dim_x (hsz db) * axis + x) = Some v9 /\
        rd (t1 db') (dim_x (hsz db) * axis + x) = Some v1 /\
        (F32.ltb c (F32.of_int mc9) = false ->
           v9 = F32.of_int (lower_bin tmin col x)) /\
        (F32.ltb c (F32.of_int mc9) = true ->
           SFleb F32.zero v9 = true /\ SFleb v9 top = true) /\
        (F32.ltb c (F32.of_int mc1) = false ->
           v1 = F32.of_int (upper_bin tmin tmax col x)) /\
        (F32.ltb c (F32.of_int mc1) = true ->
           SFleb F32.zero v1 = true /\ SFleb v1 top = true).
Proof.
  intros Htan Hm9 Hm1 Haxis Hhx Hhy Hsum Htsz Hlc Hl1 Hl9 Hln Hnn.
  assert (Hp23 : 2 ^ 23 = 8388608) by reflexivity.
  assert (Hp24 : 2 ^ 24 = 16777216) by reflexivity.
  destruct (calc_exact_thresh_spec db tmin tmax axis Haxis ltac:(lia) ltac:(lia)
              Hlc Hl1 Hl9) as (db1 & Hrun1 & Hlen1 & Hlen9 & Hcols & _).
  destruct (calc_exact_thresh_fields db tmin tmax axis db1 Hrun1)
    as (Hhist & Hcumd & Hcnts & Hhsz & Htsz1).
  assert (Hrow : dim_x (hsz db) * axis + dim_x (hsz db) = dim_x (hsz db) * (axis + 1))
    by ring.
  assert (Hax0 : 0 <= dim_x (hsz db) * axis) by (apply Z.mul_nonneg_nonneg; lia).
  destruct (calc_hist_center_spec db1 axis) as (x0 & c0 & Hcen & Hx0 & _).
  { rewrite Htsz1, Htsz. lia. }
  { rewrite Htsz1, Htsz. exact Hax0. }
  { rewrite Htsz1, Htsz, Hcnts. lia. }
  { rewrite Htsz1, Htsz, Hcnts. exact Hnn. }
  rewrite Htsz1, Htsz in Hx0.
  destruct (Hcols x0 Hx0) as (Ha9 & Ha1 & _).
  set (col0 := column_of (cumd db) (hsz db) axis x0) in *.
  pose proof (length_column_of (cumd db) (hsz db) axis x0 ltac:(lia)) as Hlcol.
  fold col0 in Hlcol.
  pose proof (lower_bin_bounds tmin col0 x0 ltac:(lia)) as Hlb.
  pose proof (upper_bin_bounds tmin tmax col0 x0 ltac:(lia)) as Hub.
  pose proof (to_int_of_int (lower_bin tmin col0 x0) ltac:(lia)) as Hi9.
  pose proof (to_int_of_int (upper_bin tmin tmax col0 x0) ltac:(lia)) as Hi1.
  destruct (median_extrapolation_total tanf db1 (t9 db1) tmin x0 axis mc9
              (F32.of_int (lower_bin tmin col0 x0)) (lower_bin tmin col0 x0) Hm9)
    as (th9 & _ & Hmed9);
    try (rewrite ?Htsz1, ?Htsz, ?Hhsz, ?Hcnts; first [eassumption | lia]).
  destruct (median_extrapolation_total tanf db1 (t1 db1) tmax x0 axis mc1
              (F32.of_int (upper_bin tmin tmax col0 x0)) (upper_bin tmin tmax col0 x0) Hm1)
    as (th1 & _ & Hmed1);
    try (rewrite ?Htsz1, ?Htsz, ?Hhsz, ?Hcnts; first [eassumption | lia]).
  destruct (apply_extrap_thresh_spec tanf db1 (t9 db1) tmin x0
              (first_angle (share_reached tanf db1 (t9 db1) mc9 x0
                 (F32.of_int (lower_bin tmin col0 x0)) axis) th9)
              axis mc9 (F32.of_int (lower_bin tmin col0 x0)) (lower_bin tmin col0 x0)
              Hm9 Haxis)
    as (t9' & Happ9 & Hl9' & _ & Hall9);
    try (rewrite ?Hhsz, ?Hcnts; first [eassumption | apply Htan | lia]).
  destruct (apply_extrap_thresh_spec tanf db1 (t1 db1) tmax x0
              (first_angle (share_reached tanf db1 (t1 db1) mc1 x0
                 (F32.of_int (upper_bin tmin tmax col0 x0)) axis) th1)
              axis mc1 (F32.of_int (upper_bin tmin tmax col0 x0))
              (upper_bin tmin tmax col0 x0) Hm1 Haxis)
    as (t1' & Happ1 & Hl1' & _ & Hall1);
    try (rewrite ?Hhsz, ?Hcnts; first [eassumption | apply Htan | lia]).
  unfold calc_thresh. rewrite Hrun1.
  change (Some db1 ≫= ?f) with (f db1). cbv beta.
  unfold calc_extrap_thresh. rewrite Hcen.
  change (Some x0 ≫= ?f) with (f x0). cbv beta.
  rewrite Hmed9. change (Some ?a ≫= ?f) with (f a). cbv beta.
  rewrite Hmed1. change (Some ?a ≫= ?f) with (f a). cbv beta.
  rewrite Happ9. change (Some ?a ≫= ?f) with (f a). cbv beta.
  rewrite Happ1. change (Some ?a ≫= ?f) with (f a). cbv beta.
  eexists. split; [reflexivity|]. cbn [t1 t9 hist cumd cnts set_t1 set_t9].
  split; [congruence|]. split; [congruence|].
  split; [exact Hhist|]. split; [exact Hcumd|]. split; [exact Hcnts|].
  intros x Hx. cbv zeta.
  destruct (Hcols x Hx) as (Hx9 & Hx1 & _).
  rewrite Hhsz, Hcnts in Hall9, Hall1.
  destruct (Hall9 x Hx) as (c & v & v9 & Hc & Hv & Hv9 & Hsig9 & Hins9).
  destruct (Hall1 x Hx) as (c' & w & v1 & Hc' & Hw & Hv1 & Hsig1 & Hins1).
  rewrite Hc in Hc'. injection Hc' as <-.
  rewrite Hx9 in Hv. injection Hv as <-. rewrite Hx1 in Hw. injection Hw as <-.
  exists c, v9, v1. split; [exact Hc|]. split; [exact Hv9|]. split; [exact Hv1|].
  split; [exact Hsig9|]. split; [intros H; apply Hins9, H|].
  split; [exact Hsig1|]. intros H; apply Hins1, H.
Qed.

Lemma calc_thresh_returns_witness :
  exists db',
    calc_thresh (fun _ => F32.zero) sweep_fuel db_thresh
      (ratio32 1 10) (ratio32 9 10) 0 = Some db' /\
    length (t1 db') = length (t1 db_thresh) /\
    length (t9 db') = length (t9 db_thresh) /\
    hist db' = hist db_thresh /\ cumd db' = cumd db_thresh /\
    cnts db' = cnts db_thresh /\
    forall x, 0 <= x < dim_x (hsz db_thresh) ->
      let col := column_of (cumd db_thresh) (hsz db_thresh) 0 x in
      let top := F32.of_int (dim_y (hsz db_thresh) - 1) in
      exists c v9 v1,
        rd (cnts db_thresh) (dim_x (hsz db_thresh) * 0 + x) = Some c /\
        rd (t9 db') (dim_x (hsz db_thresh) * 0 + x) = Some v9 /\
        rd (t1 db') (dim_x (hsz db_thresh) * 0 + x) = Some v1 /\
        (F32.ltb c (F32.of_int 150) = false ->
           v9 = F32.of_int (lower_bin (ratio32 1 10) col x)) /\
        (F32.ltb c (F32.of_int 150) = true ->
           SFleb F32.zero v9 = true /\ SFleb v9 top = true) /\
        (F32.ltb c (F32.of_int 149) = false ->
           v1 = F32.of_int (upper_bin (ratio32 1 10) (ratio32 9 10) col x)) /\
        (F32.ltb c (F32.of_int 149) = true ->
           SFleb F32.zero v1 = true /\ SFleb v1 top = true).
Proof.
  apply (calc_thresh_returns (fun _ => F32.zero) db_thresh
           (ratio32 1 10) (ratio32 9 10) 0 150 149);
    try (intros theta; reflexivity);
    try (vm_compute; reflexivity); try (vm_compute; discriminate).
  intros X c HX Hc. change (dim_x (hsz db_thresh)) with 1 in HX, Hc.
  assert (X = 0) by lia. subst X. vm_compute in Hc. injection Hc as <-. reflexivity.
Defined.

(** ** [min_samples] grows away from one half *)

Section Divisors.
Variables prec emax : Z.
Hypothesis Hprec : 1 < prec.

(** Division of a positive number is antitone in the divisor. *)
Lemma SFdiv_anti ma ea ms es ms' es' :
  canonical prec emax ms es -> canonical prec emax ms' es' ->
  SFleb (S754_finite false ms es) (S754_finite false ms' es') = true ->
  SFleb (SFdiv prec emax (S754_finite false ma ea) (S754_finite false ms' es'))
        (SFdiv prec emax (S754_finite false ma ea) (S754_finite false ms es)) = true.
Proof.
  intros Hc Hc' Hle.
  pose proof (SFleb_canonical prec emax Hprec ms es ms' es' Hc Hc' Hle) as Hv.
  destruct (SFdiv_state prec emax Hprec ma ea ms es) as (e0 & e1 & He0 & He1 & -> & Hs).
  destruct (SFdiv_state prec emax Hprec ma ea ms' es') as (e0' & e1' & He0' & He1' & -> & Hs').
  assert (Hpow : forall k, 0 <= k -> 0 < 2 ^ k) by (intros; apply Z.pow_pos_nonneg; lia).
  apply (states_leb prec emax Hprec); try assumption;
    try (apply Z.mul_pos_pos; [lia|apply Hpow; lia]);
    try (apply Z.mul_nonneg_nonneg; [lia|apply Z.pow_nonneg; lia]).
  set (c := Z.min e1' e1).
  replace (Z.pos ma * 2 ^ (ea - es' - e0') * (Z.pos ms * 2 ^ (e1 - e0)) * 2 ^ (e1' - c))
    with (Z.pos ma * (Z.pos ms * 2 ^ ((ea - es' - e0') + (e1 - e0) + (e1' - c))))
    by (rewrite !Z.pow_add_r by (unfold c; lia); ring).
  replace (Z.pos ma * 2 ^ (ea - es - e0) * (Z.pos ms' * 2 ^ (e1' - e0')) * 2 ^ (e1 - c))
    with (Z.pos ma * (Z.pos ms' * 2 ^ ((ea - es - e0) + (e1' - e0') + (e1 - c))))
    by (rewrite !Z.pow_add_r by (unfold c; lia); ring).
  apply Z.mul_le_mono_nonneg_l; [lia|].
  apply (scaled_le _ _ es es'); unfold c; lia.
Qed.
End Divisors.

(** [1.0f - thresh] is antitone in [thresh]. *)
Lemma sub_one_anti m e m' e' :
  canonical F32.prec F32.emax m e -> canonical F32.prec F32.emax m' e' ->
  SFleb (S754_finite false m e) (S754_finite false m' e') = true ->
  SFltb (S754_finite false m' e') F32.one = true ->
  SFleb (F32.sub F32.one (S754_finite false m' e'))
        (F32.sub F32.one (S754_finite false m e)) = true.
Proof.
  intros Hc Hc' Hle H1'.
  pose proof (SFleb_ltb_trans _ _ _ Hle H1') as H1.
  pose proof (SFleb_canonical F32.prec F32.emax F32_prec m e m' e' Hc Hc' Hle) as Hv.
  destruct (sub_one_state m e Hc H1) as (p & -> & Hp).
  destruct (sub_one_state m' e' Hc' H1') as (p' & -> & Hp').
  change (binary_normalize F32.prec F32.emax (Z.pos p') (Z.min (-23) e') false)
    with (binary_round F32.prec F32.emax false p' (Z.min (-23) e')).
  change (binary_normalize F32.prec F32.emax (Z.pos p) (Z.min (-23) e) false)
    with (binary_round F32.prec F32.emax false p (Z.min (-23) e)).
  apply binary_round_mono; [exact F32_prec|].
  set (b := Z.min (-23) e) in *. set (b' := Z.min (-23) e') in *.
  set (c := Z.min b' b).
  rewrite Hp, Hp', !Z.mul_sub_distr_r, <- !Z.mul_assoc, <- !Z.pow_add_r
    by (unfold c, b, b'; lia).
  replace (-23 - b' + (b' - c)) with (-23 - c) by lia.
  replace (-23 - b + (b - c)) with (-23 - c) by lia.
  apply Z.sub_le_mono_l.
  apply (shift_le _ _ (e - Z.min e e') (e' - Z.min e e'));
    unfold c, b, b'; first [lia | exact Hv].
Qed.

Lemma fmin_le_l a b :
  SFis_nan a = false -> SFis_nan b = false -> SFleb (F32.fmin a b) a = true.
Proof.
  intros Ha Hb. unfold F32.fmin. rewrite Ha, Hb.
  destruct (SFltb b a) eqn:E; [apply SFltb_leb, E|apply SFleb_refl, Ha].
Qed.

Lemma fmin_le_r a b :
  SFis_nan a = false -> SFis_nan b = false -> SFleb (F32.fmin a b) b = true.
Proof.
  intros Ha Hb. unfold F32.fmin. rewrite Ha, Hb.
  destruct (SFltb b a) eqn:E; [apply SFleb_refl, Hb|].
  apply SFltb_false_leb; assumption.
Qed.

Lemma fmin_ge c a b :
  SFleb c a = true -> SFleb c b = true -> SFleb c (F32.fmin a b) = true.
Proof.
  intros Ha Hb. unfold F32.fmin.
  destruct (SFis_nan a); [exact Hb|]. destruct (SFis_nan b); [exact Ha|].
  destruct (SFltb b a); assumption.
Qed.

(** The integer part of a positive number, from any common scaling. *)
Lemma SFfloor_scaled m e K :
  0 <= K -> 0 <= e + K ->
  SFfloor (S754_finite false m e) = Some (Z.pos m * 2 ^ (e + K) / 2 ^ K).
Proof.
  intros HK HeK. unfold SFfloor. f_equal.
  assert (Hp : 0 < 2 ^ K) by (apply Z.pow_pos_nonneg; lia).
  destruct e as [|p|p].
  - rewrite Z.add_0_l, Z.div_mul, Z.pow_0_r by lia. lia.
  - rewrite Z.pow_add_r, Z.mul_assoc, Z.div_mul by lia. reflexivity.
  - rewrite Z.pow_pos_fold.
    replace (2 ^ K) with (2 ^ Z.pos p * 2 ^ (Z.neg p + K))
      by (rewrite <- Z.pow_add_r by lia; f_equal; lia).
    rewrite Z.div_mul_cancel_r; [reflexivity|lia|].
    assert (0 < 2 ^ (Z.neg p + K)) by (apply Z.pow_pos_nonneg; lia). lia.
Qed.

(** The conversion to [int] keeps the order of numbers that are not
    negative. *)
Lemma to_int_mono f f' n n' :
  F32.valid f = true -> F32.valid f' = true ->
  SFleb F32.zero f = true -> SFleb f f' = true ->
  F32.to_int f = Some n -> F32.to_int f' = Some n' -> n <= n'.
Proof.
  intros Hv Hv' H0 Hle Hn Hn'.
  assert (Hint : forall z k, int_range z = Some k -> k = z).
  { intros z k H. unfold int_range in H. destruct (_ && _); congruence. }
  assert (Hpos : forall m e k, F32.to_int (S754_finite false m e) = Some k -> 0 <= k).
  { intros m e k H. unfold F32.to_int in H. rewrite SFtrunc_nonneg in H by reflexivity.
    rewrite (SFfloor_scaled m e (Z.max 0 (- e))) in H by lia.
    apply Hint in H. subst k. apply Z.div_pos; [|apply Z.pow_pos_nonneg; lia].
    apply Z.mul_nonneg_nonneg; [lia|apply Z.pow_nonneg; lia]. }
  destruct f as [[|]|[|]| |[|] m e]; try discriminate;
    destruct f' as [[|]|[|]| |[|] m' e']; try discriminate.
  all: try (injection Hn as <-; injection Hn' as <-; lia).
  all: try (injection Hn as <-; apply (Hpos _ _ _ Hn')).
  - pose proof (SFleb_canonical F32.prec F32.emax F32_prec m e m' e'
                  (F32_valid_canonical _ _ _ Hv) (F32_valid_canonical _ _ _ Hv') Hle) as Hc.
    unfold F32.to_int in Hn, Hn'. rewrite SFtrunc_nonneg in Hn, Hn' by reflexivity.
    set (K := Z.max 0 (Z.max (- e) (- e'))).
    rewrite (SFfloor_scaled m e K) in Hn by (unfold K; lia).
    rewrite (SFfloor_scaled m' e' K) in Hn' by (unfold K; lia).
    apply Hint in Hn, Hn'. subst n n'.
    apply Z.div_le_mono; [apply Z.pow_pos_nonneg; unfold K; lia|].
    apply (shift_le _ _ (e - Z.min e e') (e' - Z.min e e'));
      unfold K; first [lia | exact Hc].
Qed.

Lemma positive_finite t :
  F32.valid t = true -> SFltb F32.zero t = true -> SFltb t F32.one = true ->
  exists m e, t = S754_finite false m e /\ canonical F32.prec F32.emax m e.
Proof.
  intros Hv H0 H1. destruct t as [[|]|[|]| |[|] m e]; try discriminate.
  exists m, e. split; [reflexivity|apply (F32_valid_canonical _ _ _ Hv)].
Qed.

Lemma sub_one_not_nan m e :
  canonical F32.prec F32.emax m e ->
  SFltb (S754_finite false m e) F32.one = true ->
  SFis_nan (F32.sub F32.one (S754_finite false m e)) = false.
Proof.
  intros Hc H1. pose proof (sub_one_shape m e Hc H1) as Hsh.
  destruct (F32.sub F32.one _) as [[|]|[|]| |[|] ? ?]; try contradiction; reflexivity.
Qed.

(** Below one half [interval] grows with [thresh]. *)
Lemma interval_mono_below t t' :
  F32.valid t = true -> F32.valid t' = true ->
  SFltb F32.zero t = true -> SFleb t t' = true -> SFleb t' half32 = true ->
  SFleb (interval_of t) (interval_of t') = true.
Proof.
  intros Hv Hv' H0 Hle Hh.
  assert (H1' : SFltb t' F32.one = true)
    by (apply (SFleb_ltb_trans _ half32); [exact Hh|reflexivity]).
  assert (H0' : SFltb F32.zero t' = true) by (apply (SFltb_leb_trans _ t); assumption).
  pose proof (SFleb_ltb_trans _ _ _ Hle H1') as H1.
  destruct (positive_finite t Hv H0 H1) as (m & e & -> & Hc).
  destruct (positive_finite t' Hv' H0' H1') as (m' & e' & -> & Hc').
  pose proof (sub_one_not_nan m e Hc H1) as Hn.
  assert (Ht : SFleb (interval_of (S754_finite false m e)) (S754_finite false m e) = true)
    by (apply fmin_le_r; [exact Hn|reflexivity]).
  apply fmin_ge.
  - apply (SFleb_trans _ half32); [apply (SFleb_trans _ (S754_finite false m' e'));
      [apply (SFleb_trans _ (S754_finite false m e)); assumption|exact Hh]|].
    change half32 with (F32.sub F32.one half32) at 1.
    apply sub_one_anti; [exact Hc'|reflexivity|exact Hh|reflexivity].
  - apply (SFleb_trans _ (S754_finite false m e)); assumption.
Qed.

(** From one half on [interval] falls as [thresh] grows. *)
Lemma interval_anti_above t t' :
  F32.valid t = true -> F32.valid t' = true ->
  SFleb half32 t = true -> SFleb t t' = true -> SFltb t' F32.one = true ->
  SFleb (interval_of t') (interval_of t) = true.
Proof.
  intros Hv Hv' Hh Hle H1'.
  assert (H0 : SFltb F32.zero t = true)
    by (apply (SFltb_leb_trans _ half32); [reflexivity|exact Hh]).
  assert (H0' : SFltb F32.zero t' = true) by (apply (SFltb_leb_trans _ t); assumption).
  pose proof (SFleb_ltb_trans _ _ _ Hle H1') as H1.
  destruct (positive_finite t Hv H0 H1) as (m & e & -> & Hc).
  destruct (positive_finite t' Hv' H0' H1') as (m' & e' & -> & Hc').
  pose proof (sub_one_not_nan m' e' Hc' H1') as Hn'.
  assert (Ht : SFleb (interval_of (S754_finite false m' e'))
                 (F32.sub F32.one (S754_finite false m' e')) = true)
    by (apply fmin_le_l; [exact Hn'|reflexivity]).
  apply fmin_ge.
  - apply (SFleb_trans _ _ _ Ht). apply sub_one_anti; assumption.
  - apply (SFleb_trans _ _ _ Ht).
    apply (SFleb_trans _ half32); [|exact Hh].
    change half32 with (F32.sub F32.one half32) at 1.
    apply sub_one_anti; [reflexivity|exact Hc'| |exact H1'].
    apply (SFleb_trans _ (S754_finite false m e)); assumption.
Qed.

(** A smaller [interval] asks for at least as many samples. *)
Lemma min_samples_interval t t' n n' :
  F32.valid t = true -> F32.valid t' = true ->
  F32.ltb F32.zero t = true -> F32.ltb t F32.one = true ->
  F32.ltb F32.zero t' = true -> F32.ltb t' F32.one = true ->
  SFleb (interval_of t) (interval_of t') = true ->
  min_samples t = Some n -> min_samples t' = Some n' -> n' <= n.
Proof.
  intros Hv Hv' H0 H1 H0' H1' Hle Hn Hn'.
  pose proof (interval_of_sign t Hv H0 H1) as Hs.
  pose proof (interval_of_sign t' Hv' H0' H1') as Hs'.
  pose proof (interval_le_half t' Hv' H0' H1') as Hh'.
  assert (Hvi : F32.valid (interval_of t) = true)
    by (apply fmin_valid; [apply F32_sub_valid_all; [reflexivity|exact Hv]|exact Hv]).
  assert (Hvi' : F32.valid (interval_of t') = true)
    by (apply fmin_valid; [apply F32_sub_valid_all; [reflexivity|exact Hv']|exact Hv']).
  unfold min_samples in Hn, Hn'.
  fold (interval_of t) in Hn. fold (interval_of t') in Hn'.
  change (F32.of_int 15) with (S754_finite false 15728640 (-20)) in Hn, Hn'.
  destruct (interval_of t) as [[|]|[|]| |[|] ms es]; try discriminate;
    destruct (interval_of t') as [[|]|[|]| |[|] ms' es']; try discriminate.
  apply (to_int_mono _ _ _ _ (F32_div_valid 15728640 (-20) ms' es')
           (F32_div_valid 15728640 (-20) ms es)); [| |exact Hn'|exact Hn].
  - apply (SFdiv_nonneg F32.prec F32.emax F32_prec).
  - apply (SFdiv_anti F32.prec F32.emax F32_prec);
      [apply (F32_valid_canonical _ _ _ Hvi)|apply (F32_valid_canonical _ _ _ Hvi')|exact Hle].
Qed.

(** Claim C7, as the code has it.  [min_samples] is 30 at 0.5, 150 at
    0.1f and 149 at 0.9f, so the inequalities hold in the other direction,
    and the values at 0.1f and 0.9f differ.  For all [thresh <= thresh']
    of the format strictly between 0 and 1 at which the conversion to
    [int] is defined: both values are at least 30, the value at 0.5; up to
    one half the value at [thresh'] is at most the value at [thresh]; from
    one half on the value at [thresh] is at most the value at [thresh'].
    So [min_samples] is smallest at 0.5 and never falls as [thresh] moves
    away from 0.5 toward 0 or toward 1. *)
Theorem min_samples_grows_from_half t t' n n' :
  F32.valid t = true -> F32.valid t' = true ->
  F32.ltb F32.zero t = true -> F32.leb t t' = true ->
  F32.ltb t' F32.one = true ->
  min_samples t = Some n -> min_samples t' = Some n' ->
  (min_samples (ratio32 1 2) = Some 30 /\
   min_samples (ratio32 1 10) = Some 150 /\
   min_samples (ratio32 9 10) = Some 149) /\
  30 <= n /\ 30 <= n' /\
  (F32.leb t' (ratio32 1 2) = true -> n' <= n) /\
  (F32.leb (ratio32 1 2) t = true -> n <= n').
Proof.
  unfold F32.ltb, F32.leb. change (ratio32 1 2) with half32.
  intros Hv Hv' H0 Hle H1' Hn Hn'.
  pose proof (SFleb_ltb_trans _ _ _ Hle H1') as H1.
  pose proof (SFltb_leb_trans _ _ _ H0 Hle) as H0'.
  assert (Hhalf : min_samples half32 = Some 30) by reflexivity.
  assert (Hmin : forall u k, F32.valid u = true -> SFltb F32.zero u = true ->
            SFltb u F32.one = true -> min_samples u = Some k -> 30 <= k).
  { intros u k Hu Hu0 Hu1 Hk.
    destruct (SFltb half32 u) eqn:E.
    - apply (min_samples_interval u half32 k 30); try assumption; try reflexivity.
      apply interval_anti_above; try assumption; try reflexivity.
      apply SFltb_leb, E.
    - apply (min_samples_interval u half32 k 30); try assumption; try reflexivity.
      apply interval_mono_below; try assumption; try reflexivity.
      apply SFltb_false_leb; [reflexivity| |exact E].
      destruct u as [[|]|[|]| |[|] ? ?]; try discriminate; reflexivity. }
  split; [split; [exact Hhalf|split; vm_compute; reflexivity]|].
  split; [apply (Hmin t); assumption|]. split; [apply (Hmin t'); assumption|]. split.
  - intros Hh. apply (min_samples_interval t t'); try assumption.
    apply interval_mono_below; assumption.
  - intros Hh. apply (min_samples_interval t' t); try assumption.
    apply interval_anti_above; assumption.
Qed.

Lemma min_samples_grows_from_half_witness :
  (min_samples (ratio32 1 2) = Some 30 /\
   min_samples (ratio32 1 10) = Some 150 /\
   min_samples (ratio32 9 10) = Some 149) /\
  30 <= 150 /\ 30 <= 37 /\
  (F32.leb (ratio32 4 10) (ratio32 1 2) = true -> 37 <= 150) /\
  (F32.leb (ratio32 1 2) (ratio32 1 10) = true -> 150 <= 37).
Proof.
  apply (min_samples_grows_from_half (ratio32 1 10) (ratio32 4 10) 150 37);
    reflexivity.
Defined.

(** ** [apply_extrap_thresh]: the line through the anchor *)







Section ExtrapAnchor.
Variable tanf : float -> float.

End ExtrapAnchor.


(** *** The calls [calc_extrap_thresh] makes *)

Lemma count_range_positive p lo n :
  0 < count_range p lo n ->
  exists x, lo <= x < lo + Z.of_nat n /\ p x = true.
Proof.
  revert lo. induction n as [|n IH]; intros lo; simpl count_range; [lia|].
  destruct (p lo) eqn:E.
  - intros _. exists lo. split; [lia|exact E].
  - intros H. destruct (IH (lo + 1)) as (x & Hx & Hp); [lia|].
    exists x. split; [lia|exact Hp].
Qed.

Section CallSite.
Variable tanf : float -> float.

(** The angle the sweep returns is 0, or an angle at which the share of
    significant columns was reached. *)
Lemma median_sweep_result fuel db t mc x0 axis t0 y0 :
  0 <= dim_x (hsz db) <= 2 ^ 24 ->
  0 <= dim_x (tsz db) * axis ->
  dim_x (tsz db) * axis + dim_x (hsz db) <= Z.of_nat (length t) ->
  dim_x (tsz db) * axis + dim_x (hsz db) <= Z.of_nat (length (cnts db)) ->
  rd t (dim_x (tsz db) * axis + x0) = Some t0 -> F32.to_int t0 = Some y0 ->
  forall theta0 theta,
    median_sweep tanf fuel db t mc x0 axis theta0 = Some theta ->
    theta = F32.zero \/
    share_reached tanf db t mc x0 (F32.of_int y0) axis theta = true.
Proof.
  intros Hn Hax Hlt Hlc Ht0 Hy0.
  induction fuel as [|fuel IH]; intros theta0 theta Hrun; [discriminate|].
  simpl median_sweep in Hrun.
  destruct (in_sweep theta0); [|injection Hrun as <-; left; reflexivity].
  rewrite (count_below_above_spec tanf db t mc x0 axis theta0 t0 y0) in Hrun
    by assumption.
  match type of Hrun with
  | Some ?lu ≫= ?f = _ => change (Some lu ≫= f) with (f lu) in Hrun; cbv beta in Hrun
  end.
  rewrite ratio_reached_counts in Hrun; try apply count_range_bounds.
  - fold (share_reached tanf db t mc x0 (F32.of_int y0) axis theta0) in Hrun.
    destruct (share_reached tanf db t mc x0 (F32.of_int y0) axis theta0) eqn:E.
    + injection Hrun as <-. right. exact E.
    + apply (IH _ _ Hrun).
  - etransitivity; [apply count_range_disjoint|lia].
    intros x. destruct (significant db mc axis x), (above_line _ _ _ _ _ _ _ _);
      reflexivity.
Qed.

Lemma share_reached_significant db t mc x0 anchor axis theta :
  share_reached tanf db t mc x0 anchor axis theta = true ->
  exists x, 0 <= x < dim_x (hsz db) /\ significant db mc axis x = true.
Proof.
  unfold share_reached. intros H. apply andb_true_iff in H as [H _].
  apply Z.ltb_lt in H.
  set (n := Z.to_nat (dim_x (hsz db))) in *.
  pose proof (count_range_bounds
                (fun x => significant db mc axis x &&
                          negb (above_line tanf db t x0 anchor axis theta x)) 0 n) as Hb.
  pose proof (count_range_bounds
                (fun x => significant db mc axis x &&
                          above_line tanf db t x0 anchor axis theta x) 0 n) as Ha.
  assert (Hex : exists x, 0 <= x < 0 + Z.of_nat n /\ significant db mc axis x = true).
  { destruct (Z.lt_ge_cases 0 (count_range
                (fun x => significant db mc axis x &&
                          negb (above_line tanf db t x0 anchor axis theta x)) 0 n))
      as [Hp|Hp].
    - destruct (count_range_positive _ _ _ Hp) as (x & Hx & Hpx).
      apply andb_true_iff in Hpx as [Hs _]. exists x. split; assumption.
    - destruct (count_range_positive
                  (fun x => significant db mc axis x &&
                            above_line tanf db t x0 anchor axis theta x) 0 n)
        as (x & Hx & Hpx); [lia|].
      apply andb_true_iff in Hpx as [Hs _]. exists x. split; assumption. }
  destruct Hex as (x & Hx & Hs). exists x. split; [unfold n in Hx; lia|exact Hs].
Qed.

(** With the anchor [calc_hist_center] returns and the angle
    [median_extrapolation] returns, as [calc_extrap_thresh] passes them to
    [apply_extrap_thresh]: when the angle is not 0 some column has more
    than [min_samples thresh] samples, and so has the anchor column, the
    column of the largest count. *)
Lemma calc_extrap_thresh_call fuel db t thresh x0 axis mc t0 y0 theta :
  tanf F32.zero = F32.zero ->
  min_samples thresh = Some mc ->
  dim_x (tsz db) = dim_x (hsz db) ->
  0 < dim_x (hsz db) <= 2 ^ 24 -> 0 <= axis ->
  dim_x (hsz db) * (axis + 1) <= Z.of_nat (length t) ->
  dim_x (hsz db) * (axis + 1) <= Z.of_nat (length (cnts db)) ->
  (forall X c, 0 <= X < dim_x (hsz db) ->
     rd (cnts db) (dim_x (hsz db) * axis + X) = Some c ->
     SFleb F32.zero c = true) ->
  calc_hist_center db axis = Some x0 ->
  rd t (dim_x (hsz db) * axis + x0) = Some t0 -> F32.to_int t0 = Some y0 ->
  median_extrapolation tanf fuel db t thresh x0 axis = Some theta ->
  0 <= x0 < dim_x (hsz db) /\
  exists c0,
    rd (cnts db) (dim_x (hsz db) * axis + x0) = Some c0 /\
    (F32.ltb c0 (F32.of_int mc) = false \/ tanf theta = F32.zero).
Proof.
  intros Htan Hmc Htsz Hhx Haxis Hlt Hlc Hnn Hcen Ht0 Hy0 Hmed.
  assert (Hax0 : 0 <= dim_x (hsz db) * axis) by (apply Z.mul_nonneg_nonneg; lia).
  assert (Hrow : dim_x (hsz db) * axis + dim_x (hsz db) = dim_x (hsz db) * (axis + 1))
    by ring.
  destruct (calc_hist_center_spec db axis) as (r & cr & Hcen' & Hr & Hcr & Hmax & _);
    try (rewrite Htsz; first [assumption | lia]).
  rewrite Hcen in Hcen'. injection Hcen' as <-. rewrite Htsz in Hr, Hcr, Hmax.
  split; [exact Hr|]. exists cr. split; [exact Hcr|].
  unfold median_extrapolation in Hmed. rewrite Hmc in Hmed.
  change (Some mc ≫= ?f) with (f mc) in Hmed. cbv beta in Hmed.
  assert (Hres : theta = F32.zero \/
            share_reached tanf db t mc x0 (F32.of_int y0) axis theta = true).
  { apply (median_sweep_result fuel db t mc x0 axis t0 y0) with (theta0 := F32.zero);
      try (rewrite ?Htsz; first [assumption | lia]). }
  destruct Hres as [->|Hshare]; [right; exact Htan|].
  left. destruct (share_reached_significant _ _ _ _ _ _ _ Hshare) as (x & Hx & Hsig).
  unfold significant in Hsig. rewrite Htsz in Hsig.
  destruct (rd (cnts db) (dim_x (hsz db) * axis + x)) as [c|] eqn:Hc; [|discriminate].
  pose proof (Hmax x c Hx Hc) as Hle. unfold F32.gtb in Hsig.
  pose proof (SFltb_leb_trans _ _ _ Hsig Hle) as Hlt'.
  unfold F32.ltb. destruct (SFltb cr (F32.of_int mc)) eqn:E; [|reflexivity].
  apply SFltb_leb in E. apply SFltb_not_leb in Hlt'. congruence.
Qed.
End CallSite.


(** On that call the anchor column is a low-count column holding -1: its
    own pass stores the clamped value 0, the pass of column 1 then reads
    the anchor 0, and both columns end at 0, the clamp of the line through
    the anchor -1. *)
Lemma apply_extrap_thresh_low_anchor :
  apply_extrap_thresh tan_ref db_low_counts t_low_counts (ratio32 1 2) 0
    F32.zero 0 = Some [F32.zero; F32.zero] /\
  clamp_between (F32.of_int (dim_y (hsz db_low_counts) - 1))
    (line_through tan_ref 0 (F32.of_int (-1)) F32.zero 1) = F32.zero.
Proof. vm_compute. split; reflexivity. Qed.

(** ** The sweep of [median_extrapolation], angle by angle *)

Section SumOrder.
Variables prec emax : Z.
Hypothesis Hprec : 1 < prec.

End SumOrder.

(** *** A sweep that never ends *)






(** *** What the loop returns *)

Lemma sweep_angle_shift hsz k :
  Nat.iter k (next_theta hsz) (next_theta hsz F32.zero) = sweep_angle hsz (S k).
Proof. unfold sweep_angle. rewrite Nat.iter_succ_r. reflexivity. Qed.


Section SweepRun.
Variable tanf : float -> float.
Variables (db : DB) (t : list float) (mc x0 axis : Z) (t0 : float) (y0 : Z).
Hypothesis Hn : 0 <= dim_x (hsz db) <= 2 ^ 24.
Hypothesis Hax : 0 <= dim_x (tsz db) * axis.
Hypothesis Hlt : dim_x (tsz db) * axis + dim_x (hsz db) <= Z.of_nat (length t).
Hypothesis Hlc : dim_x (tsz db) * axis + dim_x (hsz db) <= Z.of_nat (length (cnts db)).
Hypothesis Ht0 : rd t (dim_x (tsz db) * axis + x0) = Some t0.
Hypothesis Hy0 : F32.to_int t0 = Some y0.

Let reached := share_reached tanf db t mc x0 (F32.of_int y0) axis.



End SweepRun.



(** On that input the horizontal line through the anchor has two of the
    three columns above it, and the line of the second angle, pi/4, none:
    the function returns the second angle of the sweep, and the third is
    not below pi/2. *)
Lemma median_extrapolation_second_angle :
  sweep_angles 3 (hsz db_sweep) F32.zero =
    Some [F32.zero; S754_finite false 13176795 (-24)] /\
  share_reached tan_quarter db_sweep t_sweep 30 0 (F32.of_int 0) 0 F32.zero
    = false /\
  median_extrapolation tan_quarter 3 db_sweep t_sweep (ratio32 1 2) 0 0
    = Some (S754_finite false 13176795 (-24)).
Proof. vm_compute. auto. Qed.


(** ** The round trip through [hist2data] and [data2hist] *)

Section Unique.
Variables prec emax : Z.

(** A value has one canonical form. *)
Lemma canonical_unique m e m' e' c :
  canonical prec emax m e -> e <= emax - prec ->
  canonical prec emax m' e' -> e' <= emax - prec ->
  c <= e -> c <= e' ->
  Z.pos m * 2 ^ (e - c) = Z.pos m' * 2 ^ (e' - c) ->
  m = m' /\ e = e'.
Proof.
  intros Hc He Hc' He' Hce Hce' Hv.
  pose proof (binary_round_exact_scaled prec emax false m e m e c
                Hc He Hce Hce eq_refl) as H1.
  pose proof (binary_round_exact_scaled prec emax false m e m' e' c
                Hc' He' Hce Hce' Hv) as H2.
  rewrite H1 in H2. injection H2 as -> ->. split; reflexivity.
Qed.
End Unique.

Lemma F32_valid_parts s m e :
  F32.valid (S754_finite s m e) = true ->
  canonical F32.prec F32.emax m e /\ e <= F32.emax - F32.prec /\ -149 <= e.
Proof.
  intros Hv. split; [apply (F32_valid_canonical _ _ _ Hv)|].
  split; [apply (F32_valid_bounded _ _ _ Hv)|apply (F32_valid_emin _ _ _ Hv)].
Qed.

Lemma pow2_pos k : 0 <= k -> 0 < 2 ^ k.
Proof. intros. apply Z.pow_pos_nonneg; lia. Qed.

(** Two numbers of the format with the same value are the same. *)
Lemma F32_units_inj a b :
  F32.valid a = true -> F32.valid b = true ->
  SFis_finite a = true -> SFis_finite b = true ->
  F32_units a = F32_units b -> F32_units a <> 0 -> a = b.
Proof.
  intros Ha Hb Hfa Hfb Heq Hne.
  destruct a as [sa|sa| |sa ma ea]; try discriminate; [simpl in Hne; lia|].
  destruct b as [sb|sb| |sb mb eb]; try discriminate;
    [simpl in Heq, Hne; rewrite Heq in Hne; lia|].
  destruct (F32_valid_parts _ _ _ Ha) as (Hca & Hba & Hea).
  destruct (F32_valid_parts _ _ _ Hb) as (Hcb & Hbb & Heb).
  pose proof (pow2_pos (ea + 149) ltac:(lia)) as Hpa.
  pose proof (pow2_pos (eb + 149) ltac:(lia)) as Hpb.
  unfold F32_units in Heq.
  assert (Hs : sa = sb).
  { destruct sa, sb; try reflexivity; exfalso; nia. }
  subst sb.
  assert (Hv : Z.pos ma * 2 ^ (ea - -149) = Z.pos mb * 2 ^ (eb - -149)).
  { replace (ea - -149) with (ea + 149) by lia.
    replace (eb - -149) with (eb + 149) by lia.
    destruct sa; [|exact Heq].
    change (Z.neg ma) with (- Z.pos ma) in Heq.
    change (Z.neg mb) with (- Z.pos mb) in Heq. lia. }
  destruct (canonical_unique F32.prec F32.emax ma ea mb eb (-149)
              Hca Hba Hcb Hbb Hea Heb Hv) as [-> ->].
  reflexivity.
Qed.

(** The rounding of an integer multiple of a power of two that is in the
    format. *)
Lemma binary_normalize_exact z ez V :
  -149 <= ez -> F32.valid V = true -> SFis_finite V = true ->
  F32_units V = z * 2 ^ (ez + 149) ->
  binary_normalize F32.prec F32.emax z ez false =
  if F32_units V =? 0 then S754_zero false else V.
Proof.
  intros Hez Hv Hf Hu.
  pose proof (pow2_pos (ez + 149) ltac:(lia)) as Hp.
  destruct z as [|p|p]; unfold binary_normalize.
  - rewrite Hu. reflexivity.
  - assert (Hpos : 0 < F32_units V) by (rewrite Hu; lia).
    destruct (Z.eqb_spec (F32_units V) 0) as [H0|_]; [lia|].
    destruct V as [sv|sv| |sv mv ev]; try discriminate; try (simpl in Hpos; lia).
    destruct (F32_valid_parts _ _ _ Hv) as (Hc & Hb & He).
    pose proof (pow2_pos (ev + 149) ltac:(lia)) as Hpv.
    unfold F32_units in Hu, Hpos.
    destruct sv; [change (Z.neg mv) with (- Z.pos mv) in Hpos; nia|].
    apply (binary_round_exact_scaled F32.prec F32.emax
             false p ez mv ev (-149)); try assumption.
    replace (ez - -149) with (ez + 149) by lia.
    replace (ev - -149) with (ev + 149) by lia. lia.
  - assert (Hneg : F32_units V < 0) by (rewrite Hu; lia).
    destruct (Z.eqb_spec (F32_units V) 0) as [H0|_]; [lia|].
    destruct V as [sv|sv| |sv mv ev]; try discriminate; try (simpl in Hneg; lia).
    destruct (F32_valid_parts _ _ _ Hv) as (Hc & Hb & He).
    pose proof (pow2_pos (ev + 149) ltac:(lia)) as Hpv.
    unfold F32_units in Hu, Hneg.
    destruct sv; [|nia].
    apply (binary_round_exact_scaled F32.prec F32.emax
             true p ez mv ev (-149)); try assumption.
    replace (ez - -149) with (ez + 149) by lia.
    replace (ev - -149) with (ev + 149) by lia.
    change (Z.neg mv) with (- Z.pos mv) in Hu.
    change (Z.neg p) with (- Z.pos p) in Hu. lia.
Qed.

Lemma units_aligned s m m' e ez :
  ez <= e -> -149 <= ez -> Z.pos m' = Z.pos m * 2 ^ (e - ez) ->
  F32_units (S754_finite s m e) = cond_Zopp s (Z.pos m') * 2 ^ (ez + 149).
Proof.
  intros Hle Hez Hm. unfold F32_units, cond_Zopp. rewrite Hm.
  replace (e + 149) with ((e - ez) + (ez + 149)) by lia.
  rewrite Z.pow_add_r by lia.
  destruct s; [change (Z.neg m) with (- Z.pos m)|]; ring.
Qed.

(** A sum and a difference that are in the format are computed without
    rounding. *)
Lemma F32_add_exact sa ma ea sb mb eb V :
  F32.valid (S754_finite sa ma ea) = true ->
  F32.valid (S754_finite sb mb eb) = true ->
  F32.valid V = true -> SFis_finite V = true ->
  F32_units V = F32_units (S754_finite sa ma ea) + F32_units (S754_finite sb mb eb) ->
  F32.add (S754_finite sa ma ea) (S754_finite sb mb eb) =
  if F32_units V =? 0 then S754_zero false else V.
Proof.
  intros Ha Hb Hv Hf Hu.
  pose proof (F32_valid_emin _ _ _ Ha) as Hea.
  pose proof (F32_valid_emin _ _ _ Hb) as Heb.
  unfold F32.add, SFadd.
  destruct (shl_align_spec ma ea (Z.min ea eb)) as (ma' & Ha' & Hma).
  destruct (shl_align_spec mb eb (Z.min ea eb)) as (mb' & Hb' & Hmb).
  rewrite Ha', Hb'. cbn [fst].
  replace (Z.min ea (Z.min ea eb)) with (Z.min ea eb) in Hma by lia.
  replace (Z.min eb (Z.min ea eb)) with (Z.min ea eb) in Hmb by lia.
  apply binary_normalize_exact; try assumption; [lia|].
  rewrite Hu, (units_aligned sa ma ma' ea (Z.min ea eb)),
    (units_aligned sb mb mb' eb (Z.min ea eb)) by (assumption || lia).
  ring.
Qed.

Lemma F32_sub_exact sa ma ea sb mb eb V :
  F32.valid (S754_finite sa ma ea) = true ->
  F32.valid (S754_finite sb mb eb) = true ->
  F32.valid V = true -> SFis_finite V = true ->
  F32_units V = F32_units (S754_finite sa ma ea) - F32_units (S754_finite sb mb eb) ->
  F32.sub (S754_finite sa ma ea) (S754_finite sb mb eb) =
  if F32_units V =? 0 then S754_zero false else V.
Proof.
  intros Ha Hb Hv Hf Hu.
  pose proof (F32_valid_emin _ _ _ Ha) as Hea.
  pose proof (F32_valid_emin _ _ _ Hb) as Heb.
  unfold F32.sub, SFsub.
  destruct (shl_align_spec ma ea (Z.min ea eb)) as (ma' & Ha' & Hma).
  destruct (shl_align_spec mb eb (Z.min ea eb)) as (mb' & Hb' & Hmb).
  rewrite Ha', Hb'. cbn [fst].
  replace (Z.min ea (Z.min ea eb)) with (Z.min ea eb) in Hma by lia.
  replace (Z.min eb (Z.min ea eb)) with (Z.min ea eb) in Hmb by lia.
  apply binary_normalize_exact; try assumption; [lia|].
  rewrite Hu, (units_aligned sa ma ma' ea (Z.min ea eb)),
    (units_aligned sb mb mb' eb (Z.min ea eb)) by (assumption || lia).
  ring.
Qed.

(** The product of a bin index and a positive number, when it is in the
    format. *)
Lemma F32_mul_of_int_exact i md ed P :
  0 < i <= 2 ^ 24 -> F32.valid (S754_finite false md ed) = true ->
  F32.valid P = true -> SFis_finite P = true ->
  F32_units P = i * F32_units (S754_finite false md ed) ->
  F32.mul (F32.of_int i) (S754_finite false md ed) = P.
Proof.
  intros Hi Hd Hv Hf Hu.
  destruct (F32_valid_parts _ _ _ Hd) as (Hcd & Hbd & Hed).
  pose proof (pow2_pos (ed + 149) ltac:(lia)) as Hpd.
  assert (Hpos : 0 < F32_units P).
  { rewrite Hu. unfold F32_units. apply Z.mul_pos_pos; [lia|]. apply Z.mul_pos_pos; lia. }
  destruct P as [sp|sp| |sp M E]; try discriminate; try (simpl in Hpos; lia).
  destruct (F32_valid_parts _ _ _ Hv) as (Hc & Hb & He).
  pose proof (pow2_pos (E + 149) ltac:(lia)) as HpE.
  unfold F32_units in Hu, Hpos.
  destruct sp; [change (Z.neg M) with (- Z.pos M) in Hpos; nia|].
  assert (Hint : int_float F32.prec F32.emax i (F32.of_int i))
    by (apply F32_of_int_int_float; lia).
  destruct Hint as [[H0 _]|(_ & Mi & Ei & HMi & Hrest)]; [lia|].
  rewrite HMi in *.
  destruct (int_float_normal F32.prec F32.emax F32_prec F32_emax i Mi Ei)
    as (Hci & Hdi & HEi & Hvi & _).
  { right. split; [lia|]. exists Mi, Ei. split; [reflexivity|exact Hrest]. }
  change F32.prec with 24 in Hdi, HEi, Hvi.
  pose proof (digits2_pos_bounds Mi) as [HMl _]. rewrite Hdi in HMl.
  change (2 ^ (24 - 1)) with 8388608 in HMl.
  pose proof (canonical_digits F32.prec F32.emax M E Hc) as HdM.
  change F32.prec with 24 in HdM.
  pose proof (digits2_pos_bounds M) as [_ HMu].
  assert (HM : Z.pos M < 16777216).
  { assert (2 ^ Z.pos (digits2_pos M) <= 2 ^ 24) by (apply Z.pow_le_mono_r; lia).
    change (2 ^ 24) with 16777216 in *. lia. }
  (* the two values at a common exponent *)
  assert (Hval : Z.pos M * 2 ^ (E + 173) = Z.pos Mi * Z.pos md * 2 ^ (Ei + ed + 173)).
  { replace (E + 173) with ((E + 149) + 24) by lia.
    replace (Ei + ed + 173) with ((Ei + 24) + (ed + 149)) by lia.
    rewrite (Z.pow_add_r 2 (E + 149) 24), (Z.pow_add_r 2 (Ei + 24) (ed + 149)) by lia.
    rewrite Z.mul_assoc, Hu.
    transitivity (i * 2 ^ 24 * (Z.pos md * 2 ^ (ed + 149))); [ring|].
    rewrite <- Hvi. ring. }
  assert (Hk : 0 <= E - (Ei + ed)).
  { destruct (Z.le_gt_cases (Ei + ed) E) as [H|H]; [lia|exfalso].
    replace (Ei + ed + 173) with ((Ei + ed - E) + (E + 173)) in Hval by lia.
    rewrite (Z.pow_add_r 2 (Ei + ed - E) (E + 173)), Z.mul_assoc in Hval by lia.
    apply Z.mul_reg_r in Hval; [|pose proof (pow2_pos (E + 173) ltac:(lia)); lia].
    assert (2 <= 2 ^ (Ei + ed - E)).
    { change 2 with (2 ^ 1) at 1. apply Z.pow_le_mono_r; lia. }
    nia. }
  assert (Hp : Z.pos (Mi * md) = Z.pos M * 2 ^ (E - (Ei + ed))).
  { replace (E + 173) with ((E - (Ei + ed)) + (Ei + ed + 173)) in Hval by lia.
    rewrite (Z.pow_add_r 2 (E - (Ei + ed)) (Ei + ed + 173)), Z.mul_assoc in Hval by lia.
    apply Z.mul_reg_r in Hval; [|pose proof (pow2_pos (Ei + ed + 173) ltac:(lia)); lia].
    rewrite Pos2Z.inj_mul. lia. }
  unfold F32.mul, SFmul. cbn [xorb].
  pose proof (binary_round_aux_exact F32.prec F32.emax false M (Mi * md) (Ei + ed)
                (E - (Ei + ed)) Hk Hp) as Hr.
  replace (Ei + ed + (E - (Ei + ed))) with E in Hr by lia.
  apply Hr; assumption.
Qed.

Lemma SFleb_antisym_canonical m e m' e' :
  F32.valid (S754_finite false m e) = true ->
  F32.valid (S754_finite false m' e') = true ->
  SFleb (S754_finite false m e) (S754_finite false m' e') = true ->
  SFleb (S754_finite false m' e') (S754_finite false m e) = true ->
  S754_finite false m e = S754_finite false m' e'.
Proof.
  intros Hv Hv' H1 H2.
  destruct (F32_valid_parts _ _ _ Hv) as (Hc & Hb & He).
  destruct (F32_valid_parts _ _ _ Hv') as (Hc' & Hb' & He').
  pose proof (SFleb_canonical F32.prec F32.emax F32_prec m e m' e' Hc Hc' H1) as L1.
  pose proof (SFleb_canonical F32.prec F32.emax F32_prec m' e' m e Hc' Hc H2) as L2.
  rewrite (Z.min_comm e' e) in L2.
  destruct (canonical_unique F32.prec F32.emax m e m' e' (Z.min e e')
              Hc Hb Hc' Hb' ltac:(lia) ltac:(lia) ltac:(lia)) as [-> ->].
  reflexivity.
Qed.

(** The quotient of the exact product [i * delta] by [delta] is [i]. *)
Lemma F32_div_exact_int i M E md ed :
  0 < i <= 2 ^ 24 ->
  F32.valid (S754_finite false M E) = true ->
  F32.valid (S754_finite false md ed) = true ->
  F32_units (S754_finite false M E) = i * F32_units (S754_finite false md ed) ->
  F32.div (S754_finite false M E) (S754_finite false md ed) = F32.of_int i.
Proof.
  intros Hi Hv Hd Hu.
  destruct (F32_valid_parts _ _ _ Hd) as (Hcd & Hbd & Hed).
  destruct (F32_valid_parts _ _ _ Hv) as (Hc & Hb & He).
  destruct (F32_of_int_positive i Hi) as (Mi & Ei & HMi & Hvi & HEi & Hval_i).
  destruct (F32_valid_parts _ _ _ Hvi) as (Hci & Hbi & Hei).
  unfold F32_units in Hu.
  assert (Hval : Z.pos M * 2 ^ (E + 173) = Z.pos Mi * Z.pos md * 2 ^ (Ei + ed + 173)).
  { replace (E + 173) with ((E + 149) + 24) by lia.
    replace (Ei + ed + 173) with ((Ei + 24) + (ed + 149)) by lia.
    rewrite (Z.pow_add_r 2 (E + 149) 24), (Z.pow_add_r 2 (Ei + 24) (ed + 149)) by lia.
    rewrite Z.mul_assoc, Hu.
    transitivity (i * 2 ^ 24 * (Z.pos md * 2 ^ (ed + 149))); [ring|].
    rewrite <- Hval_i. ring. }
  rewrite HMi.
  pose proof (F32_div_valid M E md ed) as Hvq.
  assert (Hge : SFleb (S754_finite false Mi Ei)
                  (F32.div (S754_finite false M E) (S754_finite false md ed)) = true).
  { apply (SFdiv_ge_canonical F32.prec F32.emax F32_prec Mi Ei M E md ed 173);
      try assumption; try lia. }
  assert (Hle : SFleb (F32.div (S754_finite false M E) (S754_finite false md ed))
                  (S754_finite false Mi Ei) = true).
  { apply (SFdiv_le_canonical F32.prec F32.emax F32_prec Mi Ei M E md ed 173);
      try assumption; try lia. }
  destruct (F32.div (S754_finite false M E) (S754_finite false md ed))
    as [[|]|[|]| |[|] mq eq]; try discriminate.
  symmetry. apply SFleb_antisym_canonical; assumption.
Qed.

Section SignedQuotient.
Variables prec emax : Z.
Hypothesis Hprec : 1 < prec.

(** A quotient of finite numbers, as a rounding, with its sign. *)
Lemma SFdiv_finalized sx ma ea sy ms es :
  exists m e,
    SFdiv prec emax (S754_finite sx ma ea) (S754_finite sy ms es) =
      finalized prec emax (xorb sx sy) m e /\
    rounded_state prec emax m e.
Proof.
  destruct (SFdiv_core_binary_spec prec emax Hprec (Z.pos ma) ea (Z.pos ms) es)
    as [Hcore Hfexp]; try lia.
  set (e' := Z.min (fexp prec emax (Zdigits2 (Z.pos ma) + ea - (Zdigits2 (Z.pos ms) + es)))
                   (ea - es)) in *.
  set (A := Z.pos ma * 2 ^ (ea - es - e')) in *.
  assert (HA : 0 <= A).
  { unfold A. apply Z.mul_nonneg_nonneg; [lia|apply Z.pow_nonneg; lia]. }
  unfold SFdiv. rewrite Hcore.
  destruct (round_aux_state prec emax Hprec (xorb sx sy) (A / Z.pos ms) e'
              (new_location (Z.pos ms) (A mod Z.pos ms)) A (Z.pos ms))
    as [Hr Hpre].
  - apply Z.div_pos; lia.
  - lia.
  - apply new_location_code. lia.
  - exact Hfexp.
  - eexists _, _. split; [exact Hr|].
    apply pre_state_rounded; [exact Hprec| |exact Hpre].
    apply Z.mul_pos_pos; [lia|apply Z.pow_pos_nonneg; lia].
Qed.
End SignedQuotient.

(** A bin width that is finite and not zero is a number of the format,
    and for such a width [m_min] is finite. *)
Lemma bin_width_finite m_min m_max nbins s md ed :
  bin_width m_min m_max nbins = S754_finite s md ed ->
  F32.valid (S754_finite s md ed) = true /\ SFis_finite m_min = true.
Proof.
  unfold bin_width. intros H. split.
  - rewrite <- H. clear H.
    destruct (F32.sub m_max m_min) as [sx|sx| |sx mx ex];
      destruct (F32.sub (F32.of_int nbins) F32.one) as [sy|sy| |sy my ey];
      try reflexivity.
    unfold F32.div.
    destruct (SFdiv_finalized F32.prec F32.emax F32_prec sx mx ex sy my ey)
      as (m & e & -> & Hr).
    apply finalized_valid; [exact F32_prec|exact Hr].
  - destruct m_min as [[|]|[|]| |s1 m1 e1]; try reflexivity; exfalso;
      destruct m_max as [[|]|[|]| |s2 m2 e2];
      destruct (F32.sub (F32.of_int nbins) F32.one) as [sy|sy| |sy my ey];
      discriminate H.
Qed.

(** An integer of fewer than 25 digits times a power of two of the range
    is a number of the format. *)
Lemma binary32_number_small p j :
  - 2 ^ 24 < p < 2 ^ 24 -> 0 <= j <= 253 -> binary32_number (p * 2 ^ j).
Proof.
  intros Hp Hj. change (2 ^ 24) with 16777216 in Hp.
  assert (Hpos : forall q : positive, Z.pos q < 16777216 ->
            exists M E, F32.valid (S754_finite false M E) = true /\
                        Z.pos M * 2 ^ (E + 149) = Z.pos q * 2 ^ j).
  { intros q Hq.
    pose proof (digits2_pos_bounds q) as [Hl Hu].
    set (d := Z.pos (digits2_pos q)) in *.
    assert (Hd : 1 <= d <= 24).
    { split; [unfold d; lia|].
      destruct (Z.le_gt_cases d 24) as [H|H]; [exact H|exfalso].
      assert (2 ^ 24 <= 2 ^ (d - 1)) by (apply Z.pow_le_mono_r; lia).
      change (2 ^ 24) with 16777216 in *. lia. }
    set (s := Z.min (24 - d) j).
    assert (Hs : 0 <= s) by (unfold s; lia).
    pose proof (pow2_pos s Hs) as Hps.
    destruct (Z.pos q * 2 ^ s) as [|M|M] eqn:HM; try lia.
    exists M, (j - 149 - s).
    assert (HdM : Z.pos (digits2_pos M) = d + s).
    { apply digits2_pos_shift; [exact Hs|]. rewrite HM. reflexivity. }
    split.
    - unfold F32.valid, valid_binary, bounded. apply andb_true_iff. split.
      + apply canonical_iff. unfold canonical, fexp, emin. rewrite HdM.
        change F32.prec with 24. change F32.emax with 128. unfold s. lia.
      + apply Z.leb_le. change F32.prec with 24. change F32.emax with 128.
        unfold s. lia.
    - rewrite <- HM, <- Z.mul_assoc, <- Z.pow_add_r by (unfold s; lia).
      do 2 f_equal. lia. }
  destruct p as [|q|q].
  - exists (S754_zero false). split; [reflexivity|]. split; reflexivity.
  - destruct (Hpos q ltac:(lia)) as (M & E & Hv & Hval).
    exists (S754_finite false M E). split; [exact Hv|]. split; [reflexivity|exact Hval].
  - destruct (Hpos q ltac:(lia)) as (M & E & Hv & Hval).
    exists (S754_finite true M E). split; [exact Hv|]. split; [reflexivity|].
    unfold F32_units. change (Z.neg M) with (- Z.pos M).
    change (Z.neg q) with (- Z.pos q). lia.
Qed.

(** The edges are exact on a grid: when the width is [w] steps and [m_min]
    is [a] steps of one power of two, and [i * w] and [i * w + a] have
    fewer than 25 digits. *)
Lemma exact_edge_grid i m_min m_max nbins w a j :
  0 <= j <= 253 ->
  F32_units (bin_width m_min m_max nbins) = w * 2 ^ j ->
  F32_units m_min = a * 2 ^ j ->
  - 2 ^ 24 < i * w < 2 ^ 24 -> - 2 ^ 24 < i * w + a < 2 ^ 24 ->
  exact_edge i m_min m_max nbins.
Proof.
  intros Hj Hw Ha H1 H2. unfold exact_edge. rewrite Hw, Ha. split.
  - rewrite Z.mul_assoc. apply binary32_number_small; assumption.
  - replace (i * (w * 2 ^ j) + a * 2 ^ j) with ((i * w + a) * 2 ^ j) by ring.
    apply binary32_number_small; assumption.
Qed.

(** The four ranges (-4, 3, 8), (0, 3.5, 8), (0, 1, 9) and (0, 14, 8) have
    widths 1, 0.5, 0.125 and 2: every edge is exact. *)
Lemma exact_edge_examples :
  (forall i, 0 <= i < 8 -> exact_edge i (F32.of_int (-4)) (F32.of_int 3) 8) /\
  (forall i, 0 <= i < 8 -> exact_edge i (F32.of_int 0) (ratio32 7 2) 8) /\
  (forall i, 0 <= i < 9 -> exact_edge i (F32.of_int 0) (F32.of_int 1) 9) /\
  (forall i, 0 <= i < 8 -> exact_edge i (F32.of_int 0) (F32.of_int 14) 8).
Proof.
  split; [|split; [|split]]; intros i Hi.
  - apply (exact_edge_grid i _ _ _ 1 (-4) 149); try reflexivity; lia.
  - apply (exact_edge_grid i _ _ _ 1 0 148); try reflexivity; lia.
  - apply (exact_edge_grid i _ _ _ 1 0 146); try reflexivity; lia.
  - apply (exact_edge_grid i _ _ _ 1 0 150); try reflexivity; lia.
Qed.

(** Claim C9, as the code has it.  Let [delta] be the bin width
    [(m_max - m_min) / (nbins - 1)] as both functions compute it, a
    positive finite binary32 number.  For every bin index [i] from 0 to
    [2^24] whose edge [hist2data] computes without rounding, that is when
    [i * delta] and [i * delta + m_min] are binary32 numbers,
    [hist2data] returns exactly [m_min + i * delta] and the round trip
    through [data2hist] returns [i]. *)
Theorem round_trip_exact_edge i m_min m_max nbins md ed :
  0 <= i <= 2 ^ 24 ->
  F32.valid m_min = true ->
  bin_width m_min m_max nbins = S754_finite false md ed ->
  exact_edge i m_min m_max nbins ->
  F32_units (hist2data i m_min m_max nbins) =
    i * F32_units (bin_width m_min m_max nbins) + F32_units m_min /\
  data2hist (hist2data i m_min m_max nbins) m_min m_max nbins = Some i.
Proof.
  intros Hi Hmin Hw [HP HV].
  destruct (bin_width_finite _ _ _ _ _ _ Hw) as [Hd Hfmin].
  unfold data2hist, hist2data. fold (bin_width m_min m_max nbins).
  rewrite Hw in *.
  destruct (Z.eq_dec i 0) as [->|Hi0].
  { (* bin 0 *)
    change (F32.mul (F32.of_int 0) (S754_finite false md ed)) with (S754_zero false).
    destruct m_min as [[|]|[|]| |sm mm em]; try discriminate;
      try (split; reflexivity).
    change (F32.add (S754_zero false) (S754_finite sm mm em))
      with (S754_finite sm mm em).
    split; [reflexivity|].
    unfold F32.sub, SFsub. rewrite Z.sub_diag. reflexivity. }
  destruct HP as (P & HvP & HfP & HuP).
  destruct HV as (V & HvV & HfV & HuV).
  assert (Hdpos : 0 < F32_units (S754_finite false md ed)).
  { unfold F32_units. apply Z.mul_pos_pos; [lia|].
    apply pow2_pos. pose proof (F32_valid_emin _ _ _ Hd). lia. }
  assert (HPpos : 0 < F32_units P) by (rewrite HuP; apply Z.mul_pos_pos; lia).
  rewrite (F32_mul_of_int_exact i md ed P) by (assumption || lia).
  destruct P as [sp|sp| |sp M E]; try discriminate; try (simpl in HPpos; lia).
  assert (sp = false) as ->.
  { destruct sp; [|reflexivity]. exfalso. unfold F32_units in HPpos.
    pose proof (pow2_pos (E + 149) ltac:(pose proof (F32_valid_emin _ _ _ HvP); lia)).
    change (Z.neg M) with (- Z.pos M) in HPpos. nia. }
  assert (Hquot : F32.floor_int
                    (F32.div (S754_finite false M E) (S754_finite false md ed)) = Some i).
  { rewrite (F32_div_exact_int i M E md ed) by (assumption || lia).
    apply F32_floor_of_int. lia. }
  destruct m_min as [[|]|[|]| |sm mm em]; try discriminate;
    try (split; [|exact Hquot];
         change (F32_units (S754_finite false M E) =
                 i * F32_units (S754_finite false md ed) + 0); lia).
  rewrite (F32_add_exact false M E sm mm em V) by (assumption || lia).
  destruct (Z.eqb_spec (F32_units V) 0) as [HV0|HV0].
  - (* the edge is 0: [m_min] is the opposite of the product *)
    split; [rewrite <- HuV, HV0; reflexivity|].
    change (F32.sub (S754_zero false) (S754_finite sm mm em))
      with (S754_finite (negb sm) mm em).
    assert (Heq : S754_finite (negb sm) mm em = S754_finite false M E).
    { apply F32_units_inj; try reflexivity; try assumption.
      - unfold F32_units in *. destruct sm; cbn [negb];
          change (Z.neg mm) with (- Z.pos mm) in *; lia.
      - unfold F32_units in *. destruct sm; cbn [negb];
          change (Z.neg mm) with (- Z.pos mm) in *; lia. }
    rewrite Heq. exact Hquot.
  - split; [exact HuV|].
    destruct V as [sv|sv| |sv Mv Ev]; try discriminate; try (simpl in HV0; lia).
    rewrite (F32_sub_exact sv Mv Ev sm mm em (S754_finite false M E))
      by (assumption || lia).
    destruct (Z.eqb_spec (F32_units (S754_finite false M E)) 0); [lia|].
    exact Hquot.
Qed.

Lemma round_trip_exact_edge_witness :
  F32_units (hist2data 5 (F32.of_int (-4)) (ratio32 (-1) 2) 8) =
    5 * F32_units (bin_width (F32.of_int (-4)) (ratio32 (-1) 2) 8) +
    F32_units (F32.of_int (-4)) /\
  data2hist (hist2data 5 (F32.of_int (-4)) (ratio32 (-1) 2) 8)
            (F32.of_int (-4)) (ratio32 (-1) 2) 8 = Some 5.
Proof.
  apply (round_trip_exact_edge 5 (F32.of_int (-4)) (ratio32 (-1) 2) 8
           8388608 (-24)); [lia|reflexivity|reflexivity|].
  apply (exact_edge_grid 5 _ _ _ 1 (-8) 148); try reflexivity; lia.
Defined.

(** Where the edge is rounded the round trip returns [i] for some bins and
    another bin for others.  On (0, 1, 11) the width 0.1f and most edges
    are rounded, and every bin returns; on (0, 1, 8) bin 7 returns 6; on
    (1e8, 1e8 + 8, 8), where the edges are rounded to multiples of 8, bin 3
    returns 0 and bin 4 returns 6. *)
Lemma round_trip_rounded_edges :
  F32_units (F32.mul (F32.of_int 3) (bin_width (F32.of_int 0) (F32.of_int 1) 11))
    <> 3 * F32_units (bin_width (F32.of_int 0) (F32.of_int 1) 11) /\
  map (fun i => data2hist (hist2data i (F32.of_int 0) (F32.of_int 1) 11)
                          (F32.of_int 0) (F32.of_int 1) 11) (seqZ 0 11)
    = map Some (seqZ 0 11) /\
  data2hist (hist2data 3 (F32.of_int 100000000) (F32.of_int 100000008) 8)
            (F32.of_int 100000000) (F32.of_int 100000008) 8 = Some 0 /\
  data2hist (hist2data 4 (F32.of_int 100000000) (F32.of_int 100000008) 8)
            (F32.of_int 100000000) (F32.of_int 100000008) 8 = Some 6.
Proof.
  split; [vm_compute; discriminate|]. vm_compute. auto.
Qed.
